(* ===== verification/_CoqProject ===== *)
-Q . S2P
Prelude.v
Libc.v
Fdt.v
FdtTheory.v
FdtRo.v
ListHead.v
Chain.v
Pmm.v
PmmTheory.v
PmmOps.v
PmmInit.v
PmmProps.v
Sync.v
Printk.v
PrintkTheory.v
Machine.v
Mmu.v
MmuTheory.v
MmuProps.v
UserPages.v
Slab.v
SlabTheory.v
SlabOps.v
SlabFree.v
SlabProps.v
SlabSample.v
Memory.v
MemoryProps.v
PageSample.v
Rbtree.v
RbTheory.v
RbInsert.v
RbDelete.v
RbProps.v
Vmap.v
VmapTheory.v
VmapProps.v
VmapInit.v
VmapAlloc.v
VmapFree.v
Vmalloc.v
VmallocProps.v
IoProps.v
Mm.v
MmTheory.v
MmProps.v
MmFork.v
MmArea.v
FaultProps.v
BrkProps.v
Board.v
Uart.v
Gic.v
Irq.v
Timer.v
TimerTheory.v
TimerProps.v
Exception.v
Main.v
Boot.v
IrqProps.v
MainProps.v
BootProps.v
Shell.v
ShellTheory.v
ShellLs.v
ShellSafe.v
ShellProps.v
