(* ===== verification/Prelude.v ===== *)
(** * A verification development for the myos arm64 kernel

    The kernel's C code ([kernel/], [driver/], [exception/], [arch/arm64/boot/bootc.c],
    [arch/arm64/mm/], [include/]) as executable definitions, with the theorems that make its
    components correct.

    ** How code becomes definitions

    Every C function is a definition with the name of the function, written in the order of its
    statements in the monad [M S] below: a computation on a state [S] that ends with [Done], runs into
    undefined behaviour ([Undef]: a bad pointer, an index outside an array, signed overflow, a shift
    that is too large) or needs more fuel than it has ([NoFuel]).  Machine words are integers with the
    wrap-around of every operation written out ([add64], [u32], ...).  Loops carry fuel that is given
    by the code (the size of a table, the bits of a word, the number of objects in a store) and the
    theorems prove that it suffices, because [wp m Q s] says that [m] returns.  A wait that nothing can
    end ([diverge]) is [NoFuel].

    Structures of the kernel are records; pools and heap objects live in typed stores indexed by
    their address or slot, so that aliasing and use after free are visible; RAM is a map of 64-bit words
    behind the linear map.  A component's computation runs on the state of a larger one through
    [zoom].  Hardware and the parts of the kernel that are not C are parameters: the class
    [Mmio] for device registers, the class [Scheduler] for the Rust scheduler, and
    arguments for callbacks and linker symbols.

    ** The parts

    - [Libc]: [kernel/libc.c] over a byte memory.  [memmove] copies correctly for every overlap,
      [strcmp] orders strings, [strstr] finds the first occurrence.
    - [Fdt], [FdtTheory], [FdtRo]: the device-tree reader of [driver/fdt/fdt.c] and [fdt_ro.c], with
      [fdt_addresses.c] and [fdt_strerror.c].  On any contents of memory [fdt_next_tag] reads inside the
      structure block only and [fdt_next_node] ends; [FdtRo] has the queries over whole trees.
    - [ListHead]: the intrusive lists of [include/ds/list.h]; [Chain]: singly linked lists of heap
      objects, with the class [Linked] for what an object promises to the list.  Timers and virtual
      memory areas are instances.
    - [Pmm], with [PmmTheory], [PmmOps], [PmmInit], [PmmProps]: the buddy page allocator
      [kernel/pmm.c].  The invariant [binv] says that the frames are partitioned into aligned
      blocks, free or live, and that the free lists hold exactly the free ones.
      [buddy_init] establishes it, every operation keeps it in every reachable state, and the
      operations are specified on every branch, errors included.
    - [Sync]: the locks of [include/sync/] and [kernel/sync/], once as computations of one CPU and
      once as step relations over any number of threads, for mutual exclusion, FIFO order and progress.
    - [Printk], [PrintkTheory]: [kernel/printk.c]; numbers read back, and formats print what a
      grammar of directives says.
    - [Machine]: RAM, the linear map and the translation registers.
    - [Mmu], [MmuTheory], [MmuProps]: page tables ([kernel/mmu.c], [kernel/pgtbl.c]).  A tree of
      tables in RAM represents a map from virtual pages to entries, and [map_page] and
      [unmap_page] refine insertion and deletion in that map; a failed insertion means that no page is left,
      and a deletion gives the tables back that it empties.  [UserPages]: what the page allocator and the
      tree do to a page of a process, with [PageSample] as an example state.
    - [Slab], with [SlabTheory], [SlabOps], [SlabFree], [SlabProps], [SlabSample]: the heap [kernel/slab.c]
      against a map from the addresses of the live objects to their sizes; NULL exactly when the heap is
      [exhausted]; heaps that still have room.
    - [Memory], [MemoryProps]: heap and page tables on one page allocator.  No table lies in a block of
      live objects, and every call of either keeps that; so clients of both see an abstract memory of
      objects that keep their contents and of mapped pages, for programs of any length.
    - [Rbtree], with [RbTheory], [RbInsert], [RbDelete], [RbProps]: the red-black trees of
      [kernel/ds/rbtree.c] with parent pointers and a sentinel.  [zip] says that the store holds a
      subtree and the path from it to the root; rotations and colour changes are lemmas about it.
      Insertion and deletion keep the in-order sequence and the red-black rules, for every client that
      is an instance of [RbStore].
    - [Vmap], with [VmapTheory], [VmapProps], [VmapInit], [VmapAlloc], [VmapFree]: the address areas of
      [kernel/vmap.c].  [vmap_ok] says that the free areas are in the size-ordered tree (an instance of
      [RbStore]) and in the address-ordered list at once, that every descriptor is a live heap object and
      that no two areas overlap.  Initialisation establishes it, allocation (of sizes that can be rounded up,
      at alignments up to a page, which is what its callers pass) is best fit and keeps it, and
      so does every free that does not merge; a merge is undefined behaviour.  [Vmalloc],
      [VmallocProps], [IoProps]: [kernel/vmalloc.c]; [ioremap] composes the areas, the page tables and the heap,
      and [iounmap] takes the mapping down again when there was memory to record it.
    - [Mm], with [MmTheory], [MmProps], [MmFork], [MmArea]: address spaces ([kernel/mm.c], [brk.c],
      [page_fault.c], [sys_mm.c]).  The list of a process's areas stays a chain of heap objects, sorted
      and without overlap, under creation and removal; the copy for a fork has the same areas in new
      objects; destruction gives everything back to the heap.  The search for a free area ends
      after two passes on the conditions stated in [MmArea], and does not end for the third [mmap].
      [FaultProps]: copy on write, pages on demand and refused accesses in [page_fault_handler], with the
      tree of page tables and the references to frames; [BrkProps]: [do_brk] grows and shrinks the heap.
    - [Board], [Uart], [Gic]: the state shared by the drivers and the drivers of [driver/].
    - [Irq], [Timer], [TimerTheory], [TimerProps], [Exception], [IrqProps]: interrupts, software timers
      and exception entry ([exception/handler.c], [driver/timer.c]).  Callbacks are parameters, relied on only
      when they are called with the list of timers unlocked.  [IrqProps] composes the
      interrupt controller, through the class [GicCpu], with the handler table and the timers.
    - [Main], [MainProps]: [kernel/main.c], with its self-tests.  The start of [main] composes the page
      allocator, the heap and the address areas and leaves them ready for their users; the interrupt
      handlers that are linked (they replace weak ones of [timer.c] and [handler.c]) serve a timer interrupt
      and the queue of the serial port, which is the class [Pl011].
    - [Boot], [BootProps]: the boot page tables of [arch/arm64/boot/bootc.c]; the walk of the MMU through
      them translates exactly RAM.

    - [Shell], with [ShellTheory], [ShellLs], [ShellSafe], [ShellProps]: the program of user space,
      [user_bin/shell.c], as an interaction tree of system calls.  [safe] is a coinductive program logic for it:
      for ever, and for every kernel that keeps the contract [kernel_ok], the shell stays inside its arrays, as long as
      no line is a bare command name or its array, which it never initialises, holds a string anyway; a run
      without either is undefined.  What
      [echo], [ls] and [cd] do is stated as equivalence of trees; the listing [ls] reads is the one the
      Rust system call writes, which is modelled for this.

    ** Not modelled

    Assembly ([boot.S], [vector.S]), the vendored CMSIS headers, templates and tests
    ([arch/arm64/Core], [arch/arm64/device]), the editing functions of libfdt, which the kernel does not
    call, the Rust part (but for the system calls that fill the shell's buffers) and the
    assembly programs.  Memory barriers and
    instruction timing have no effect on the states modelled here; TLB invalidations are counted. *)
From Stdlib Require Export ZArith Lia.
From stdpp Require Export base tactics gmap numbers.
From stdpp Require Export list.
From Stdlib Require Strings.Ascii Strings.String.
Export String.StringSyntax.
Open Scope Z_scope.

Declare Scope kernel_scope.
Delimit Scope kernel_scope with K.

(** [lia] also decides goals with [/] and [mod] by constants. *)
Ltac Zify.zify_post_hook ::= Z.to_euclidean_division_equations.

(** ** Machine words *)

Definition u8 (z : Z) : Z := z mod 2 ^ 8.
Definition u16 (z : Z) : Z := z mod 2 ^ 16.
Definition u32 (z : Z) : Z := z mod 2 ^ 32.
Definition u64 (z : Z) : Z := z mod 2 ^ 64.

(** A value read as a two's complement [int] / [int64_t]. *)
Definition s32 (z : Z) : Z := let w := u32 z in if w <? 2 ^ 31 then w else w - 2 ^ 32.
Definition s64 (z : Z) : Z := let w := u64 z in if w <? 2 ^ 63 then w else w - 2 ^ 64.

Definition add64 (a b : Z) : Z := u64 (a + b).
Definition sub64 (a b : Z) : Z := u64 (a - b).
Definition mul64 (a b : Z) : Z := u64 (a * b).
Definition shl64 (a n : Z) : Z := u64 (Z.shiftl a n).
Definition shr64 (a n : Z) : Z := Z.shiftr a n.
(** [~x] on 64 bits. *)
Definition not64 (a : Z) : Z := 2 ^ 64 - 1 - a.
Definition not32 (a : Z) : Z := 2 ^ 32 - 1 - a.

Definition is_u64 (z : Z) : Prop := 0 <= z < 2 ^ 64.
Definition is_u32 (z : Z) : Prop := 0 <= z < 2 ^ 32.

Lemma u64_small z : 0 <= z < 2 ^ 64 -> u64 z = z.
Proof. apply Z.mod_small. Qed.
Lemma u32_small z : 0 <= z < 2 ^ 32 -> u32 z = z.
Proof. apply Z.mod_small. Qed.
Lemma u16_small z : 0 <= z < 2 ^ 16 -> u16 z = z.
Proof. apply Z.mod_small. Qed.
Lemma u8_small z : 0 <= z < 2 ^ 8 -> u8 z = z.
Proof. apply Z.mod_small. Qed.
Lemma u64_range z : 0 <= u64 z < 2 ^ 64.
Proof. by apply Z.mod_pos_bound. Qed.
Lemma u32_range z : 0 <= u32 z < 2 ^ 32.
Proof. by apply Z.mod_pos_bound. Qed.
Lemma u8_range z : 0 <= u8 z < 2 ^ 8.
Proof. by apply Z.mod_pos_bound. Qed.
Lemma u64_u64 z : u64 (u64 z) = u64 z.
Proof. apply u64_small, u64_range. Qed.
Lemma add64_small a b : 0 <= a + b < 2 ^ 64 -> add64 a b = a + b.
Proof. apply u64_small. Qed.
Lemma sub64_small a b : 0 <= a - b < 2 ^ 64 -> sub64 a b = a - b.
Proof. apply u64_small. Qed.
Lemma mul64_small a b : 0 <= a * b < 2 ^ 64 -> mul64 a b = a * b.
Proof. apply u64_small. Qed.
Lemma sub64_add64 a b : is_u64 a -> sub64 (add64 a b) b = a.
Proof. unfold sub64, add64, u64, is_u64. lia. Qed.

Lemma shl64_1 n : 0 <= n < 64 -> shl64 1 n = 2 ^ n.
Proof.
  intros Hn. unfold shl64. rewrite Z.shiftl_1_l. apply u64_small. split.
  - by apply Z.pow_nonneg.
  - apply Z.pow_lt_mono_r; lia.
Qed.

Lemma shr64_div a n : 0 <= n -> shr64 a n = a / 2 ^ n.
Proof. intros. unfold shr64. by rewrite Z.shiftr_div_pow2. Qed.

(** The low-bits mask [x & (2^n - 1)] is the remainder. *)
Lemma land_mask a n : 0 <= n -> Z.land a (2 ^ n - 1) = a mod 2 ^ n.
Proof.
  intros Hn. rewrite <- Z.land_ones by done. by rewrite Z.ones_equiv, <- Z.sub_1_r.
Qed.

Lemma pow2_pos n : 0 <= n -> 0 < 2 ^ n.
Proof. intros. by apply Z.pow_pos_nonneg. Qed.
Lemma pow2_succ n : 0 < n -> 2 ^ n = 2 * 2 ^ (n - 1).
Proof. intros. rewrite <- Z.pow_succ_r by lia. f_equal. lia. Qed.
Lemma pow2_mono a b : 0 <= a -> a <= b -> 2 ^ a <= 2 ^ b.
Proof. intros. apply Z.pow_le_mono_r; lia. Qed.

(** [x & ~(2^n - 1)]: clearing the low bits rounds down. *)
Lemma land_not_mask a n : 0 <= n <= 64 -> is_u64 a ->
  Z.land a (not64 (2 ^ n - 1)) = a - a mod 2 ^ n.
Proof.
  intros Hn Ha.
  assert (Hsplit : a = Z.lor (Z.land a (2 ^ n - 1)) (Z.land a (not64 (2 ^ n - 1)))).
  { apply Z.bits_inj'. intros i Hi.
    rewrite Z.lor_spec, !Z.land_spec.
    replace (2 ^ n - 1) with (Z.ones n) by (rewrite Z.ones_equiv; lia).
    replace (not64 (Z.ones n)) with (Z.land (Z.lnot (Z.ones n)) (Z.ones 64)).
    2:{ unfold not64. rewrite Z.land_ones by lia.
        pose proof (pow2_pos n ltac:(lia)). pose proof (pow2_mono n 64 ltac:(lia) ltac:(lia)).
        unfold Z.lnot. rewrite Z.ones_equiv.
        symmetry. apply Z.mod_unique with (-1); lia. }
    rewrite Z.land_spec, Z.lnot_spec by lia.
    destruct (decide (i < 64)).
    - rewrite (Z.ones_spec_low 64) by lia. by destruct (Z.testbit a i), (Z.testbit (Z.ones n) i).
    - assert (Z.testbit a i = false) as ->; [|done].
      destruct (decide (a = 0)) as [->|]; [apply Z.testbit_0_l|].
      apply Z.bits_above_log2; [unfold is_u64 in *; lia|].
      apply Z.log2_lt_pow2; [unfold is_u64 in *; lia|].
      unfold is_u64 in *. pose proof (pow2_mono 64 i). lia. }
  assert (Hdisj : Z.land (Z.land a (2 ^ n - 1)) (Z.land a (not64 (2 ^ n - 1))) = 0).
  { apply Z.bits_inj'. intros i Hi. rewrite !Z.land_spec, Z.testbit_0_l.
    replace (2 ^ n - 1) with (Z.ones n) by (rewrite Z.ones_equiv; lia).
    destruct (decide (i < n)).
    - assert (Z.testbit (not64 (Z.ones n)) i = false) as ->.
      { unfold not64. replace (2 ^ 64 - 1 - Z.ones n) with (2 ^ n * (2 ^ (64 - n) - 1)).
        - rewrite Z.mul_comm. apply Z.mul_pow2_bits_low; lia.
        - rewrite Z.ones_equiv, Z.mul_sub_distr_l, <- Z.pow_add_r by lia.
          replace (n + (64 - n)) with 64 by lia. lia. }
      by rewrite !andb_false_r.
    - rewrite Z.ones_spec_high by lia. by rewrite andb_false_r. }
  rewrite <- Z.lxor_lor, <- Z.add_nocarry_lxor in Hsplit by done.
  rewrite <- land_mask by lia. lia.
Qed.

(** The bytes of a string constant, without its terminator. *)
Definition bytes (s : String.string) : list Z :=
  map (fun c => Z.of_N (Ascii.N_of_ascii c)) (String.list_ascii_of_string s).

Delimit Scope string_scope with string.
Arguments bytes s%_string.

(** ** Counting *)

Lemma nodup_size {V} (m : gmap Z V) ps : NoDup ps -> (forall p, p ∈ ps -> is_Some (m !! p)) -> (length ps <= size m)%nat.
Proof.
  intros Hnd Hin. rewrite <- size_dom, <- (size_list_to_set (C := gset Z) _ Hnd). apply subseteq_size.
  intros p Hp. apply elem_of_list_to_set in Hp. by apply elem_of_dom, Hin.
Qed.

(** Different numbers below [n] have different keys of [m] assigned to them. *)
Lemma pigeons {V} (P : Z -> Z -> Prop) (m : gmap Z V) n : (forall j, 0 <= j < Z.of_nat n -> exists o, P j o) ->
  (forall j o, P j o -> is_Some (m !! o)) -> (forall i j o, P i o -> P j o -> i = j) -> (n <= size m)%nat.
Proof.
  intros Hex Hkey Hinj. assert (exists os, length os = n /\ NoDup os /\ forall o, o ∈ os -> exists j, j < Z.of_nat n /\ P j o) as (os & <- & Hnd & Hos).
  { clear Hkey. induction n as [|n IH]; [exists []; split_and!; [done|constructor|by intros o ?%not_elem_of_nil]|].
    destruct IH as (os & Hlen & Hnd & Hos); [intros j Hj; apply Hex; lia|]. destruct (Hex (Z.of_nat n)) as [o Ho]; [lia|].
    exists (o :: os). split; [by rewrite <- Hlen|]. split.
    - apply NoDup_cons. split; [|exact Hnd]. intros Hin. destruct (Hos o Hin) as (j & Hj & HP). pose proof (Hinj _ _ _ HP Ho). lia.
    - intros x [->|Hx]%elem_of_cons; [exists (Z.of_nat n); split; [lia|exact Ho]|]. destruct (Hos x Hx) as (j & Hj & HP). exists j. split; [lia|exact HP]. }
  apply nodup_size; [exact Hnd|]. intros o Ho. destruct (Hos o Ho) as (j & _ & HP). by eapply Hkey.
Qed.

(** ** Outcomes of a C computation

    [Undef] is undefined behaviour (a wild, NULL or freed pointer is used, an array is indexed
    out of its bounds); [NoFuel] says that a loop of the model ran out of its bound, so that a
    result [Done] also states termination. *)
Inductive outcome (A : Type) : Type :=
| Done (a : A)
| Undef
| NoFuel.
Arguments Done {A} _.
Arguments Undef {A}.
Arguments NoFuel {A}.

Definition M (S A : Type) : Type := S -> outcome (A * S).

#[export] Instance M_ret S : MRet (M S) := fun A a s => Done (a, s).
#[export] Instance M_bind S : MBind (M S) := fun A B k m s =>
  match m s with
  | Done (a, s') => k a s'
  | Undef => Undef
  | NoFuel => NoFuel
  end.

Section monad.
Context {S : Type}.
Definition gets {A} (f : S -> A) : M S A := fun s => Done (f s, s).
Definition modify (f : S -> S) : M S unit := fun s => Done (tt, f s).
Definition undef {A} : M S A := fun _ => Undef.
(** A wait that nobody ends. *)
Definition diverge {A} : M S A := fun _ => NoFuel.
(** Reading through a pointer that may be invalid. *)
Definition of_option {A} (o : option A) : M S A :=
  match o with Some a => mret a | None => undef end.
Definition guard_ub (b : bool) : M S unit := if b then mret tt else undef.

(** [while]: the body either goes on with a new loop state or leaves the loop. *)
Fixpoint loop {A B} (fuel : nat) (body : A -> M S (A + B)) (a : A) : M S B :=
  match fuel with
  | O => fun _ => NoFuel
  | Datatypes.S fuel' =>
      r ← body a;
      match r with inl a' => loop fuel' body a' | inr b => mret b end
  end.

(** [2 ^ k] rounds of a loop, for loops over addresses that may take more rounds than a unary
    number can count: [inl] is the loop state after them. *)
Fixpoint rounds {A B} (k : nat) (body : A -> M S (A + B)) (a : A) : M S (A + B) :=
  match k with
  | O => body a
  | Datatypes.S k' =>
      r ← rounds k' body a;
      match r with inl a' => rounds k' body a' | inr b => mret (inr b) end
  end.
Definition loop2 {A B} (k : nat) (body : A -> M S (A + B)) (a : A) : M S B :=
  r ← rounds k body a;
  match r with inl _ => diverge | inr b => mret b end.

(** [for (i = lo; i < lo + n; i++)] without an early exit. *)
Fixpoint for_n (n : nat) (lo : Z) (body : Z -> M S unit) : M S unit :=
  match n with
  | O => mret tt
  | Datatypes.S n' => _ ← body lo; for_n n' (lo + 1) body
  end.

(** [for (i = lo; i < lo + n; i++)] whose body may [return]. *)
Fixpoint find_n {A} (n : nat) (lo : Z) (body : Z -> M S (option A)) : M S (option A) :=
  match n with
  | O => mret None
  | Datatypes.S n' =>
      r ← body lo;
      match r with Some a => mret (Some a) | None => find_n n' (lo + 1) body end
  end.
End monad.

(** Running a computation on a component of a larger state. *)
Definition zoom {S T A} (get : T -> S) (put : S -> T -> T) (m : M S A) : M T A := fun t =>
  match m (get t) with
  | Done (a, s) => Done (a, put s t)
  | Undef => Undef
  | NoFuel => NoFuel
  end.

(** ** Total correctness

    [wp m Q s]: [m] run on [s] returns, without undefined behaviour and within its fuel, and the
    result and final state satisfy [Q]. *)
Definition wp {S A} (m : M S A) (Q : A -> S -> Prop) (s : S) : Prop :=
  match m s with Done (a, s') => Q a s' | _ => False end.

Section wp.
Context {S : Type}.
Implicit Types s : S.

Lemma wp_ret {A} (a : A) (Q : A -> S -> Prop) s : Q a s -> wp (mret a) Q s.
Proof. done. Qed.

Lemma wp_bind {A B} (m : M S A) (k : A -> M S B) Q s :
  wp m (fun a s' => wp (k a) Q s') s -> wp (m ≫= k) Q s.
Proof. unfold wp, mbind, M_bind. by destruct (m s) as [[a s']| |]. Qed.

Lemma wp_bind_inv {A B} (m : M S A) (k : A -> M S B) Q s :
  wp (m ≫= k) Q s -> wp m (fun a s' => wp (k a) Q s') s.
Proof. unfold wp, mbind, M_bind. by destruct (m s) as [[a s']| |]. Qed.

(** The outcome of a sequence, whatever it is, once its first part is known to be done. *)
Lemma run_bind {A B} (m : M S A) (k : A -> M S B) s o : wp m (fun a s' => k a s' = o) s -> (m ≫= k) s = o.
Proof. unfold wp, mbind, M_bind. by destruct (m s) as [[a s']| |]. Qed.

Lemma wp_mono {A} (m : M S A) (P Q : A -> S -> Prop) s :
  wp m P s -> (forall a s', P a s' -> Q a s') -> wp m Q s.
Proof. unfold wp. destruct (m s) as [[a s']| |]; naive_solver. Qed.

Lemma wp_gets {A} (f : S -> A) Q s : Q (f s) s -> wp (gets f) Q s.
Proof. done. Qed.

Lemma wp_modify (f : S -> S) Q s : Q tt (f s) -> wp (modify f) Q s.
Proof. done. Qed.

Lemma wp_of_option {A} (o : option A) (a : A) Q s :
  o = Some a -> Q a s -> wp (of_option o) Q s.
Proof. by intros ->. Qed.

Lemma wp_guard (b : bool) Q s : b = true -> Q tt s -> wp (guard_ub b) Q s.
Proof. by intros ->. Qed.

Lemma wp_run {A} (m : M S A) Q s :
  wp m Q s <-> exists a s', m s = Done (a, s') /\ Q a s'.
Proof.
  unfold wp. destruct (m s) as [[a s']| |]; split; try naive_solver.
Qed.

Lemma wp_done {A} (m : M S A) Q s : wp m Q s -> exists a s', m s = Done (a, s') /\ Q a s'.
Proof. intros H. by apply (proj1 (wp_run m Q s)). Qed.

(** A computation with a known result and final state. *)
Lemma wp_exact {A} (m : M S A) (a : A) s' s : wp m (fun b t => b = a /\ t = s') s -> m s = Done (a, s').
Proof. intros H. by destruct (wp_done _ _ _ H) as (b & t & -> & -> & ->). Qed.

Lemma wp_loop {A B} (I : A -> S -> Prop) (meas : A -> S -> nat)
    (body : A -> M S (A + B)) Q fuel a s :
  I a s -> (meas a s < fuel)%nat ->
  (forall a s, I a s ->
     wp (body a) (fun r s' => match r with
                              | inl a' => I a' s' /\ (meas a' s' < meas a s)%nat
                              | inr b => Q b s' end) s) ->
  wp (loop fuel body a) Q s.
Proof.
  intros HI Hf Hb. revert a s HI Hf. induction fuel as [|fuel IH]; intros a s HI Hf; [lia|].
  simpl. apply wp_bind. eapply wp_mono; [by apply Hb|].
  intros [a'|b] s'; simpl; [|done]. intros [HI' Hlt]. apply IH; [done|lia].
Qed.

(** A loop that consumes a list: [I rest a s] holds when [rest] is left; with nothing left it stops. *)
Lemma wp_loop_list {A B X} (I : list X -> A -> S -> Prop) (body : A -> M S (A + B)) Q fuel xs a s :
  I xs a s -> (length xs < fuel)%nat ->
  (forall x rest a s, I (x :: rest) a s ->
     wp (body a) (fun r s' => match r with inl a' => I rest a' s' | inr b => Q b s' end) s) ->
  (forall a s, I [] a s ->
     wp (body a) (fun r s' => match r with inl _ => False | inr b => Q b s' end) s) ->
  wp (loop fuel body a) Q s.
Proof.
  intros HI Hf Hcons Hnil. revert fuel a s HI Hf. induction xs as [|x xs IH]; intros fuel a s HI Hf;
    (destruct fuel as [|fuel]; [cbn in Hf; lia|]); cbn [loop]; apply wp_bind.
  - eapply wp_mono; [by apply Hnil|]. by intros [a'|b] s'.
  - eapply wp_mono; [by eapply Hcons|]. intros [a'|b] s'; [|done]. intros HI'. apply IH; [done|cbn in Hf; lia].
Qed.

Lemma wp_rounds {A B} (I : A -> S -> Prop) (meas : A -> S -> Z) (body : A -> M S (A + B)) Q k a s :
  I a s ->
  (forall a s, I a s ->
     wp (body a) (fun r s' => match r with
                              | inl a' => I a' s' /\ 0 <= meas a' s' < meas a s
                              | inr b => Q b s' end) s) ->
  wp (rounds k body a) (fun r s' => match r with
                                    | inl a' => I a' s' /\ 0 <= meas a' s' /\ meas a' s' + 2 ^ Z.of_nat k <= meas a s
                                    | inr b => Q b s' end) s.
Proof.
  intros HI Hb. revert a s HI. induction k as [|k IH]; intros a s HI; cbn [rounds].
  - eapply wp_mono; [by apply Hb|]. intros [a'|b] s'; [|done]. intros [HI' Hm]. split; [done|].
    change (2 ^ Z.of_nat 0) with 1. lia.
  - apply wp_bind. eapply wp_mono; [by apply IH|]. intros [a'|b] s'; [|done]. intros (HI' & H0 & Hm).
    eapply wp_mono; [by apply IH|]. intros [a''|b] s''; [|done]. intros (HI'' & H0' & Hm').
    rewrite Nat2Z.inj_succ, Z.pow_succ_r by lia. split; [done|]. lia.
Qed.

Lemma wp_loop2 {A B} (I : A -> S -> Prop) (meas : A -> S -> Z) (body : A -> M S (A + B)) Q k a s :
  I a s -> meas a s < 2 ^ Z.of_nat k ->
  (forall a s, I a s ->
     wp (body a) (fun r s' => match r with
                              | inl a' => I a' s' /\ 0 <= meas a' s' < meas a s
                              | inr b => Q b s' end) s) ->
  wp (loop2 k body a) Q s.
Proof.
  intros HI Hm Hb. apply wp_bind. eapply wp_mono; [by apply (wp_rounds I meas)|].
  intros [a'|b] s'; [|done]. lia.
Qed.

Lemma wp_for_n (I : Z -> S -> Prop) (body : Z -> M S unit) n lo s :
  I lo s ->
  (forall i s, lo <= i < lo + Z.of_nat n -> I i s -> wp (body i) (fun _ s' => I (i + 1) s') s) ->
  wp (for_n n lo body) (fun _ s' => I (lo + Z.of_nat n) s') s.
Proof.
  revert lo s. induction n as [|n IH]; intros lo s HI Hb; simpl.
  - apply wp_ret. by replace (lo + Z.of_nat 0) with lo by lia.
  - apply wp_bind. eapply wp_mono; [apply Hb; [lia|done]|]. intros [] s' HI'.
    replace (lo + Z.of_nat (Datatypes.S n)) with (lo + 1 + Z.of_nat n) by lia.
    apply IH; [done|]. intros i s0 Hi. apply Hb. lia.
Qed.

Lemma wp_find_n {A} (I : Z -> S -> Prop) (body : Z -> M S (option A)) Q n lo s :
  I lo s ->
  (forall i s, lo <= i < lo + Z.of_nat n -> I i s ->
     wp (body i) (fun r s' => match r with Some a => Q (Some a) s' | None => I (i + 1) s' end) s) ->
  (forall s, I (lo + Z.of_nat n) s -> Q None s) ->
  wp (find_n n lo body) Q s.
Proof.
  revert lo s. induction n as [|n IH]; intros lo s HI Hb HQ; simpl.
  - apply wp_ret, HQ. by replace (lo + Z.of_nat 0) with lo by lia.
  - apply wp_bind. eapply wp_mono; [apply Hb; [lia|done]|]. intros [a|] s' H'; [by apply wp_ret|].
    apply IH; [done| |].
    + intros i s0 Hi. apply Hb. lia.
    + intros s0. replace (lo + 1 + Z.of_nat n) with (lo + Z.of_nat (Datatypes.S n)) by lia. apply HQ.
Qed.
End wp.

Lemma wp_zoom {S T A} (get : T -> S) (put : S -> T -> T) (m : M S A) Q t :
  wp m (fun a s => Q a (put s t)) (get t) -> wp (zoom get put m) Q t.
Proof. unfold wp, zoom. by destruct (m (get t)) as [[a s]| |]. Qed.

(** Stepping through a computation: [wp_step] applies the rule for the head of the goal. *)
Ltac wp_step :=
  lazymatch goal with
  | |- wp (_ ≫= _) _ _ => apply wp_bind
  | |- wp (mret _) _ _ => apply wp_ret
  | |- wp (gets _) _ _ => apply wp_gets
  | |- wp (modify _) _ _ => apply wp_modify
  | |- wp (zoom _ _ _) _ _ => apply wp_zoom
  | |- wp (guard_ub _) _ _ => apply wp_guard
  | |- wp (of_option _) _ _ => eapply wp_of_option
  end.
Ltac wp_steps := repeat (wp_step; try done; cbn beta).

(** ** Automation *)

(** Word operations whose result is in range, by rewriting. *)
Create HintDb words.
#[export] Hint Rewrite u64_small u32_small u16_small u8_small add64_small sub64_small mul64_small using lia : words.
Ltac words := autorewrite with words.

(** The rules of the basic computations, for goals that are one call. *)
Create HintDb wp.
#[export] Hint Resolve wp_ret wp_gets wp_modify wp_guard wp_of_option : wp.
#[export] Hint Resolve u64_range u32_range u8_range : words.

(** A test in the code whose outcome is known. *)
Ltac test_true := match goal with |- context [if ?b then _ else _] => replace b with true by lia end.
Ltac test_false := match goal with |- context [if ?b then _ else _] => replace b with false by lia end.
