(* ===== verification/Libc.v ===== *)
(** The C library of the kernel ([kernel/libc.c], [include/libc.h]) over a byte-addressed memory.

    A byte that is not in the memory map is not readable; strings are NUL-terminated and [char]
    is unsigned, as on AArch64.  The loops over strings are bounded by the number of bytes of the
    memory, which they cannot exceed without leaving it. *)
From S2P Require Import Prelude.

Notation bmem := (gmap Z Z).

Definition ldb (p : Z) : M bmem Z := fun m => of_option (m !! p) m.
Definition stb (p v : Z) : M bmem unit := fun m =>
  (_ ← of_option (m !! p); modify (fun m : bmem => <[p := u8 v]> m)) m.

(** A scan over at most all bytes of the memory. *)
Definition scan_bytes {A B} (body : A -> M bmem (A + B)) (a : A) : M bmem B :=
  n ← gets (fun m : bmem => size m); loop (S n) body a.

Definition strlen (s : Z) : M bmem Z :=
  scan_bytes (fun len =>
    c ← ldb (s + len);
    if c =? 0 then mret (inr len) else mret (inl (len + 1))) 0.

Definition strnlen (s maxlen : Z) : M bmem Z :=
  scan_bytes (fun len =>
    if len <? maxlen then
      c ← ldb (s + len);
      if c =? 0 then mret (inr len) else mret (inl (len + 1))
    else mret (inr len)) 0.

Definition memcmp (a b n : Z) : M bmem Z :=
  r ← find_n (Z.to_nat n) 0 (fun i =>
        x ← ldb (a + i);
        y ← ldb (b + i);
        mret (if x =? y then None else Some (x - y)));
  mret (default 0 r).

Definition copy_byte (dst src i : Z) : M bmem unit := c ← ldb (src + i); stb (dst + i) c.

Definition memmove (dst src n : Z) : M bmem Z :=
  _ ← (if dst <? src then for_n (Z.to_nat n) 0 (copy_byte dst src)
       else for_n (Z.to_nat n) 0 (fun k => copy_byte dst src (n - k - 1)));
  mret dst.

Definition memcpy (dst src n : Z) : M bmem Z :=
  _ ← for_n (Z.to_nat n) 0 (copy_byte dst src); mret dst.

Definition memset (dst c n : Z) : M bmem Z :=
  _ ← for_n (Z.to_nat n) 0 (fun i => stb (dst + i) c); mret dst.

Definition memchr (s c n : Z) : M bmem Z :=
  r ← find_n (Z.to_nat n) 0 (fun i =>
        x ← ldb (s + i); mret (if x =? u8 c then Some (s + i) else None));
  mret (default 0 r).

Definition strrchr (s c : Z) : M bmem Z :=
  scan_bytes (fun st : Z * Z =>
    let '(s, last) := st in
    x ← ldb s;
    if x =? 0 then mret (inr (if c =? 0 then s else last))
    else mret (inl (s + 1, if x =? u8 c then s else last))) (s, 0).

(** The loop of [strcmp] and the inner loop of [strstr]: both pointers move while the bytes agree. *)
Definition common_prefix (p1 p2 : Z) : M bmem (Z * Z) :=
  scan_bytes (fun st : Z * Z =>
    let '(p1, p2) := st in
    a ← ldb p1;
    if a =? 0 then mret (inr (p1, p2)) else
    b ← ldb p2;
    if b =? 0 then mret (inr (p1, p2)) else
    if a =? b then mret (inl (p1 + 1, p2 + 1)) else mret (inr (p1, p2))) (p1, p2).

Definition strcmp (s1 s2 : Z) : M bmem Z :=
  st ← common_prefix s1 s2;
  a ← ldb st.1;
  b ← ldb st.2;
  mret (a - b).

Definition strstr (s1 s2 : Z) : M bmem Z :=
  c ← ldb s2;
  if c =? 0 then mret s1 else
  scan_bytes (fun s1 =>
    a ← ldb s1;
    if a =? 0 then mret (inr 0) else
    st ← common_prefix s1 s2;
    b ← ldb st.2;
    if b =? 0 then mret (inr s1) else mret (inl (s1 + 1))) s1.

(** ** Reading specifications *)

(** The string [l] is stored at [p], with its terminator. *)
Fixpoint cstr (m : bmem) (p : Z) (l : list Z) : Prop :=
  match l with
  | [] => m !! p = Some 0
  | c :: l' => m !! p = Some c /\ 0 < c < 256 /\ cstr m (p + 1) l'
  end.

(** The bytes [p .. p + n) are mapped. *)
Definition mapped (m : bmem) (p n : Z) : Prop := forall a, p <= a < p + n -> is_Some (m !! a).

Lemma wp_ldb p c Q m : m !! p = Some c -> Q c m -> wp (ldb p) Q m.
Proof. intros H. unfold wp, ldb. by rewrite H. Qed.

Lemma wp_stb p c v Q m : m !! p = Some c -> Q tt (<[p := u8 v]> m) -> wp (stb p v) Q m.
Proof. intros H. unfold wp, stb. by rewrite H. Qed.

Lemma cstr_at m p l i : cstr m p l -> 0 <= i < Z.of_nat (length l) ->
  exists c, m !! (p + i) = Some c /\ l !! Z.to_nat i = Some c /\ 0 < c < 256.
Proof.
  revert p i. induction l as [|c l IH]; intros p i Hs Hi; [cbn in Hi; lia|].
  destruct Hs as (Hc & Hr & Hs). destruct (decide (i = 0)) as [->|Hi0].
  - rewrite Z.add_0_r. eauto.
  - destruct (IH (p + 1) (i - 1) Hs) as (d & Hd & Hl & Hdr); [cbn in Hi; lia|].
    exists d. replace (p + i) with (p + 1 + (i - 1)) by lia. split; [done|].
    replace (Z.to_nat i) with (S (Z.to_nat (i - 1))) by lia. by rewrite lookup_cons.
Qed.

Lemma cstr_nul m p l : cstr m p l -> m !! (p + Z.of_nat (length l)) = Some 0.
Proof.
  revert p. induction l as [|c l IH]; intros p Hs; [by rewrite Z.add_0_r|].
  destruct Hs as (_ & _ & Hs). apply IH in Hs. rewrite <- Hs. f_equal. cbn [length]. lia.
Qed.

Lemma cstr_size m p l : cstr m p l -> Z.of_nat (length l) + 1 <= Z.of_nat (size m).
Proof.
  intros Hs.
  set (D := list_to_set ((fun i : nat => p + Z.of_nat i) <$> seq 0 (S (length l))) : gset Z).
  assert (HD : D ⊆ dom m).
  { intros a Ha. apply elem_of_list_to_set, list_elem_of_fmap in Ha as (i & -> & Hi).
    apply elem_of_seq in Hi. apply elem_of_dom. destruct (decide (i = length l)) as [->|].
    - rewrite (cstr_nul _ _ _ Hs). eauto.
    - destruct (cstr_at m p l (Z.of_nat i) Hs) as (c & -> & _); [lia|eauto]. }
  apply subseteq_size in HD. rewrite size_dom in HD. unfold D in HD.
  rewrite size_list_to_set in HD by (apply NoDup_fmap_2; [intros ?? ?; lia|apply NoDup_seq]).
  rewrite length_fmap, length_seq in HD. lia.
Qed.

(** The rule for scans that only read: [idx] counts the bytes passed. *)
Lemma wp_scan_bytes {A B} (I : A -> Prop) (idx : A -> Z) (body : A -> M bmem (A + B)) Q a m :
  I a -> 0 <= idx a <= Z.of_nat (size m) ->
  (forall a, I a -> 0 <= idx a <= Z.of_nat (size m) ->
     wp (body a) (fun r m' => m' = m /\
       match r with
       | inl a' => I a' /\ idx a < idx a' <= Z.of_nat (size m)
       | inr b => Q b m
       end) m) ->
  wp (scan_bytes body a) Q m.
Proof.
  intros HI Hidx Hb. unfold scan_bytes. wp_step. wp_step. cbn beta.
  apply (wp_loop (fun a m' => m' = m /\ I a /\ 0 <= idx a <= Z.of_nat (size m))
           (fun a _ => Z.to_nat (Z.of_nat (size m) - idx a))); [done|lia|].
  intros a' m' (-> & HI' & Hi'). eapply wp_mono; [by apply Hb|].
  intros [a''|b] m'' [-> H]; [|done]. destruct H as [HI'' Hi'']. split; [split; [done|split; [done|lia]]|lia].
Qed.

Lemma wp_strlen p l Q m : cstr m p l -> Q (Z.of_nat (length l)) m -> wp (strlen p) Q m.
Proof.
  intros Hs HQ. pose proof (cstr_size _ _ _ Hs) as Hsz. unfold strlen.
  apply (wp_scan_bytes (fun i => 0 <= i <= Z.of_nat (length l)) id); unfold id; [lia|lia|].
  intros i Hi _. wp_step. destruct (decide (i = Z.of_nat (length l))) as [->|Hne].
  - eapply wp_ldb; [by apply cstr_nul|]. rewrite Z.eqb_refl. by wp_step.
  - destruct (cstr_at m p l i Hs) as (c & Hc & _ & Hr); [lia|].
    eapply wp_ldb; [done|]. rewrite (proj2 (Z.eqb_neq c 0)) by lia. wp_step. split; [done|lia].
Qed.

Lemma wp_strnlen p l maxlen Q m : cstr m p l -> 0 <= maxlen ->
  Q (Z.min maxlen (Z.of_nat (length l))) m -> wp (strnlen p maxlen) Q m.
Proof.
  intros Hs Hm HQ. pose proof (cstr_size _ _ _ Hs) as Hsz. unfold strnlen.
  apply (wp_scan_bytes (fun i => 0 <= i <= Z.min maxlen (Z.of_nat (length l))) id); unfold id; [lia|lia|].
  intros i Hi _. destruct (Z.ltb_spec i maxlen).
  - wp_step. destruct (decide (i = Z.of_nat (length l))) as [->|Hne].
    + eapply wp_ldb; [by apply cstr_nul|]. rewrite Z.eqb_refl. wp_step.
      rewrite Z.min_r in HQ by lia. done.
    + destruct (cstr_at m p l i Hs) as (c & Hc & _ & Hr); [lia|].
      eapply wp_ldb; [done|]. rewrite (proj2 (Z.eqb_neq c 0)) by lia. wp_step. split; [done|lia].
  - wp_step. rewrite Z.min_l in HQ by lia. replace i with maxlen by lia. done.
Qed.

(** ** Copying *)

(** The memory after [n] bytes moved from [src] to [dst]. *)
Definition moved (m : bmem) (dst src n : Z) (m' : bmem) : Prop :=
  forall a, m' !! a = if decide (dst <= a < dst + n) then m !! (src + (a - dst)) else m !! a.

Definition bytes_ok (m : bmem) : Prop := forall a v, m !! a = Some v -> 0 <= v < 256.

Lemma wp_copy_byte dst src i c d Q m :
  m !! (src + i) = Some c -> m !! (dst + i) = Some d -> 0 <= c < 256 ->
  Q tt (<[dst + i := c]> m) -> wp (copy_byte dst src i) Q m.
Proof.
  intros Hc Hd Hr HQ. unfold copy_byte. wp_step. eapply wp_ldb; [done|]. eapply wp_stb; [done|].
  by rewrite u8_small.
Qed.

(** Copying upwards is right unless the destination starts inside the source. *)
Lemma wp_copy_up dst src n m : bytes_ok m -> 0 <= n -> mapped m src n -> mapped m dst n ->
  (dst <= src \/ src + n <= dst) ->
  wp (for_n (Z.to_nat n) 0 (copy_byte dst src)) (fun _ m' => moved m dst src n m') m.
Proof.
  intros Hb Hn Hs Hd Hov.
  eapply wp_mono; [apply (wp_for_n (fun i m' => moved m dst src i m'))|].
  - intros a. by rewrite decide_False by lia.
  - intros i m' Hi HI.
    destruct (Hs (src + i)) as [c Hc]; [lia|]. destruct (Hd (dst + i)) as [d Hdd]; [lia|].
    eapply (wp_copy_byte _ _ _ c d).
    + rewrite HI. rewrite decide_False by lia. done.
    + rewrite HI. rewrite decide_False by lia. done.
    + by apply (Hb _ _ Hc).
    + intros a. destruct (decide (a = dst + i)) as [Ha|Ha]; [subst a|].
      * rewrite lookup_insert_eq, decide_True by lia. rewrite <- Hc. f_equal. lia.
      * rewrite lookup_insert_ne by lia. rewrite HI. repeat case_decide; try done; lia.
  - intros [] m' HI. cbn beta in HI. replace (0 + Z.of_nat (Z.to_nat n)) with n in HI by lia. done.
Qed.

(** Copying downwards is right unless the source starts inside the destination. *)
Lemma wp_copy_down dst src n m : bytes_ok m -> 0 <= n -> mapped m src n -> mapped m dst n ->
  (src <= dst \/ dst + n <= src) ->
  wp (for_n (Z.to_nat n) 0 (fun k => copy_byte dst src (n - k - 1))) (fun _ m' => moved m dst src n m') m.
Proof.
  intros Hb Hn Hs Hd Hov.
  eapply wp_mono; [apply (wp_for_n (fun k m' => moved m (dst + (n - k)) (src + (n - k)) k m'))|].
  - intros a. by rewrite decide_False by lia.
  - intros k m' Hk HI. set (i := n - k - 1).
    destruct (Hs (src + i)) as [c Hc]; [lia|]. destruct (Hd (dst + i)) as [d Hdd]; [lia|].
    eapply (wp_copy_byte _ _ _ c d).
    + rewrite HI. rewrite decide_False by lia. done.
    + rewrite HI. rewrite decide_False by lia. done.
    + by apply (Hb _ _ Hc).
    + intros a. destruct (decide (a = dst + i)) as [Ha|Ha]; [subst a|].
      * rewrite lookup_insert_eq, decide_True by lia. rewrite <- Hc. f_equal. lia.
      * rewrite lookup_insert_ne by lia. rewrite HI. repeat case_decide; try done; try lia; f_equal; lia.
  - intros [] m' HI a. cbn beta in HI. rewrite HI.
    replace (0 + Z.of_nat (Z.to_nat n)) with n by lia.
    repeat case_decide; try done; try lia. f_equal. lia.
Qed.

(** C27: [memmove] copies [n] bytes for every overlap of the two areas: afterwards the destination
    holds what the source held before, every other byte is unchanged, and the result is the
    destination.  [memcpy] does the same when the destination does not start inside the source. *)
Theorem memmove_correct dst src n m : bytes_ok m -> 0 <= n -> mapped m src n -> mapped m dst n ->
  wp (memmove dst src n) (fun r m' => r = dst /\ moved m dst src n m') m /\
  (dst <= src \/ src + n <= dst ->
   wp (memcpy dst src n) (fun r m' => r = dst /\ moved m dst src n m') m).
Proof.
  intros Hb Hn Hs Hd. split; [|intros Hov]; unfold memmove, memcpy; apply wp_bind.
  - apply (wp_mono _ (fun _ m' => moved m dst src n m')); [|by intros [] m' H; apply wp_ret].
    destruct (Z.ltb_spec dst src); [apply wp_copy_up|apply wp_copy_down]; auto; lia.
  - apply (wp_mono _ (fun _ m' => moved m dst src n m')); [by apply wp_copy_up|].
    intros [] m' H. by apply wp_ret.
Qed.

Definition sample_bytes : bmem := list_to_map ((fun i => (Z.of_nat i, 97 + Z.of_nat i)) <$> seq 0 8).
Lemma sample_mapped p n : 0 <= p -> p + n <= 8 -> mapped sample_bytes p n.
Proof.
  intros Hp Hn a Ha. assert (Hi : In a [0; 1; 2; 3; 4; 5; 6; 7]) by (cbn; lia).
  repeat (destruct Hi as [<-|Hi]; [eexists; vm_compute; reflexivity|]). done.
Qed.
Lemma sample_bytes_ok : bytes_ok sample_bytes.
Proof.
  intros a v H. apply elem_of_list_to_map_2, list_elem_of_fmap in H as (i & [= -> ->] & Hi).
  apply elem_of_seq in Hi. lia.
Qed.

Lemma memmove_correct_witness :
  wp (memmove 2 0 4) (fun r m' => r = 2 /\ moved sample_bytes 2 0 4 m') sample_bytes.
Proof.
  apply (memmove_correct 2 0 4 sample_bytes sample_bytes_ok ltac:(lia)
           (sample_mapped 0 4 ltac:(lia) ltac:(lia)) (sample_mapped 2 4 ltac:(lia) ltac:(lia))).
Defined.

(** ** Comparing and searching strings *)

(** Two strings agree on their first [k] bytes and no further. *)
Definition agree (l1 l2 : list Z) (k : nat) : Prop :=
  (k <= length l1)%nat /\ (k <= length l2)%nat /\ take k l1 = take k l2 /\
  (k = length l1 \/ k = length l2 \/ l1 !! k <> l2 !! k).

Lemma cstr_byte m p l (k : nat) : cstr m p l -> (k <= length l)%nat ->
  m !! (p + Z.of_nat k) = Some (default 0 (l !! k)).
Proof.
  intros Hs Hk. destruct (decide (k = length l)) as [->|].
  - rewrite (lookup_ge_None_2 l) by lia. by apply cstr_nul.
  - destruct (cstr_at m p l (Z.of_nat k) Hs) as (c & Hc & Hl & _); [lia|].
    rewrite Nat2Z.id in Hl. by rewrite Hl.
Qed.

Lemma cstr_byte_zero m p l (k : nat) : cstr m p l -> (k <= length l)%nat ->
  default 0 (l !! k) = 0 <-> k = length l.
Proof.
  intros Hs Hk. split.
  - intros H0. destruct (decide (k = length l)) as [|]; [done|].
    destruct (cstr_at m p l (Z.of_nat k) Hs) as (c & _ & Hl & ?); [lia|].
    rewrite Nat2Z.id in Hl. rewrite Hl in H0. cbn in H0. lia.
  - intros ->. by rewrite lookup_ge_None_2 by lia.
Qed.

Lemma wp_common_prefix p1 p2 l1 l2 Q m : cstr m p1 l1 -> cstr m p2 l2 ->
  (forall k, agree l1 l2 k -> Q (p1 + Z.of_nat k, p2 + Z.of_nat k) m) ->
  wp (common_prefix p1 p2) Q m.
Proof.
  intros H1 H2 HQ. pose proof (cstr_size _ _ _ H1) as Hsz. unfold common_prefix.
  apply (wp_scan_bytes
    (fun st => exists k : nat, st = (p1 + Z.of_nat k, p2 + Z.of_nat k) /\
       (k <= length l1)%nat /\ (k <= length l2)%nat /\ take k l1 = take k l2)
    (fun st => st.1 - p1)); [|cbn; lia|].
  - exists O. rewrite !Z.add_0_r. split_and!; [done|lia|lia|done].
  - intros [q1 q2] (k & [= -> ->] & Hk1 & Hk2 & Htk) Hidx. cbn [fst] in Hidx.
    wp_step. eapply wp_ldb; [by apply cstr_byte|].
    pose proof (cstr_byte_zero _ _ _ k H1 Hk1) as Z1. pose proof (cstr_byte_zero _ _ _ k H2 Hk2) as Z2.
    destruct (Z.eqb_spec (default 0 (l1 !! k)) 0) as [E1|E1].
    { wp_step. split; [done|]. apply HQ. split_and!; [lia|lia|done|left; by apply Z1]. }
    wp_step. eapply wp_ldb; [by apply cstr_byte|].
    destruct (Z.eqb_spec (default 0 (l2 !! k)) 0) as [E2|E2].
    { wp_step. split; [done|]. apply HQ. split_and!; [lia|lia|done|right; left; by apply Z2]. }
    assert (k <> length l1) by (intros Hk; by apply E1, Z1).
    assert (k <> length l2) by (intros Hk; by apply E2, Z2).
    destruct (lookup_lt_is_Some_2 l1 k) as [a Ha]; [lia|].
    destruct (lookup_lt_is_Some_2 l2 k) as [b Hb]; [lia|].
    pose proof (lookup_lt_Some _ _ _ Ha). pose proof (lookup_lt_Some _ _ _ Hb).
    rewrite Ha, Hb. cbn [from_option id]. destruct (Z.eqb_spec a b) as [->|Hne]; wp_step; (split; [done|]).
    + cbn [fst]. split; [|lia]. exists (S k). split_and!; [f_equal; lia|lia|lia|].
      by rewrite (take_S_r l1 _ b Ha), (take_S_r l2 _ b Hb), Htk.
    + apply HQ. split_and!; [lia|lia|done|]. right; right. rewrite Ha, Hb. congruence.
Qed.

(** The order of strings by their first differing byte, a proper prefix being smaller. *)
Definition str_lt (l1 l2 : list Z) : Prop :=
  exists k, take k l1 = take k l2 /\ (k <= length l1)%nat /\
    match l1 !! k, l2 !! k with
    | None, Some _ => True
    | Some a, Some b => a < b
    | _, None => False
    end.

Lemma take_lookup_eq (l1 l2 : list Z) k i : take k l1 = take k l2 -> (i < k)%nat -> l1 !! i = l2 !! i.
Proof. intros H Hi. by rewrite <- (lookup_take_lt l1 k i Hi), <- (lookup_take_lt l2 k i Hi), H. Qed.

Lemma str_lt_agree l1 l2 k : agree l1 l2 k ->
  str_lt l1 l2 <-> match l1 !! k, l2 !! k with
                   | None, Some _ => True | Some a, Some b => a < b | _, None => False end.
Proof.
  intros (Hk1 & Hk2 & Htk & Hend). split; [|by exists k].
  intros (k' & Htk' & Hk' & Hcmp).
  assert (k' = k) as ->; [|done].
  destruct (Nat.lt_trichotomy k' k) as [Hlt|[|Hlt]]; [exfalso|done|exfalso].
  - rewrite (take_lookup_eq _ _ _ _ Htk Hlt) in Hcmp. destruct (l2 !! k'); [lia|done].
  - pose proof (take_lookup_eq _ _ _ _ Htk' Hlt) as Heq.
    destruct Hend as [->|[->|Hne]]; [lia| |done].
    rewrite (lookup_ge_None_2 l2) in Heq by lia. apply lookup_ge_None in Heq. lia.
Qed.

Lemma agree_sym l1 l2 k : agree l1 l2 k -> agree l2 l1 k.
Proof. intros (? & ? & ? & ?). unfold agree. naive_solver. Qed.

Lemma agree_equal l1 l2 k : agree l1 l2 k -> l1 = l2 <-> k = length l1 /\ k = length l2.
Proof.
  intros (Hk1 & Hk2 & Htk & Hend). split.
  - intros ->. destruct Hend as [?|[?|?]]; done.
  - intros [-> Hl]. rewrite firstn_all in Htk. by rewrite Htk, Hl, firstn_all.
Qed.

(** [strcmp] orders strings by their first differing byte: the result is zero exactly for
    equal strings, negative exactly when the first string is smaller and positive exactly when the
    second one is; the memory is not changed. *)
Theorem strcmp_correct s1 s2 l1 l2 m : cstr m s1 l1 -> cstr m s2 l2 ->
  wp (strcmp s1 s2) (fun r m' => m' = m /\ (r = 0 <-> l1 = l2) /\
        (r < 0 <-> str_lt l1 l2) /\ (r > 0 <-> str_lt l2 l1)) m.
Proof.
  intros H1 H2. unfold strcmp. wp_step. eapply wp_common_prefix; [done|done|]. intros k Hag.
  pose proof Hag as (Hk1 & Hk2 & _ & Hend).
  wp_step. eapply wp_ldb; [by apply cstr_byte|]. wp_step. eapply wp_ldb; [by apply cstr_byte|]. wp_step.
  rewrite (agree_equal _ _ _ Hag), (str_lt_agree _ _ _ Hag), (str_lt_agree _ _ _ (agree_sym _ _ _ Hag)).
  pose proof (cstr_byte_zero _ _ _ k H1 Hk1) as Z1. pose proof (cstr_byte_zero _ _ _ k H2 Hk2) as Z2.
  split; [done|].
  destruct (l1 !! k) as [a|] eqn:Ea, (l2 !! k) as [b|] eqn:Eb; cbn [from_option id] in *.
  - apply lookup_lt_Some in Ea as ?. apply lookup_lt_Some in Eb as ?.
    destruct Hend as [?|[?|?]]; [lia|lia|]. assert (a <> b) by congruence. lia.
  - apply lookup_lt_Some in Ea as ?. apply lookup_ge_None in Eb.
    destruct (cstr_at m s1 l1 (Z.of_nat k) H1) as (c & _ & Hl & ?); [lia|].
    rewrite Nat2Z.id, Ea in Hl. injection Hl as ->. lia.
  - apply lookup_lt_Some in Eb as ?. apply lookup_ge_None in Ea.
    destruct (cstr_at m s2 l2 (Z.of_nat k) H2) as (c & _ & Hl & ?); [lia|].
    rewrite Nat2Z.id, Eb in Hl. injection Hl as ->. lia.
  - apply lookup_ge_None in Ea, Eb. lia.
Qed.

(** [ab], [b] and their terminators. *)
Definition sample_strings : bmem := list_to_map [(0, 97); (1, 98); (2, 0); (3, 98); (4, 0)].
Lemma strcmp_correct_witness :
  cstr sample_strings 0 [97; 98] /\ cstr sample_strings 3 [98] /\
  wp (strcmp 0 3) (fun r m' => m' = sample_strings /\ (r = 0 <-> [97; 98] = [98]) /\
        (r < 0 <-> str_lt [97; 98] [98]) /\ (r > 0 <-> str_lt [98] [97; 98])) sample_strings.
Proof.
  assert (cstr sample_strings 0 [97; 98]) as H1 by (cbn; split_and!; try lia; vm_compute; reflexivity).
  assert (cstr sample_strings 3 [98]) as H2 by (cbn; split_and!; try lia; vm_compute; reflexivity).
  split; [exact H1|split; [exact H2|]]. exact (strcmp_correct 0 3 [97; 98] [98] sample_strings H1 H2).
Defined.

(** Where [l2] occurs in [l1]. *)
Definition occurs_at (l1 l2 : list Z) (i : nat) : Prop := exists t, drop i l1 = l2 ++ t.

Lemma cstr_drop m p l i : cstr m p l -> (i <= length l)%nat -> cstr m (p + Z.of_nat i) (drop i l).
Proof.
  revert p l. induction i as [|i IH]; intros p l Hs Hi; [by rewrite Z.add_0_r|].
  destruct l as [|c l]; [cbn in Hi; lia|]. destruct Hs as (_ & _ & Hs). cbn [drop].
  replace (p + Z.of_nat (S i)) with (p + 1 + Z.of_nat i) by lia. apply IH; [done|cbn in Hi; lia].
Qed.

Lemma agree_prefix l1 l2 k : agree l1 l2 k -> k = length l2 <-> exists t, l1 = l2 ++ t.
Proof.
  intros (Hk1 & Hk2 & Htk & Hend). split.
  - intros ->. exists (drop (length l2) l1). rewrite <- (take_drop (length l2) l1) at 1.
    by rewrite Htk, firstn_all.
  - intros [t ->]. destruct Hend as [->|[?|Hne]]; [rewrite length_app in *; lia|done|].
    destruct (decide (k = length l2)); [done|]. exfalso. apply Hne. by rewrite lookup_app_l by lia.
Qed.

(** [strstr] returns the first occurrence of its second string in the first, the start of the
    first string for an empty second one, and NULL exactly when there is no occurrence. *)
Theorem strstr_correct s1 s2 l1 l2 m : cstr m s1 l1 -> cstr m s2 l2 -> 0 < s1 ->
  wp (strstr s1 s2) (fun r m' => m' = m /\
        ((r = 0 /\ forall i, (i <= length l1)%nat -> ~ occurs_at l1 l2 i) \/
         exists i, r = s1 + Z.of_nat i /\ (i <= length l1)%nat /\ occurs_at l1 l2 i /\
           forall j, (j < i)%nat -> ~ occurs_at l1 l2 j)) m.
Proof.
  intros H1 H2 Hpos. pose proof (cstr_size _ _ _ H1) as Hsz.
  unfold strstr. wp_step. eapply wp_ldb; [rewrite <- (Z.add_0_r s2); apply (cstr_byte _ _ _ 0 H2); lia|].
  destruct (Z.eqb_spec (default 0 (l2 !! 0%nat)) 0) as [E|E].
  { apply (cstr_byte_zero _ _ _ 0 H2) in E; [|lia]. destruct l2; [|done].
    wp_step. split; [done|]. right. exists O. split_and!; [lia|lia|by exists l1|lia]. }
  assert (l2 <> []) as Hne2 by (intros ->; by apply E).
  apply (wp_scan_bytes
    (fun p => exists i : nat, p = s1 + Z.of_nat i /\ (i <= length l1)%nat /\
       forall j, (j < i)%nat -> ~ occurs_at l1 l2 j) (fun p => p - s1)); [|lia|].
  { exists O. split_and!; [lia|lia|lia]. }
  intros p (i & -> & Hi & Hbefore) _.
  wp_step. eapply wp_ldb; [by apply cstr_byte|].
  destruct (Z.eqb_spec (default 0 (l1 !! i)) 0) as [E1|E1].
  { apply (cstr_byte_zero _ _ _ i H1) in E1; [|done]. wp_step. do 2 (split; [done|]). left. split; [done|].
    intros j Hj [t Ht]. destruct (decide (j < i)%nat); [by apply (Hbefore j); [|exists t]|].
    rewrite drop_ge in Ht by lia. by destruct l2. }
  assert (i <> length l1) by (intros Hl; by apply E1, (cstr_byte_zero _ _ _ i H1)).
  wp_step. eapply wp_common_prefix; [by apply cstr_drop|done|]. intros k Hag.
  pose proof Hag as (_ & Hk2 & _).
  wp_step. eapply wp_ldb; [cbn [snd]; by apply cstr_byte|].
  pose proof (cstr_byte_zero _ _ _ k H2 Hk2) as Z2. pose proof (agree_prefix _ _ _ Hag) as Hp.
  destruct (Z.eqb_spec (default 0 (l2 !! k)) 0) as [E2|E2]; wp_step; (split; [done|]).
  - split; [done|]. right. exists i. split_and!; [done|lia| |done]. by apply Hp, Z2.
  - split; [|lia]. exists (S i). split_and!; [lia|lia|].
    intros j Hj. destruct (decide (j = i)) as [->|]; [|apply Hbefore; lia].
    intros Hocc. by apply E2, Z2, Hp.
Qed.

Lemma strstr_correct_witness :
  let m := list_to_map [(8, 97); (9, 98); (10, 0); (16, 98); (17, 0)] : bmem in
  cstr m 8 [97; 98] /\ cstr m 16 [98] /\
  wp (strstr 8 16) (fun r m' => m' = m /\
        ((r = 0 /\ forall i, (i <= length [97; 98])%nat -> ~ occurs_at [97; 98] [98] i) \/
         exists i, r = 8 + Z.of_nat i /\ (i <= length [97; 98])%nat /\ occurs_at [97; 98] [98] i /\
           forall j, (j < i)%nat -> ~ occurs_at [97; 98] [98] j)) m.
Proof.
  intros m.
  assert (cstr m 8 [97; 98]) as H1 by (cbn; split_and!; try lia; vm_compute; reflexivity).
  assert (cstr m 16 [98]) as H2 by (cbn; split_and!; try lia; vm_compute; reflexivity).
  split; [exact H1|split; [exact H2|]].
  exact (strstr_correct 8 16 [97; 98] [98] m H1 H2 ltac:(lia)).
Defined.
