(* ===== verification/Fdt.v ===== *)
(** The device-tree reader ([driver/fdt/fdt.c], the lookups of [driver/fdt/fdt_ro.c],
    [include/libfdt.h], [include/libfdt_internal.h], [include/fdt.h]).

    The blob is read from the byte memory of [Libc] at the address [fdt].  [FDT_ASSUME_MASK] is 0,
    so every check guarded by [!can_assume(..)] is present.  Offsets are [int], sizes are
    [uint32_t]; mixed expressions are computed as C converts them.  An [int *] result is the second
    component of a pair, a [NULL] pointer is 0.  The literal [s] of the source is at address
    [lit s]. *)
From S2P Require Import Prelude Libc.

Definition FDT_MAGIC : Z := 0xd00dfeed.
Definition FDT_SW_MAGIC : Z := not32 FDT_MAGIC.
Definition FDT_TAGSIZE : Z := 4.
Definition FDT_BEGIN_NODE : Z := 1.
Definition FDT_END_NODE : Z := 2.
Definition FDT_PROP : Z := 3.
Definition FDT_NOP : Z := 4.
Definition FDT_END : Z := 9.
Definition FDT_FIRST_SUPPORTED_VERSION : Z := 0x02.
Definition FDT_LAST_SUPPORTED_VERSION : Z := 0x11.
Definition FDT_ERR_NOTFOUND : Z := 1.
Definition FDT_ERR_NOSPACE : Z := 3.
Definition FDT_ERR_BADOFFSET : Z := 4.
Definition FDT_ERR_BADPATH : Z := 5.
Definition FDT_ERR_BADSTATE : Z := 7.
Definition FDT_ERR_TRUNCATED : Z := 8.
Definition FDT_ERR_BADMAGIC : Z := 9.
Definition FDT_ERR_BADVERSION : Z := 10.
Definition FDT_ERR_BADSTRUCTURE : Z := 11.
Definition FDT_ERR_INTERNAL : Z := 13.
Definition FDT_ERR_ALIGNMENT : Z := 19.
Definition INT_MAX : Z := 2 ^ 31 - 1.

(** A big-endian word. *)
Definition fdt32_ld (p : Z) : M bmem Z :=
  b0 ← ldb p; b1 ← ldb (p + 1); b2 ← ldb (p + 2); b3 ← ldb (p + 3);
  mret (b0 * 2 ^ 24 + b1 * 2 ^ 16 + b2 * 2 ^ 8 + b3).

Definition fdt_magic (fdt : Z) := fdt32_ld fdt.
Definition fdt_totalsize (fdt : Z) := fdt32_ld (fdt + 4).
Definition fdt_off_dt_struct (fdt : Z) := fdt32_ld (fdt + 8).
Definition fdt_off_dt_strings (fdt : Z) := fdt32_ld (fdt + 12).
Definition fdt_off_mem_rsvmap (fdt : Z) := fdt32_ld (fdt + 16).
Definition fdt_version (fdt : Z) := fdt32_ld (fdt + 20).
Definition fdt_last_comp_version (fdt : Z) := fdt32_ld (fdt + 24).
Definition fdt_size_dt_strings (fdt : Z) := fdt32_ld (fdt + 32).
Definition fdt_size_dt_struct (fdt : Z) := fdt32_ld (fdt + 36).

(** ** fdt.c *)

Definition fdt_ro_probe_ (fdt : Z) : M bmem Z :=
  totalsize ← fdt_totalsize fdt;
  if negb (Z.land fdt 7 =? 0) then mret (- FDT_ERR_ALIGNMENT) else
  let fits := mret (if totalsize <? INT_MAX then totalsize else - FDT_ERR_TRUNCATED) in
  magic ← fdt_magic fdt;
  if magic =? FDT_MAGIC then
    version ← fdt_version fdt;
    if version <? FDT_FIRST_SUPPORTED_VERSION then mret (- FDT_ERR_BADVERSION) else
    last ← fdt_last_comp_version fdt;
    if last >? FDT_LAST_SUPPORTED_VERSION then mret (- FDT_ERR_BADVERSION) else fits
  else if magic =? FDT_SW_MAGIC then
    size ← fdt_size_dt_struct fdt;
    if size =? 0 then mret (- FDT_ERR_BADSTATE) else fits
  else mret (- FDT_ERR_BADMAGIC).

Definition check_off_ (hdrsize totalsize off : Z) : bool := (hdrsize <=? off) && (off <=? totalsize).

Definition check_block_ (hdrsize totalsize base size : Z) : bool :=
  if negb (check_off_ hdrsize totalsize base) then false else
  if u32 (base + size) <? base then false else
  check_off_ hdrsize totalsize (u32 (base + size)).

Definition fdt_header_size_ (version : Z) : Z :=
  if version <=? 1 then 28 else
  if version <=? 2 then 32 else
  if version <=? 3 then 36 else
  if version <=? 16 then 36 else 40.

Definition fdt_header_size (fdt : Z) : M bmem Z := v ← fdt_version fdt; mret (fdt_header_size_ v).

(** The bounds checks of [fdt_check_header], after the magic and the version. *)
Definition check_layout (fdt hdrsize : Z) : M bmem Z :=
  total ← fdt_totalsize fdt;
  if (total <? hdrsize) || (total >? INT_MAX) then mret (- FDT_ERR_TRUNCATED) else
  rsv ← fdt_off_mem_rsvmap fdt;
  if negb (rsv mod 8 =? 0) then mret (- FDT_ERR_ALIGNMENT) else
  st ← fdt_off_dt_struct fdt;
  if negb (st mod FDT_TAGSIZE =? 0) then mret (- FDT_ERR_ALIGNMENT) else
  if negb (check_off_ hdrsize total rsv) then mret (- FDT_ERR_TRUNCATED) else
  version ← fdt_version fdt;
  struct_ok ← (if version <? 17 then mret (check_off_ hdrsize total st)
               else size ← fdt_size_dt_struct fdt; mret (check_block_ hdrsize total st size));
  if negb struct_ok then mret (- FDT_ERR_TRUNCATED) else
  str ← fdt_off_dt_strings fdt;
  strsize ← fdt_size_dt_strings fdt;
  if negb (check_block_ hdrsize total str strsize) then mret (- FDT_ERR_TRUNCATED) else mret 0.

Definition fdt_check_header (fdt : Z) : M bmem Z :=
  if negb (Z.land fdt 7 =? 0) then mret (- FDT_ERR_ALIGNMENT) else
  magic ← fdt_magic fdt;
  if negb (magic =? FDT_MAGIC) then mret (- FDT_ERR_BADMAGIC) else
  version ← fdt_version fdt;
  last ← fdt_last_comp_version fdt;
  if (version <? FDT_FIRST_SUPPORTED_VERSION) || (last >? FDT_LAST_SUPPORTED_VERSION)
  then mret (- FDT_ERR_BADVERSION) else
  if version <? last then mret (- FDT_ERR_BADVERSION) else
  hdrsize ← fdt_header_size fdt;
  check_layout fdt hdrsize.

Definition fdt_offset_ptr_ (fdt offset : Z) : M bmem Z :=
  st ← fdt_off_dt_struct fdt; mret (fdt + st + offset).

Definition fdt_offset_ptr (fdt offset len : Z) : M bmem Z :=
  st ← fdt_off_dt_struct fdt;
  let uoffset := u32 offset in
  let absoffset := u32 (offset + st) in
  if offset <? 0 then mret 0 else
  total ← fdt_totalsize fdt;
  if (absoffset <? uoffset) || (u32 (absoffset + len) <? absoffset) || (u32 (absoffset + len) >? total)
  then mret 0 else
  version ← fdt_version fdt;
  bad ← (if 0x11 <=? version then
           size ← fdt_size_dt_struct fdt;
           mret ((u32 (uoffset + len) <? uoffset) || (u32 (offset + len) >? size))
         else mret false);
  if bad : bool then mret 0 else fdt_offset_ptr_ fdt offset.

Definition FDT_TAGALIGN (x : Z) : Z := s32 (Z.land (u64 (x + FDT_TAGSIZE - 1)) (not64 (FDT_TAGSIZE - 1))).

(** [do p = fdt_offset_ptr(fdt, offset++, 1); while (p && *p != 0)]: the offset after the name, or
    nothing at a premature end.  The offset cannot pass [INT_MAX]. *)
Definition skip_name (fdt offset : Z) : M bmem (option Z) :=
  loop2 32 (fun offset =>
    p ← fdt_offset_ptr fdt offset 1;
    _ ← guard_ub (offset <? INT_MAX);
    if p =? 0 then mret (inr None) else
    c ← ldb p;
    if c =? 0 then mret (inr (Some (offset + 1))) else mret (inl (offset + 1))) offset.

(** The offset after the body of a property. *)
Definition skip_prop (fdt offset : Z) : M bmem (option Z) :=
  lenp ← fdt_offset_ptr fdt offset 4;
  if lenp =? 0 then mret None else
  len ← fdt32_ld lenp;
  let sum := u32 (len + offset) in
  if (INT_MAX <=? sum) || (sum <? u32 offset) then mret None else
  let offset := s32 (offset + 8 + len) in
  version ← fdt_version fdt;
  mret (Some (if (version <? 0x10) && (8 <=? len) && negb (u32 (offset - len) mod 8 =? 0)
              then s32 (offset + 4) else offset)).

(** The tag and the new [*nextoffset]. *)
Definition fdt_next_tag (fdt startoffset : Z) : M bmem (Z * Z) :=
  tagp ← fdt_offset_ptr fdt startoffset FDT_TAGSIZE;
  if tagp =? 0 then mret (FDT_END, - FDT_ERR_TRUNCATED) else
  tag ← fdt32_ld tagp;
  let offset := s32 (startoffset + FDT_TAGSIZE) in
  let bad := (FDT_END, - FDT_ERR_BADSTRUCTURE) in
  after ← (if tag =? FDT_BEGIN_NODE then skip_name fdt offset
           else if tag =? FDT_PROP then skip_prop fdt offset
           else if (tag =? FDT_END) || (tag =? FDT_END_NODE) || (tag =? FDT_NOP) then mret (Some offset)
           else mret None);
  match after with
  | None => mret bad
  | Some offset =>
      p ← fdt_offset_ptr fdt startoffset (u32 (offset - startoffset));
      mret (if p =? 0 then bad else (tag, FDT_TAGALIGN offset))
  end.

Definition check_tag_offset (want fdt offset : Z) : M bmem Z :=
  if (offset <? 0) || negb (offset mod FDT_TAGSIZE =? 0) then mret (- FDT_ERR_BADOFFSET) else
  r ← fdt_next_tag fdt offset;
  mret (if r.1 =? want then r.2 else - FDT_ERR_BADOFFSET).
Definition fdt_check_node_offset_ := check_tag_offset FDT_BEGIN_NODE.
Definition fdt_check_prop_offset_ := check_tag_offset FDT_PROP.

(** [depth] is [None] for a NULL pointer; the result comes with the new depth. *)
Definition fdt_next_node (fdt offset : Z) (depth : option Z) : M bmem (Z * option Z) :=
  nextoffset ← (if 0 <=? offset then fdt_check_node_offset_ fdt offset else mret 0);
  if nextoffset <? 0 then mret (nextoffset, depth) else
  loop2 32 (fun st : Z * option Z =>
    let '(offset, depth) := st in
    '(tag, nextoffset) ← fdt_next_tag fdt offset;
    if tag =? FDT_BEGIN_NODE then mret (inr (offset, (fun d => d + 1) <$> depth)) else
    if tag =? FDT_END_NODE then
      match depth with
      | Some d => if d - 1 <? 0 then mret (inr (nextoffset, Some (d - 1)))
                  else mret (inl (nextoffset, Some (d - 1)))
      | None => mret (inl (nextoffset, None))
      end
    else if tag =? FDT_END then
      mret (inr (if (0 <=? nextoffset) || ((nextoffset =? - FDT_ERR_TRUNCATED) && bool_decide (depth = None))
                 then - FDT_ERR_NOTFOUND else nextoffset, depth))
    else mret (inl (nextoffset, depth))) (nextoffset, depth).

Definition depth_of (d : option Z) : Z := default 0 d.

Definition fdt_first_subnode (fdt offset : Z) : M bmem Z :=
  '(offset, depth) ← fdt_next_node fdt offset (Some 0);
  mret (if (offset <? 0) || negb (depth_of depth =? 1) then - FDT_ERR_NOTFOUND else offset).

Definition fdt_next_subnode (fdt offset : Z) : M bmem Z :=
  loop2 32 (fun st : Z * Z =>
    let '(offset, depth) := st in
    '(offset, depth) ← fdt_next_node fdt offset (Some depth);
    let depth := depth_of depth in
    if (offset <? 0) || (depth <? 1) then mret (inr (- FDT_ERR_NOTFOUND))
    else if depth >? 1 then mret (inl (offset, depth)) else mret (inr offset)) (offset, 1).

Definition fdt_find_string_len_ (strtab tabsize s slen : Z) : M bmem Z :=
  let last := strtab + tabsize - (slen + 1) in
  scan_bytes (fun p =>
    if p <=? last then
      r ← memcmp p s slen;
      if r =? 0 then
        c ← ldb (p + slen);
        if c =? 0 then mret (inr p) else mret (inl (p + 1))
      else mret (inl (p + 1))
    else mret (inr 0)) strtab.

Definition fdt_move (fdt buf bufsize : Z) : M bmem Z :=
  if bufsize <? 0 then mret (- FDT_ERR_NOSPACE) else
  probe ← fdt_ro_probe_ fdt;
  if probe <? 0 then mret probe else
  total ← fdt_totalsize fdt;
  if total >? bufsize then mret (- FDT_ERR_NOSPACE) else
  _ ← memmove buf fdt total;
  mret 0.

(** ** fdt_ro.c: strings and properties *)

(** The string and its length, or NULL and the error. *)
Definition fdt_get_string (fdt stroffset : Z) : M bmem (Z * Z) :=
  totalsize ← fdt_ro_probe_ fdt;
  if totalsize <? 0 then mret (0, totalsize) else
  strings ← fdt_off_dt_strings fdt;
  let absoffset := u32 (stroffset + strings) in
  if totalsize <=? absoffset then mret (0, - FDT_ERR_BADOFFSET) else
  let finish (len : Z) : M bmem (Z * Z) :=
    let s := fdt + absoffset in
    n ← memchr s 0 len;
    mret (if n =? 0 then (0, - FDT_ERR_TRUNCATED) else (s, n - s)) in
  let len := totalsize - absoffset in
  magic ← fdt_magic fdt;
  if magic =? FDT_MAGIC then
    if stroffset <? 0 then mret (0, - FDT_ERR_BADOFFSET) else
    version ← fdt_version fdt;
    if 17 <=? version then
      size ← fdt_size_dt_strings fdt;
      if size <=? stroffset then mret (0, - FDT_ERR_BADOFFSET) else
      finish (if size - stroffset <? len then size - stroffset else len)
    else finish len
  else if magic =? FDT_SW_MAGIC then
    let sw_stroffset := u32 (- stroffset) in
    size ← fdt_size_dt_strings fdt;
    if (0 <=? stroffset) || (sw_stroffset >? size) then mret (0, - FDT_ERR_BADOFFSET) else
    finish (if sw_stroffset <? len then sw_stroffset else len)
  else mret (0, - FDT_ERR_INTERNAL).

Definition fdt_string (fdt stroffset : Z) : M bmem Z := r ← fdt_get_string fdt stroffset; mret r.1.

Definition fdt_string_eq_ (fdt stroffset s len : Z) : M bmem bool :=
  '(p, slen) ← fdt_get_string fdt stroffset;
  if p =? 0 then mret false else
  if negb (slen =? len) then mret false else
  r ← memcmp p s len;
  mret (r =? 0).

Definition nextprop_ (fdt offset : Z) : M bmem Z :=
  loop2 32 (fun offset =>
    '(tag, nextoffset) ← fdt_next_tag fdt offset;
    if tag =? FDT_END then
      mret (inr (if 0 <=? nextoffset then - FDT_ERR_BADSTRUCTURE else nextoffset))
    else if tag =? FDT_PROP then mret (inr offset)
    else if tag =? FDT_NOP then mret (inl nextoffset)
    else mret (inr (- FDT_ERR_NOTFOUND))) offset.

Definition fdt_first_property_offset (fdt nodeoffset : Z) : M bmem Z :=
  offset ← fdt_check_node_offset_ fdt nodeoffset;
  if offset <? 0 then mret offset else nextprop_ fdt offset.

Definition fdt_next_property_offset (fdt offset : Z) : M bmem Z :=
  offset ← fdt_check_prop_offset_ fdt offset;
  if offset <? 0 then mret offset else nextprop_ fdt offset.

(** The property and its length. *)
Definition fdt_get_property_by_offset_ (fdt offset : Z) : M bmem (Z * Z) :=
  err ← fdt_check_prop_offset_ fdt offset;
  if err <? 0 then mret (0, err) else
  prop ← fdt_offset_ptr_ fdt offset;
  len ← fdt32_ld (prop + 4);
  mret (prop, s32 len).

Definition fdt_get_property_by_offset (fdt offset : Z) : M bmem (Z * Z) :=
  version ← fdt_version fdt;
  if version <? 0x10 then mret (0, - FDT_ERR_BADVERSION) else fdt_get_property_by_offset_ fdt offset.

(** The property, its length or the error, and its offset. *)
Definition fdt_get_property_namelen_ (fdt offset name namelen : Z) : M bmem (Z * Z * Z) :=
  first ← fdt_first_property_offset fdt offset;
  loop2 32 (fun offset =>
    if 0 <=? offset then
      '(prop, len) ← fdt_get_property_by_offset_ fdt offset;
      if prop =? 0 then mret (inr (0, - FDT_ERR_INTERNAL, - FDT_ERR_INTERNAL)) else
      nameoff ← fdt32_ld (prop + 8);
      eq ← fdt_string_eq_ fdt (s32 nameoff) name namelen;
      if eq : bool then mret (inr (prop, len, offset)) else
      next ← fdt_next_property_offset fdt offset;
      mret (inl next)
    else mret (inr (0, offset, offset))) first.

Definition fdt_get_property_namelen (fdt offset name namelen : Z) : M bmem (Z * Z) :=
  version ← fdt_version fdt;
  if version <? 0x10 then mret (0, - FDT_ERR_BADVERSION) else
  r ← fdt_get_property_namelen_ fdt offset name namelen; mret r.1.

Definition fdt_get_property (fdt nodeoffset name : Z) : M bmem (Z * Z) :=
  n ← strlen name; fdt_get_property_namelen fdt nodeoffset name (s32 n).

(** The realignment of old versions. *)
Definition prop_data (fdt prop poffset : Z) : M bmem Z :=
  version ← fdt_version fdt;
  if (version <? 0x10) && negb (u64 (poffset + 12) mod 8 =? 0) then
    len ← fdt32_ld (prop + 4);
    mret (if 8 <=? len then prop + 12 + 4 else prop + 12)
  else mret (prop + 12).

Definition fdt_getprop_namelen (fdt nodeoffset name namelen : Z) : M bmem (Z * Z) :=
  '(prop, len, poffset) ← fdt_get_property_namelen_ fdt nodeoffset name namelen;
  if prop =? 0 then mret (0, len) else
  data ← prop_data fdt prop poffset; mret (data, len).

(** The data, its length and the property's name. *)
Definition fdt_getprop_by_offset (fdt offset : Z) : M bmem (Z * Z * Z) :=
  '(prop, len) ← fdt_get_property_by_offset_ fdt offset;
  if prop =? 0 then mret (0, len, 0) else
  nameoff ← fdt32_ld (prop + 8);
  '(name, namelen) ← fdt_get_string fdt (s32 nameoff);
  if name =? 0 then mret (0, namelen, 0) else
  data ← prop_data fdt prop offset; mret (data, len, name).

Definition fdt_getprop (fdt nodeoffset name : Z) : M bmem (Z * Z) :=
  n ← strlen name; fdt_getprop_namelen fdt nodeoffset name (s32 n).

(** ** fdt_ro.c: nodes and paths *)

Definition fdt_get_name (fdt nodeoffset : Z) : M bmem (Z * Z) :=
  nh ← fdt_offset_ptr_ fdt nodeoffset;
  probe ← fdt_ro_probe_ fdt;
  if probe <? 0 then mret (0, probe) else
  err ← fdt_check_node_offset_ fdt nodeoffset;
  if err <? 0 then mret (0, err) else
  version ← fdt_version fdt;
  let named (p : Z) : M bmem (Z * Z) := n ← strlen p; mret (p, s32 n) in
  if version <? 0x10 then
    leaf ← strrchr (nh + 4) 47;
    if leaf =? 0 then mret (0, - FDT_ERR_BADSTRUCTURE) else named (leaf + 1)
  else named (nh + 4).

Definition fdt_nodename_eq_ (fdt offset s len : Z) : M bmem bool :=
  '(p, olen) ← fdt_get_name fdt offset;
  if (p =? 0) || (olen <? len) then mret false else
  r ← memcmp p s len;
  if negb (r =? 0) then mret false else
  c ← ldb (p + len);
  if c =? 0 then mret true else
  at_ ← memchr s 64 len;
  mret ((at_ =? 0) && (c =? 64)).

Definition fdt_subnode_offset_namelen (fdt offset name namelen : Z) : M bmem Z :=
  probe ← fdt_ro_probe_ fdt;
  if probe <? 0 then mret probe else
  loop2 32 (fun st : Z * Z =>
    let '(offset, depth) := st in
    if (0 <=? offset) && (0 <=? depth) then
      eq ← (if depth =? 1 then fdt_nodename_eq_ fdt offset name namelen else mret false);
      if eq : bool then mret (inr offset) else
      '(offset, depth) ← fdt_next_node fdt offset (Some depth);
      mret (inl (offset, depth_of depth))
    else mret (inr (if depth <? 0 then - FDT_ERR_NOTFOUND else offset))) (offset, 0).

Definition fdt_subnode_offset (fdt parentoffset name : Z) : M bmem Z :=
  n ← strlen name; fdt_subnode_offset_namelen fdt parentoffset name (s32 n).

(** [while ( *p == '/')]: the position after the slashes, or the end of the path. *)
Definition skip_slashes (p end_ : Z) : M bmem Z :=
  scan_bytes (fun p =>
    c ← ldb p;
    if c =? 47 then if p + 1 =? end_ then mret (inr end_) else mret (inl (p + 1)) else mret (inr p)) p.

(** The components of a path below [offset]. *)
Definition walk_path (fdt p end_ offset : Z) : M bmem Z :=
  scan_bytes (fun st : Z * Z =>
    let '(p, offset) := st in
    if p <? end_ then
      p ← skip_slashes p end_;
      if p =? end_ then mret (inr offset) else
      q ← memchr p 47 (end_ - p);
      let q := if q =? 0 then end_ else q in
      offset ← fdt_subnode_offset_namelen fdt offset p (q - p);
      if offset <? 0 then mret (inr offset) else mret (inl (q, offset))
    else mret (inr offset)) (p, offset).

Section literals.
Context (lit : String.string -> Z).

(** An alias is looked up in [/aliases] and names an absolute path, so two rounds of the
    recursion are enough. *)
Fixpoint fdt_path_offset_namelen (rounds : nat) (fdt path namelen : Z) : M bmem Z :=
  probe ← fdt_ro_probe_ fdt;
  if probe <? 0 then mret probe else
  if namelen <=? 0 then mret (- FDT_ERR_BADPATH) else
  let end_ := path + namelen in
  c ← ldb path;
  if negb (c =? 47) then
    q ← memchr path 47 (end_ - path);
    let q := if q =? 0 then end_ else q in
    match rounds with
    | O => diverge
    | S rounds' =>
        let path_offset p := n ← strlen p; fdt_path_offset_namelen rounds' fdt p (s32 n) in
        aliases ← path_offset (lit "/aliases"%string);
        alias ← (if aliases <? 0 then mret (0, 0) else fdt_getprop_namelen fdt aliases path (q - path));
        let '(alias, len) := alias in
        ok ← (if (alias =? 0) || (len <=? 0) then mret false else
              last ← ldb (alias + len - 1);
              first ← ldb alias;
              mret ((last =? 0) && (first =? 47)));
        if negb ok then mret (- FDT_ERR_BADPATH) else
        offset ← path_offset alias;
        walk_path fdt q end_ offset
    end
  else walk_path fdt path end_ 0.

Definition fdt_path_offset (fdt path : Z) : M bmem Z :=
  n ← strlen path; fdt_path_offset_namelen 2 fdt path (s32 n).

Definition fdt_get_phandle (fdt nodeoffset : Z) : M bmem Z :=
  '(php, len) ← fdt_getprop fdt nodeoffset (lit "phandle"%string);
  if negb (php =? 0) && (len =? 4) then fdt32_ld php else
  '(php, len) ← fdt_getprop fdt nodeoffset (lit "linux,phandle"%string);
  if (php =? 0) || negb (len =? 4) then mret 0 else fdt32_ld php.
End literals.
