(* ===== verification/FdtTheory.v ===== *)
(** Walking the structure block of a device tree safely ([driver/fdt/fdt.c]): a blob that passed
    [fdt_check_header] can be tokenised and searched without leaving it, whatever its contents are. *)
From S2P Require Import Prelude Libc Fdt.

Implicit Types m : bmem.

Ltac case_if E := match goal with |- wp (if ?b then _ else _) _ _ => destruct b eqn:E end.

(** ** Reading the header *)

Definition byte m (p : Z) : Z := default 0 (m !! p).
Definition word32 m (p : Z) : Z := byte m p * 2 ^ 24 + byte m (p + 1) * 2 ^ 16 + byte m (p + 2) * 2 ^ 8 + byte m (p + 3).

Definition total_of m fdt := word32 m (fdt + 4).
Definition struct_of m fdt := word32 m (fdt + 8).
Definition version_of m fdt := word32 m (fdt + 20).
Definition struct_size_of m fdt := word32 m (fdt + 36).

Lemma mapped_sub m p n q k : mapped m p n -> p <= q -> q + k <= p + n -> mapped m q k.
Proof. intros Hm H1 H2 a Ha. apply Hm. lia. Qed.

Lemma wp_ldb_byte p n q (Q : Z -> bmem -> Prop) m : mapped m p n -> p <= q < p + n -> Q (byte m q) m -> wp (ldb q) Q m.
Proof. intros Hm Hq HQ. destruct (Hm q Hq) as [c Hc]. eapply wp_ldb; [exact Hc|]. unfold byte in HQ. by rewrite Hc in HQ. Qed.

Lemma wp_fdt32_ld p n q (Q : Z -> bmem -> Prop) m : mapped m p n -> p <= q -> q + 4 <= p + n -> Q (word32 m q) m ->
  wp (fdt32_ld q) Q m.
Proof.
  intros Hm H1 H2 HQ. unfold fdt32_ld. do 4 (wp_step; eapply wp_ldb_byte; [exact Hm|lia|]). wp_step. exact HQ.
Qed.

Lemma byte_range m p : bytes_ok m -> 0 <= byte m p < 256.
Proof. intros Hb. unfold byte. destruct (m !! p) as [c|] eqn:E; cbn; [by eapply Hb|lia]. Qed.
Lemma word32_range m p : bytes_ok m -> 0 <= word32 m p < 2 ^ 32.
Proof.
  intros Hb. unfold word32. pose proof (byte_range m p Hb). pose proof (byte_range m (p + 1) Hb).
  pose proof (byte_range m (p + 2) Hb). pose proof (byte_range m (p + 3) Hb). lia.
Qed.

(** A mapped blob whose header is sound. *)
Record blob m (fdt : Z) : Prop := {
  bl_bytes : bytes_ok m;
  bl_addr : 0 < fdt;
  bl_total : 28 <= total_of m fdt <= INT_MAX;
  bl_header : mapped m fdt 40;
  bl_mapped : mapped m fdt (total_of m fdt);
  bl_struct : 28 <= struct_of m fdt <= total_of m fdt;
}.

Lemma wp_header m fdt k (Q : Z -> bmem -> Prop) : mapped m fdt 40 -> 0 <= k <= 36 -> Q (word32 m (fdt + k)) m ->
  wp (fdt32_ld (fdt + k)) Q m.
Proof. intros Hm Hk HQ. eapply wp_fdt32_ld; [exact Hm|lia|lia|exact HQ]. Qed.

(** What a zero result of [fdt_check_header] says. *)
Lemma wp_check_header m fdt : bytes_ok m -> mapped m fdt 40 ->
  wp (fdt_check_header fdt) (fun r m' => m' = m /\ (r = 0 ->
    28 <= total_of m fdt <= INT_MAX /\ 28 <= struct_of m fdt <= total_of m fdt)) m.
Proof.
  intros Hb Hm. pose proof (word32_range m (fdt + 8) Hb). pose proof (word32_range m (fdt + 20) Hb).
  assert (Hhs : forall v, 28 <= fdt_header_size_ v) by (intros v; unfold fdt_header_size_; repeat case_match; lia).
  unfold fdt_check_header, check_layout, fdt_header_size, fdt_magic, fdt_version, fdt_last_comp_version, fdt_totalsize,
    fdt_off_mem_rsvmap, fdt_off_dt_struct, fdt_size_dt_struct, fdt_off_dt_strings, fdt_size_dt_strings.
  replace (fdt32_ld fdt) with (fdt32_ld (fdt + 0)) by (f_equal; lia).
  repeat first
    [ wp_step
    | apply wp_header; [exact Hm|lia|]
    | let E := fresh "E" in case_if E ].
  all: split; [reflexivity|]; try discriminate; intros _; unfold total_of, struct_of; pose proof (Hhs (word32 m (fdt + 20)));
    unfold check_block_ in *; repeat case_match; unfold check_off_ in *; unfold INT_MAX in *; lia.
Qed.

(** Ready to be read: aligned, mapped, and accepted by [fdt_check_header]. *)
Lemma checked_blob m fdt : bytes_ok m -> 0 < fdt -> mapped m fdt 40 -> mapped m fdt (total_of m fdt) ->
  fdt_check_header fdt m = Done (0, m) -> blob m fdt.
Proof.
  intros Hb H0 Hm Ht Hrun. pose proof (wp_check_header m fdt Hb Hm) as Hwp. unfold wp in Hwp. rewrite Hrun in Hwp.
  destruct Hwp as [_ Hwp]. destruct (Hwp eq_refl) as [H1 H2]. by split.
Qed.

(** ** Offsets *)

(** [len] bytes at [offset] of the structure block are inside it. *)
Definition in_struct m fdt offset len : Prop :=
  0 <= offset /\ struct_of m fdt + offset + len <= total_of m fdt /\
  (17 <= version_of m fdt -> offset + len <= struct_size_of m fdt).

Definition is_int (z : Z) : Prop := - 2 ^ 31 <= z < 2 ^ 31.

Section blob.
Context (m : bmem) (fdt : Z) (Hb : blob m fdt).

Lemma wp_offset_ptr offset len (Q : Z -> bmem -> Prop) : is_int offset -> 0 <= len < 2 ^ 32 ->
  (in_struct m fdt offset len -> Q (fdt + struct_of m fdt + offset) m) ->
  (~ in_struct m fdt offset len -> Q 0 m) ->
  wp (fdt_offset_ptr fdt offset len) Q m.
Proof.
  destruct Hb as [Hbytes H0 Ht Hh _ Hs]. intros Ho Hl HQ HQ0. unfold is_int, INT_MAX in *.
  pose proof (word32_range m (fdt + 36) Hbytes). unfold struct_of, total_of in *.
  unfold fdt_offset_ptr, fdt_offset_ptr_, fdt_off_dt_struct, fdt_totalsize, fdt_version, fdt_size_dt_struct.
  wp_step. apply wp_header; [exact Hh|lia|].
  destruct (Z.ltb_spec offset 0); [wp_step; apply HQ0; unfold in_struct; lia|].
  wp_step. apply wp_header; [exact Hh|lia|]. rewrite (u32_small offset) by lia.
  case_if E1.
  { wp_step. apply HQ0. unfold in_struct, struct_of, total_of. intros (_ & Hin & _). unfold u32 in E1. lia. }
  wp_step. apply wp_header; [exact Hh|lia|]. wp_step.
  assert (Hin : word32 m (fdt + 8) + offset + len <= word32 m (fdt + 4)) by (unfold u32 in E1; lia).
  destruct (Z.leb_spec 17 (word32 m (fdt + 20))).
  - wp_step. apply wp_header; [exact Hh|lia|]. wp_step. rewrite !u32_small by lia. case_if E2.
    + wp_step. apply HQ0. unfold in_struct, version_of, struct_size_of. intros (_ & _ & Hv). lia.
    + wp_step. apply wp_header; [exact Hh|lia|]. wp_step. apply HQ. unfold in_struct, version_of, struct_size_of, struct_of, total_of. lia.
  - do 2 wp_step. apply wp_header; [exact Hh|lia|]. wp_step. apply HQ.
    unfold in_struct, version_of, struct_size_of, struct_of, total_of. lia.
Qed.

(** A pointer into the block is not NULL, and its bytes are mapped. *)
Lemma struct_ptr offset len : in_struct m fdt offset len -> fdt + struct_of m fdt + offset <> 0 /\
  mapped m (fdt + struct_of m fdt + offset) len.
Proof.
  destruct Hb as [_ H0 Ht _ Hm Hs]. intros (Ho & Hin & _). split; [lia|]. eapply mapped_sub; [exact Hm|lia|lia].
Qed.

(** ** Tokens *)

Definition at_ (offset : Z) : Z := fdt + struct_of m fdt + offset.

(** The value of a property in an old tree is aligned when it is long enough. *)
Definition old_pad (off len : Z) : Z :=
  if (version_of m fdt <? 16) && (8 <=? len) && negb ((off + 12) mod 8 =? 0) then 4 else 0.

(** [token off tag end]: the token at [off] has tag [tag] and ends before [end]. *)
Inductive token (off : Z) : Z -> Z -> Prop :=
| TokPlain tag : tag = FDT_END \/ tag = FDT_END_NODE \/ tag = FDT_NOP -> word32 m (at_ off) = tag -> token off tag (off + 4)
| TokNode n : 0 <= n -> word32 m (at_ off) = FDT_BEGIN_NODE ->
    (forall i, 0 <= i < n -> byte m (at_ (off + 4 + i)) <> 0) -> byte m (at_ (off + 4 + n)) = 0 ->
    token off FDT_BEGIN_NODE (off + 4 + n + 1)
| TokProp len : word32 m (at_ off) = FDT_PROP -> len = word32 m (at_ (off + 4)) ->
    token off FDT_PROP (off + 12 + len + old_pad off len).

Lemma token_fun off t e t' e' : token off t e -> token off t' e' -> t = t' /\ e = e'.
Proof.
  unfold FDT_END, FDT_END_NODE, FDT_NOP, FDT_BEGIN_NODE, FDT_PROP in *.
  intros [tag Ht Hw|n Hn Hw Hnz Hz|len Hw ->] [tag' Ht' Hw'|n' Hn' Hw' Hnz' Hz'|len' Hw' ->];
    unfold FDT_END, FDT_END_NODE, FDT_NOP, FDT_BEGIN_NODE, FDT_PROP in *; try lia.
  assert (n = n') as ->; [|done]. destruct (Z.lt_trichotomy n n') as [Hlt|[E|Hlt]]; [|exact E|].
  - by destruct (Hnz' n); [lia|].
  - by destruct (Hnz n'); [lia|].
Qed.

Lemma token_after off t e : token off t e -> off + 4 <= e.
Proof.
  intros [tag _ _|n Hn _ _ _|len _ ->]; [lia|lia|].
  pose proof (word32_range m (at_ (off + 4)) (bl_bytes _ _ Hb)). unfold old_pad. case_match; lia.
Qed.

(** Where a scan for the end of a name stops. *)
Lemma wp_skip_name off (Q : option Z -> bmem -> Prop) : in_struct m fdt off 4 -> word32 m (at_ off) = FDT_BEGIN_NODE ->
  (forall e, token off FDT_BEGIN_NODE e -> in_struct m fdt off (e - off) -> Q (Some e) m) ->
  ((forall e, token off FDT_BEGIN_NODE e -> ~ in_struct m fdt off (e - off)) -> Q None m) ->
  wp (skip_name fdt (off + 4)) Q m.
Proof.
  intros Hin Hw HQ HQ0. pose proof (bl_total _ _ Hb) as Ht. pose proof (bl_struct _ _ Hb) as Hs. unfold INT_MAX in *.
  unfold skip_name.
  apply (wp_loop2 (fun o m' => m' = m /\ off + 4 <= o /\ struct_of m fdt + o <= total_of m fdt /\
    (17 <= version_of m fdt -> o <= struct_size_of m fdt) /\
    (forall i, 0 <= i < o - (off + 4) -> byte m (at_ (off + 4 + i)) <> 0)) (fun o _ => total_of m fdt - o)).
  - destruct Hin as (Ho & Hin & Hv). split; [done|]. split; [lia|]. split; [lia|]. split; [lia|]. intros i Hi. lia.
  - destruct Hin as (Ho & Hin & Hv). change (2 ^ Z.of_nat 32) with 4294967296. lia.
  - intros o m' (-> & Ho & Hot & Hov & Hnz). destruct Hin as (Hoff & Hin & Hv).
    wp_step. apply wp_offset_ptr; [unfold is_int; lia|lia| |].
    + intros Hio. destruct (struct_ptr _ _ Hio) as [Hp Hmp]. wp_step. wp_step; [unfold INT_MAX; lia|].
      rewrite (proj2 (Z.eqb_neq _ 0)) by exact Hp. wp_step. eapply wp_ldb_byte; [exact Hmp|lia|].
      destruct Hio as (_ & Hio & Hio').
      destruct (Z.eqb_spec (byte m (fdt + struct_of m fdt + o)) 0) as [Hz|Hz]; wp_step.
      * replace (o + 1) with (off + 4 + (o - (off + 4)) + 1) by lia. apply HQ.
        -- apply TokNode; [lia|exact Hw|exact Hnz|]. unfold at_. by replace (off + 4 + (o - (off + 4))) with o by lia.
        -- unfold in_struct. lia.
      * split; [|lia]. split; [done|]. split; [lia|]. split; [lia|]. split; [lia|]. intros i Hi.
        destruct (decide (i = o - (off + 4))) as [->|Hne]; [|apply Hnz; lia].
        unfold at_. by replace (off + 4 + (o - (off + 4))) with o by lia.
    + intros Hno. wp_step. wp_step; [unfold INT_MAX; lia|]. rewrite Z.eqb_refl. wp_step. apply HQ0.
      intros e Htok (He1 & He2 & He3). apply Hno. inversion Htok as [tag [?|[?|?]] ?|n Hn _ Hnz' Hz|]; subst; try done.
      assert (o <= off + 4 + n); [|unfold in_struct; lia].
      destruct (decide (o <= off + 4 + n)); [done|]. by destruct (Hnz n); [lia|].
Qed.

Lemma wp_skip_prop off (Q : option Z -> bmem -> Prop) : in_struct m fdt off 4 -> word32 m (at_ off) = FDT_PROP ->
  (forall e, token off FDT_PROP e -> off + 4 <= e < off + 2 ^ 32 -> Q (Some (s32 e)) m) ->
  ((forall e, token off FDT_PROP e -> ~ in_struct m fdt off (e - off)) -> Q None m) ->
  wp (skip_prop fdt (off + 4)) Q m.
Proof.
  intros (Ho & Hin & Hv) Hw HQ HQ0. pose proof (bl_total _ _ Hb) as Ht. pose proof (bl_struct _ _ Hb) as Hs. unfold INT_MAX in *.
  assert (Hend : forall e, token off FDT_PROP e -> e = off + 12 + word32 m (at_ (off + 4)) + old_pad off (word32 m (at_ (off + 4)))).
  { intros e Htok. by inversion Htok as [tag [?|[?|?]] ?| |len _ ->]; subst. }
  pose proof (word32_range m (at_ (off + 4)) (bl_bytes _ _ Hb)) as Hlen.
  unfold skip_prop. wp_step. apply wp_offset_ptr; [unfold is_int; lia|lia| |].
  - intros Hio. destruct (struct_ptr _ _ Hio) as [Hp Hmp]. rewrite (proj2 (Z.eqb_neq _ 0)) by exact Hp.
    wp_step. eapply wp_fdt32_ld; [exact Hmp|lia|lia|]. fold (at_ (off + 4)). remember (word32 m (at_ (off + 4))) as len eqn:Elen.
    cbn zeta. case_if E.
    { wp_step. apply HQ0. intros e Htok (_ & He & _). rewrite (Hend e Htok) in He.
      assert (0 <= old_pad off len) by (unfold old_pad; case_match; lia). unfold u32, INT_MAX in E. lia. }
    assert (Hsum : len + off + 4 < 2 ^ 31 - 1) by (unfold u32, INT_MAX in E; lia).
    unfold fdt_version. wp_step. apply wp_header; [apply (bl_header _ _ Hb)|lia|]. wp_step.
    assert (Hmod : u32 (s32 (off + 4 + 8 + len) - len) mod 8 = (off + 12) mod 8) by (unfold s32, u32; case_match; lia).
    rewrite Hmod. specialize (HQ _ (TokProp off len Hw Elen)). unfold old_pad, version_of in HQ. change 0x10 with 16.
    assert (H4 : s32 (s32 (off + 4 + 8 + len) + 4) = s32 (off + 12 + len + 4)) by (unfold s32, u32; repeat case_match; lia).
    assert (H0 : s32 (off + 4 + 8 + len) = s32 (off + 12 + len + 0)) by (f_equal; lia).
    rewrite H4. rewrite H0. destruct (_ && _); apply HQ; lia.
  - intros Hno. rewrite Z.eqb_refl. wp_step. apply HQ0. intros e Htok (_ & He & He'). apply Hno.
    pose proof (Hend e Htok). assert (0 <= old_pad off (word32 m (at_ (off + 4)))) by (unfold old_pad; case_match; lia).
    unfold in_struct. lia.
Qed.

Definition align4 (z : Z) : Z := z + 3 - (z + 3) mod 4.

Lemma tagalign z : 0 <= z -> z + 3 < 2 ^ 31 -> FDT_TAGALIGN z = align4 z.
Proof.
  intros H0 H1. unfold FDT_TAGALIGN, FDT_TAGSIZE, align4. rewrite u64_small by lia. change (4 - 1) with (2 ^ 2 - 1).
  rewrite land_not_mask by (unfold is_u64; lia). unfold s32. rewrite u32_small by lia.
  replace (z + 4 - 1) with (z + 3) by lia. change (2 ^ 2) with 4. test_true. done.
Qed.

Lemma s32_diff e off : off <= e < off + 2 ^ 32 -> u32 (s32 e - off) = e - off.
Proof. intros H. unfold s32, u32. case_match; lia. Qed.

(** What [fdt_next_tag] answers at an offset. *)
Inductive next_tag_post (off : Z) : Z * Z -> Prop :=
| TagTruncated : ~ in_struct m fdt off 4 -> next_tag_post off (FDT_END, - FDT_ERR_TRUNCATED)
| TagBad : in_struct m fdt off 4 -> (forall tag e, token off tag e -> ~ in_struct m fdt off (e - off)) ->
    next_tag_post off (FDT_END, - FDT_ERR_BADSTRUCTURE)
| TagOk tag e : token off tag e -> in_struct m fdt off (e - off) -> next_tag_post off (tag, align4 e).

Lemma token_tag off tag e : token off tag e -> word32 m (at_ off) = tag.
Proof. by intros [? ? ?|? ? ? ? ?|? ? ?]. Qed.

Lemma wp_next_tag off : is_int off -> wp (fdt_next_tag fdt off) (fun r m' => m' = m /\ next_tag_post off r) m.
Proof.
  intros Hoff. pose proof (bl_total _ _ Hb) as Ht. pose proof (bl_struct _ _ Hb) as Hs. unfold INT_MAX in *.
  unfold fdt_next_tag. wp_step. apply wp_offset_ptr; [exact Hoff|unfold FDT_TAGSIZE; lia| |].
  2:{ intros Hno. rewrite Z.eqb_refl. wp_step. split; [done|]. by apply TagTruncated. }
  intros Hio. destruct (struct_ptr _ _ Hio) as [Hp Hmp]. rewrite (proj2 (Z.eqb_neq _ 0)) by exact Hp.
  unfold FDT_TAGSIZE in *. wp_step. eapply wp_fdt32_ld; [exact Hmp|lia|lia|]. fold (at_ off). cbn zeta.
  destruct (Hio) as (Ho & Hin & Hv). assert (Hs4 : s32 (off + 4) = off + 4) by (unfold s32; rewrite u32_small by lia; test_true; done).
  rewrite Hs4. set (tag := word32 m (at_ off)) in *.
  (* the second check, once the end of the token is known *)
  assert (Hfin : forall e, token off tag e -> off + 4 <= e < off + 2 ^ 32 ->
    wp (p ← fdt_offset_ptr fdt off (u32 (s32 e - off));
        mret (if p =? 0 then (FDT_END, - FDT_ERR_BADSTRUCTURE) else (tag, FDT_TAGALIGN (s32 e))))
       (fun r m' => m' = m /\ next_tag_post off r) m).
  { intros e Htok He. rewrite s32_diff by lia. wp_step. apply wp_offset_ptr; [exact Hoff|lia| |].
    - intros Hie. destruct (struct_ptr _ _ Hie) as [Hpe _]. rewrite (proj2 (Z.eqb_neq _ 0)) by exact Hpe.
      wp_step. split; [done|]. destruct (Hie) as (_ & Hie2 & _).
      assert (Hse : s32 e = e) by (unfold s32; rewrite u32_small by lia; test_true; done).
      rewrite Hse, tagalign by lia. by apply TagOk.
    - intros Hno. rewrite Z.eqb_refl. wp_step. split; [done|]. apply TagBad; [exact Hio|].
      intros t e' Htok'. by destruct (token_fun _ _ _ _ _ Htok Htok') as [<- <-]. }
  assert (Hbad : (forall e, token off tag e -> ~ in_struct m fdt off (e - off)) ->
    wp (mret (FDT_END, - FDT_ERR_BADSTRUCTURE)) (fun r m' => m' = m /\ next_tag_post off r) m).
  { intros Hno. wp_step. split; [done|]. apply TagBad; [exact Hio|]. intros t e Htok.
    pose proof (token_tag _ _ _ Htok) as E. fold tag in E. subst t. by apply Hno. }
  wp_step. destruct (Z.eqb_spec tag FDT_BEGIN_NODE) as [E|E]; [|destruct (Z.eqb_spec tag FDT_PROP) as [E'|E']].
  - apply wp_skip_name; [exact Hio|exact E| |].
    + intros e Htok (_ & He & _). assert (Hse : s32 e = e).
      { pose proof (token_after _ _ _ Htok). unfold s32; rewrite u32_small by lia; test_true; done. }
      rewrite <- E in Htok. pose proof (token_after _ _ _ Htok). pose proof (Hfin e Htok ltac:(lia)) as Hf. by rewrite Hse in Hf.
    + intros Hno. apply Hbad. by rewrite E.
  - apply wp_skip_prop; [exact Hio|exact E'| |].
    + intros e Htok He. apply Hfin; [by rewrite E'|exact He].
    + intros Hno. apply Hbad. by rewrite E'.
  - case_if Ek; wp_step.
    + pose proof (Hfin (off + 4)) as Hf. rewrite Hs4 in Hf. apply Hf; [|lia]. apply TokPlain; [lia|reflexivity].
    + apply Hbad. intros e Htok. exfalso. pose proof (token_tag _ _ _ Htok). 
      inversion Htok as [t [?|[?|?]] ?|n Hn _ _ _|len _ _]; subst; lia.
Qed.
End blob.

(** C30: on a blob that passed [fdt_check_header], [fdt_next_tag] returns at every [int] offset without leaving
    the blob or changing it, whatever the bytes are: TRUNCATED when there is no tag at the offset,
    BADSTRUCTURE when no token that starts there lies inside the structure block, and otherwise the tag of
    the only one, with an aligned offset after its end. *)
Theorem fdt_next_tag_correct m fdt off : bytes_ok m -> 0 < fdt -> mapped m fdt 40 -> mapped m fdt (total_of m fdt) ->
  fdt_check_header fdt m = Done (0, m) -> is_int off ->
  exists tag next, fdt_next_tag fdt off m = Done ((tag, next), m) /\ next_tag_post m fdt off (tag, next) /\
    (next < 0 \/ (off < next <= total_of m fdt /\ next mod 4 = 0)).
Proof.
  intros Hb H0 Hm Ht Hc Hoff. pose proof (checked_blob m fdt Hb H0 Hm Ht Hc) as Hbl.
  destruct (wp_done _ _ _ (wp_next_tag m fdt Hbl off Hoff)) as ([tag next] & m' & Hrun & -> & Hp). exists tag, next.
  split; [exact Hrun|]. split; [exact Hp|]. inversion Hp as [|? ?|t e Htok (Hi1 & Hi2 & Hi3)]; subst; [left; reflexivity|left; reflexivity|].
  right. pose proof (token_after m fdt Hbl _ _ _ Htok). pose proof (bl_struct _ _ Hbl). unfold align4. lia.
Qed.

(** ** Walking the nodes *)

(** A node starts at [r], and its tag and name lie inside the block. *)
Definition node_at m fdt (r : Z) : Prop := exists e, token m fdt r FDT_BEGIN_NODE e /\ in_struct m fdt r (e - r).

(** The next node after [off], the end of the nodes enclosed at depth 0, or an error. *)
Definition next_node_post m fdt off (depth : option Z) (r : Z) (depth' : option Z) : Prop :=
  r < 0 \/ off < r <= total_of m fdt /\
  (node_at m fdt r /\ (depth = None -> depth' = None) \/ exists d, depth' = Some d /\ d < 0).

Section nodes.
Context (m : bmem) (fdt : Z) (Hb : blob m fdt).

Lemma next_tag_next off tag next : next_tag_post m fdt off (tag, next) ->
  next < 0 /\ tag = FDT_END \/ off < next <= total_of m fdt /\ 0 <= off /\ exists e, token m fdt off tag e /\ in_struct m fdt off (e - off).
Proof.
  intros Hp. inversion Hp as [|? ?|t e Htok Hin]; subst; [left; done|left; done|]. right.
  pose proof (token_after m fdt Hb _ _ _ Htok). pose proof (bl_struct _ _ Hb). destruct (Hin) as (H1 & H2 & _).
  split; [unfold align4; lia|]. split; [exact H1|]. by exists e.
Qed.

Lemma wp_check_node_offset off (Q : Z -> bmem -> Prop) : is_int off ->
  (forall next, next < 0 -> Q next m) -> (forall next, off < next <= total_of m fdt -> node_at m fdt off -> Q next m) ->
  wp (fdt_check_node_offset_ fdt off) Q m.
Proof.
  intros Hoff HQ0 HQ. unfold fdt_check_node_offset_, check_tag_offset. case_if E; [wp_step; apply HQ0; reflexivity|].
  wp_step. eapply wp_mono; [apply (wp_next_tag m fdt Hb); exact Hoff|]. intros [tag next] m' [-> Hp]. wp_step. cbn [fst snd].
  destruct (Z.eqb_spec tag FDT_BEGIN_NODE) as [->|]; [|by apply HQ0].
  destruct (next_tag_next _ _ _ Hp) as [[Hn _]|(Hn & _ & e & Htok & Hin)]; [by apply HQ0|]. apply HQ; [exact Hn|]. by exists e.
Qed.

Lemma wp_next_node off depth (Q : Z * option Z -> bmem -> Prop) : is_int off ->
  (forall r depth', next_node_post m fdt off depth r depth' -> Q (r, depth') m) ->
  wp (fdt_next_node fdt off depth) Q m.
Proof.
  intros Hoff HQ. pose proof (bl_total _ _ Hb) as Ht. unfold INT_MAX in *. unfold fdt_next_node. wp_step.
  assert (Hloop : forall start, 0 <= start <= total_of m fdt -> off < start ->
    wp (loop2 32 (fun st : Z * option Z =>
      let '(offset, depth) := st in
      '(tag, nextoffset) ← fdt_next_tag fdt offset;
      if tag =? FDT_BEGIN_NODE then mret (inr (offset, (fun d => d + 1) <$> depth)) else
      if tag =? FDT_END_NODE then
        match depth with
        | Some d => if d - 1 <? 0 then mret (inr (nextoffset, Some (d - 1)))
                    else mret (inl (nextoffset, Some (d - 1)))
        | None => mret (inl (nextoffset, None))
        end
      else if tag =? FDT_END then
        mret (inr (if (0 <=? nextoffset) || ((nextoffset =? - FDT_ERR_TRUNCATED) && bool_decide (depth = None))
                   then - FDT_ERR_NOTFOUND else nextoffset, depth))
      else mret (inl (nextoffset, depth))) (start, depth)) Q m).
  { intros start Hs Hstart.
    apply (wp_loop2 (fun '(o, d) m' => m' = m /\ 0 <= o <= total_of m fdt /\ off < o /\ (depth = None -> d = None)) (fun '(o, _) _ => total_of m fdt - o)).
    - done.
    - change (2 ^ Z.of_nat 32) with 4294967296. lia.
    - intros [o d] m' (-> & Ho & Hlo & Hd).
      wp_step. eapply wp_mono; [apply (wp_next_tag m fdt Hb); unfold is_int; lia|]. intros [tag next] m' [-> Hp]. cbn beta iota.
      destruct (next_tag_next _ _ _ Hp) as [[Hn ->]|(Hn & _ & e & Htok & Hin)].
      { cbn [Z.eqb FDT_END FDT_BEGIN_NODE FDT_END_NODE Pos.eqb]. wp_step. apply HQ. left. case_match; [reflexivity|exact Hn]. }
      destruct (Z.eqb_spec tag FDT_BEGIN_NODE) as [->|_].
      { wp_step. apply HQ. right. split; [lia|]. left. split; [by exists e|]. intros E. by rewrite (Hd E). }
      destruct (Z.eqb_spec tag FDT_END_NODE) as [->|_].
      { destruct d as [d|]; [destruct (Z.ltb_spec (d - 1) 0)|]; wp_step.
        - apply HQ. right. split; [lia|]. right. exists (d - 1). split; [done|lia].
        - split; [|lia]. split; [done|]. split; [lia|]. split; [lia|]. intros E. by specialize (Hd E).
        - split; [|lia]. split; [done|]. split; [lia|]. by split; [lia|]. }
      destruct (Z.eqb_spec tag FDT_END); wp_step.
      + apply HQ. left. replace (0 <=? next) with true by lia. reflexivity.
      + split; [|lia]. split; [done|]. split; [lia|]. by split; [lia|]. }
  destruct (Z.leb_spec 0 off).
  - apply wp_check_node_offset; [exact Hoff| |].
    + intros next Hn. replace (next <? 0) with true by lia. wp_step. apply HQ. by left.
    + intros next Hn _. replace (next <? 0) with false by lia. apply Hloop; lia.
  - wp_step. rewrite Z.ltb_irrefl. apply Hloop; [pose proof (bl_struct _ _ Hb); lia|lia].
Qed.
End nodes.

(** C31: on a blob that passed [fdt_check_header], [fdt_next_node] always returns, whatever the bytes are and
    whether a depth is counted or not: an error, the offset of a node further on whose tag and name lie inside
    the structure block, or, with a depth, the place where the depth became negative. *)
Theorem fdt_next_node_ends m fdt off depth : bytes_ok m -> 0 < fdt -> mapped m fdt 40 -> mapped m fdt (total_of m fdt) ->
  fdt_check_header fdt m = Done (0, m) -> is_int off ->
  exists r depth', fdt_next_node fdt off depth m = Done ((r, depth'), m) /\ next_node_post m fdt off depth r depth'.
Proof.
  intros Hb H0 Hm Ht Hc Hoff. pose proof (checked_blob m fdt Hb H0 Hm Ht Hc) as Hbl.
  destruct (wp_done (fdt_next_node fdt off depth) (fun r m' => m' = m /\ next_node_post m fdt off depth r.1 r.2) m) as ([r d] & m' & Hrun & -> & Hp).
  - by apply (wp_next_node m fdt Hbl off depth).
  - by exists r, d.
Qed.

(** ** A concrete tree *)

(** The bytes of big-endian words. *)
Definition be_bytes (ws : list Z) : list Z :=
  flat_map (fun w => [Z.shiftr w 24 mod 256; Z.shiftr w 16 mod 256; Z.shiftr w 8 mod 256; w mod 256]) ws.

(** A root node without properties, in version 17, at address 8. *)
Definition sample_words : list Z :=
  [FDT_MAGIC; 72; 56; 72; 40; 17; 16; 0; 0; 16; 0; 0; 0; 0; FDT_BEGIN_NODE; 0; FDT_END_NODE; FDT_END].
Definition sample_blob : bmem := list_to_map (zip (seqZ 8 72) (be_bytes sample_words)).

Lemma sample_blob_bytes : bytes_ok sample_blob.
Proof.
  intros a v H. apply elem_of_list_to_map_2 in H.
  assert (Hall : Forall (fun av : Z * Z => 0 <= av.2 < 256) (zip (seqZ 8 72) (be_bytes sample_words))).
  { apply Forall_forall. intros av Hav. cbn in Hav.
    repeat (apply elem_of_cons in Hav as [->|Hav]; [vm_compute; split; congruence|]). by apply not_elem_of_nil in Hav. }
  rewrite Forall_forall in Hall. exact (Hall _ H).
Qed.

Lemma sample_blob_mapped : mapped sample_blob 8 72.
Proof.
  assert (Hall : Forall (fun a => is_Some (sample_blob !! a)) (seqZ 8 72)).
  { apply Forall_forall. intros a Ha. cbn in Ha.
    repeat (apply elem_of_cons in Ha as [->|Ha]; [eexists; vm_compute; reflexivity|]). by apply not_elem_of_nil in Ha. }
  intros a Ha. rewrite Forall_forall in Hall. apply Hall, elem_of_seqZ. exact Ha.
Qed.

Lemma fdt_next_tag_correct_witness : fdt_check_header 8 sample_blob = Done (0, sample_blob) /\
  exists tag next, fdt_next_tag 8 8 sample_blob = Done ((tag, next), sample_blob) /\ next_tag_post sample_blob 8 8 (tag, next).
Proof.
  assert (Hc : fdt_check_header 8 sample_blob = Done (0, sample_blob)) by (vm_compute; reflexivity).
  split; [exact Hc|].
  destruct (fdt_next_tag_correct sample_blob 8 8 sample_blob_bytes) as (tag & next & Hrun & Hp & _).
  - reflexivity.
  - apply (mapped_sub _ 8 72); [exact sample_blob_mapped|lia|lia].
  - exact sample_blob_mapped.
  - exact Hc.
  - unfold is_int. lia.
  - exists tag, next. split; assumption.
Defined.

Lemma fdt_next_node_ends_witness : fdt_check_header 8 sample_blob = Done (0, sample_blob) /\
  exists r depth, fdt_next_node 8 (-1) (Some 0) sample_blob = Done ((r, depth), sample_blob).
Proof.
  assert (Hc : fdt_check_header 8 sample_blob = Done (0, sample_blob)) by (vm_compute; reflexivity).
  split; [exact Hc|].
  destruct (fdt_next_node_ends sample_blob 8 (-1) (Some 0) sample_blob_bytes) as (r & d & Hrun & _).
  - reflexivity.
  - apply (mapped_sub _ 8 72); [exact sample_blob_mapped|lia|lia].
  - exact sample_blob_mapped.
  - exact Hc.
  - unfold is_int. lia.
  - exists r, d. exact Hrun.
Defined.
