(* ===== verification/FdtRo.v ===== *)
(** The device-tree reader: the queries over whole trees ([driver/fdt/fdt_ro.c], [fdt_addresses.c],
    [fdt_strerror.c]).

    The conventions are those of [Fdt]: an [int *] result is the second component of a pair, and [None]
    where the code does not write it. *)
From S2P Require Import Prelude Libc Fdt.

Definition FDT_ERR_BADPHANDLE : Z := 6.
Definition FDT_ERR_BADNCELLS : Z := 14.
Definition FDT_ERR_BADVALUE : Z := 15.
Definition FDT_ERR_NOPHANDLES : Z := 17.
Definition FDT_MAX_PHANDLE : Z := 0xfffffffe.
Definition FDT_MAX_NCELLS : Z := 4.

Definition fdt64_ld (p : Z) : M bmem Z := hi ← fdt32_ld p; lo ← fdt32_ld (p + 4); mret (hi * 2 ^ 32 + lo).

(** ** The memory reserve map *)

Definition fdt_mem_rsv_ (fdt n : Z) : M bmem Z := off ← fdt_off_mem_rsvmap fdt; mret (fdt + off + n * 16).

Definition fdt_mem_rsv (fdt n : Z) : M bmem Z :=
  rsv ← fdt_off_mem_rsvmap fdt;
  let absoffset := u32 (rsv + u32 (n * 16)) in
  if absoffset <? rsv then mret 0 else
  total ← fdt_totalsize fdt;
  if absoffset >? u64 (total - 16) then mret 0 else fdt_mem_rsv_ fdt n.

(** The error, the address and the size. *)
Definition fdt_get_mem_rsv (fdt n : Z) : M bmem (Z * option (Z * Z)) :=
  probe ← fdt_ro_probe_ fdt;
  if probe <? 0 then mret (probe, None) else
  re ← fdt_mem_rsv fdt n;
  if re =? 0 then mret (- FDT_ERR_BADOFFSET, None) else
  address ← fdt64_ld re;
  size ← fdt64_ld (re + 8);
  mret (0, Some (address, size)).

Definition fdt_num_mem_rsv (fdt : Z) : M bmem Z :=
  loop2 32 (fun i =>
    re ← fdt_mem_rsv fdt i;
    if re =? 0 then mret (inr (- FDT_ERR_TRUNCATED)) else
    size ← fdt64_ld (re + 8);
    if size =? 0 then mret (inr i) else
    _ ← guard_ub (i <? INT_MAX);
    mret (inl (i + 1))) 0.

(** ** Depth and parents *)

(** [for (offset = 0, depth = 0; (offset >= 0) && (offset <= nodeoffset); offset = fdt_next_node(..))]: the
    body sees the offset, the depth and what it carried; [inl] is the offset the loop ended with. *)
Definition each_node_to {A B} (fdt nodeoffset : Z) (body : Z -> Z -> A -> M bmem (A + B)) (a : A) : M bmem (Z + B) :=
  loop2 32 (fun st : Z * Z * A =>
    let '(offset, depth, a) := st in
    if (0 <=? offset) && (offset <=? nodeoffset) then
      r ← body offset depth a;
      match r with
      | inr b => mret (inr (inr b))
      | inl a => '(offset, depth) ← fdt_next_node fdt offset (Some depth); mret (inl (offset, depth_of depth, a))
      end
    else mret (inr (inl offset))) (0, 0, a).

(** What the loops over nodes return when they did not find the node. *)
Definition not_reached (offset : Z) : Z :=
  if (offset =? - FDT_ERR_NOTFOUND) || (0 <=? offset) then - FDT_ERR_BADOFFSET
  else if offset =? - FDT_ERR_BADOFFSET then - FDT_ERR_BADSTRUCTURE else offset.

(** The offset or the error, and [*nodedepth]. *)
Definition fdt_supernode_atdepth_offset (fdt nodeoffset supernodedepth : Z) : M bmem (Z * option Z) :=
  probe ← fdt_ro_probe_ fdt;
  if probe <? 0 then mret (probe, None) else
  if supernodedepth <? 0 then mret (- FDT_ERR_NOTFOUND, None) else
  r ← each_node_to fdt nodeoffset (fun offset depth supernodeoffset =>
        let supernodeoffset := if depth =? supernodedepth then offset else supernodeoffset in
        if offset =? nodeoffset then
          mret (inr (if supernodedepth >? depth then - FDT_ERR_NOTFOUND else supernodeoffset, Some depth))
        else mret (inl supernodeoffset)) (- FDT_ERR_INTERNAL);
  mret (match r with inr found => found | inl offset => (not_reached offset, None) end).

Definition fdt_node_depth (fdt nodeoffset : Z) : M bmem Z :=
  '(err, nodedepth) ← fdt_supernode_atdepth_offset fdt nodeoffset 0;
  if negb (err =? 0) then mret (if err <? 0 then err else - FDT_ERR_INTERNAL) else of_option nodedepth.

Definition fdt_parent_offset (fdt nodeoffset : Z) : M bmem Z :=
  nodedepth ← fdt_node_depth fdt nodeoffset;
  if nodedepth <? 0 then mret nodedepth else
  r ← fdt_supernode_atdepth_offset fdt nodeoffset (nodedepth - 1);
  mret r.1.

(** [while (pdepth > depth) { do { p--; } while (buf[p - 1] != '/'); pdepth--; }]: the new [p]. *)
Definition pop_names (buf pdepth depth p : Z) : M bmem Z :=
  r ← loop (S (Z.to_nat (pdepth - depth))) (fun st : Z * Z =>
        let '(pdepth, p) := st in
        if pdepth >? depth then
          p ← scan_bytes (fun p =>
                let p := p - 1 in
                c ← ldb (buf + p - 1);
                mret (if c =? 47 then inr p else inl p)) p;
          mret (inl (pdepth - 1, p))
        else mret (inr p)) (pdepth, p);
  mret r.

(** The path of a node, written to [buf]. *)
Definition fdt_get_path (fdt nodeoffset buf buflen : Z) : M bmem Z :=
  probe ← fdt_ro_probe_ fdt;
  if probe <? 0 then mret probe else
  if buflen <? 2 then mret (- FDT_ERR_NOSPACE) else
  r ← each_node_to fdt nodeoffset (fun offset depth (st : Z * Z) =>
        let '(pdepth, p) := st in
        p ← pop_names buf pdepth depth p;
        let pdepth := Z.min pdepth depth in
        added ← (if depth <=? pdepth then
                   '(name, namelen) ← fdt_get_name fdt offset;
                   if name =? 0 then mret (inr namelen) else
                   _ ← guard_ub (p + namelen + 1 <=? INT_MAX);
                   if p + namelen + 1 <=? buflen then
                     _ ← memcpy (buf + p) name namelen;
                     _ ← stb (buf + p + namelen) 47;
                     mret (inl (pdepth + 1, p + namelen + 1))
                   else mret (inl (pdepth, p))
                 else mret (inl (pdepth, p) : Z * Z + Z));
        match added with
        | inr err => mret (inr err)
        | inl (pdepth, p) =>
            if offset =? nodeoffset then
              if pdepth <? depth + 1 then mret (inr (- FDT_ERR_NOSPACE)) else
              let p := if p >? 1 then p - 1 else p in
              _ ← stb (buf + p) 0;
              mret (inr 0)
            else mret (inl (pdepth, p))
        end) (0, 0);
  mret (match r with inr res => res | inl offset => not_reached offset end).

(** ** Searches over all nodes *)

(** [for (offset = fdt_next_node(fdt, start, NULL); offset >= 0; offset = fdt_next_node(fdt, offset, NULL))] with a
    body that may return; otherwise the error that ended it. *)
Definition each_node (fdt start : Z) (body : Z -> M bmem (option Z)) : M bmem Z :=
  r ← fdt_next_node fdt start None;
  loop2 32 (fun offset =>
    if 0 <=? offset then
      r ← body offset;
      match r with
      | Some res => mret (inr res)
      | None => next ← fdt_next_node fdt offset None; mret (inl next.1)
      end
    else mret (inr offset)) r.1.

Definition fdt_node_offset_by_prop_value (fdt startoffset propname propval proplen : Z) : M bmem Z :=
  probe ← fdt_ro_probe_ fdt;
  if probe <? 0 then mret probe else
  each_node fdt startoffset (fun offset =>
    '(val, len) ← fdt_getprop fdt offset propname;
    if negb (val =? 0) && (len =? proplen) then
      r ← memcmp val propval (u64 len);
      mret (if r =? 0 then Some offset else None)
    else mret None).

(** ** Lists of strings *)

Definition fdt_stringlist_contains (strlist listlen str : Z) : M bmem Z :=
  n ← strlen str;
  let len := s32 n in
  scan_bytes (fun st : Z * Z =>
    let '(strlist, listlen) := st in
    if len <=? listlen then
      r ← memcmp str strlist (u64 (len + 1));
      if r =? 0 then mret (inr 1) else
      p ← memchr strlist 0 (u64 listlen);
      if p =? 0 then mret (inr 0) else mret (inl (p + 1, listlen - (p - strlist + 1)))
    else mret (inr 0)) (strlist, listlen).

(** The loops of the [fdt_stringlist] functions: [body] sees each string with its length, the NUL included. *)
Definition each_string {A} (list len : Z) (body : Z -> Z -> A -> M bmem (A + Z)) (done : A -> Z) (a : A) : M bmem Z :=
  let end_ := list + len in
  scan_bytes (fun st : Z * A =>
    let '(list, a) := st in
    if list <? end_ then
      n ← strnlen list (end_ - list);
      let length := s32 (n + 1) in
      if list + length >? end_ then mret (inr (- FDT_ERR_BADVALUE)) else
      r ← body list length a;
      match r with inl a => mret (inl (list + length, a)) | inr res => mret (inr res) end
    else mret (inr (done a))) (list, a).

Definition fdt_stringlist_count (fdt nodeoffset property : Z) : M bmem Z :=
  '(list, len) ← fdt_getprop fdt nodeoffset property;
  if list =? 0 then mret len else
  each_string list len (fun _ _ count => mret (inl (count + 1))) (fun count => count) 0.

Definition fdt_stringlist_search (fdt nodeoffset property string : Z) : M bmem Z :=
  '(list, length) ← fdt_getprop fdt nodeoffset property;
  if list =? 0 then mret length else
  n ← strlen string;
  let len := s32 (n + 1) in
  each_string list length (fun list length idx =>
    if length =? len then
      r ← memcmp list string (u64 length);
      mret (if r =? 0 then inr idx else inl (idx + 1))
    else mret (inl (idx + 1))) (fun _ => - FDT_ERR_NOTFOUND) 0.

(** The string and its length, or NULL and the error. *)
Definition fdt_stringlist_get (fdt nodeoffset property idx : Z) : M bmem (Z * Z) :=
  '(list, length) ← fdt_getprop fdt nodeoffset property;
  if list =? 0 then mret (0, length) else
  let end_ := list + length in
  scan_bytes (fun st : Z * Z =>
    let '(list, idx) := st in
    if list <? end_ then
      n ← strnlen list (end_ - list);
      let length := s32 (n + 1) in
      if list + length >? end_ then mret (inr (0, - FDT_ERR_BADVALUE)) else
      if idx =? 0 then mret (inr (list, length - 1)) else mret (inl (list + length, idx - 1))
    else mret (inr (0, - FDT_ERR_NOTFOUND))) (list, idx).

Section literals.
Context (lit : String.string -> Z).

(** ** Phandles *)

(** The error, and [*phandle]. *)
Definition fdt_find_max_phandle (fdt : Z) : M bmem (Z * option Z) :=
  loop2 32 (fun st : Z * Z =>
    let '(offset, max) := st in
    next ← fdt_next_node fdt offset None;
    let offset := next.1 in
    if offset <? 0 then mret (inr (if offset =? - FDT_ERR_NOTFOUND then (0, Some max) else (offset, None))) else
    value ← fdt_get_phandle lit fdt offset;
    mret (inl (offset, if value >? max then value else max))) (-1, 0).

Definition fdt_generate_phandle (fdt : Z) : M bmem (Z * option Z) :=
  '(err, max) ← fdt_find_max_phandle fdt;
  if err <? 0 then mret (err, None) else
  max ← of_option max;
  mret (if max =? FDT_MAX_PHANDLE then (- FDT_ERR_NOPHANDLES, None) else (0, Some (u32 (max + 1)))).

Definition fdt_node_offset_by_phandle (fdt phandle : Z) : M bmem Z :=
  if (phandle =? 0) || (phandle =? not32 0) then mret (- FDT_ERR_BADPHANDLE) else
  probe ← fdt_ro_probe_ fdt;
  if probe <? 0 then mret probe else
  each_node fdt (-1) (fun offset =>
    value ← fdt_get_phandle lit fdt offset; mret (if value =? phandle then Some offset else None)).

(** ** Properties by path *)

Definition fdt_path_getprop_namelen (fdt path propname propnamelen : Z) : M bmem (Z * Z) :=
  offset ← fdt_path_offset lit fdt path;
  if offset <? 0 then mret (0, 0) else fdt_getprop_namelen fdt offset propname propnamelen.

Definition fdt_get_alias_namelen (fdt name namelen : Z) : M bmem Z :=
  '(alias, len) ← fdt_path_getprop_namelen fdt (lit "/aliases"%string) name namelen;
  if (alias =? 0) || (len <=? 0) then mret 0 else
  last ← ldb (alias + len - 1);
  if negb (last =? 0) then mret 0 else
  first ← ldb alias;
  mret (if first =? 47 then alias else 0).

Definition fdt_get_alias (fdt name : Z) : M bmem Z := n ← strlen name; fdt_get_alias_namelen fdt name (s32 n).

Definition fdt_get_symbol_namelen (fdt name namelen : Z) : M bmem Z :=
  r ← fdt_path_getprop_namelen fdt (lit "/__symbols__"%string) name namelen; mret r.1.

Definition fdt_get_symbol (fdt name : Z) : M bmem Z := n ← strlen name; fdt_get_symbol_namelen fdt name (s32 n).

(** ** Compatible nodes *)

Definition fdt_node_check_compatible (fdt nodeoffset compatible : Z) : M bmem Z :=
  '(prop, len) ← fdt_getprop fdt nodeoffset (lit "compatible"%string);
  if prop =? 0 then mret len else
  r ← fdt_stringlist_contains prop len compatible;
  mret (if r =? 0 then 1 else 0).

Definition fdt_node_offset_by_compatible (fdt startoffset compatible : Z) : M bmem Z :=
  probe ← fdt_ro_probe_ fdt;
  if probe <? 0 then mret probe else
  each_node fdt startoffset (fun offset =>
    err ← fdt_node_check_compatible fdt offset compatible;
    mret (if (err <? 0) && negb (err =? - FDT_ERR_NOTFOUND) then Some err
          else if err =? 0 then Some offset else None)).

(** ** Cells *)

Definition fdt_cells (fdt nodeoffset name : Z) : M bmem Z :=
  '(c, len) ← fdt_getprop fdt nodeoffset name;
  if c =? 0 then mret len else
  if negb (len =? 4) then mret (- FDT_ERR_BADNCELLS) else
  val ← fdt32_ld c;
  mret (if val >? FDT_MAX_NCELLS then - FDT_ERR_BADNCELLS else val).

Definition fdt_address_cells (fdt nodeoffset : Z) : M bmem Z :=
  val ← fdt_cells fdt nodeoffset (lit "#address-cells"%string);
  mret (if val =? 0 then - FDT_ERR_BADNCELLS else if val =? - FDT_ERR_NOTFOUND then 2 else val).

Definition fdt_size_cells (fdt nodeoffset : Z) : M bmem Z :=
  val ← fdt_cells fdt nodeoffset (lit "#size-cells"%string);
  mret (if val =? - FDT_ERR_NOTFOUND then 1 else val).

(** ** Messages *)

(** The entries of the table by error number. *)
Definition fdt_errtable : list (Z * String.string) := [
  (1, "FDT_ERR_NOTFOUND"); (2, "FDT_ERR_EXISTS"); (3, "FDT_ERR_NOSPACE"); (4, "FDT_ERR_BADOFFSET"); (5, "FDT_ERR_BADPATH");
  (6, "FDT_ERR_BADPHANDLE"); (7, "FDT_ERR_BADSTATE"); (8, "FDT_ERR_TRUNCATED"); (9, "FDT_ERR_BADMAGIC"); (10, "FDT_ERR_BADVERSION");
  (11, "FDT_ERR_BADSTRUCTURE"); (12, "FDT_ERR_BADLAYOUT"); (13, "FDT_ERR_INTERNAL"); (14, "FDT_ERR_BADNCELLS"); (15, "FDT_ERR_BADVALUE");
  (16, "FDT_ERR_BADOVERLAY"); (17, "FDT_ERR_NOPHANDLES"); (18, "FDT_ERR_BADFLAGS"); (19, "FDT_ERR_ALIGNMENT")]%string.
Definition FDT_ERRTABSIZE : Z := 20.

Definition fdt_strerror (errval : Z) : M bmem Z :=
  if errval >? 0 then mret (lit "<valid offset/length>"%string) else
  if errval =? 0 then mret (lit "<no error>"%string) else
  _ ← guard_ub (errval >? - 2 ^ 31);
  mret (match (if - errval <? FDT_ERRTABSIZE then List.find (fun e => e.1 =? - errval) fdt_errtable else None) with
        | Some e => lit e.2
        | None => lit "<unknown error>"%string
        end).
End literals.
