(* ===== verification/ListHead.v ===== *)
(** Intrusive circular doubly linked lists ([include/ds/list.h]).

    The links of every [struct list_head] of a component live in one store, [links L], where [L]
    names the nodes (their addresses).  The operations write the [next] and [prev] fields one
    assignment at a time, as the header does; reading a field nobody initialised is undefined.
    [dll lk h xs] says that the list with head [h] holds the nodes [xs], in order; the lemmas at
    the end of the section are the contract the clients rely on. *)
From S2P Require Import Prelude.

Record links (L : Type) `{Countable L} := Links {
  nxt : gmap L L;
  prv : gmap L L;
}.
Arguments Links {L _ _} _ _.
Arguments nxt {L _ _} _.
Arguments prv {L _ _} _.

Section list_head.
Context {L : Type} `{Countable L}.
Implicit Types (lk : links L) (h n a b : L) (xs ys : list L).

Definition set_nxt (a b : L) (lk : links L) : links L := Links (<[a := b]> (nxt lk)) (prv lk).
Definition set_prv (a b : L) (lk : links L) : links L := Links (nxt lk) (<[a := b]> (prv lk)).

Definition read_nxt (a : L) : M (links L) L := lk ← gets id; of_option (nxt lk !! a).
Definition read_prv (a : L) : M (links L) L := lk ← gets id; of_option (prv lk !! a).

Definition INIT_LIST_HEAD (list : L) : M (links L) unit :=
  _ ← modify (set_nxt list list);
  modify (set_prv list list).

Definition list_empty (head : L) : M (links L) bool :=
  n ← read_nxt head;
  mret (bool_decide (n = head)).

Definition __list_add (node prev next : L) : M (links L) unit :=
  _ ← modify (set_prv next node);
  _ ← modify (set_nxt node next);
  _ ← modify (set_prv node prev);
  modify (set_nxt prev node).

Definition list_add (node head : L) : M (links L) unit :=
  next ← read_nxt head;
  __list_add node head next.

Definition list_add_tail (node head : L) : M (links L) unit :=
  prev ← read_prv head;
  __list_add node prev head.

Definition __list_del (prev next : L) : M (links L) unit :=
  _ ← modify (set_prv next prev);
  modify (set_nxt prev next).

Definition list_del (entry : L) : M (links L) unit :=
  prev ← read_prv entry;
  next ← read_nxt entry;
  _ ← __list_del prev next;
  _ ← modify (set_nxt entry entry);
  modify (set_prv entry entry).

(** [list_for_each(pos, head)]: the nodes visited, the head itself excluded. *)
Definition list_for_each (fuel : nat) (head : L) : M (links L) (list L) :=
  first ← read_nxt head;
  loop fuel (fun st : L * list L =>
      let '(pos, seen) := st in
      if decide (pos = head) then mret (inr (rev seen))
      else n ← read_nxt pos; mret (inl (n, pos :: seen)))
    (first, []).

(** ** Representation *)

Definition edge lk (a b : L) : Prop := nxt lk !! a = Some b /\ prv lk !! b = Some a.

Fixpoint chain lk a xs z : Prop :=
  match xs with
  | [] => edge lk a z
  | x :: xs' => edge lk a x /\ chain lk x xs' z
  end.

Definition dll lk h xs : Prop := chain lk h xs h /\ NoDup (h :: xs).

Lemma chain_app lk a xs x ys z :
  chain lk a (xs ++ x :: ys) z <-> chain lk a xs x /\ chain lk x ys z.
Proof. revert a. induction xs as [|y xs IH]; intros a; simpl; [done|]. rewrite IH. naive_solver. Qed.

(** A chain only depends on the [next] of its sources and the [prev] of its targets. *)
Lemma chain_frame lk lk' a xs z :
  (forall n, n ∈ a :: xs -> nxt lk' !! n = nxt lk !! n) ->
  (forall n, n ∈ xs ++ [z] -> prv lk' !! n = prv lk !! n) ->
  chain lk a xs z -> chain lk' a xs z.
Proof.
  revert a. induction xs as [|x xs IH]; intros a Hn Hp; simpl.
  - intros [? ?]. split; [rewrite Hn|rewrite Hp]; set_solver.
  - intros [[? ?] ?]. split; [split; [rewrite Hn|rewrite Hp]; set_solver|].
    apply IH; [intros; apply Hn; set_solver|intros; apply Hp; set_solver|done].
Qed.

Lemma dll_frame lk lk' h xs :
  (forall n, n ∈ h :: xs -> nxt lk' !! n = nxt lk !! n /\ prv lk' !! n = prv lk !! n) ->
  dll lk h xs -> dll lk' h xs.
Proof.
  intros Hf [Hc Hnd]. split; [|done]. eapply chain_frame, Hc.
  - intros n Hn. by apply Hf.
  - intros n Hn. apply Hf. set_solver.
Qed.

(** The last node before the head, and the first after it. *)
Definition last_of h xs : L := default h (last xs).
Definition first_of h xs : L := default h (head xs).

Lemma dll_prv lk h xs : dll lk h xs -> prv lk !! h = Some (last_of h xs).
Proof.
  intros [Hc _]. unfold last_of. destruct xs as [|x xs _] using rev_ind; [apply Hc|].
  rewrite last_snoc. apply chain_app in Hc as [_ [_ ?]]. done.
Qed.

Lemma dll_nxt lk h xs : dll lk h xs -> nxt lk !! h = Some (first_of h xs).
Proof. intros [Hc _]. destruct xs; [apply Hc|]. by destruct Hc as [[? _] _]. Qed.

Lemma dll_nil_iff lk h xs n : dll lk h xs -> nxt lk !! h = Some n -> (n = h <-> xs = []).
Proof.
  intros Hd Hn. rewrite (dll_nxt _ _ _ Hd) in Hn. destruct Hd as [_ Hnd].
  injection Hn as <-. unfold first_of. destruct xs as [|x xs]; simpl; [done|].
  split; [|done]. intros ->. apply NoDup_cons in Hnd as [Hnd _]. set_solver.
Qed.

(** Where the links change. *)
Definition add_links (node prev next : L) lk : links L :=
  set_nxt prev node (set_prv node prev (set_nxt node next (set_prv next node lk))).
Definition del_links (entry prev next : L) lk : links L :=
  set_prv entry entry (set_nxt entry entry (set_nxt prev next (set_prv next prev lk))).

Lemma add_links_frame node prev next lk n :
  n <> node -> n <> prev -> n <> next ->
  nxt (add_links node prev next lk) !! n = nxt lk !! n /\
  prv (add_links node prev next lk) !! n = prv lk !! n.
Proof. intros. simpl. by rewrite !lookup_insert_ne by done. Qed.

Lemma del_links_frame e prev next lk n :
  n <> e -> n <> prev -> n <> next ->
  nxt (del_links e prev next lk) !! n = nxt lk !! n /\
  prv (del_links e prev next lk) !! n = prv lk !! n.
Proof. intros. simpl. by rewrite !lookup_insert_ne by done. Qed.

Lemma chain_add_tail lk a xs z node :
  chain lk a xs z -> NoDup (a :: xs) -> z ∉ xs -> node ∉ z :: a :: xs ->
  chain (add_links node (last_of a xs) z lk) a (xs ++ [node]) z.
Proof.
  revert a. induction xs as [|x xs IH]; intros a Hc Hnd Hz Hn; simpl.
  - unfold edge; simpl. rewrite !lookup_insert; repeat case_decide; set_solver.
  - destruct Hc as [[He1 He2] Hc]. apply NoDup_cons in Hnd as [Ha Hnd].
    assert (Hl : last_of a (x :: xs) = last_of x xs).
    { unfold last_of. destruct xs as [|y xs _] using rev_ind; [done|].
      by rewrite app_comm_cons, !last_snoc. }
    assert (Hin : last_of x xs ∈ x :: xs).
    { unfold last_of. destruct (last xs) as [y|] eqn:E; simpl; [|set_solver].
      apply last_Some in E as [? ->]. set_solver. }
    split.
    + rewrite Hl. unfold edge. simpl. rewrite !lookup_insert_ne by set_solver. done.
    + rewrite Hl. apply IH; [done|done|set_solver|set_solver].
Qed.

Lemma chain_del lk a xs e ys z :
  chain lk a (xs ++ e :: ys) z -> NoDup (a :: xs ++ e :: ys) -> z ∉ xs ++ e :: ys ->
  chain (del_links e (last_of a xs) (first_of z ys) lk) a (xs ++ ys) z.
Proof.
  revert a. induction xs as [|x xs IH]; intros a Hc Hnd Hz; simpl in *.
  - destruct Hc as [He Hc]. apply NoDup_cons in Hnd as [Ha Hnd].
    apply NoDup_cons in Hnd as [He' Hnd]. destruct ys as [|y ys]; simpl in *.
    + unfold edge; simpl. rewrite !lookup_insert; repeat case_decide; set_solver.
    + destruct Hc as [He2 Hc]. split.
      * unfold edge; simpl. rewrite !lookup_insert; repeat case_decide; set_solver.
      * apply NoDup_cons in Hnd as [Hy _]. revert Hc. apply chain_frame; intros n Hn; simpl;
          rewrite !lookup_insert_ne by set_solver; done.
  - destruct Hc as [He Hc]. apply NoDup_cons in Hnd as [Ha Hnd].
    assert (Hl : last_of a (x :: xs) = last_of x xs).
    { unfold last_of. destruct xs as [|y xs' _] using rev_ind; [done|].
      by rewrite app_comm_cons, !last_snoc. }
    assert (Hin : last_of x xs ∈ x :: xs).
    { unfold last_of. destruct (last xs) as [y|] eqn:E; simpl; [|set_solver].
      apply last_Some in E as [? ->]. set_solver. }
    assert (Hf : first_of z ys = z \/ first_of z ys ∈ ys) by (destruct ys; set_solver).
    assert (x ∉ xs ++ e :: ys) by (apply NoDup_cons in Hnd as [? _]; done).
    split.
    + rewrite Hl. destruct He. unfold edge. simpl.
      rewrite !lookup_insert_ne by (destruct Hf; set_solver). done.
    + rewrite Hl. apply IH; [done|done|set_solver].
Qed.

(** ** The contract of the operations *)

Lemma wp_INIT_LIST_HEAD h Q lk :
  (forall lk', dll lk' h [] ->
     (forall n, n <> h -> nxt lk' !! n = nxt lk !! n /\ prv lk' !! n = prv lk !! n) -> Q tt lk') ->
  wp (INIT_LIST_HEAD h) Q lk.
Proof.
  intros HQ. unfold INIT_LIST_HEAD. wp_steps. apply HQ.
  - split; [|apply NoDup_singleton]. split; simpl; apply lookup_insert_eq.
  - intros n Hn. simpl. by rewrite !lookup_insert_ne by done.
Qed.

Lemma wp_list_empty h xs Q lk :
  dll lk h xs -> Q (bool_decide (xs = [])) lk -> wp (list_empty h) Q lk.
Proof.
  intros Hd HQ. unfold list_empty, read_nxt. wp_steps; [by apply dll_nxt|]. wp_steps.
  rewrite (bool_decide_ext _ (xs = [])); [done|].
  eapply dll_nil_iff; [done|]. by apply dll_nxt.
Qed.

Lemma wp_read_nxt h xs Q lk : dll lk h xs -> Q (first_of h xs) lk -> wp (read_nxt h) Q lk.
Proof. intros Hd HQ. unfold read_nxt. wp_step. wp_step. eapply wp_of_option; [by apply dll_nxt|done]. Qed.

Lemma wp_list_add_tail node h xs Q lk :
  dll lk h xs -> node ∉ h :: xs ->
  (forall lk', dll lk' h (xs ++ [node]) ->
     (forall n, n ∉ node :: h :: xs -> nxt lk' !! n = nxt lk !! n /\ prv lk' !! n = prv lk !! n) ->
     Q tt lk') ->
  wp (list_add_tail node h) Q lk.
Proof.
  intros Hd Hn HQ. unfold list_add_tail, read_prv, __list_add. wp_steps; [by apply dll_prv|].
  wp_steps. change (Q tt (add_links node (last_of h xs) h lk)). apply HQ.
  - destruct Hd as [Hc Hnd]. split.
    + apply chain_add_tail; [done|done| |set_solver]. by apply NoDup_cons in Hnd as [? _].
    + rewrite app_comm_cons. apply NoDup_app. split; [done|].
      split; [set_solver|]. apply NoDup_singleton.
  - intros n Hn'. apply add_links_frame; [set_solver| |set_solver].
    unfold last_of. destruct (last xs) as [y|] eqn:E; simpl; [|set_solver].
    apply last_Some in E as [? ->]. set_solver.
Qed.

(** Any node of a circular list can stand for its head. *)
Lemma dll_rotate lk h l x r : dll lk h (l ++ x :: r) -> dll lk x (r ++ h :: l).
Proof.
  intros [Hc Hnd]. apply chain_app in Hc as [H1 H2]. split; [by apply chain_app|].
  assert (Hp : x :: r ++ h :: l ≡ₚ h :: l ++ x :: r) by (rewrite <- !Permutation_middle, (Permutation_app_comm r l); constructor).
  by rewrite Hp.
Qed.
Lemma wp_list_insert_before node h l pos r Q lk :
  dll lk h (l ++ pos :: r) -> node ∉ h :: l ++ pos :: r ->
  (forall lk', dll lk' h (l ++ node :: pos :: r) ->
     (forall n, n ∉ node :: h :: l ++ pos :: r -> nxt lk' !! n = nxt lk !! n /\ prv lk' !! n = prv lk !! n) ->
     Q tt lk') ->
  wp (list_add_tail node pos) Q lk.
Proof.
  intros Hd Hn HQ. apply dll_rotate in Hd. apply (wp_list_add_tail node pos (r ++ h :: l)); [exact Hd|set_solver|].
  intros lk' Hd' Hf. apply HQ; [|intros n Hn'; apply Hf; set_solver].
  rewrite <- app_assoc, <- app_comm_cons in Hd'. apply dll_rotate in Hd'. by rewrite <- app_assoc in Hd'.
Qed.

Lemma wp_list_add node h xs Q lk :
  dll lk h xs -> node ∉ h :: xs ->
  (forall lk', dll lk' h (node :: xs) ->
     (forall n, n ∉ node :: h :: xs -> nxt lk' !! n = nxt lk !! n /\ prv lk' !! n = prv lk !! n) ->
     Q tt lk') ->
  wp (list_add node h) Q lk.
Proof.
  intros Hd Hn HQ. unfold list_add, read_nxt, __list_add. wp_steps; [by apply dll_nxt|].
  wp_steps. change (Q tt (add_links node h (first_of h xs) lk)). apply HQ.
  - destruct Hd as [Hc Hnd]. split.
    + destruct xs as [|x xs]; simpl in *.
      * unfold edge; simpl. rewrite !lookup_insert; repeat case_decide; set_solver.
      * apply NoDup_cons in Hnd as [Hh Hnd]. apply NoDup_cons in Hnd as [Hx Hnd].
        destruct Hc as [He Hc]. split; [|split].
        -- unfold edge; simpl. rewrite !lookup_insert; repeat case_decide; set_solver.
        -- unfold edge; simpl. rewrite !lookup_insert; repeat case_decide; set_solver.
        -- revert Hc. apply chain_frame; intros n Hn'; simpl;
             rewrite !lookup_insert_ne by set_solver; done.
    + apply NoDup_cons in Hnd as [Hh Hnd].
      apply NoDup_cons; split; [set_solver|]. apply NoDup_cons; split; [set_solver|done].
  - intros n Hn'. apply add_links_frame; [set_solver|set_solver|]. destruct xs; set_solver.
Qed.

Lemma wp_list_del h xs e ys Q lk :
  dll lk h (xs ++ e :: ys) ->
  (forall lk', dll lk' h (xs ++ ys) ->
     (forall n, n ∉ h :: xs ++ e :: ys ->
        nxt lk' !! n = nxt lk !! n /\ prv lk' !! n = prv lk !! n) ->
     Q tt lk') ->
  wp (list_del e) Q lk.
Proof.
  intros Hd HQ. destruct Hd as [Hc Hnd]. pose proof Hc as Hc'.
  apply chain_app in Hc' as [Hc1 Hc2].
  assert (Hp : prv lk !! e = Some (last_of h xs)).
  { clear -Hc1. unfold last_of. destruct xs as [|x xs _] using rev_ind; [apply Hc1|].
    rewrite last_snoc. apply chain_app in Hc1 as [_ [_ ?]]. done. }
  assert (Hnx : nxt lk !! e = Some (first_of h ys)).
  { destruct ys; [apply Hc2|]. by destruct Hc2 as [[? _] _]. }
  unfold list_del, read_prv, read_nxt, __list_del. wp_steps.
  change (Q tt (del_links e (last_of h xs) (first_of h ys) lk)). apply HQ.
  - split.
    + apply chain_del; [done|done|]. by apply NoDup_cons in Hnd as [? _].
    + apply NoDup_cons in Hnd as [Hh Hnd]. apply NoDup_cons; split; [set_solver|].
      apply NoDup_app in Hnd as (? & ? & Hnd). apply NoDup_cons in Hnd as [? ?].
      apply NoDup_app. set_solver.
  - intros n Hn'. apply del_links_frame; [set_solver| |destruct ys; set_solver].
    unfold last_of. destruct (last xs) as [y|] eqn:E; simpl; [|set_solver].
    apply last_Some in E as [? ->]. set_solver.
Qed.

Lemma wp_list_for_each fuel h xs Q lk :
  dll lk h xs -> (length xs < fuel)%nat -> Q xs lk -> wp (list_for_each fuel h) Q lk.
Proof.
  intros Hd Hf HQ. unfold list_for_each, read_nxt. wp_steps; [by apply dll_nxt|].
  destruct Hd as [Hc Hnd]. apply NoDup_cons in Hnd as [Hh _].
  assert (Hgen : forall ys done, xs = rev done ++ ys -> (length ys < fuel)%nat ->
            (ys <> [] -> exists a, chain lk a (ys) h) ->
            wp (loop fuel (fun st : L * list L =>
              let '(pos, seen) := st in
              if decide (pos = h) then mret (inr (rev seen))
              else n ← (lk ← gets id; of_option (nxt lk !! pos)); mret (inl (n, pos :: seen)))
              (first_of h ys, done)) Q lk).
  { clear Hf Hc. induction fuel as [|fuel IH]; intros ys dn Hxs Hlen Hch; [lia|].
    simpl. destruct ys as [|y ys]; simpl.
    - rewrite decide_True by done. wp_steps. by rewrite app_nil_r in Hxs; subst.
    - destruct Hch as [a [_ Hch]]; [done|].
      rewrite decide_False by set_solver. wp_steps.
      { instantiate (1 := first_of h ys). destruct ys; [apply Hch|]. by destruct Hch as [[? _] _]. }
      wp_steps. apply IH.
      + simpl. by rewrite <- app_assoc.
      + simpl in Hlen. lia.
      + intros _. eauto. }
  apply Hgen; [done|lia|eauto].
Qed.

(** A node on one list is on no other: the lists of a store with disjoint heads do not share
    nodes. *)
Lemma chain_prv_inj lk a xs z n : chain lk a xs z -> n ∈ xs ->
  exists m, prv lk !! n = Some m /\ nxt lk !! m = Some n /\ m ∈ a :: xs.
Proof.
  revert a. induction xs as [|x xs IH]; intros a Hc Hn; [set_solver|].
  destruct Hc as [[? ?] Hc]. apply elem_of_cons in Hn as [->|Hn]; [set_solver|].
  destruct (IH x Hc Hn) as (m & ? & ? & ?). exists m. set_solver.
Qed.
End list_head.
