(* ===== verification/Chain.v ===== *)
(** Singly linked lists of typed objects in a store: the list of software timers
    ([driver/timer.c]) and the lists of VMAs ([kernel/mm.c]) share this theory.

    An object of class [Linked] has one link field.  [chain t p xs] says that the pointer [p]
    leads through the links of the store [t] to NULL and passes the objects [xs]; [seg] is the
    same up to a given pointer.  [links_only t t'] says that two stores differ in links only. *)
From S2P Require Import Prelude.

Class Linked (V : Type) := {
  link : V -> Z;
  relink : Z -> V -> V;
  link_relink n x : link (relink n x) = n;
}.

Section chain.
Context {V : Type} `{Linked V}.
Implicit Types (t : gmap Z V) (p q : Z) (xs l r : list Z).

(** [xs] are the objects reached from [p]. *)
Fixpoint chain t p xs : Prop :=
  match xs with
  | [] => p = 0
  | q :: xs' => p = q /\ q <> 0 /\ exists x, t !! q = Some x /\ chain t (link x) xs'
  end.

(** A segment of the list, from [p] up to the pointer [p']. *)
Fixpoint seg t p xs p' : Prop :=
  match xs with
  | [] => p = p'
  | q :: xs' => p = q /\ q <> 0 /\ exists x, t !! q = Some x /\ seg t (link x) xs' p'
  end.

Lemma chain_ext t t' p xs : (forall q, q ∈ xs -> t' !! q = t !! q) -> chain t p xs -> chain t' p xs.
Proof.
  revert p. induction xs as [|q xs IH]; intros p Hq; [done|]. cbn. intros (-> & H0 & x & Hx & Hc).
  split; [done|]. split; [done|]. exists x. split; [by rewrite Hq by set_solver|].
  apply IH; [|exact Hc]. intros r Hr. apply Hq. set_solver.
Qed.

Lemma seg_ext t t' p xs p' : (forall q, q ∈ xs -> t' !! q = t !! q) -> seg t p xs p' -> seg t' p xs p'.
Proof.
  revert p. induction xs as [|q xs IH]; intros p Hq; [done|]. cbn. intros (-> & H0 & x & Hx & Hc).
  split; [done|]. split; [done|]. exists x. split; [by rewrite Hq by set_solver|].
  apply IH; [|exact Hc]. intros r Hr. apply Hq. set_solver.
Qed.

Lemma chain_elem t p xs q : chain t p xs -> q ∈ xs -> q <> 0 /\ is_Some (t !! q).
Proof.
  revert p. induction xs as [|r xs IH]; intros p; [by intros _ ?%not_elem_of_nil|].
  cbn. intros (-> & H0 & x & Hx & Hc) Hq. apply elem_of_cons in Hq as [->|Hq]; [by eauto|by eapply IH].
Qed.

Lemma chain_length t p xs : chain t p xs -> NoDup xs -> (length xs <= size t)%nat.
Proof.
  intros Hc Hnd. rewrite <- size_dom, <- (size_list_to_set (C := gset Z) xs) by exact Hnd.
  apply subseteq_size. intros q Hq. apply elem_of_list_to_set in Hq. apply elem_of_dom. by eapply chain_elem.
Qed.

Lemma chain_cut t p xs ys : chain t p (xs ++ ys) <-> exists p', seg t p xs p' /\ chain t p' ys.
Proof.
  revert p. induction xs as [|q xs IH]; intros p; cbn.
  - split; [by eauto|]. by intros (p' & -> & Hc).
  - split.
    + intros (-> & H0 & x & Hx & (p' & Hs & Hc)%IH). exists p'. split; [|exact Hc]. eauto 10.
    + intros (p' & (-> & H0 & x & Hx & Hs) & Hc). split; [done|]. split; [done|]. exists x. split; [done|].
      apply IH. eauto.
Qed.

Lemma seg_snoc t p xs q p' : seg t p (xs ++ [q]) p' <->
  seg t p xs q /\ q <> 0 /\ exists x, t !! q = Some x /\ link x = p'.
Proof.
  revert p. induction xs as [|r xs IH]; intros p; cbn; [naive_solver|].
  setoid_rewrite IH. naive_solver.
Qed.

Lemma chain_head t t' a b xs : chain t a xs -> chain t' b xs -> a = b.
Proof. destruct xs; cbn; [by intros -> ->|by intros [-> _] [-> _]]. Qed.

(** A chain has no object twice: a second visit would make it endless. *)
Lemma chain_inj t p xs ys : chain t p xs -> chain t p ys -> xs = ys.
Proof.
  revert p ys. induction xs as [|q xs IH]; intros p [|q' ys]; cbn.
  - done.
  - by intros -> (<- & ? & _).
  - by intros (<- & ? & _) ->.
  - intros (-> & _ & x & Hx & Hc) (<- & _ & x' & Hx' & Hc'). rewrite Hx in Hx'. injection Hx' as <-.
    f_equal. by eapply IH.
Qed.

Lemma chain_NoDup t p xs : chain t p xs -> NoDup xs.
Proof.
  revert p. induction xs as [|q xs IH]; intros p Hc; [constructor|]. pose proof Hc as (-> & H0 & x & Hx & Hr).
  constructor; [|by eapply IH]. intros Hin. apply list_elem_of_split in Hin as (l & r & E).
  rewrite E in Hr. apply chain_cut in Hr as (p' & _ & Hr). cbn in Hr. destruct Hr as (-> & _ & x' & Hx' & Hr).
  rewrite Hx in Hx'. injection Hx' as <-.
  destruct Hc as (_ & _ & y & Hy & Hc). rewrite Hx in Hy. injection Hy as <-.
  pose proof (f_equal length (chain_inj _ _ _ _ Hc Hr)) as Hl. rewrite E, length_app in Hl. cbn in Hl. lia.
Qed.

(** ** Stores that differ in links only *)

Definition links_only t t' : Prop :=
  forall q, t' !! q = t !! q \/ exists x n, t !! q = Some x /\ t' !! q = Some (relink n x).

Lemma links_only_refl t : links_only t t.
Proof. by left. Qed.

Lemma links_only_set t p x n : t !! p = Some x -> links_only t (<[p := relink n x]> t).
Proof.
  intros Hx q. rewrite lookup_insert. case_decide as E; [subst q; right; by exists x, n|by left].
Qed.

(** A field the links do not touch. *)
Lemma links_only_field {A} (f : V -> A) t t' q : (forall n x, f (relink n x) = f x) -> links_only t t' ->
  f <$> t' !! q = f <$> t !! q.
Proof. intros Hf Hr. destruct (Hr q) as [->|(x & n & -> & ->)]; [done|]. cbn. by rewrite Hf. Qed.

Lemma links_only_dom t t' : links_only t t' -> dom t' = dom t.
Proof.
  intros Hr. apply set_eq. intros q. rewrite !elem_of_dom.
  destruct (Hr q) as [->|(x & n & -> & ->)]; [done|]. split; by eauto.
Qed.

Lemma links_only_size t t' : links_only t t' -> size t' = size t.
Proof. intros Hr. by rewrite <- !size_dom, (links_only_dom t t'). Qed.

(** Only links of the objects [xs] differ. *)
Definition links_in xs t t' : Prop := links_only t t' /\ forall q, q ∉ xs -> t' !! q = t !! q.

Lemma links_in_refl xs t : links_in xs t t.
Proof. split; [apply links_only_refl|done]. Qed.

Lemma links_in_set xs t p x n : p ∈ xs -> t !! p = Some x -> links_in xs t (<[p := relink n x]> t).
Proof.
  intros Hp Hx. split; [by apply links_only_set|]. intros q Hq. rewrite lookup_insert_ne; [done|]. by intros ->.
Qed.

Lemma links_in_mono xs ys t t' : xs ⊆ ys -> links_in xs t t' -> links_in ys t t'.
Proof. intros Hs [Hl Ho]. split; [exact Hl|]. intros q Hq. apply Ho. set_solver. Qed.

Lemma links_in_delete xs t t' p : links_in xs t t' -> links_in xs (delete p t) (delete p t').
Proof.
  intros [Hl Ho]. split; intros q; rewrite !lookup_delete; case_decide; [by left|apply Hl|done|apply Ho].
Qed.

(** A list that shares no object with [xs]. *)
Lemma links_in_chain xs t t' p ys : links_in xs t t' -> (forall q, q ∈ ys -> q ∉ xs) -> chain t p ys -> chain t' p ys.
Proof. intros [_ Ho] Hd. apply chain_ext. intros q Hq. by apply Ho, Hd. Qed.

(** ** Inserting and unlinking *)

(** [new] in front of the list. *)
Lemma chain_push t p xs new x : chain t p xs -> t !! new = Some x -> new <> 0 -> new ∉ xs ->
  chain (<[new := relink p x]> t) new (new :: xs).
Proof.
  intros Hc Hx H0 Hn. cbn. split; [done|]. split; [done|]. eexists. split; [apply lookup_insert_eq|].
  rewrite link_relink. eapply chain_ext; [|exact Hc]. intros q Hq. rewrite lookup_insert_ne; [done|]. by intros ->.
Qed.

(** [new] after the object [cur]. *)
Lemma chain_insert_after t p l cur r new xc x : chain t p (l ++ cur :: r) ->
  t !! cur = Some xc -> t !! new = Some x -> new <> 0 -> new ∉ l ++ cur :: r ->
  chain (<[cur := relink new xc]> (<[new := relink (link xc) x]> t)) p (l ++ cur :: new :: r).
Proof.
  intros Hc Hxc Hx H0 Hn. pose proof (chain_NoDup _ _ _ Hc) as Hnd.
  apply chain_cut in Hc as (p' & Hseg & Hc). cbn in Hc. destruct Hc as (-> & Hc0 & xc' & Hxc' & Hr).
  rewrite Hxc in Hxc'. injection Hxc' as <-. rewrite elem_of_app, elem_of_cons in Hn.
  apply NoDup_app in Hnd as (_ & Hd & Hnd). apply NoDup_cons in Hnd as [Hcr _].
  assert (Hcl : cur ∉ l) by (intros Hin; apply (Hd cur Hin), elem_of_cons; by left).
  assert (Hnc : cur <> new) by (intros ->; tauto).
  set (t' := <[cur := _]> _).
  assert (Hout : forall q, q <> new -> q <> cur -> t' !! q = t !! q).
  { intros q Hq Hq'. unfold t'. by rewrite !lookup_insert_ne by (by intros ->). }
  apply chain_cut. exists cur. split.
  - eapply seg_ext; [|exact Hseg]. intros q Hq. apply Hout; intros ->; tauto.
  - cbn. split; [done|]. split; [exact Hc0|]. eexists. split; [apply lookup_insert_eq|]. rewrite link_relink.
    split; [done|]. split; [exact H0|].
    eexists. split; [unfold t'; rewrite lookup_insert_ne by done; apply lookup_insert_eq|]. rewrite link_relink.
    eapply chain_ext; [|exact Hr]. intros q Hq. apply Hout; intros ->; tauto.
Qed.

(** The object after [y] taken off the list. *)
Lemma chain_unlink_after t p l y q r xy x : chain t p (l ++ y :: q :: r) -> t !! y = Some xy -> t !! q = Some x ->
  chain (<[y := relink (link x) xy]> t) p (l ++ y :: r) /\ (<[y := relink (link x) xy]> t) !! q = Some x.
Proof.
  intros Hc Hy Hx. pose proof (chain_NoDup _ _ _ Hc) as Hnd.
  apply chain_cut in Hc as (p' & Hseg & Hc). cbn in Hc. destruct Hc as (-> & Hy0 & xy' & Hy' & Hlq & Hq0 & x' & Hx' & Hr).
  rewrite Hy in Hy'. injection Hy' as <-. rewrite Hx in Hx'. injection Hx' as <-.
  apply NoDup_app in Hnd as (_ & Hd & Hnd). apply NoDup_cons in Hnd as [Hyr _]. rewrite elem_of_cons in Hyr.
  assert (Hyl : y ∉ l) by (intros Hin; apply (Hd y Hin), elem_of_cons; by left).
  split; [|rewrite lookup_insert_ne by (intros ->; tauto); exact Hx].
  apply chain_cut. exists y. split.
  - eapply seg_ext; [|exact Hseg]. intros z Hz. rewrite lookup_insert_ne; [done|]. by intros ->.
  - cbn. split; [done|]. split; [done|]. eexists. split; [apply lookup_insert_eq|]. rewrite link_relink.
    eapply chain_ext; [|exact Hr]. intros z Hz. rewrite lookup_insert_ne; [done|]. intros ->; tauto.
Qed.

End chain.

(** ** Links compose *)

Class RelinkLaw (V : Type) `{Linked V} := relink_relink m n (x : V) : relink m (relink n x) = relink m x.

Section relinking.
Context {V : Type} `{RelinkLaw V}.

Lemma links_only_trans (t1 t2 t3 : gmap Z V) : links_only t1 t2 -> links_only t2 t3 -> links_only t1 t3.
Proof.
  intros H1 H2 q. destruct (H2 q) as [E2|(x & n & Hx & E2)].
  - rewrite E2. apply H1.
  - right. destruct (H1 q) as [E1|(y & m & Hy & E1)].
    + exists x, n. by rewrite <- E1.
    + rewrite E1 in Hx. injection Hx as <-. exists y, n. by rewrite relink_relink in E2.
Qed.

Lemma links_in_trans xs (t1 t2 t3 : gmap Z V) : links_in xs t1 t2 -> links_in xs t2 t3 -> links_in xs t1 t3.
Proof.
  intros [L1 O1] [L2 O2]. split; [by eapply links_only_trans|]. intros q Hq. by rewrite O2, O1.
Qed.

#[export] Instance links_in_preorder xs : PreOrder (links_in (V := V) xs).
Proof. split; [exact (links_in_refl xs)|exact (links_in_trans xs)]. Qed.
#[export] Instance links_only_preorder : PreOrder (links_only (V := V)).
Proof. split; [exact links_only_refl|exact links_only_trans]. Qed.
End relinking.
