(* ===== verification/Pmm.v ===== *)
(** The buddy physical page allocator ([kernel/pmm.c], [include/pmm.h]): data and operations.

    [pmm] is the module's static state.  The free lists are the intrusive lists of ListHead over
    the nodes [FreeHead order] ([free_area[order].free_list]) and [PageNode pfn]
    ([mem_map[pfn].node]).  An access to [mem_map] or [free_area] outside the array is
    undefined.  Every loop has a bound that PmmTheory proves sufficient. *)
From S2P Require Import Prelude ListHead.

(** ** Constants ([include/mm_defs.h], [include/pmm.h], [include/gfp.h]) *)

Definition PHYS_MEM_START : Z := 0x40000000.
Definition PHYS_MEM_END : Z := 0x4FFFFFFF.
Definition BUDDY_MEM_END : Z := 0x4FFFFFFF.
Definition PAGE_SIZE : Z := 4096.
Definition PAGE_SHIFT : Z := 12.
Definition PAGE_MASK : Z := not64 (PAGE_SIZE - 1).
Definition MAX_ORDER : Z := 10.
Definition NR_ORDERS : Z := MAX_ORDER + 1.
Definition PHYS_MEM_SIZE : Z := PHYS_MEM_END - PHYS_MEM_START + 1.
Definition TOTAL_PAGES : Z := Z.shiftr PHYS_MEM_SIZE PAGE_SHIFT.
Definition DMA_ZONE_SIZE : Z := 16 * 1024 * 1024.
Definition KERNEL_LINK_BASE : Z := 0xffff800000000000.

Definition PG_RESERVED : Z := Z.shiftl 1 0.
Definition PG_BUDDY : Z := Z.shiftl 1 1.
Definition PG_ALLOCATED : Z := Z.shiftl 1 2.
Definition PG_HEAD : Z := Z.shiftl 1 3.

Definition GFP_KERNEL : Z := 0x001.
Definition GFP_ATOMIC : Z := 0x002.
Definition GFP_DMA : Z := 0x004.
Definition GFP_HIGHMEM : Z := 0x008.

Inductive buddy_error : Set :=
| BUDDY_OK
| BUDDY_ERR_BAD_ORDER
| BUDDY_ERR_NO_MEMORY
| BUDDY_ERR_OUT_OF_RANGE
| BUDDY_ERR_UNALIGNED
| BUDDY_ERR_NOT_ALLOCATED
| BUDDY_ERR_DOUBLE_FREE.

#[export] Instance buddy_error_eq_dec : EqDecision buddy_error.
Proof. solve_decision. Defined.

(** ** Data *)

(** [struct page]; its [node] lives in the link store. *)
Record page := Page {
  pg_order : Z;
  pg_private : Z;
  pg_flags : Z;
  pg_ref_count : Z;
  pg_virtual_address : Z;
}.
(** The static array is zero-initialised. *)
Definition page_zero : page := Page 0 0 0 0 0.

Inductive lnode : Set :=
| FreeHead (order : Z)
| PageNode (pfn : Z).

#[export] Instance lnode_eq_dec : EqDecision lnode.
Proof. solve_decision. Defined.
#[export] Instance lnode_countable : Countable lnode.
Proof.
  refine (inj_countable' (fun n => match n with FreeHead o => inl o | PageNode p => inr p end)
            (fun x => match x with inl o => FreeHead o | inr p => PageNode p end) _).
  by intros [].
Defined.

Record pmm := Pmm {
  buddy_mem_start : Z;
  dma_end_pfn : Z;
  mem_map : gmap Z page;
  pmm_links : links lnode;
  nr_free : gmap Z Z;
  buddy_last_error : buddy_error;
}.

(** The state before [buddy_init]: zero-filled [.bss]. *)
Definition pmm_bss : pmm := Pmm 0 0 ∅ (Links ∅ ∅) ∅ BUDDY_OK.

Definition set_mem_map m (s : pmm) : pmm :=
  Pmm (buddy_mem_start s) (dma_end_pfn s) m (pmm_links s) (nr_free s) (buddy_last_error s).
Definition set_links l (s : pmm) : pmm :=
  Pmm (buddy_mem_start s) (dma_end_pfn s) (mem_map s) l (nr_free s) (buddy_last_error s).
Definition set_nr_free n (s : pmm) : pmm :=
  Pmm (buddy_mem_start s) (dma_end_pfn s) (mem_map s) (pmm_links s) n (buddy_last_error s).
Definition set_zone st dma (s : pmm) : pmm :=
  Pmm st dma (mem_map s) (pmm_links s) (nr_free s) (buddy_last_error s).

Definition page_at (s : pmm) (pfn : Z) : page := default page_zero (mem_map s !! pfn).
Definition free_count (s : pmm) (order : Z) : Z := default 0 (nr_free s !! order).

Definition pfn_ok (pfn : Z) : bool := (0 <=? pfn) && (pfn <? TOTAL_PAGES).
Definition order_ok (order : Z) : bool := (0 <=? order) && (order <? NR_ORDERS).

Definition read_page (pfn : Z) : M pmm page :=
  _ ← guard_ub (pfn_ok pfn);
  gets (fun s => page_at s pfn).

Definition upd_page (pfn : Z) (f : page -> page) : M pmm unit :=
  _ ← guard_ub (pfn_ok pfn);
  modify (fun s => set_mem_map (<[pfn := f (page_at s pfn)]> (mem_map s)) s).

Definition on_links {A} (m : M (links lnode) A) : M pmm A := zoom pmm_links set_links m.

Definition upd_nr_free (order : Z) (f : Z -> Z) : M pmm unit :=
  _ ← guard_ub (order_ok order);
  modify (fun s => set_nr_free (<[order := f (free_count s order)]> (nr_free s)) s).

(** ** Page metadata ([include/pmm.h]) *)

Definition pfn_to_pa (pfn : Z) : Z := add64 PHYS_MEM_START (shl64 pfn PAGE_SHIFT).
Definition pa_to_pfn (pa : Z) : Z := shr64 (sub64 pa PHYS_MEM_START) PAGE_SHIFT.

Definition page_is_buddy (p : page) : bool := negb (Z.land (pg_flags p) PG_BUDDY =? 0).
Definition page_is_allocated (p : page) : bool := negb (Z.land (pg_flags p) PG_ALLOCATED =? 0).
Definition page_is_reserved (p : page) : bool := negb (Z.land (pg_flags p) PG_RESERVED =? 0).

Definition set_flags_order (flags order : Z) (p : page) : page :=
  Page order (pg_private p) flags (pg_ref_count p) (pg_virtual_address p).
Definition set_page_order (order : Z) (p : page) : page := set_flags_order (pg_flags p) (u16 order) p.
Definition clear_page_order (p : page) : page := set_flags_order (pg_flags p) 0 p.
Definition mark_page_buddy (order : Z) : page -> page :=
  set_flags_order (Z.lor PG_BUDDY PG_HEAD) (u16 order).
Definition mark_page_allocated (order : Z) : page -> page :=
  set_flags_order (Z.lor PG_ALLOCATED PG_HEAD) (u16 order).
Definition mark_page_reserved : page -> page := set_flags_order PG_RESERVED 0.
Definition clear_page_flags : page -> page := set_flags_order 0 0.
Definition set_ref_count (rc : Z) (p : page) : page :=
  Page (pg_order p) (pg_private p) (pg_flags p) rc (pg_virtual_address p).

(** ** Internals of pmm.c *)

Definition buddy_get_last_error : M pmm buddy_error := gets buddy_last_error.
Definition buddy_set_error (err : buddy_error) : M pmm unit :=
  modify (fun s => Pmm (buddy_mem_start s) (dma_end_pfn s) (mem_map s) (pmm_links s) (nr_free s) err).

Definition pa_in_range (s : pmm) (pa : Z) : bool :=
  (buddy_mem_start s <=? pa) && (pa <=? BUDDY_MEM_END).
Definition valid_order (order : Z) : bool := order <=? MAX_ORDER.
Definition page_aligned (pa : Z) : bool := Z.land pa (PAGE_SIZE - 1) =? 0.
Definition buddy_pfn (pfn order : Z) : Z := Z.lxor pfn (shl64 1 order).
Definition pfn_aligned_to_order (pfn order : Z) : bool :=
  Z.land pfn (sub64 (shl64 1 order) 1) =? 0.

Definition add_to_free_area (pfn order : Z) : M pmm unit :=
  _ ← upd_page pfn (mark_page_buddy order);
  _ ← on_links (list_add_tail (PageNode pfn) (FreeHead order));
  upd_nr_free order (fun n => u32 (n + 1)).

Definition remove_from_free_area (pfn order : Z) : M pmm unit :=
  _ ← on_links (list_del (PageNode pfn));
  _ ← upd_nr_free order (fun n => u32 (n - 1));
  upd_page pfn clear_page_flags.

Definition expand_block (pfn high low : Z) : M pmm Z :=
  loop (S (Z.to_nat high)) (fun high =>
    if high >? low then
      let new_order := high - 1 in
      let right_pfn := add64 pfn (shl64 1 new_order) in
      _ ← add_to_free_area right_pfn new_order;
      mret (inl new_order)
    else mret (inr pfn)) high.

(** [container_of(node, struct page, node)] is a page only for a page's node. *)
Definition pfn_of_node (n : lnode) : M pmm Z :=
  match n with PageNode pfn => mret pfn | FreeHead _ => undef end.

Definition buddy_alloc_pfn (order : Z) (dma_only : bool) : M pmm Z :=
  loop (Z.to_nat NR_ORDERS + 1) (fun cur =>
    if cur <=? MAX_ORDER then
      empty ← on_links (list_empty (FreeHead cur));
      if negb empty then
        node ← on_links (read_nxt (FreeHead cur));
        pfn ← pfn_of_node node;
        dma_end ← gets dma_end_pfn;
        if dma_only && (dma_end <=? pfn) then mret (inl (cur + 1))
        else
          _ ← remove_from_free_area pfn cur;
          pfn ← expand_block pfn cur order;
          mret (inr pfn)
      else mret (inl (cur + 1))
    else mret (inr TOTAL_PAGES)) order.

(** Returns the merged block's first page and its order (the out-parameter). *)
Definition buddy_merge_pfn (pfn order : Z) : M pmm (Z * Z) :=
  loop (Z.to_nat MAX_ORDER + 1) (fun st : Z * Z =>
    let '(pfn, order) := st in
    if order <? MAX_ORDER then
      let bpfn := buddy_pfn pfn order in
      if TOTAL_PAGES <=? bpfn then mret (inr (pfn, order))
      else
        buddy ← read_page bpfn;
        if negb (page_is_buddy buddy) then mret (inr (pfn, order))
        else if negb (pg_order buddy =? order) then mret (inr (pfn, order))
        else
          _ ← remove_from_free_area bpfn order;
          mret (inl (if bpfn <? pfn then bpfn else pfn, order + 1))
    else mret (inr (pfn, order))) (pfn, order).

(** ** Initialisation *)

Definition ALIGN (x a : Z) : Z := Z.land (u64 (x + a - 1)) (not64 (a - 1)).

(** The inner [while (1)] of [buddy_init]: the largest aligned order that fits. *)
Definition choose_order (pfn remain : Z) : M pmm Z :=
  loop (Z.to_nat NR_ORDERS) (fun order =>
    if (shl64 1 order <=? remain) && pfn_aligned_to_order pfn order then mret (inr order)
    else if order =? 0 then mret (inr order)
    else mret (inl (order - 1))) MAX_ORDER.

Definition buddy_init (kernel_end : Z) : M pmm unit :=
  _ ← buddy_set_error BUDDY_OK;
  let start := ALIGN (sub64 kernel_end KERNEL_LINK_BASE) PAGE_SIZE in
  let dma_end_pa := add64 start DMA_ZONE_SIZE in
  let dma_end_pa := if dma_end_pa >? BUDDY_MEM_END then BUDDY_MEM_END else dma_end_pa in
  _ ← modify (set_zone start (pa_to_pfn dma_end_pa));
  let pfn := pa_to_pfn start in
  let remain := shr64 (u64 (BUDDY_MEM_END - start + 1)) PAGE_SHIFT in
  _ ← for_n (Z.to_nat NR_ORDERS) 0 (fun i =>
        _ ← on_links (INIT_LIST_HEAD (FreeHead i));
        upd_nr_free i (fun _ => 0));
  _ ← for_n (Z.to_nat TOTAL_PAGES) 0 (fun i =>
        _ ← upd_page i (fun p => Page 0 0 0 (pg_ref_count p) (pg_virtual_address p));
        on_links (INIT_LIST_HEAD (PageNode i)));
  let kernel_pages := pa_to_pfn start in
  _ ← for_n (Z.to_nat kernel_pages) 0 (fun i => upd_page i mark_page_reserved);
  let buddy_total := shr64 (u64 (BUDDY_MEM_END - start + 1)) PAGE_SHIFT in
  _ ← for_n (Z.to_nat buddy_total) 0 (fun i => upd_page (kernel_pages + i) mark_page_reserved);
  loop (S (Z.to_nat remain)) (fun st : Z * Z =>
    let '(pfn, remain) := st in
    if remain >? 0 then
      order ← choose_order pfn remain;
      _ ← upd_page pfn clear_page_flags;
      _ ← add_to_free_area pfn order;
      _ ← for_n (Z.to_nat (shl64 1 order - 1)) 1 (fun i => upd_page (add64 pfn i) clear_page_flags);
      mret (inl (add64 pfn (shl64 1 order), sub64 remain (shl64 1 order)))
    else mret (inr tt)) (pfn, remain).

(** ** Allocation and release *)

Definition alloc_phys_pages (order flags : Z) : M pmm Z :=
  if negb (valid_order order) then
    _ ← buddy_set_error BUDDY_ERR_BAD_ORDER; mret 0
  else
    pfn ← buddy_alloc_pfn order (negb (Z.land flags GFP_DMA =? 0));
    if TOTAL_PAGES <=? pfn then
      _ ← buddy_set_error BUDDY_ERR_NO_MEMORY; mret 0
    else
      _ ← upd_page pfn (mark_page_allocated order);
      _ ← upd_page pfn (set_ref_count 1);
      _ ← buddy_set_error BUDDY_OK;
      mret (pfn_to_pa pfn).

Definition free_phys_pages (pa order : Z) : M pmm unit :=
  if negb (valid_order order) then buddy_set_error BUDDY_ERR_BAD_ORDER else
  in_range ← gets (fun s => pa_in_range s pa);
  if negb in_range then buddy_set_error BUDDY_ERR_OUT_OF_RANGE else
  if negb (page_aligned pa) then buddy_set_error BUDDY_ERR_UNALIGNED else
  let pfn := pa_to_pfn pa in
  if negb (pfn_aligned_to_order pfn order) then buddy_set_error BUDDY_ERR_UNALIGNED else
  if TOTAL_PAGES <=? pfn then buddy_set_error BUDDY_ERR_OUT_OF_RANGE else
  page ← read_page pfn;
  if negb (page_is_allocated page) || (Z.land (pg_flags page) PG_HEAD =? 0) then
    if page_is_buddy page then buddy_set_error BUDDY_ERR_DOUBLE_FREE
    else buddy_set_error BUDDY_ERR_NOT_ALLOCATED
  else if negb (pg_order page =? order) then buddy_set_error BUDDY_ERR_BAD_ORDER else
  _ ← upd_page pfn clear_page_flags;
  r ← buddy_merge_pfn pfn order;
  let '(pfn, order) := r in
  _ ← add_to_free_area pfn order;
  buddy_set_error BUDDY_OK.

(** ** Queries *)

Definition buddy_nr_free_blocks (s : pmm) (order : Z) : Z :=
  if negb (valid_order order) then 0 else free_count s order.

Definition buddy_nr_free_pages_total (s : pmm) : Z :=
  foldl (fun total order => u32 (total + u32 (free_count s order * Z.shiftl 1 order))) 0
    (seqZ 0 NR_ORDERS).

Definition buddy_is_allocated_head (s : pmm) (pa : Z) : bool :=
  if negb (pa_in_range s pa) || negb (page_aligned pa) then false else
  let pfn := pa_to_pfn pa in
  if TOTAL_PAGES <=? pfn then false else
  page_is_allocated (page_at s pfn) && negb (Z.land (pg_flags (page_at s pfn)) PG_HEAD =? 0).

Definition buddy_nr_used_pages_total (s : pmm) : Z :=
  u32 (sub64 TOTAL_PAGES (buddy_nr_free_pages_total s)).

Definition buddy_mem_usage_percent (s : pmm) : Z :=
  if TOTAL_PAGES =? 0 then 0 else u32 (u32 (buddy_nr_used_pages_total s * 100) / TOTAL_PAGES).

Definition total_phys_pages : Z := (PHYS_MEM_END - PHYS_MEM_START + 1) / PAGE_SIZE.

Definition total_used_pages (s : pmm) : Z :=
  let kernel_pages := sub64 (buddy_mem_start s) PHYS_MEM_START / PAGE_SIZE in
  add64 kernel_pages (buddy_nr_used_pages_total s).

Definition total_mem_usage_percent (s : pmm) : Z :=
  if total_phys_pages =? 0 then 0 else u32 (mul64 (total_used_pages s) 100 / total_phys_pages).

(** ** Single pages and reference counts *)

(** [struct page *]: a page is named by its index in [mem_map]; [None] is NULL. *)
Definition alloc_page (flags : Z) : M pmm (option Z) :=
  pa ← alloc_phys_pages 0 flags;
  if pa =? 0 then mret None else mret (Some (pa_to_pfn pa)).

Definition free_page (page : Z) : M pmm unit := free_phys_pages (pfn_to_pa page) 0.

Definition get_page (pa : Z) : M pmm unit :=
  let pfn := pa_to_pfn pa in
  if TOTAL_PAGES <=? pfn then mret tt
  else upd_page pfn (fun p => set_ref_count (u64 (pg_ref_count p + 1)) p).

Definition put_page (pa : Z) : M pmm unit :=
  let pfn := pa_to_pfn pa in
  if TOTAL_PAGES <=? pfn then mret tt else
  page ← read_page pfn;
  if pg_ref_count page =? 0 then mret tt else
  _ ← upd_page pfn (set_ref_count (u64 (pg_ref_count page - 1)));
  page ← read_page pfn;
  if pg_ref_count page =? 0 then free_phys_pages pa 0 else mret tt.
