(* ===== verification/PmmTheory.v ===== *)
(** Correctness of the buddy allocator, part 1: the block partition and its invariant.

    [geom K T E] says that the set of blocks [E] partitions the page frames [K .. T) into
    aligned power-of-two blocks.  [binv X s] is the allocator's invariant: the blocks recorded in
    [mem_map], together with the blocks [X] the running operation holds in its hands, form such a
    partition, and the free lists hold exactly the free blocks.  Taking a block from a list,
    splitting it, joining two buddies and putting a block back each move blocks between [X] and
    [mem_map], so every operation of pmm.c is a short sequence of these steps. *)
From S2P Require Import Prelude ListHead Pmm.

Lemma TOTAL_PAGES_eq : TOTAL_PAGES = 65536.
Proof. reflexivity. Qed.
Lemma PAGE_SIZE_eq : PAGE_SIZE = 4096.
Proof. reflexivity. Qed.
#[global] Opaque TOTAL_PAGES.

(** ** Partitions into aligned blocks *)

Definition aligned (p o : Z) : Prop := p mod 2 ^ o = 0.

Record geom (K T : Z) (E : Z -> Z -> Prop) : Prop := {
  geom_wf : forall p o, E p o ->
    0 <= o <= MAX_ORDER /\ aligned p o /\ K <= p /\ p + 2 ^ o <= T;
  geom_fun : forall p o o', E p o -> E p o' -> o = o';
  geom_disj : forall p o q o', E p o -> E q o' -> p < q -> p + 2 ^ o <= q;
  geom_cover : forall z, K <= z < T -> exists p o, E p o /\ p <= z < p + 2 ^ o;
}.

Lemma geom_ext K T E E' : (forall p o, E p o <-> E' p o) -> geom K T E -> geom K T E'.
Proof.
  intros HE [Hwf Hfun Hdisj Hcov]. split.
  - intros p o ?. apply Hwf. by apply HE.
  - intros p o o' ? ?. apply (Hfun p); by apply HE.
  - intros p o q o' ? ?. apply (Hdisj p o q o'); by apply HE.
  - intros z Hz. destruct (Hcov z Hz) as (p & o & ? & ?). exists p, o. split; [by apply HE|done].
Qed.

Lemma pow2_le_1024 o : 0 <= o <= MAX_ORDER -> 1 <= 2 ^ o <= 1024.
Proof.
  intros Ho. split; [pose proof (pow2_pos o); lia|]. change 1024 with (2 ^ 10).
  apply pow2_mono; unfold MAX_ORDER in *; lia.
Qed.

Lemma aligned_half p o : 0 < o -> aligned p o -> aligned p (o - 1) /\ aligned (p + 2 ^ (o - 1)) (o - 1).
Proof.
  unfold aligned. intros Ho Hp. pose proof (pow2_succ o Ho) as E.
  pose proof (pow2_pos (o - 1) ltac:(lia)) as Hpos. rewrite E in Hp.
  apply Z.mod_divide in Hp as [k ->]; [|lia].
  split; apply Z.mod_divide; try lia.
  - exists (2 * k). lia.
  - exists (2 * k + 1). lia.
Qed.

(** Splitting a block in two halves. *)
Lemma geom_split K T E E' p o :
  geom K T E -> E p o -> 0 < o ->
  (forall q r, E' q r <->
     (q = p /\ r = o - 1) \/ (q = p + 2 ^ (o - 1) /\ r = o - 1) \/ (q <> p /\ E q r)) ->
  geom K T E'.
Proof.
  intros [Hwf Hfun Hdisj Hcov] Hp Ho HE.
  destruct (Hwf _ _ Hp) as (Hob & Hal & HK & Htop).
  pose proof (aligned_half p o Ho Hal) as [Hal1 Hal2].
  pose proof (pow2_succ o Ho) as Hpow. pose proof (pow2_pos (o - 1) ltac:(lia)) as Hpos.
  split.
  - intros q r Hq. apply HE in Hq as [[-> ->]|[[-> ->]|[_ Hq]]]; [| |by apply Hwf].
    + repeat split; try done; lia.
    + repeat split; try done; lia.
  - intros q r r' H1 H2. apply HE in H1, H2.
    destruct H1 as [[-> ->]|[[-> ->]|[Hn1 H1]]], H2 as [[? ?]|[[? ?]|[Hn2 H2]]]; subst; try lia.
    + exfalso. pose proof (Hdisj _ _ _ _ Hp H2). lia.
    + exfalso. pose proof (Hdisj _ _ _ _ Hp H1). lia.
    + by eapply Hfun.
  - intros q r q' r' H1 H2 Hlt. apply HE in H1, H2.
    destruct H1 as [[-> ->]|[[-> ->]|[Hn1 H1]]], H2 as [[-> ->]|[[-> ->]|[Hn2 H2]]]; try lia.
    + pose proof (Hdisj _ _ _ _ Hp H2 Hlt). lia.
    + destruct (Z_lt_le_dec p q'); [pose proof (Hdisj _ _ _ _ Hp H2 ltac:(lia)); lia|lia].
    + by eapply Hdisj.
    + destruct (Z_lt_le_dec q p); [pose proof (Hdisj _ _ _ _ H1 Hp ltac:(lia)); lia|].
      pose proof (Hdisj _ _ _ _ Hp H1 ltac:(lia)). lia.
    + by eapply Hdisj.
  - intros z Hz. destruct (Hcov z Hz) as (q & r & Hq & Hr).
    destruct (decide (q = p)) as [->|Hne].
    + pose proof (Hfun _ _ _ Hp Hq) as <-.
      destruct (Z_lt_le_dec z (p + 2 ^ (o - 1))).
      * exists p, (o - 1). split; [apply HE; by left|lia].
      * exists (p + 2 ^ (o - 1)), (o - 1). split; [apply HE; right; by left|lia].
    + exists q, r. split; [apply HE; by do 2 right|done].
Qed.

(** Joining two adjacent blocks whose union is aligned. *)
Lemma geom_join K T E E' p o :
  geom K T E -> E p o -> E (p + 2 ^ o) o -> o < MAX_ORDER -> aligned p (o + 1) ->
  (forall q r, E' q r <-> (q = p /\ r = o + 1) \/ (q <> p /\ q <> p + 2 ^ o /\ E q r)) ->
  geom K T E'.
Proof.
  intros [Hwf Hfun Hdisj Hcov] Hp Hb Ho Hal HE.
  destruct (Hwf _ _ Hp) as (Hob & _ & HK & _). destruct (Hwf _ _ Hb) as (_ & _ & _ & Htop).
  assert (Hpow : 2 ^ (o + 1) = 2 * 2 ^ o) by (rewrite Z.pow_add_r by lia; lia).
  pose proof (pow2_pos o ltac:(lia)) as Hpos.
  split.
  - intros q r Hq. apply HE in Hq as [[-> ->]|(_ & _ & Hq)]; [|by apply Hwf].
    split; [lia|]. split; [done|]. lia.
  - intros q r r' H1 H2. apply HE in H1, H2.
    destruct H1 as [[-> ->]|(? & ? & H1)], H2 as [[? ?]|(? & ? & H2)]; subst; try done.
    by eapply Hfun.
  - intros q r q' r' H1 H2 Hlt. apply HE in H1, H2.
    destruct H1 as [[-> ->]|(? & ? & H1)], H2 as [[-> ->]|(? & ? & H2)]; try lia.
    + pose proof (Hdisj _ _ _ _ Hp H2 Hlt). pose proof (Hdisj _ _ _ _ Hb H2 ltac:(lia)). lia.
    + by eapply Hdisj.
    + by eapply Hdisj.
  - intros z Hz. destruct (Hcov z Hz) as (q & r & Hq & Hr).
    destruct (decide (q = p)) as [->|Hne]; [|destruct (decide (q = p + 2 ^ o)) as [->|Hne']].
    + pose proof (Hfun _ _ _ Hp Hq) as <-. exists p, (o + 1). split; [apply HE; by left|lia].
    + pose proof (Hfun _ _ _ Hb Hq) as <-. exists p, (o + 1). split; [apply HE; by left|lia].
    + exists q, r. split; [apply HE; by right|done].
Qed.

(** ** The buddy of a block *)

Lemma buddy_pfn_spec p o : 0 <= p < 2 ^ 32 -> 0 <= o <= MAX_ORDER -> aligned p o ->
  (buddy_pfn p o = p + 2 ^ o /\ aligned p (o + 1)) \/
  (buddy_pfn p o = p - 2 ^ o /\ aligned (p - 2 ^ o) (o + 1)).
Proof.
  intros Hp Ho Hal. unfold buddy_pfn. rewrite shl64_1 by (unfold MAX_ORDER in *; lia).
  unfold aligned in *. pose proof (pow2_pos o ltac:(lia)) as Hpos.
  assert (Hpow : 2 ^ (o + 1) = 2 * 2 ^ o) by (rewrite Z.pow_add_r by lia; lia).
  apply Z.mod_divide in Hal as [k ->]; [|lia].
  assert (Hbit : Z.testbit (k * 2 ^ o) o = Z.odd k).
  { rewrite Z.mul_pow2_bits by lia. by rewrite Z.sub_diag, Z.bit0_odd. }
  destruct (Z.odd k) eqn:Hk.
  - right. apply Z.odd_spec in Hk as [j ->].
    split; [|apply Z.mod_divide; [lia|]; exists j; lia].
    replace ((2 * j + 1) * 2 ^ o) with (2 * j * 2 ^ o + 2 ^ o) by lia.
    rewrite Z.add_simpl_r. rewrite (Z.add_nocarry_lxor (2 * j * 2 ^ o) (2 ^ o)).
    + by rewrite Z.lxor_assoc, Z.lxor_nilpotent, Z.lxor_0_r.
    + apply Z.bits_inj'. intros i Hi. rewrite Z.land_spec, Z.testbit_0_l, Z.pow2_bits_eqb by lia.
      destruct (Z.eqb_spec o i) as [<-|]; [|by rewrite andb_false_r].
      rewrite Z.mul_pow2_bits by lia. rewrite Z.sub_diag, Z.bit0_odd, Z.odd_mul. done.
  - left. rewrite <- Z.negb_even in Hk. apply negb_false_iff, Z.even_spec in Hk as [j ->].
    split; [|apply Z.mod_divide; [lia|]; exists j; lia].
    rewrite Z.add_nocarry_lxor; [done|].
    apply Z.bits_inj'. intros i Hi. rewrite Z.land_spec, Z.testbit_0_l, Z.pow2_bits_eqb by lia.
    destruct (Z.eqb_spec o i) as [<-|]; [|by rewrite andb_false_r].
    by rewrite Hbit.
Qed.

Lemma pfn_aligned_spec p o : 0 <= o < 64 -> pfn_aligned_to_order p o = true <-> aligned p o.
Proof.
  intros Ho. unfold pfn_aligned_to_order, aligned. rewrite shl64_1 by lia.
  pose proof (pow2_pos o ltac:(lia)). pose proof (Z.pow_lt_mono_r 2 o 64 ltac:(lia) ltac:(lia) ltac:(lia)).
  rewrite sub64_small by lia. rewrite land_mask by lia. apply Z.eqb_eq.
Qed.

(** ** The blocks recorded in [mem_map] *)

Definition FREE_FLAGS : Z := Z.lor PG_BUDDY PG_HEAD.
Definition USED_FLAGS : Z := Z.lor PG_ALLOCATED PG_HEAD.

(** [Some (true, o)]: page [p] heads a free block of order [o]; [Some (false, o)]: an allocated one. *)
Definition page_block (pg : page) : option (bool * Z) :=
  if pg_flags pg =? FREE_FLAGS then Some (true, pg_order pg)
  else if pg_flags pg =? USED_FLAGS then Some (false, pg_order pg)
  else None.
Definition block_at (s : pmm) (p : Z) : option (bool * Z) := page_block (page_at s p).

Definition first_pfn (s : pmm) : Z := pa_to_pfn (buddy_mem_start s).

(** The blocks of the state and of the operation under way. *)
Definition ent (X : list (Z * Z)) (s : pmm) (p o : Z) : Prop :=
  (p, o) ∈ X \/ exists f, block_at s p = Some (f, o).

Definition free_lists (s : pmm) : Prop :=
  forall o, 0 <= o <= MAX_ORDER -> exists xs : list Z,
    dll (pmm_links s) (FreeHead o) (PageNode <$> xs) /\
    (forall p, p ∈ xs <-> block_at s p = Some (true, o)) /\
    free_count s o = Z.of_nat (length xs).

Record binv (X : list (Z * Z)) (s : pmm) : Prop := {
  binv_start : buddy_mem_start s = PHYS_MEM_START + first_pfn s * PAGE_SIZE /\
               0 <= first_pfn s <= TOTAL_PAGES;
  binv_flags : forall p, pg_flags (page_at s p) ∈ [0; PG_RESERVED; FREE_FLAGS; USED_FLAGS];
  binv_geom : geom (first_pfn s) TOTAL_PAGES (ent X s);
  binv_hand : NoDup X.*1 /\ forall p o, (p, o) ∈ X -> block_at s p = None;
  binv_lists : free_lists s;
}.

(** The invariant between operations. *)
Definition buddy_inv (s : pmm) : Prop := binv [] s.

Lemma page_block_flags pg :
  pg_flags pg ∈ [0; PG_RESERVED; FREE_FLAGS; USED_FLAGS] ->
  (page_is_buddy pg = true <-> exists o, page_block pg = Some (true, o) /\ pg_order pg = o) /\
  (page_is_allocated pg = true <-> exists o, page_block pg = Some (false, o) /\ pg_order pg = o) /\
  (page_is_allocated pg = true -> Z.land (pg_flags pg) PG_HEAD =? 0 = false).
Proof.
  unfold page_block, page_is_buddy, page_is_allocated. intros Hf.
  repeat (apply elem_of_cons in Hf as [->|Hf]); [..|set_solver]; cbn; naive_solver.
Qed.

Lemma block_range X s p b : binv X s -> block_at s p = Some b ->
  0 <= b.2 <= MAX_ORDER /\ aligned p b.2 /\ first_pfn s <= p /\ p + 2 ^ b.2 <= TOTAL_PAGES.
Proof.
  intros Hi Hb. destruct b as [f o]. apply (geom_wf _ _ _ (binv_geom _ _ Hi)). right. eauto.
Qed.

Lemma hand_range X s p o : binv X s -> (p, o) ∈ X ->
  0 <= o <= MAX_ORDER /\ aligned p o /\ first_pfn s <= p /\ p + 2 ^ o <= TOTAL_PAGES.
Proof. intros Hi Hb. apply (geom_wf _ _ _ (binv_geom _ _ Hi)). by left. Qed.

(** Distinct frames fit in the array, so the counters do not wrap. *)
Lemma free_list_length s o xs X : binv X s ->
  dll (pmm_links s) (FreeHead o) (PageNode <$> xs) ->
  (forall p, p ∈ xs <-> block_at s p = Some (true, o)) ->
  Z.of_nat (length xs) <= TOTAL_PAGES.
Proof.
  intros Hi [_ Hnd] Hxs. apply NoDup_cons in Hnd as [_ Hnd].
  apply NoDup_fmap_1 in Hnd.
  assert (Hsub : xs ⊆+ seqZ 0 TOTAL_PAGES).
  { apply NoDup_submseteq; [done|]. intros p Hp. apply Hxs in Hp.
    pose proof (block_range _ _ _ _ Hi Hp) as (? & _ & ? & ?). simpl in *.
    destruct (binv_start _ _ Hi) as [_ ?]. pose proof (pow2_pos o ltac:(lia)).
    apply elem_of_seqZ. lia. }
  apply submseteq_length in Hsub. rewrite length_seqZ in Hsub. rewrite TOTAL_PAGES_eq in *. lia.
Qed.

(** ** Single steps *)

(** [s'] differs from [s] in page [p] only, which now records the block [b] (the free lists and
    counters aside); reference counts stay. *)
Record pstep (s s' : pmm) (p : Z) (b : option (bool * Z)) : Prop := {
  pstep_zone : buddy_mem_start s' = buddy_mem_start s /\ dma_end_pfn s' = dma_end_pfn s;
  pstep_other : forall q, q <> p -> page_at s' q = page_at s q;
  pstep_ref : pg_ref_count (page_at s' p) = pg_ref_count (page_at s p);
  pstep_block : block_at s' p = b;
}.

Lemma page_at_insert s p x q :
  page_at (set_mem_map (<[p := x]> (mem_map s)) s) q = if decide (p = q) then x else page_at s q.
Proof. unfold page_at. simpl. rewrite lookup_insert. by case_decide. Qed.

Lemma wp_upd_page p f Q s :
  0 <= p < TOTAL_PAGES ->
  Q tt (set_mem_map (<[p := f (page_at s p)]> (mem_map s)) s) -> wp (upd_page p f) Q s.
Proof. intros Hp HQ. unfold upd_page. wp_steps. unfold pfn_ok. lia. Qed.

Lemma wp_read_page p Q s : 0 <= p < TOTAL_PAGES -> Q (page_at s p) s -> wp (read_page p) Q s.
Proof. intros Hp HQ. unfold read_page. wp_steps. unfold pfn_ok. lia. Qed.

Lemma wp_upd_nr_free o f Q s :
  0 <= o <= MAX_ORDER ->
  Q tt (set_nr_free (<[o := f (free_count s o)]> (nr_free s)) s) -> wp (upd_nr_free o f) Q s.
Proof. intros Ho HQ. unfold upd_nr_free. wp_steps. unfold order_ok, NR_ORDERS. lia. Qed.

Lemma free_count_upd t o n o' :
  free_count (set_nr_free (<[o := n]> (nr_free t)) t) o' =
  if decide (o' = o) then n else free_count t o'.
Proof.
  unfold free_count. simpl. rewrite lookup_insert.
  destruct (decide (o = o')), (decide (o' = o)); simpl; congruence.
Qed.

Lemma block_at_other s s' p b q : pstep s s' p b -> q <> p -> block_at s' q = block_at s q.
Proof. intros Hs Hq. unfold block_at. by rewrite (pstep_other _ _ _ _ Hs). Qed.

Lemma pstep_first s s' p b : pstep s s' p b -> first_pfn s' = first_pfn s.
Proof. intros [[Hz _] _ _ _]. unfold first_pfn. by rewrite Hz. Qed.

(** Everything in [binv] but the lists follows from the change to one page. *)
Lemma binv_pstep X X' s s' p b :
  binv X s -> pstep s s' p b ->
  pg_flags (page_at s' p) ∈ [0; PG_RESERVED; FREE_FLAGS; USED_FLAGS] ->
  (forall q o, ent X s q o <-> ent X' s' q o) ->
  NoDup X'.*1 ->
  (forall q o, (q, o) ∈ X' -> block_at s' q = None) ->
  free_lists s' ->
  binv X' s'.
Proof.
  intros Hi Hs Hf He Hnd Hh Hl. pose proof (pstep_first _ _ _ _ Hs) as Hfp.
  destruct Hi as [[Hst1 Hst2] Hfl Hg _ _]. split; [|..|done|done].
  - rewrite Hfp. destruct Hs as [[-> _] _ _ _]. done.
  - intros q. destruct (decide (q = p)) as [->|]; [done|].
    by rewrite (pstep_other _ _ _ _ Hs).
  - rewrite Hfp. by eapply geom_ext.
Qed.

Lemma dll_other_list s o xs o' xs' p (lk' : links lnode) :
  o <> o' ->
  (forall q, q ∈ xs -> block_at s q = Some (true, o)) ->
  (forall q, q ∈ xs' -> block_at s q = Some (true, o')) ->
  p ∉ xs' ->
  (forall n, n ∉ PageNode p :: FreeHead o :: (PageNode <$> xs) ->
     nxt lk' !! n = nxt (pmm_links s) !! n /\ prv lk' !! n = prv (pmm_links s) !! n) ->
  dll (pmm_links s) (FreeHead o') (PageNode <$> xs') ->
  dll lk' (FreeHead o') (PageNode <$> xs').
Proof.
  intros Hne Hxs Hxs' Hp Hfr. apply dll_frame. intros n Hn. apply Hfr.
  rewrite !not_elem_of_cons, list_elem_of_fmap.
  apply elem_of_cons in Hn as [->|Hn].
  - repeat split; [done|congruence|]. by intros (q & ? & ?).
  - apply list_elem_of_fmap in Hn as (q & -> & Hq). repeat split; [congruence|done|].
    intros (q' & [=->] & Hq'). apply Hxs in Hq'. apply Hxs' in Hq. congruence.
Qed.

(** [add_to_free_area]: the block in hand goes to its free list. *)
Lemma wp_add_to_free_area p o X Q s :
  binv ((p, o) :: X) s ->
  (forall s', binv X s' -> pstep s s' p (Some (true, o)) ->
     (forall o', free_count s' o' = free_count s o' + (if decide (o' = o) then 1 else 0)) ->
     Q tt s') ->
  wp (add_to_free_area p o) Q s.
Proof.
  intros Hi HQ. destruct (hand_range _ _ p o Hi ltac:(set_solver)) as (Ho & Hal & Hk & Htop).
  destruct (binv_start _ _ Hi) as [_ Hfp]. pose proof (pow2_pos o ltac:(lia)) as Hpos.
  destruct (binv_hand _ _ Hi) as [Hnd Hhand]. pose proof (Hhand p o ltac:(set_solver)) as Hnone.
  destruct (binv_lists _ _ Hi o Ho) as (xs & Hdll & Hxs & Hcnt).
  pose proof (free_list_length _ _ _ _ Hi Hdll Hxs) as Hlen.
  unfold add_to_free_area, on_links. wp_steps. apply wp_upd_page; [lia|]. wp_steps.
  eapply wp_list_add_tail; [exact Hdll| |].
  { rewrite not_elem_of_cons, list_elem_of_fmap. split; [done|].
    intros (q & [=<-] & Hq). apply Hxs in Hq. congruence. }
  intros lk' Hdll' Hfr. apply wp_upd_nr_free; [done|].
  match goal with |- Q tt ?t => set (s' := t) end.
  assert (Hu16 : u16 o = o) by (apply u16_small; unfold MAX_ORDER in *; lia).
  assert (Hstep : pstep s s' p (Some (true, o))).
  { split; [done|..].
    - intros q Hq. unfold page_at. simpl. by rewrite lookup_insert_ne.
    - unfold page_at. simpl. by rewrite lookup_insert_eq.
    - unfold block_at, page_at. simpl. rewrite lookup_insert_eq.
      change (Some (true, u16 o) = Some (true, o)). by rewrite Hu16. }
  assert (Hfc : forall o', free_count s' o' = free_count s o' + (if decide (o' = o) then 1 else 0)).
  { intros o'. unfold s'. rewrite free_count_upd. case_decide as E; [|by rewrite Z.add_0_r].
    match goal with |- context [free_count ?t o] => change (free_count t o) with (free_count s o) end.
    subst o'. apply u32_small. rewrite TOTAL_PAGES_eq in *. lia. }
  apply HQ; [|done|done].
  eapply (binv_pstep _ _ _ _ _ _ Hi Hstep).
  - unfold page_at. simpl. rewrite lookup_insert_eq. cbn. set_solver.
  - intros q r. unfold ent. rewrite elem_of_cons. destruct (decide (q = p)) as [->|Hne].
    + rewrite (pstep_block _ _ _ _ Hstep), Hnone. split; [|naive_solver].
      intros [[[=->]|Hin]|[? ?]]; [eauto| |done]. simpl in Hnd. apply NoDup_cons in Hnd as [Hnd _].
      destruct Hnd. apply list_elem_of_fmap. by exists (p, r).
    + rewrite (block_at_other _ _ _ _ _ Hstep Hne). naive_solver.
  - simpl in Hnd. by apply NoDup_cons in Hnd as [_ ?].
  - intros q r Hin. assert (q <> p).
    { intros ->. simpl in Hnd. apply NoDup_cons in Hnd as [Hnd _]. destruct Hnd.
      apply list_elem_of_fmap. by exists (p, r). }
    rewrite (block_at_other _ _ _ _ _ Hstep) by done. apply (Hhand _ r). set_solver.
  - intros o' Ho'. destruct (decide (o' = o)) as [->|Hne].
    + exists (xs ++ [p]). rewrite fmap_app. split; [done|]. split.
      * intros q. rewrite elem_of_app, list_elem_of_singleton, Hxs.
        destruct (decide (q = p)) as [->|Hq]; [rewrite (pstep_block _ _ _ _ Hstep); naive_solver|].
        rewrite (block_at_other _ _ _ _ _ Hstep Hq). naive_solver.
      * rewrite Hfc, decide_True, length_app by done. simpl. lia.
    + destruct (binv_lists _ _ Hi o' Ho') as (xs' & Hdll2 & Hxs' & Hcnt').
      exists xs'. split; [|split].
      * eapply (dll_other_list s o xs o' xs' p); [done|by intros; apply Hxs|by intros; apply Hxs'| |exact Hfr|done].
        rewrite Hxs'. congruence.
      * intros q. rewrite Hxs'. destruct (decide (q = p)) as [->|Hq].
        { rewrite (pstep_block _ _ _ _ Hstep). naive_solver. }
        by rewrite (block_at_other _ _ _ _ _ Hstep Hq).
      * by rewrite Hfc, decide_False, Z.add_0_r.
Qed.

(** [remove_from_free_area]: a free block is taken in hand. *)
Lemma wp_remove_from_free_area p o X Q s :
  binv X s -> block_at s p = Some (true, o) ->
  (forall s', binv ((p, o) :: X) s' -> pstep s s' p None ->
     (forall o', free_count s' o' = free_count s o' - (if decide (o' = o) then 1 else 0)) ->
     Q tt s') ->
  wp (remove_from_free_area p o) Q s.
Proof.
  intros Hi Hb HQ. destruct (block_range _ _ _ _ Hi Hb) as (Ho & Hal & Hk & Htop). simpl in *.
  destruct (binv_start _ _ Hi) as [_ Hfp]. pose proof (pow2_pos o ltac:(lia)) as Hpos.
  destruct (binv_hand _ _ Hi) as [Hnd Hhand].
  destruct (binv_lists _ _ Hi o Ho) as (xs & Hdll & Hxs & Hcnt).
  pose proof (free_list_length _ _ _ _ Hi Hdll Hxs) as Hlen.
  pose proof (proj2 (Hxs p) Hb) as Hin.
  apply list_elem_of_split in Hin as (xs1 & xs2 & ->).
  assert (Hndx : NoDup (xs1 ++ p :: xs2)).
  { destruct Hdll as [_ Hd]. apply NoDup_cons in Hd as [_ Hd]. by apply NoDup_fmap_1 in Hd. }
  rewrite fmap_app, fmap_cons in Hdll.
  unfold remove_from_free_area, on_links. wp_steps.
  eapply wp_list_del; [exact Hdll|]. intros lk' Hdll' Hfr. wp_steps.
  apply wp_upd_nr_free; [done|]. apply wp_upd_page; [lia|].
  match goal with |- Q tt ?t => set (s' := t) end.
  assert (Hstep : pstep s s' p None).
  { split; [done|..].
    - intros q Hq. unfold page_at. simpl. by rewrite lookup_insert_ne.
    - unfold page_at. simpl. by rewrite lookup_insert_eq.
    - unfold block_at, page_at. simpl. by rewrite lookup_insert_eq. }
  assert (Hfc : forall o', free_count s' o' = free_count s o' - (if decide (o' = o) then 1 else 0)).
  { intros o'. unfold s'. change (free_count (set_mem_map ?m ?t) o') with (free_count t o').
    rewrite free_count_upd. case_decide as E; [|by rewrite Z.sub_0_r].
    match goal with |- context [free_count ?t o] => change (free_count t o) with (free_count s o) end.
    subst o'. apply u32_small. rewrite Hcnt. rewrite length_app in *. simpl in *.
    rewrite TOTAL_PAGES_eq in *. lia. }
  apply HQ; [|done|done].
  eapply (binv_pstep _ _ _ _ _ _ Hi Hstep).
  - unfold page_at. simpl. rewrite lookup_insert_eq. cbn. set_solver.
  - intros q r. unfold ent. rewrite elem_of_cons. destruct (decide (q = p)) as [->|Hne].
    + rewrite (pstep_block _ _ _ _ Hstep), Hb. split; [|naive_solver].
      intros [Hin|[f [=_ ->]]]; [|by left; left].
      pose proof (Hhand _ _ Hin). congruence.
    + rewrite (block_at_other _ _ _ _ _ Hstep Hne). naive_solver.
  - simpl. apply NoDup_cons. split; [|done]. rewrite list_elem_of_fmap.
    intros ([q r] & -> & Hin). pose proof (Hhand _ _ Hin). simpl in *. congruence.
  - intros q r. rewrite elem_of_cons. intros [[=-> ->]|Hin]; [apply Hstep|].
    assert (q <> p) by (intros ->; pose proof (Hhand _ _ Hin); congruence).
    rewrite (block_at_other _ _ _ _ _ Hstep) by done. by apply (Hhand _ r).
  - intros o' Ho'. destruct (decide (o' = o)) as [->|Hne].
    + exists (xs1 ++ xs2). rewrite fmap_app. split; [done|]. split.
      * intros q. destruct (decide (q = p)) as [->|Hq].
        { rewrite (pstep_block _ _ _ _ Hstep). split; [|done].
          intros Hq. exfalso. apply NoDup_app in Hndx as (? & Hd & Hnd2).
          apply NoDup_cons in Hnd2 as [? ?]. set_solver. }
        rewrite (block_at_other _ _ _ _ _ Hstep Hq), <- Hxs. set_solver.
      * rewrite Hfc, Hcnt, decide_True by done. rewrite !length_app. simpl. lia.
    + destruct (binv_lists _ _ Hi o' Ho') as (xs' & Hdll2 & Hxs' & Hcnt').
      exists xs'. split; [|split].
      * eapply (dll_other_list s o (xs1 ++ p :: xs2) o' xs' p); [done|by intros; apply Hxs|by intros; apply Hxs'| | |done].
        { rewrite Hxs'. congruence. }
        intros n Hn. apply Hfr. rewrite fmap_app, fmap_cons in Hn. set_solver.
      * intros q. rewrite Hxs'. destruct (decide (q = p)) as [->|Hq].
        { rewrite (pstep_block _ _ _ _ Hstep). naive_solver. }
        by rewrite (block_at_other _ _ _ _ _ Hstep Hq).
      * by rewrite Hfc, decide_False, Z.sub_0_r.
Qed.

(** ** Steps that only rearrange the blocks in hand *)

Lemma binv_perm X X' s : X ≡ₚ X' -> binv X s -> binv X' s.
Proof.
  intros HX [Hs Hf Hg [Hnd Hh] Hl]. split; [done|done| |split|done].
  - eapply geom_ext, Hg. intros p o. unfold ent. by rewrite HX.
  - by rewrite <- HX.
  - intros p o Hin. apply (Hh p o). by rewrite HX.
Qed.

Lemma binv_split p o X s :
  binv ((p, o) :: X) s -> 0 < o -> binv ((p + 2 ^ (o - 1), o - 1) :: (p, o - 1) :: X) s.
Proof.
  intros Hi Ho. pose proof (hand_range _ _ p o Hi ltac:(set_solver)) as (Hob & _ & _ & _).
  pose proof (binv_geom _ _ Hi) as Hg.
  pose proof (pow2_succ o Ho) as Hpow. pose proof (pow2_pos (o - 1) ltac:(lia)) as Hpos.
  destruct (binv_hand _ _ Hi) as [Hnd Hh]. simpl in Hnd. apply NoDup_cons in Hnd as [Hp Hnd].
  assert (Hself : ent ((p, o) :: X) s p o) by (left; set_solver).
  assert (Hno : forall r, ~ ent ((p, o) :: X) s (p + 2 ^ (o - 1)) r).
  { intros r Hr. pose proof (geom_disj _ _ _ Hg _ _ _ _ Hself Hr ltac:(lia)). lia. }
  assert (HpX : forall r, (p, r) ∉ X).
  { intros r Hr. apply Hp, list_elem_of_fmap. by exists (p, r). }
  destruct Hi as [Hs Hf _ _ Hl]. split; [done|done| |split|done].
  - eapply (geom_split _ _ _ _ p o Hg Hself Ho). intros q r. unfold ent. rewrite !elem_of_cons.
    split.
    + intros [[[=-> ->]|[[=-> ->]|Hin]]|Hb]; [right; by left|by left| |].
      * right; right. split; [|left; set_solver]. intros ->. by eapply HpX.
      * right; right. split; [|by right]. intros ->.
        destruct Hb as [f Hb]. pose proof (Hh p o ltac:(set_solver)). congruence.
    + intros [[-> ->]|[[-> ->]|[Hne [[[=-> ->]|Hin]|Hb]]]]; [set_solver|set_solver|done| |by right].
      left; set_solver.
  - simpl. apply NoDup_cons. split; [|by apply NoDup_cons].
    rewrite elem_of_cons, list_elem_of_fmap. intros [?|([q r] & Hq & Hin)]; [lia|].
    simpl in Hq. subst q. apply (Hno r). left. set_solver.
  - intros q r. rewrite !elem_of_cons. intros [[=-> ->]|[[=-> ->]|Hin]].
    + destruct (block_at s (p + 2 ^ (o - 1))) as [[f r]|] eqn:E; [|done].
      destruct (Hno r). right; eauto.
    + apply (Hh p o). set_solver.
    + apply (Hh q r). set_solver.
Qed.

Lemma binv_join p o X s :
  binv ((p + 2 ^ o, o) :: (p, o) :: X) s -> o < MAX_ORDER -> aligned p (o + 1) ->
  binv ((p, o + 1) :: X) s.
Proof.
  intros Hi Ho Hal. pose proof (binv_geom _ _ Hi) as Hg.
  destruct (binv_hand _ _ Hi) as [Hnd Hh]. simpl in Hnd.
  apply NoDup_cons in Hnd as [Hb Hnd]. apply NoDup_cons in Hnd as [Hp Hnd].
  assert (HpX : forall q r, (q, r) ∈ X -> q <> p /\ q <> p + 2 ^ o).
  { intros q r Hr. assert (q ∈ X.*1) by (apply list_elem_of_fmap; by exists (q, r)).
    split; intros ->; set_solver. }
  destruct Hi as [Hs Hf _ _ Hl]. split; [done|done| |split|done].
  - eapply (geom_join _ _ _ _ p o Hg); [left; set_solver|left; set_solver|done|done|].
    intros q r. unfold ent. rewrite !elem_of_cons. split.
    + intros [[[=-> ->]|Hin]|[f Hbl]]; [by left| |]; right.
      * destruct (HpX _ _ Hin). split_and!; [done|done|]. left. set_solver.
      * split_and!; [| |right; eauto]; intros ->.
        -- pose proof (Hh p o ltac:(set_solver)). congruence.
        -- pose proof (Hh (p + 2 ^ o) o ltac:(set_solver)). congruence.
    + intros [[-> ->]|(? & ? & [[[=-> ->]|[[=-> ->]|Hin]]|Hbl])];
        [set_solver|done|done|left; set_solver|by right].
  - simpl. by apply NoDup_cons.
  - intros q r. rewrite !elem_of_cons. intros [[=-> ->]|Hin].
    + apply (Hh p o). set_solver.
    + apply (Hh q r). set_solver.
Qed.

(** Changing a page that is on no list and heads no free block. *)
Lemma free_lists_pstep s s' p b :
  free_lists s -> pstep s s' p b ->
  pmm_links s' = pmm_links s -> nr_free s' = nr_free s ->
  (forall o, block_at s p <> Some (true, o)) -> (forall o, b <> Some (true, o)) ->
  free_lists s'.
Proof.
  intros Hl Hs Hlk Hnf Hn1 Hn2 o Ho. destruct (Hl o Ho) as (xs & Hd & Hxs & Hc).
  exists xs. rewrite Hlk. split; [done|]. split.
  - intros q. rewrite Hxs. destruct (decide (q = p)) as [->|Hq].
    + rewrite (pstep_block _ _ _ _ Hs). split; intros E; [by destruct (Hn1 o)|by destruct (Hn2 o)].
    + by rewrite (block_at_other _ _ _ _ _ Hs Hq).
  - unfold free_count in *. by rewrite Hnf.
Qed.

(** Marking the block in hand allocated. *)
Lemma binv_mark_allocated p o X s :
  binv ((p, o) :: X) s ->
  let s' := set_mem_map (<[p := mark_page_allocated o (page_at s p)]> (mem_map s)) s in
  binv X s' /\ pstep s s' p (Some (false, o)).
Proof.
  intros Hi s'. destruct (hand_range _ _ p o Hi ltac:(set_solver)) as (Ho & _).
  destruct (binv_hand _ _ Hi) as [Hnd Hh]. simpl in Hnd. apply NoDup_cons in Hnd as [Hp Hnd].
  pose proof (Hh p o ltac:(set_solver)) as Hnone.
  assert (Hu16 : u16 o = o) by (apply u16_small; unfold MAX_ORDER in *; lia).
  assert (Hstep : pstep s s' p (Some (false, o))).
  { split; [done|..]; unfold s'.
    - intros q Hq. by rewrite page_at_insert, decide_False by done.
    - by rewrite page_at_insert, decide_True by done.
    - unfold block_at. rewrite page_at_insert, decide_True by done.
      change (Some (false, u16 o) = Some (false, o)). by rewrite Hu16. }
  split; [|done]. eapply (binv_pstep _ _ _ _ _ _ Hi Hstep).
  - unfold s'. rewrite page_at_insert, decide_True by done. simpl. set_solver.
  - intros q r. unfold ent. rewrite elem_of_cons. destruct (decide (q = p)) as [->|Hne].
    + rewrite (pstep_block _ _ _ _ Hstep), Hnone. split; [|naive_solver].
      intros [[[=->]|Hin]|[? ?]]; [eauto| |done]. destruct Hp.
      apply list_elem_of_fmap. by exists (p, r).
    + rewrite (block_at_other _ _ _ _ _ Hstep Hne). naive_solver.
  - done.
  - intros q r Hin. assert (q <> p).
    { intros ->. destruct Hp. apply list_elem_of_fmap. by exists (p, r). }
    rewrite (block_at_other _ _ _ _ _ Hstep) by done. apply (Hh _ r). set_solver.
  - eapply (free_lists_pstep s s'); [apply Hi|done|done|done|congruence|congruence].
Qed.

(** Clearing the flags of an allocated block takes it in hand. *)
Lemma binv_clear p o X s :
  binv X s -> block_at s p = Some (false, o) ->
  let s' := set_mem_map (<[p := clear_page_flags (page_at s p)]> (mem_map s)) s in
  binv ((p, o) :: X) s' /\ pstep s s' p None.
Proof.
  intros Hi Hb s'. destruct (binv_hand _ _ Hi) as [Hnd Hh].
  assert (Hstep : pstep s s' p None).
  { split; [done|..]; unfold s'.
    - intros q Hq. by rewrite page_at_insert, decide_False by done.
    - by rewrite page_at_insert, decide_True by done.
    - unfold block_at. by rewrite page_at_insert, decide_True by done. }
  split; [|done]. eapply (binv_pstep _ _ _ _ _ _ Hi Hstep).
  - unfold s'. rewrite page_at_insert, decide_True by done. simpl. set_solver.
  - intros q r. unfold ent. rewrite elem_of_cons. destruct (decide (q = p)) as [->|Hne].
    + rewrite (pstep_block _ _ _ _ Hstep), Hb. split; [|naive_solver].
      intros [Hin|[f [=_ ->]]]; [|by left; left].
      pose proof (Hh _ _ Hin). congruence.
    + rewrite (block_at_other _ _ _ _ _ Hstep Hne). naive_solver.
  - simpl. apply NoDup_cons. split; [|done]. rewrite list_elem_of_fmap.
    intros ([q r] & -> & Hin). pose proof (Hh _ _ Hin). simpl in *. congruence.
  - intros q r. rewrite elem_of_cons. intros [[=-> ->]|Hin]; [apply Hstep|].
    assert (q <> p) by (intros ->; pose proof (Hh _ _ Hin); congruence).
    rewrite (block_at_other _ _ _ _ _ Hstep) by done. by apply (Hh _ r).
  - eapply (free_lists_pstep s s'); [apply Hi|done|done|done|congruence|congruence].
Qed.

(** ** Accounting and full coalescing *)

Definition sumZ (f : Z -> Z) (l : list Z) : Z := foldr (fun x acc => f x + acc) 0 l.

(** The number of free page frames. *)
Definition free_pages (s : pmm) : Z := sumZ (fun o => free_count s o * 2 ^ o) (seqZ 0 NR_ORDERS).

Lemma free_pages_change s s' o d :
  0 <= o <= MAX_ORDER ->
  (forall o', free_count s' o' = free_count s o' + (if decide (o' = o) then d else 0)) ->
  free_pages s' = free_pages s + d * 2 ^ o.
Proof.
  intros Ho Hc. unfold free_pages. change (seqZ 0 NR_ORDERS) with [0;1;2;3;4;5;6;7;8;9;10].
  unfold sumZ. cbn [foldr]. rewrite !Hc. unfold MAX_ORDER in Ho.
  assert (o = 0 \/ o = 1 \/ o = 2 \/ o = 3 \/ o = 4 \/ o = 5 \/ o = 6 \/ o = 7 \/ o = 8 \/
          o = 9 \/ o = 10) as Hcase by lia.
  repeat (destruct Hcase as [->|Hcase]; [simpl; lia|]). subst. simpl. lia.
Qed.

(** No two buddies are both free: every merge that can be done has been done. *)
Definition coalesced (s : pmm) : Prop := forall p o,
  o < MAX_ORDER -> block_at s p = Some (true, o) -> block_at s (buddy_pfn p o) <> Some (true, o).

Lemma buddy_pfn_invol p o : buddy_pfn (buddy_pfn p o) o = p.
Proof. unfold buddy_pfn. by rewrite Z.lxor_assoc, Z.lxor_nilpotent, Z.lxor_0_r. Qed.

Lemma coalesced_add s s' p o :
  coalesced s -> pstep s s' p (Some (true, o)) ->
  (o < MAX_ORDER -> block_at s (buddy_pfn p o) <> Some (true, o) /\ buddy_pfn p o <> p) ->
  coalesced s'.
Proof.
  intros Hc Hs Hb q r Hr Hq Hq'. destruct (decide (q = p)) as [->|Hne].
  - rewrite (pstep_block _ _ _ _ Hs) in Hq. injection Hq as ->. destruct (Hb Hr) as [Hb1 Hb2].
    by rewrite (block_at_other _ _ _ _ _ Hs Hb2) in Hq'.
  - rewrite (block_at_other _ _ _ _ _ Hs Hne) in Hq.
    destruct (decide (buddy_pfn q r = p)) as [<-|Hne'].
    + rewrite (pstep_block _ _ _ _ Hs) in Hq'. injection Hq' as ->.
      destruct (Hb Hr) as [Hb1 _]. by rewrite buddy_pfn_invol in Hb1.
    + rewrite (block_at_other _ _ _ _ _ Hs Hne') in Hq'. by apply (Hc q r).
Qed.

Lemma coalesced_drop s s' p b :
  coalesced s -> pstep s s' p b -> (forall o, b <> Some (true, o)) -> coalesced s'.
Proof.
  intros Hc Hs Hb q r Hr Hq Hq'.
  destruct (decide (q = p)) as [->|Hne]; [rewrite (pstep_block _ _ _ _ Hs) in Hq; by apply (Hb r)|].
  destruct (decide (buddy_pfn q r = p)) as [E|Hne'].
  { rewrite E, (pstep_block _ _ _ _ Hs) in Hq'. by apply (Hb r). }
  rewrite (block_at_other _ _ _ _ _ Hs Hne) in Hq.
  rewrite (block_at_other _ _ _ _ _ Hs Hne') in Hq'. by apply (Hc q r).
Qed.

(** ** Frames *)

(** [s'] agrees with [s] outside the page frames [p .. p + n). *)
Record frame (p n : Z) (s s' : pmm) : Prop := {
  frame_zone : buddy_mem_start s' = buddy_mem_start s /\ dma_end_pfn s' = dma_end_pfn s;
  frame_out : forall q, ~ (p <= q < p + n) -> page_at s' q = page_at s q;
  frame_ref : forall q, pg_ref_count (page_at s' q) = pg_ref_count (page_at s q);
}.

Lemma frame_refl p n s : frame p n s s.
Proof. by split. Qed.

Lemma frame_trans p n q m P N s1 s2 s3 :
  frame p n s1 s2 -> frame q m s2 s3 -> P <= p -> p + n <= P + N -> P <= q -> q + m <= P + N ->
  frame P N s1 s3.
Proof.
  intros [[Hz1 Hz2] Ho Hr] [[Hz1' Hz2'] Ho' Hr'] ? ? ? ?. split.
  - by rewrite Hz1', Hz2'.
  - intros r Hr0. rewrite Ho', Ho by lia. done.
  - intros r. by rewrite Hr', Hr.
Qed.

Lemma frame_mono p n P N s s' : frame p n s s' -> P <= p -> p + n <= P + N -> frame P N s s'.
Proof. intros [Hz Ho Hr] ? ?. split; [done| |done]. intros q Hq. apply Ho. lia. Qed.

Lemma pstep_frame s s' p b : pstep s s' p b -> frame p 1 s s'.
Proof.
  intros [Hz Ho Hr Hb]. split; [done| |].
  - intros q Hq. apply Ho. lia.
  - intros q. destruct (decide (q = p)) as [->|]; [done|]. by rewrite Ho.
Qed.

Lemma frame_block p n s s' q : frame p n s s' -> ~ (p <= q < p + n) -> block_at s' q = block_at s q.
Proof. intros Hf Hq. unfold block_at. by rewrite (frame_out _ _ _ _ Hf). Qed.
