(* ===== verification/PmmOps.v ===== *)
(** Correctness of the buddy allocator, part 2: the loops and the interface of pmm.c.

    Total-correctness rules (no undefined behaviour, termination, functional behaviour on every
    branch) for [expand_block], [buddy_alloc_pfn], [buddy_merge_pfn], [alloc_phys_pages],
    [free_phys_pages], [get_page] and [put_page]. *)
From S2P Require Import Prelude ListHead Pmm PmmTheory.

Lemma pfn_range X s p o : binv X s -> ent X s p o ->
  0 <= o <= MAX_ORDER /\ aligned p o /\ 0 <= p /\ first_pfn s <= p /\ p + 2 ^ o <= TOTAL_PAGES.
Proof.
  intros Hi He. destruct (geom_wf _ _ _ (binv_geom _ _ Hi) _ _ He) as (? & ? & ? & ?).
  destruct (binv_start _ _ Hi) as [_ ?]. split_and!; done || lia.
Qed.

Lemma set_links_id s : set_links (pmm_links s) s = s.
Proof. by destruct s. Qed.

(** ** expand_block *)

Lemma wp_expand_block p high low X Q s :
  binv ((p, high) :: X) s -> 0 <= low <= high ->
  (forall s', binv ((p, low) :: X) s' -> frame p (2 ^ high) s s' ->
     free_pages s' = free_pages s + 2 ^ high - 2 ^ low ->
     (coalesced s -> coalesced s') ->
     (forall q o, block_at s' q = Some (false, o) -> block_at s q = Some (false, o)) -> Q p s') ->
  wp (expand_block p high low) Q s.
Proof.
  intros Hi Hlow HQ. unfold expand_block.
  pose proof (pfn_range _ _ p high Hi ltac:(left; set_solver)) as (Hh & _ & Hp0 & _ & Htop).
  eapply (wp_loop (fun h s' => binv ((p, h) :: X) s' /\ low <= h <= high /\ frame p (2 ^ high) s s' /\
      free_pages s' = free_pages s + 2 ^ high - 2 ^ h /\ (coalesced s -> coalesced s') /\
      (forall q o, block_at s' q = Some (false, o) -> block_at s q = Some (false, o)))
      (fun h _ => Z.to_nat h)).
  - split_and!; [done|lia|lia|apply frame_refl|lia|done|done].
  - lia.
  - clear Hi. intros h s1 (Hi & Hh1 & Hf & Hfree & Hco & Hal). destruct (h >? low) eqn:Eh.
    + apply Z.gtb_lt in Eh. pose proof (pow2_succ h ltac:(lia)) as Hpow.
      pose proof (pow2_pos (h - 1) ltac:(lia)) as Hpos.
      pose proof (pow2_mono h high ltac:(lia) ltac:(lia)) as Hmono.
      pose proof (pow2_le_1024 high Hh) as Hkb.
      rewrite shl64_1 by (unfold MAX_ORDER in *; lia).
      rewrite add64_small by (rewrite TOTAL_PAGES_eq in *; lia).
      wp_steps. eapply wp_add_to_free_area; [apply binv_split; [done|lia]|].
      intros s2 Hi2 Hst Hfc. wp_steps. split; [|lia]. split_and!; [done|lia|lia| | | |].
      * eapply (frame_trans p (2 ^ high) (p + 2 ^ (h - 1)) 1); [done|by eapply pstep_frame|lia..].
      * rewrite (free_pages_change s1 s2 (h - 1) 1) by (done || lia). lia.
      * intros Hc. eapply coalesced_add; [by apply Hco|done|]. intros _.
        pose proof (hand_range _ _ (p + 2 ^ (h - 1)) (h - 1) (binv_split _ _ _ _ Hi ltac:(lia))
                      ltac:(set_solver)) as (Hrng & Hal1 & _ & Htop2).
        assert (Hal2 : aligned p h).
        { apply (hand_range _ _ p h Hi). set_solver. }
        destruct (buddy_pfn_spec (p + 2 ^ (h - 1)) (h - 1)) as [[-> Hx]|[-> Hx]];
          [rewrite TOTAL_PAGES_eq in *; lia|lia|done| |].
        { exfalso. unfold aligned in Hx, Hal2. replace (h - 1 + 1) with h in Hx by lia.
          rewrite <- Zplus_mod_idemp_l, Hal2, Z.add_0_l, Z.mod_small in Hx by lia. lia. }
        replace (p + 2 ^ (h - 1) - 2 ^ (h - 1)) with p by lia. split; [|lia].
        destruct (binv_hand _ _ Hi) as [_ Hhd]. rewrite (Hhd p h) by set_solver. done.
      * intros q o Hq. apply Hal. destruct (decide (q = p + 2 ^ (h - 1))) as [->|Hne].
        { by rewrite (pstep_block _ _ _ _ Hst) in Hq. }
        by rewrite (block_at_other _ _ _ _ _ Hst Hne) in Hq.
    + rewrite Z.gtb_ltb in Eh. apply Z.ltb_ge in Eh. wp_steps.
      assert (h = low) as -> by lia. by apply HQ.
Qed.

(** ** buddy_alloc_pfn *)

(** Why no block of order [o] was taken: there is none, or (GFP_DMA) the first one on the list
    lies beyond the DMA zone. *)
Definition no_candidate (s : pmm) (dma : bool) (o : Z) : Prop :=
  (forall p, block_at s p <> Some (true, o)) \/
  (dma = true /\ exists q, nxt (pmm_links s) !! FreeHead o = Some (PageNode q) /\
     block_at s q = Some (true, o) /\ dma_end_pfn s <= q).

(** No free block of any order is no free page. *)
Lemma free_count_nonneg X s o : binv X s -> 0 <= o <= MAX_ORDER -> 0 <= free_count s o.
Proof. intros Hi Ho. destruct (binv_lists _ _ Hi o Ho) as (xs & _ & _ & ->). lia. Qed.

Lemma free_pages_nonneg X s : binv X s -> 0 <= free_pages s.
Proof.
  intros Hi. pose proof (fun o => free_count_nonneg X s o Hi) as Hc. unfold free_pages. change (seqZ 0 NR_ORDERS) with [0;1;2;3;4;5;6;7;8;9;10].
  unfold sumZ, MAX_ORDER in *. cbn [foldr].
  pose proof (Hc 0). pose proof (Hc 1). pose proof (Hc 2). pose proof (Hc 3). pose proof (Hc 4).
  pose proof (Hc 5). pose proof (Hc 6). pose proof (Hc 7). pose proof (Hc 8). pose proof (Hc 9). pose proof (Hc 10). lia.
Qed.

Lemma no_free_pages s : buddy_inv s -> (forall o, 0 <= o <= MAX_ORDER -> no_candidate s false o) -> free_pages s = 0.
Proof.
  intros Hi Hno. assert (Hc : forall o, 0 <= o <= MAX_ORDER -> free_count s o = 0).
  { intros o Ho. destruct (binv_lists _ _ Hi o Ho) as (xs & _ & Hxs & ->). destruct (Hno o Ho) as [Hn|[E _]]; [|discriminate E].
    destruct xs as [|p xs]; [done|]. exfalso. apply (Hn p), Hxs. set_solver. }
  unfold free_pages. change (seqZ 0 NR_ORDERS) with [0;1;2;3;4;5;6;7;8;9;10]. unfold sumZ. cbn [foldr]. by rewrite !Hc by (unfold MAX_ORDER; lia).
Qed.

Lemma wp_buddy_alloc_pfn order dma Q s :
  buddy_inv s -> 0 <= order <= MAX_ORDER ->
  (forall p h s',
     block_at s p = Some (true, h) -> order <= h ->
     (dma = true -> p < dma_end_pfn s) ->
     nxt (pmm_links s) !! FreeHead h = Some (PageNode p) ->
     (forall o, order <= o < h -> no_candidate s dma o) ->
     binv [(p, order)] s' -> frame p (2 ^ h) s s' ->
     free_pages s' = free_pages s - 2 ^ order ->
     (coalesced s -> coalesced s') ->
     (forall q o, block_at s' q = Some (false, o) -> block_at s q = Some (false, o)) -> Q p s') ->
  ((forall o, order <= o <= MAX_ORDER -> no_candidate s dma o) -> Q TOTAL_PAGES s) ->
  wp (buddy_alloc_pfn order dma) Q s.
Proof.
  intros Hi Ho HQ1 HQ2. unfold buddy_alloc_pfn.
  eapply (wp_loop (fun cur s' => s' = s /\ order <= cur <= NR_ORDERS /\
                     forall o, order <= o < cur -> no_candidate s dma o)
            (fun cur _ => Z.to_nat (NR_ORDERS - cur))).
  - split_and!; [done|lia|unfold NR_ORDERS; lia|lia].
  - unfold NR_ORDERS. lia.
  - intros cur ? (-> & Hcur & Hnc). destruct (cur <=? MAX_ORDER) eqn:Ec.
    2:{ wp_steps. apply HQ2. intros o Hoo. apply Hnc. lia. }
    apply Z.leb_le in Ec. destruct (binv_lists _ _ Hi cur ltac:(lia)) as (xs & Hd & Hxs & Hcnt).
    unfold on_links. wp_steps. eapply wp_list_empty; [exact Hd|].
    destruct xs as [|p xs]; simpl.
    { rewrite set_links_id. wp_steps.
      split; [|unfold NR_ORDERS in *; lia]. split_and!; [done|lia|unfold NR_ORDERS; lia|].
      intros o Hoo. destruct (decide (o = cur)) as [->|]; [|apply Hnc; lia]. left. intros p Hp.
      apply Hxs in Hp. set_solver. }
    rewrite set_links_id. wp_steps. eapply wp_read_nxt; [exact Hd|]. simpl. rewrite set_links_id. wp_steps.
    assert (Hb : block_at s p = Some (true, cur)) by (apply Hxs; set_solver).
    assert (Hnx : nxt (pmm_links s) !! FreeHead cur = Some (PageNode p)) by (by apply (dll_nxt _ _ _ Hd)).
    destruct (dma && (dma_end_pfn s <=? p)) eqn:Ed.
    { apply andb_true_iff in Ed as [-> Ed]. wp_steps.
      split; [|unfold NR_ORDERS in *; lia]. split_and!; [done|lia|unfold NR_ORDERS; lia|].
      intros o Hoo. destruct (decide (o = cur)) as [->|]; [|apply Hnc; lia]. right.
      split; [done|]. exists p. split_and!; [done|done|lia]. }
    wp_steps. eapply wp_remove_from_free_area; [done|done|]. intros s1 Hi1 Hst1 Hfc1. wp_steps.
    eapply wp_expand_block; [done|lia|]. intros s2 Hi2 Hf2 Hfr2 Hco2 Hal2. wp_steps.
    pose proof (pow2_pos cur ltac:(lia)).
    eapply HQ1; try done; try lia.
    + intros ->. simpl in Ed. lia.
    + eapply (frame_trans p 1 p (2 ^ cur)); [by eapply pstep_frame|done|lia..].
    + rewrite Hfr2, (free_pages_change s s1 cur (-1)); [lia|lia|].
      intros o'. rewrite Hfc1. case_decide; lia.
    + intros Hc. apply Hco2. by eapply coalesced_drop.
    + intros q o Hq. apply Hal2 in Hq. destruct (decide (q = p)) as [->|Hne].
      { by rewrite (pstep_block _ _ _ _ Hst1) in Hq. }
      by rewrite (block_at_other _ _ _ _ _ Hst1 Hne) in Hq.
Qed.

(** ** buddy_merge_pfn *)

Lemma wp_buddy_merge_pfn p order X Q s :
  binv ((p, order) :: X) s ->
  (forall p' o' s', binv ((p', o') :: X) s' ->
     order <= o' <= MAX_ORDER -> p' <= p -> p + 2 ^ order <= p' + 2 ^ o' ->
     frame p' (2 ^ o') s s' ->
     free_pages s' = free_pages s + 2 ^ order - 2 ^ o' ->
     (coalesced s -> coalesced s') ->
     (o' < MAX_ORDER -> block_at s' (buddy_pfn p' o') <> Some (true, o')) ->
     (forall q o, block_at s' q = Some (false, o) <-> block_at s q = Some (false, o)) ->
     Q (p', o') s') ->
  wp (buddy_merge_pfn p order) Q s.
Proof.
  intros Hi HQ. unfold buddy_merge_pfn.
  pose proof (pfn_range _ _ p order Hi ltac:(left; set_solver)) as (Hob & _).
  eapply (wp_loop (fun st s' => let '(p', o') := st in
      binv ((p', o') :: X) s' /\ order <= o' <= MAX_ORDER /\ p' <= p /\
      p + 2 ^ order <= p' + 2 ^ o' /\ frame p' (2 ^ o') s s' /\
      free_pages s' = free_pages s + 2 ^ order - 2 ^ o' /\ (coalesced s -> coalesced s') /\
      (forall q o, block_at s' q = Some (false, o) <-> block_at s q = Some (false, o)))
      (fun st _ => Z.to_nat (MAX_ORDER - st.2))).
  - split_and!; [done|lia|lia|lia|lia|apply frame_refl|lia|done|done].
  - simpl. unfold MAX_ORDER in *. lia.
  - clear Hi Hob. intros [q o] s1 (Hi & Ho & Hqp & Hpq & Hf & Hfree & Hco & Hal).
    destruct (pfn_range _ _ q o Hi ltac:(left; set_solver)) as (Hob & Halq & Hq0 & Hk & Htop).
    pose proof (pow2_pos o ltac:(lia)) as Hpos.
    assert (Hq32 : 0 <= q < 2 ^ 32) by (rewrite TOTAL_PAGES_eq in *; lia).
    destruct (o <? MAX_ORDER) eqn:Eo.
    2:{ wp_steps. apply Z.ltb_ge in Eo. apply HQ; try done. lia. }
    apply Z.ltb_lt in Eo. set (b := buddy_pfn q o) in *.
    assert (Hb0 : 0 <= b).
    { unfold b, buddy_pfn. apply Z.lxor_nonneg. rewrite shl64_1 by (unfold MAX_ORDER in *; lia). lia. }
    destruct (TOTAL_PAGES <=? b) eqn:Eb.
    { wp_steps. apply Z.leb_le in Eb. apply HQ; try done. intros _ Hbl.
      pose proof (block_range _ _ _ _ Hi Hbl) as (_ & _ & _ & Hx). simpl in Hx. lia. }
    apply Z.leb_gt in Eb. wp_steps. apply wp_read_page; [lia|].
    destruct (page_block_flags (page_at s1 b) (binv_flags _ _ Hi b)) as (Hbd & _ & _).
    destruct (page_is_buddy (page_at s1 b)) eqn:Epb; simpl.
    2:{ wp_steps. apply HQ; try done. intros _ Hbl.
        enough (false = true) by done. apply Hbd. exists o. split; [done|].
        unfold block_at, page_block in Hbl. repeat case_match; naive_solver. }
    destruct (proj1 Hbd eq_refl) as (o1 & Hbl & Ho1). rewrite Ho1.
    destruct (o1 =? o) eqn:Eoo; simpl.
    2:{ wp_steps. apply Z.eqb_neq in Eoo. apply HQ; try done. intros _ Hbl'.
        unfold block_at in Hbl'. fold b in Hbl'. rewrite Hbl in Hbl'. congruence. }
    apply Z.eqb_eq in Eoo. subst o1. rewrite Eoo in Hbl. wp_steps.
    eapply wp_remove_from_free_area; [done|by rewrite Eoo in *|].
    intros s2 Hi2 Hst2 Hfc2. wp_steps.
    assert (Hpow : 2 ^ (o + 1) = 2 * 2 ^ o) by (rewrite Z.pow_add_r by lia; lia).
    pose proof (frame_trans q (2 ^ o) b 1 (Z.min q b) (2 ^ (o + 1)) s s1 s2 Hf (pstep_frame _ _ _ _ Hst2)) as Hfr.
    assert (Hfp : free_pages s2 = free_pages s + 2 ^ order - 2 ^ (o + 1)).
    { rewrite (free_pages_change s1 s2 o (-1)); [lia|lia|]. intros o'. rewrite Hfc2. case_decide; lia. }
    assert (Hco2 : coalesced s -> coalesced s2).
    { intros Hc. eapply coalesced_drop; [by apply Hco|done|done]. }
    assert (Hal2 : forall q0 o0, block_at s2 q0 = Some (false, o0) <-> block_at s q0 = Some (false, o0)).
    { intros q0 o0. rewrite <- Hal. destruct (decide (q0 = b)) as [->|Hne].
      - rewrite (pstep_block _ _ _ _ Hst2). unfold block_at. rewrite Hbl. done.
      - by rewrite (block_at_other _ _ _ _ _ Hst2 Hne). }
    split; [|simpl; unfold MAX_ORDER in *; lia].
    destruct (buddy_pfn_spec q o Hq32 ltac:(lia) Halq) as [[Eb' Hal']|[Eb' Hal']]; fold b in Eb'.
    + rewrite Eb' in *. replace (q + 2 ^ o <? q) with false by lia.
      split_and!; [|lia|lia|lia|lia| |done|done|done].
      * apply binv_join; [done|lia|done].
      * replace (Z.min q (q + 2 ^ o)) with q in Hfr by lia. apply Hfr; lia.
    + rewrite Eb' in *. replace (q - 2 ^ o <? q) with true by lia.
      split_and!; [|lia|lia|lia|lia| |done|done|done].
      * apply binv_join; [|lia|done]. replace (q - 2 ^ o + 2 ^ o) with q by lia.
        eapply binv_perm, Hi2. apply Permutation_swap.
      * replace (Z.min q (q - 2 ^ o)) with (q - 2 ^ o) in Hfr by lia. apply Hfr; lia.
Qed.

(** ** The interface *)

Definition with_error (e : buddy_error) (s : pmm) : pmm :=
  Pmm (buddy_mem_start s) (dma_end_pfn s) (mem_map s) (pmm_links s) (nr_free s) e.

Lemma binv_with_error X e s : binv X s -> binv X (with_error e s).
Proof. intros [? ? ? ? ?]. by split. Qed.

Lemma wp_buddy_set_error e Q s : Q tt (with_error e s) -> wp (buddy_set_error e) Q s.
Proof. done. Qed.

(** A page-aligned frame address. *)
Definition frame_addr (p : Z) : Z := PHYS_MEM_START + p * PAGE_SIZE.

Lemma pfn_to_pa_frame p : 0 <= p <= TOTAL_PAGES -> pfn_to_pa p = frame_addr p.
Proof.
  intros Hp. unfold pfn_to_pa, frame_addr, shl64. rewrite Z.shiftl_mul_pow2 by (unfold PAGE_SHIFT; lia).
  change (2 ^ PAGE_SHIFT) with PAGE_SIZE. rewrite TOTAL_PAGES_eq, PAGE_SIZE_eq in *.
  rewrite u64_small by lia. rewrite add64_small; [done|]. unfold PHYS_MEM_START. lia.
Qed.

Lemma pa_to_pfn_frame p : 0 <= p <= TOTAL_PAGES -> pa_to_pfn (frame_addr p) = p.
Proof.
  intros Hp. unfold pa_to_pfn, frame_addr. rewrite TOTAL_PAGES_eq, PAGE_SIZE_eq in *.
  replace (sub64 _ _) with (p * 4096).
  - rewrite shr64_div by (unfold PAGE_SHIFT; lia). change (2 ^ PAGE_SHIFT) with 4096. lia.
  - symmetry. unfold sub64. rewrite u64_small; lia.
Qed.

Definition live (s : pmm) (p o : Z) : Prop := block_at s p = Some (false, o).

(** What a successful allocation of [2^order] frames at frame [p] guarantees. *)
Record allocated (s : pmm) (order : Z) (dma : bool) (p : Z) (s' : pmm) : Prop := {
  al_inv : buddy_inv s' /\ (coalesced s -> coalesced s');
  al_aligned : aligned p order /\ first_pfn s <= p /\ p + 2 ^ order <= TOTAL_PAGES;
  al_dma : dma = true -> p < dma_end_pfn s;
  al_from : exists h, order <= h /\ block_at s p = Some (true, h) /\
              forall q, ~ (p <= q < p + 2 ^ h) -> page_at s' q = page_at s q;
  al_live : forall q o, live s' q o <-> live s q o \/ (q = p /\ o = order);
  al_ref : pg_ref_count (page_at s' p) = 1 /\
           forall q, q <> p -> pg_ref_count (page_at s' q) = pg_ref_count (page_at s q);
  al_count : free_pages s' = free_pages s - 2 ^ order;
  al_zone : buddy_mem_start s' = buddy_mem_start s /\ dma_end_pfn s' = dma_end_pfn s;
  al_found : ~ forall o, order <= o <= MAX_ORDER -> no_candidate s dma o;
}.

Lemma block_at_set_ref s p rc q :
  block_at (set_mem_map (<[p := set_ref_count rc (page_at s p)]> (mem_map s)) s) q = block_at s q.
Proof. unfold block_at. rewrite page_at_insert. by case_decide; subst. Qed.

Lemma binv_same_blocks X s s' :
  binv X s -> buddy_mem_start s' = buddy_mem_start s -> pmm_links s' = pmm_links s ->
  nr_free s' = nr_free s ->
  (forall q, pg_flags (page_at s' q) = pg_flags (page_at s q)) ->
  (forall q, block_at s' q = block_at s q) -> binv X s'.
Proof.
  intros [Hs Hf Hg [Hnd Hh] Hl] Hz Hlk Hnf Hfl Hb.
  assert (Hfp : first_pfn s' = first_pfn s) by (unfold first_pfn; by rewrite Hz).
  split; [by rewrite Hfp, Hz|by intros; rewrite Hfl| |split; [done|]|].
  - rewrite Hfp. eapply geom_ext, Hg. intros. unfold ent. by rewrite Hb.
  - intros p o ?. rewrite Hb. by eapply Hh.
  - intros o Ho. destruct (Hl o Ho) as (xs & ? & ? & ?). exists xs. rewrite Hlk.
    split_and!; [done|intros; by rewrite Hb|]. unfold free_count in *. by rewrite Hnf.
Qed.

Lemma binv_set_ref X s p rc :
  binv X s -> binv X (set_mem_map (<[p := set_ref_count rc (page_at s p)]> (mem_map s)) s).
Proof.
  intros Hi. eapply binv_same_blocks; [exact Hi|done..| |apply block_at_set_ref].
  intros q. rewrite page_at_insert. by case_decide; subst.
Qed.

Lemma wp_alloc_phys_pages order flags (Q : Z -> pmm -> Prop) s :
  buddy_inv s -> 0 <= order <= MAX_ORDER ->
  (forall p s', allocated s order (negb (Z.land flags GFP_DMA =? 0)) p s' ->
     buddy_last_error s' = BUDDY_OK -> Q (frame_addr p) s') ->
  ((forall o, order <= o <= MAX_ORDER -> no_candidate s (negb (Z.land flags GFP_DMA =? 0)) o) ->
     Q 0 (with_error BUDDY_ERR_NO_MEMORY s)) ->
  wp (alloc_phys_pages order flags) Q s.
Proof.
  intros Hi Ho HQ1 HQ2. unfold alloc_phys_pages, valid_order.
  replace (order <=? MAX_ORDER) with true by lia. simpl. wp_steps.
  set (dma := negb (Z.land flags GFP_DMA =? 0)) in *.
  eapply wp_buddy_alloc_pfn; [done|lia| |].
  2:{ intros Hnc. rewrite Z.leb_refl. wp_steps. apply wp_buddy_set_error. wp_steps. by apply HQ2. }
  intros p h s1 Hb Hh Hdma Hnx _ Hi1 Hf1 Hfr1 Hco1 Hal1.
  pose proof (block_range _ _ _ _ Hi Hb) as (Hhr & Hal & Hk & Htop). simpl in *.
  pose proof (pow2_mono order h ltac:(lia) ltac:(lia)) as Hmono.
  destruct (binv_start _ _ Hi) as [_ Hfp]. pose proof (pow2_pos order ltac:(lia)).
  replace (TOTAL_PAGES <=? p) with false by lia. wp_steps. apply wp_upd_page; [lia|].
  wp_steps. apply wp_upd_page; [lia|]. wp_steps. apply wp_buddy_set_error. wp_steps.
  destruct (binv_mark_allocated _ _ _ _ Hi1) as [Hi2 Hst2].
  set (s2 := set_mem_map (<[p := mark_page_allocated order (page_at s1 p)]> (mem_map s1)) s1) in *.
  pose proof (binv_set_ref _ _ p 1 Hi2) as Hi3.
  set (s3 := set_mem_map (<[p := set_ref_count 1 (page_at s2 p)]> (mem_map s2)) s2) in *.
  assert (Hb3 : forall q, block_at (with_error BUDDY_OK s3) q = block_at s2 q).
  { intros q. apply (block_at_set_ref s2 p 1 q). }
  rewrite pfn_to_pa_frame by lia.
  destruct (pfn_range _ _ p order Hi1 ltac:(left; set_solver)) as (_ & Hal' & _).
  apply HQ1; [|done]. split.
  - split; [by apply binv_with_error|]. intros Hc.
    pose proof (coalesced_drop s1 s2 p (Some (false, order)) (Hco1 Hc) Hst2 ltac:(done)) as Hc2.
    intros q o. rewrite !Hb3. apply Hc2.
  - split_and!; [done|done|lia].
  - done.
  - exists h. split_and!; [done|done|]. intros q Hq. pose proof (pow2_pos h ltac:(lia)).
    change (page_at s3 q = page_at s q). unfold s3. rewrite page_at_insert, decide_False by lia.
    rewrite (pstep_other _ _ _ _ Hst2) by lia. by apply (frame_out _ _ _ _ Hf1).
  - intros q o. unfold live. rewrite Hb3. destruct (decide (q = p)) as [->|Hne].
    + rewrite (pstep_block _ _ _ _ Hst2), Hb. naive_solver.
    + rewrite (block_at_other _ _ _ _ _ Hst2 Hne). split; [intros; left; by apply Hal1|].
      intros [Hl|[? ?]]; [|done]. rewrite (frame_block _ _ _ _ _ Hf1); [done|]. intros Hin.
      pose proof (geom_disj _ _ _ (binv_geom _ _ Hi) p h q o) as Hd.
      enough (p + 2 ^ h <= q) by lia. apply Hd; [right; eauto|right; eauto|lia].
  - split.
    + change (pg_ref_count (page_at s3 p) = 1). unfold s3. by rewrite page_at_insert, decide_True by done.
    + intros q Hne. change (pg_ref_count (page_at s3 q) = pg_ref_count (page_at s q)).
      unfold s3. rewrite page_at_insert, decide_False by done.
      rewrite (pstep_other _ _ _ _ Hst2) by done. apply (frame_ref _ _ _ _ Hf1).
  - change (free_pages s1 = free_pages s - 2 ^ order). done.
  - apply Hf1.
  - intros Hno. destruct (Hno h) as [Hnone|(Hd & q & Hq & _ & Hend)]; [lia|by apply (Hnone p)|].
    rewrite Hnx in Hq. injection Hq as <-. specialize (Hdma Hd). lia.
Qed.

(** What releasing the live block [p], [order] guarantees. *)
Record released (s : pmm) (p order : Z) (s' : pmm) : Prop := {
  rl_inv : buddy_inv s' /\ (coalesced s -> coalesced s');
  rl_free : exists p' o', block_at s' p' = Some (true, o') /\ p' <= p /\ p + 2 ^ order <= p' + 2 ^ o' /\
              forall q, ~ (p' <= q < p' + 2 ^ o') -> page_at s' q = page_at s q;
  rl_live : forall q o, live s' q o <-> live s q o /\ q <> p;
  rl_ref : forall q, pg_ref_count (page_at s' q) = pg_ref_count (page_at s q);
  rl_count : free_pages s' = free_pages s + 2 ^ order;
  rl_zone : buddy_mem_start s' = buddy_mem_start s /\ dma_end_pfn s' = dma_end_pfn s;
}.

Lemma buddy_pfn_ne p o : 0 <= o < 64 -> buddy_pfn p o <> p.
Proof.
  intros Ho E. unfold buddy_pfn in E. rewrite shl64_1 in E by lia.
  apply (f_equal (Z.lxor p)) in E. rewrite <- Z.lxor_assoc, Z.lxor_nilpotent, Z.lxor_0_l in E.
  pose proof (pow2_pos o). lia.
Qed.

Lemma wp_release_block p order (Q : unit -> pmm -> Prop) s :
  buddy_inv s -> live s p order ->
  (forall s', released s p order s' -> buddy_last_error s' = BUDDY_OK -> Q tt s') ->
  wp (_ ← upd_page p clear_page_flags;
      r ← buddy_merge_pfn p order;
      let '(pfn, order) := r in
      _ ← add_to_free_area pfn order;
      buddy_set_error BUDDY_OK) Q s.
Proof.
  intros Hi Hlive HQ. pose proof (block_range _ _ _ _ Hi Hlive) as (Ho & Hal & Hk & Htop). simpl in *.
  destruct (binv_start _ _ Hi) as [_ Hfp]. pose proof (pow2_pos order ltac:(lia)).
  wp_steps. apply wp_upd_page; [lia|]. destruct (binv_clear _ _ _ _ Hi Hlive) as [Hi1 Hst1].
  set (s1 := set_mem_map (<[p := clear_page_flags (page_at s p)]> (mem_map s)) s) in *.
  wp_steps. eapply wp_buddy_merge_pfn; [done|].
  intros p' o' s2 Hi2 Ho' Hp' Hpo Hf2 Hfr2 Hco2 Hnb Hlv2. wp_steps.
  eapply wp_add_to_free_area; [done|]. intros s3 Hi3 Hst3 Hfc3. apply wp_buddy_set_error.
  pose proof (pow2_pos o' ltac:(lia)).
  apply HQ; [|done]. split.
  - split; [by apply binv_with_error|]. intros Hc.
    assert (coalesced s3); [|done].
    eapply coalesced_add; [apply Hco2; by eapply coalesced_drop|done|].
    intros Hlt. split; [by apply Hnb|]. apply buddy_pfn_ne. unfold MAX_ORDER in *. lia.
  - exists p', o'. split_and!; [apply Hst3|done|done|]. intros q Hq.
    change (page_at s3 q = page_at s q). rewrite (pstep_other _ _ _ _ Hst3) by lia.
    rewrite (frame_out _ _ _ _ Hf2) by done. apply (pstep_other _ _ _ _ Hst1). lia.
  - intros q o. unfold live. change (block_at s3 q = Some (false, o) <-> block_at s q = Some (false, o) /\ q <> p).
    destruct (decide (q = p')) as [->|Hne'].
    + rewrite (pstep_block _ _ _ _ Hst3). split; [done|]. intros [Hl Hne].
      exfalso. destruct (binv_hand _ _ Hi2) as [_ Hh]. pose proof (Hh p' o' ltac:(set_solver)) as E.
      assert (block_at s2 p' = Some (false, o)) as E2; [|congruence].
      apply Hlv2. by rewrite (block_at_other _ _ _ _ _ Hst1 Hne).
    + rewrite (block_at_other _ _ _ _ _ Hst3 Hne'). rewrite Hlv2. destruct (decide (q = p)) as [->|Hne].
      * rewrite (pstep_block _ _ _ _ Hst1). naive_solver.
      * rewrite (block_at_other _ _ _ _ _ Hst1 Hne). naive_solver.
  - intros q. change (pg_ref_count (page_at s3 q) = pg_ref_count (page_at s q)).
    rewrite (frame_ref _ _ _ _ (pstep_frame _ _ _ _ Hst3)), (frame_ref _ _ _ _ Hf2).
    apply (frame_ref _ _ _ _ (pstep_frame _ _ _ _ Hst1)).
  - change (free_pages s3 = free_pages s + 2 ^ order).
    rewrite (free_pages_change s2 s3 o' 1) by (done || lia). rewrite Hfr2.
    change (free_pages s1) with (free_pages s). lia.
  - change (buddy_mem_start s3 = buddy_mem_start s /\ dma_end_pfn s3 = dma_end_pfn s).
    destruct Hst3 as [[-> ->] _ _ _]. destruct Hf2 as [[-> ->] _ _]. done.
Qed.

(** An address the allocator can have handed out for a live block of this order. *)
Definition is_live_addr (s : pmm) (pa order : Z) : Prop :=
  exists p, pa = frame_addr p /\ live s p order.

Lemma page_aligned_frame pa : is_u64 pa -> PHYS_MEM_START <= pa <= BUDDY_MEM_END ->
  page_aligned pa = true -> pa = frame_addr (pa_to_pfn pa) /\ 0 <= pa_to_pfn pa < TOTAL_PAGES.
Proof.
  intros Hu Hr Hal. unfold page_aligned in Hal. rewrite PAGE_SIZE_eq in Hal.
  change (4096 - 1) with (2 ^ 12 - 1) in Hal. rewrite land_mask in Hal by lia. apply Z.eqb_eq in Hal.
  unfold frame_addr, pa_to_pfn. unfold PHYS_MEM_START, BUDDY_MEM_END, is_u64 in *.
  rewrite sub64_small by lia. rewrite shr64_div by (unfold PAGE_SHIFT; lia).
  change (2 ^ PAGE_SHIFT) with 4096. rewrite PAGE_SIZE_eq, TOTAL_PAGES_eq. change (2 ^ 12) with 4096 in Hal.
  lia.
Qed.

Lemma frame_addr_range p : 0 <= p < TOTAL_PAGES -> PHYS_MEM_START <= frame_addr p <= BUDDY_MEM_END /\ is_u64 (frame_addr p).
Proof.
  rewrite TOTAL_PAGES_eq. unfold frame_addr, PHYS_MEM_START, BUDDY_MEM_END, is_u64. rewrite PAGE_SIZE_eq. lia.
Qed.

Lemma page_aligned_frame_addr p : 0 <= p < TOTAL_PAGES -> page_aligned (frame_addr p) = true.
Proof.
  intros Hp. unfold page_aligned. rewrite PAGE_SIZE_eq. change (4096 - 1) with (2 ^ 12 - 1).
  rewrite land_mask by lia. apply Z.eqb_eq. unfold frame_addr. rewrite PAGE_SIZE_eq.
  change (2 ^ 12) with 4096. unfold PHYS_MEM_START. lia.
Qed.

Lemma wp_free_phys_pages pa order (Q : unit -> pmm -> Prop) s :
  buddy_inv s -> is_u64 pa -> 0 <= order ->
  (forall s', is_live_addr s pa order -> released s (pa_to_pfn pa) order s' ->
     buddy_last_error s' = BUDDY_OK -> Q tt s') ->
  (forall e, ~ is_live_addr s pa order -> e <> BUDDY_OK ->
     (forall o, PHYS_MEM_START <= pa -> order <= MAX_ORDER -> pa = frame_addr (pa_to_pfn pa) ->
        aligned (pa_to_pfn pa) order -> block_at s (pa_to_pfn pa) = Some (true, o) ->
        e = BUDDY_ERR_DOUBLE_FREE) ->
     Q tt (with_error e s)) ->
  wp (free_phys_pages pa order) Q s.
Proof.
  intros Hi Hu Ho HQ1 HQ2. unfold free_phys_pages, valid_order. destruct (binv_start _ _ Hi) as [Hst Hfp].
  assert (Hlive_pa : forall p, pa = frame_addr p -> live s p order ->
    order <= MAX_ORDER /\ aligned p order /\ first_pfn s <= p /\ 0 <= p < TOTAL_PAGES /\ pa_to_pfn pa = p).
  { intros p -> Hl. pose proof (block_range _ _ _ _ Hi Hl) as (? & ? & ? & ?). simpl in *.
    pose proof (pow2_pos order ltac:(lia)). split_and!; try done; try lia. apply pa_to_pfn_frame. lia. }
  destruct (order <=? MAX_ORDER) eqn:E1; simpl.
  2:{ apply wp_buddy_set_error, HQ2; [|done|lia]. intros (p & Hp & Hl).
      destruct (Hlive_pa p Hp Hl) as (? & _). lia. }
  wp_steps. destruct (pa_in_range s pa) eqn:E2; simpl.
  2:{ apply wp_buddy_set_error, HQ2; [|done|].
      - intros (p & Hp & Hl). destruct (Hlive_pa p Hp Hl) as (_ & _ & ? & ? & _).
        pose proof (frame_addr_range p ltac:(lia)). unfold pa_in_range in E2.
        rewrite Hst in E2. rewrite Hp in *. unfold frame_addr in *. rewrite PAGE_SIZE_eq in *. lia.
      - intros o Hpa _ Hfr _ Hb. exfalso. pose proof (block_range _ _ _ _ Hi Hb) as (? & _ & ? & ?). simpl in *.
        pose proof (pow2_pos o ltac:(lia)).
        pose proof (frame_addr_range (pa_to_pfn pa) ltac:(lia)). unfold pa_in_range in E2.
        rewrite Hst in E2. rewrite Hfr in E2. rewrite <- Hfr in *. unfold frame_addr in *.
        rewrite PAGE_SIZE_eq in *. lia. }
  unfold pa_in_range in E2. apply andb_true_iff in E2 as [E2a E2b].
  assert (Hrange : PHYS_MEM_START <= pa <= BUDDY_MEM_END).
  { rewrite Hst, PAGE_SIZE_eq in E2a. lia. }
  destruct (page_aligned pa) eqn:E3; simpl.
  2:{ apply wp_buddy_set_error, HQ2; [|done|].
      - intros (p & -> & Hl). destruct (Hlive_pa p eq_refl Hl) as (_ & _ & _ & ? & _).
        by rewrite page_aligned_frame_addr in E3.
      - intros o _ _ Hfr _ Hb. exfalso. rewrite Hfr in E3.
        pose proof (block_range _ _ _ _ Hi Hb) as (? & _ & ? & ?). simpl in *.
        pose proof (pow2_pos o ltac:(lia)). rewrite page_aligned_frame_addr in E3 by lia. done. }
  destruct (page_aligned_frame pa Hu Hrange E3) as [Hpa Hpr]. set (p := pa_to_pfn pa) in *.
  destruct (pfn_aligned_to_order p order) eqn:E4; simpl.
  2:{ assert (~ aligned p order).
      { rewrite <- pfn_aligned_spec by (unfold MAX_ORDER in *; lia). congruence. }
      apply wp_buddy_set_error, HQ2; [|done|done].
      intros (p' & Hp & Hl). destruct (Hlive_pa p' Hp Hl) as (_ & ? & _ & _ & ?). congruence. }
  apply pfn_aligned_spec in E4; [|unfold MAX_ORDER in *; lia].
  replace (TOTAL_PAGES <=? p) with false by lia. wp_steps. apply wp_read_page; [done|].
  destruct (page_block_flags (page_at s p) (binv_flags _ _ Hi p)) as (Hbd & Hald & Hhead).
  destruct (page_is_allocated (page_at s p)) eqn:E5; simpl.
  - rewrite (Hhead eq_refl). destruct (proj1 Hald eq_refl) as (o1 & Hbl & Ho1). rewrite Ho1.
    destruct (o1 =? order) eqn:E6; simpl.
    + apply Z.eqb_eq in E6. rewrite <- E6.
      assert (Hlive : live s p o1) by done. rewrite E6 in *.
      eapply wp_release_block; [done|exact Hlive|]. intros s' Hrel Herr. apply HQ1; try done. by exists p.
    + apply Z.eqb_neq in E6. apply wp_buddy_set_error, HQ2; [|done|].
      * intros (p' & Hp & Hl). destruct (Hlive_pa p' Hp Hl) as (_ & _ & _ & _ & <-).
        unfold live, block_at in Hl. fold p in Hl. congruence.
      * intros o _ _ _ _ Hb. unfold block_at in Hb. congruence.
  - assert (Hnl : ~ is_live_addr s pa order).
    { intros (p' & Hp & Hl). destruct (Hlive_pa p' Hp Hl) as (_ & _ & _ & _ & <-).
      enough (false = true) by done. apply Hald. exists order. fold p in Hl. split; [done|].
      unfold live, block_at, page_block in Hl. repeat case_match; naive_solver. }
    destruct (page_is_buddy (page_at s p)) eqn:E7; apply wp_buddy_set_error, HQ2; try done.
    intros o _ _ _ _ Hb. exfalso. enough (false = true) by done. apply Hbd. exists o. split; [done|].
    unfold block_at, page_block in Hb. repeat case_match; naive_solver.
Qed.
