(* ===== verification/PmmInit.v ===== *)
(** Correctness of the buddy allocator, part 3: [buddy_init].

    From the zeroed [.bss], [buddy_init] puts every page frame after the kernel image on the free
    lists, in the coarsest partition into aligned blocks: [greedy] is that partition as a function,
    and the loop of [buddy_init] peels its blocks one by one. *)
From S2P Require Import Prelude ListHead Pmm PmmTheory PmmOps.

(** ** The greedy partition *)

Definition fits (p o : Z) : bool := (2 ^ o <=? TOTAL_PAGES - p) && (p mod 2 ^ o =? 0).

Fixpoint pick (n : nat) (p : Z) : Z :=
  match n with
  | O => 0
  | S n' => if fits p (Z.of_nat n) then Z.of_nat n else pick n' p
  end.
Definition best_order (p : Z) : Z := pick (Z.to_nat MAX_ORDER) p.

Fixpoint greedy (n : nat) (p : Z) : list (Z * Z) :=
  match n with
  | O => []
  | S n' => if p <? TOTAL_PAGES
            then (p, best_order p) :: greedy n' (p + 2 ^ best_order p) else []
  end.

Lemma pick_spec n p : 0 <= p < TOTAL_PAGES ->
  0 <= pick n p <= Z.of_nat n /\ fits p (pick n p) = true /\
  forall o, pick n p < o <= Z.of_nat n -> fits p o = false.
Proof.
  intros Hp. induction n as [|n IH]; [|cbn [pick]].
  - simpl. split; [lia|]. split; [|lia]. unfold fits. change (2 ^ 0) with 1.
    rewrite Z.mod_1_r. apply andb_true_intro. split; [lia|done].
  - destruct (fits p (Z.of_nat (S n))) eqn:E.
    + split_and!; [lia..|done|]. intros; lia.
    + destruct IH as (IH1 & IH2 & IH3). split; [lia|]. split; [done|].
      intros o Ho. destruct (decide (o = Z.of_nat (S n))) as [->|]; [done|].
      apply IH3. lia.
Qed.

Lemma best_order_spec p : 0 <= p < TOTAL_PAGES ->
  0 <= best_order p <= MAX_ORDER /\ aligned p (best_order p) /\
  p + 2 ^ best_order p <= TOTAL_PAGES /\
  forall o, best_order p < o <= MAX_ORDER -> fits p o = false.
Proof.
  intros Hp. destruct (pick_spec (Z.to_nat MAX_ORDER) p Hp) as (H1 & H2 & H3).
  change (Z.of_nat (Z.to_nat MAX_ORDER)) with MAX_ORDER in *. fold (best_order p) in *.
  unfold fits in H2. unfold aligned. split_and!; [lia..|]. intros o Ho. by apply H3.
Qed.

Lemma geom_cons T E p o :
  geom (p + 2 ^ o) T E -> 0 <= o <= MAX_ORDER -> aligned p o -> p + 2 ^ o <= T ->
  geom p T (fun q r => (q = p /\ r = o) \/ E q r).
Proof.
  intros [Hwf Hfun Hdisj Hcov] Ho Hal HT. pose proof (pow2_pos o ltac:(lia)). split.
  - intros q r [[-> ->]|Hq]; [split_and!; done || lia|].
    destruct (Hwf _ _ Hq) as (? & ? & ? & ?). split_and!; done || lia.
  - intros q r r' [[-> ->]|Hq] [[? ->]|Hq']; [done| | |by eapply Hfun].
    + destruct (Hwf _ _ Hq'). lia.
    + subst. destruct (Hwf _ _ Hq). lia.
  - intros q r q' r' [[-> ->]|Hq] [[-> ->]|Hq'] Hlt; [lia| | |by eapply Hdisj].
    + destruct (Hwf _ _ Hq'). lia.
    + destruct (Hwf _ _ Hq). lia.
  - intros z Hz. destruct (decide (z < p + 2 ^ o)); [exists p, o; split; [by left|lia]|].
    destruct (Hcov z ltac:(lia)) as (q & r & ? & ?). exists q, r. split; [by right|done].
Qed.

Lemma greedy_geom n p : 0 <= p <= TOTAL_PAGES -> TOTAL_PAGES - p <= Z.of_nat n ->
  geom p TOTAL_PAGES (fun q o => (q, o) ∈ greedy n p) /\ NoDup (greedy n p).*1.
Proof.
  revert p. induction n as [|n IH]; intros p Hp Hn; simpl.
  { assert (p = TOTAL_PAGES) as -> by lia. split; [|constructor].
    split; [set_solver..|lia]. }
  destruct (p <? TOTAL_PAGES) eqn:Ep.
  2:{ assert (p = TOTAL_PAGES) as -> by lia. split; [|constructor]. split; [set_solver..|lia]. }
  destruct (best_order_spec p ltac:(lia)) as (Ho & Hal & Htop & _).
  pose proof (pow2_pos (best_order p) ltac:(lia)).
  destruct (IH (p + 2 ^ best_order p) ltac:(lia) ltac:(lia)) as [Hg Hnd]. split.
  - eapply geom_ext, (geom_cons _ _ p (best_order p) Hg); [|done..].
    intros q o. simpl. rewrite elem_of_cons. naive_solver.
  - simpl. apply NoDup_cons. split; [|done]. rewrite list_elem_of_fmap.
    intros ([q o] & Hq & Hin). simpl in Hq. subst q.
    destruct (geom_wf _ _ _ Hg _ _ Hin). lia.
Qed.

Lemma greedy_ge n p q o : 0 <= p <= TOTAL_PAGES -> TOTAL_PAGES - p <= Z.of_nat n ->
  (q, o) ∈ greedy n p -> p <= q /\ q + 2 ^ o <= TOTAL_PAGES.
Proof. intros Hp Hn Hin. destruct (greedy_geom n p Hp Hn) as [Hg _]. apply (geom_wf _ _ _ Hg) in Hin. naive_solver. Qed.

(** ** choose_order *)

Lemma fits_code p remain o : 0 <= o <= MAX_ORDER -> 0 <= p -> remain = TOTAL_PAGES - p ->
  (shl64 1 o <=? remain) && pfn_aligned_to_order p o = fits p o.
Proof.
  intros Ho Hp ->. unfold fits. rewrite shl64_1 by (unfold MAX_ORDER in *; lia). f_equal.
  apply eq_true_iff_eq. rewrite pfn_aligned_spec by (unfold MAX_ORDER in *; lia).
  unfold aligned. by rewrite Z.eqb_eq.
Qed.

Lemma wp_choose_order p remain Q s :
  0 <= p < TOTAL_PAGES -> remain = TOTAL_PAGES - p -> Q (best_order p) s ->
  wp (choose_order p remain) Q s.
Proof.
  intros Hp Hr HQ. unfold choose_order.
  eapply (wp_loop (fun o s' => s' = s /\ 0 <= o <= MAX_ORDER /\ best_order p = pick (Z.to_nat o) p)
            (fun o _ => Z.to_nat o)).
  - split_and!; [done|unfold MAX_ORDER; lia..|done].
  - unfold NR_ORDERS, MAX_ORDER. lia.
  - intros o ? (-> & Ho & Hb). rewrite fits_code by (done || lia).
    destruct (Z.to_nat o) as [|n] eqn:En.
    + assert (o = 0) as -> by lia. simpl in Hb. destruct (fits p 0) eqn:E; simpl;
        apply wp_bind || apply wp_ret || idtac; wp_steps; by rewrite <- Hb.
    + cbn [pick] in Hb. replace (Z.of_nat (S n)) with o in Hb by lia. destruct (fits p o).
      * wp_steps. by rewrite <- Hb.
      * replace (o =? 0) with false by lia. wp_steps.
        split; [|lia]. split_and!; [done|lia..|]. by replace (Z.to_nat (o - 1)) with n by lia.
Qed.

(** ** Writing the flags of a page outside every block *)

Lemma binv_set_flags X s p f :
  binv X s -> block_at s p = None ->
  pg_flags (f (page_at s p)) ∈ [0; PG_RESERVED] ->
  let s' := set_mem_map (<[p := f (page_at s p)]> (mem_map s)) s in
  binv X s' /\ forall q, block_at s' q = block_at s q.
Proof.
  intros Hi Hb Hf s'.
  assert (Hblk : forall q, block_at s' q = block_at s q).
  { intros q. unfold block_at, s'. rewrite page_at_insert. case_decide as E; [|done]. subst q.
    unfold block_at in Hb. rewrite Hb. unfold page_block.
    repeat (apply elem_of_cons in Hf as [->|Hf]; [done|]). set_solver. }
  split; [|done]. destruct Hi as [Hs Hfl Hg [Hnd Hh] Hl]. split.
  - done.
  - intros q. unfold s'. rewrite page_at_insert. case_decide; [|done]. set_solver.
  - eapply geom_ext, Hg. intros q o. unfold ent. by rewrite Hblk.
  - split; [done|]. intros q o Hq. rewrite Hblk. by apply (Hh q o).
  - intros o Ho. destruct (Hl o Ho) as (xs & ? & Hxs & ?). exists xs. split_and!; [done| |done].
    intros q. by rewrite Hblk.
Qed.

(** ** The phases before the loop *)

(** [n] free lists are empty; the zone is set; pages outside [mem_map] were never written. *)
Record boot (n : Z) (st dma : Z) (s : pmm) : Prop := {
  boot_lists : forall o, 0 <= o < n -> dll (pmm_links s) (FreeHead o) [] /\ free_count s o = 0;
  boot_zone : buddy_mem_start s = st /\ dma_end_pfn s = dma;
  boot_out : forall p, ~ (0 <= p < TOTAL_PAGES) -> page_at s p = page_zero;
  boot_ref : forall p, pg_ref_count (page_at s p) = 0;
}.

Lemma boot_upd_page n st dma s p x :
  boot n st dma s -> 0 <= p < TOTAL_PAGES -> pg_ref_count x = pg_ref_count (page_at s p) ->
  boot n st dma (set_mem_map (<[p := x]> (mem_map s)) s).
Proof.
  intros [Hl Hz Ho Hr] Hp Hx. split; [done|done| |].
  - intros q Hq. rewrite page_at_insert, decide_False; [by apply Ho|lia].
  - intros q. rewrite page_at_insert. case_decide; [by rewrite Hx|done].
Qed.

Lemma boot_links n st dma s lk :
  boot n st dma s ->
  (forall o, nxt lk !! FreeHead o = nxt (pmm_links s) !! FreeHead o /\
             prv lk !! FreeHead o = prv (pmm_links s) !! FreeHead o) ->
  boot n st dma (set_links lk s).
Proof.
  intros [Hl Hz Ho Hr] Hlk. split; [|done..]. intros o Hoo. destruct (Hl o Hoo). split; [|done].
  eapply dll_frame; [|done]. intros x Hx. apply list_elem_of_singleton in Hx as ->. apply Hlk.
Qed.

Lemma wp_init_free_area st dma s Q :
  boot 0 st dma s -> (forall s', boot NR_ORDERS st dma s' -> Q tt s') ->
  wp (for_n (Z.to_nat NR_ORDERS) 0 (fun i =>
        _ ← on_links (INIT_LIST_HEAD (FreeHead i));
        upd_nr_free i (fun _ => 0))) Q s.
Proof.
  intros Hb HQ. eapply wp_mono; [apply (wp_for_n (fun i s' => boot i st dma s') _ (Z.to_nat NR_ORDERS) 0 s Hb)|].
  - clear s Hb. intros i s Hi Hb. assert (Hi' : 0 <= i <= MAX_ORDER) by (unfold NR_ORDERS, MAX_ORDER in *; lia).
    unfold on_links. wp_steps. apply wp_INIT_LIST_HEAD. intros lk Hd Hfr.
    apply wp_upd_nr_free; [done|]. destruct Hb as [Hl Hz Ho Hr]. split; [|done..].
    intros o Hoo. rewrite free_count_upd. destruct (decide (o = i)) as [->|Hne]; [done|].
    destruct (Hl o ltac:(lia)) as [Hd' Hc]. split; [|done]. eapply dll_frame; [|done].
    intros x Hx. apply list_elem_of_singleton in Hx as ->. apply Hfr. congruence.
  - intros [] s'. apply HQ.
Qed.

Lemma wp_init_pages st dma s Q :
  boot NR_ORDERS st dma s -> (forall s', boot NR_ORDERS st dma s' -> Q tt s') ->
  wp (for_n (Z.to_nat TOTAL_PAGES) 0 (fun i =>
        _ ← upd_page i (fun p => Page 0 0 0 (pg_ref_count p) (pg_virtual_address p));
        on_links (INIT_LIST_HEAD (PageNode i)))) Q s.
Proof.
  intros Hb HQ. eapply wp_mono; [apply (wp_for_n (fun _ s' => boot NR_ORDERS st dma s') _ (Z.to_nat TOTAL_PAGES) 0 s Hb)|].
  - clear s Hb. intros i s Hi Hb. assert (Hi' : 0 <= i < TOTAL_PAGES) by (rewrite TOTAL_PAGES_eq in *; lia).
    wp_steps. apply wp_upd_page; [done|]. unfold on_links. wp_steps.
    apply wp_INIT_LIST_HEAD. intros lk _ Hfr. apply boot_links; [by apply boot_upd_page|].
    intros o. by apply Hfr.
  - intros [] s'. apply HQ.
Qed.

(** The two loops that mark pages reserved: [lo .. lo + n). *)
Lemma wp_reserve lo n st dma s Q :
  boot NR_ORDERS st dma s -> 0 <= lo -> lo + Z.of_nat n <= TOTAL_PAGES ->
  (forall p, 0 <= p < lo -> pg_flags (page_at s p) = PG_RESERVED) ->
  (forall s', boot NR_ORDERS st dma s' ->
     (forall p, 0 <= p < lo + Z.of_nat n -> pg_flags (page_at s' p) = PG_RESERVED) -> Q tt s') ->
  wp (for_n n 0 (fun i => upd_page (lo + i) mark_page_reserved)) Q s.
Proof.
  intros Hb Hlo Hn Hres HQ.
  eapply wp_mono; [apply (wp_for_n (fun i s' => boot NR_ORDERS st dma s' /\
    forall p, 0 <= p < lo + i -> pg_flags (page_at s' p) = PG_RESERVED) _ n 0 s)|].
  - split; [done|]. intros p Hp. apply Hres. lia.
  - clear s Hb Hres. intros i s Hi [Hb Hres]. apply wp_upd_page; [lia|].
    split; [apply boot_upd_page; [done|lia|done]|]. intros p Hp. rewrite page_at_insert.
    case_decide; [done|]. apply Hres. lia.
  - intros [] s' [Hb' Hr']. by apply HQ.
Qed.

(** With every page reserved, the greedy blocks are all in hand. *)
Lemma boot_binv K st dma s :
  boot NR_ORDERS st dma s -> st = PHYS_MEM_START + K * PAGE_SIZE -> 0 <= K <= TOTAL_PAGES ->
  (forall p, 0 <= p < TOTAL_PAGES -> pg_flags (page_at s p) = PG_RESERVED) ->
  binv (greedy (Z.to_nat TOTAL_PAGES) K) s /\ forall p, block_at s p = None.
Proof.
  intros Hb Hst HK Hres. pose proof (boot_zone _ _ _ _ Hb) as [Hz _].
  assert (Hfirst : first_pfn s = K).
  { unfold first_pfn. rewrite Hz, Hst. by apply pa_to_pfn_frame. }
  assert (Hnone : forall p, block_at s p = None).
  { intros p. unfold block_at, page_block. destruct (decide (0 <= p < TOTAL_PAGES)).
    - by rewrite Hres.
    - by rewrite (boot_out _ _ _ _ Hb). }
  split; [|done]. destruct (greedy_geom (Z.to_nat TOTAL_PAGES) K HK ltac:(lia)) as [Hg Hnd]. split.
  - rewrite Hfirst, Hz. done.
  - intros p. destruct (decide (0 <= p < TOTAL_PAGES)).
    + rewrite Hres by done. set_solver.
    + rewrite (boot_out _ _ _ _ Hb) by done. set_solver.
  - rewrite Hfirst. eapply geom_ext, Hg. intros p o. unfold ent. rewrite Hnone. naive_solver.
  - split; [done|]. intros. apply Hnone.
  - intros o Ho. destruct (boot_lists _ _ _ _ Hb o) as [Hd Hc]; [unfold NR_ORDERS, MAX_ORDER in *; lia|].
    exists []. split_and!; [done| |done]. intros p. rewrite Hnone. set_solver.
Qed.

(** ** The loop that frees the blocks *)

Definition init_loop (s' : pmm) (K pfn : Z) (st dma : Z) : Prop :=
  K <= pfn <= TOTAL_PAGES /\
  (exists n, TOTAL_PAGES - pfn <= Z.of_nat n /\ binv (greedy n pfn) s') /\
  (forall q f o, block_at s' q = Some (f, o) -> f = true /\ q < pfn /\ o = best_order q) /\
  free_pages s' = pfn - K /\
  (forall p, pg_ref_count (page_at s' p) = 0) /\
  buddy_mem_start s' = st /\ dma_end_pfn s' = dma.

(** One round: the block [pfn], [o] goes to its list and its pages lose their flags. *)
Lemma wp_init_round {B} (k : M pmm B) K pfn st dma s (Q : B -> pmm -> Prop) :
  0 <= K -> pfn < TOTAL_PAGES -> init_loop s K pfn st dma ->
  (forall s', init_loop s' K (pfn + 2 ^ best_order pfn) st dma -> wp k Q s') ->
  wp (_ ← upd_page pfn clear_page_flags;
      _ ← add_to_free_area pfn (best_order pfn);
      _ ← for_n (Z.to_nat (shl64 1 (best_order pfn) - 1)) 1 (fun i => upd_page (add64 pfn i) clear_page_flags);
      k) Q s.
Proof.
  intros HK Hlt (Hpf & (n & Hn & Hi) & Hbl & Hfree & Href & Hz) HQ.
  destruct (best_order_spec pfn ltac:(lia)) as (Ho & Hal & Htop & _).
  set (o := best_order pfn) in *. pose proof (pow2_pos o ltac:(lia)) as Hpos.
  destruct n as [|n]; [lia|]. cbn [greedy] in Hi. replace (pfn <? TOTAL_PAGES) with true in Hi by lia.
  fold o in Hi.
  assert (Hno : block_at s pfn = None).
  { destruct (block_at s pfn) as [[f r]|] eqn:E; [|done]. destruct (Hbl _ _ _ E). lia. }
  wp_steps. apply wp_upd_page; [lia|].
  destruct (binv_set_flags _ _ pfn clear_page_flags Hi Hno ltac:(set_solver)) as [Hi1 Hb1].
  set (s1 := set_mem_map _ s) in *. wp_steps. eapply wp_add_to_free_area; [exact Hi1|].
  intros s2 Hi2 Hst2 Hfc2. wp_steps.
  rewrite shl64_1 by (unfold MAX_ORDER in *; lia).
  pose proof (wp_for_n (fun _ s' => block_at s' pfn = Some (true, o) /\ init_loop s' K (pfn + 2 ^ o) st dma)
    (fun i => upd_page (add64 pfn i) clear_page_flags) (Z.to_nat (2 ^ o - 1)) 1 s2) as Hfor.
  eapply wp_mono; [apply Hfor|].
  - split; [apply Hst2|]. split; [lia|]. split; [exists n; split; [lia|done]|]. split; [|split; [|split]].
    + intros q f r Hq. destruct (decide (q = pfn)) as [->|Hne].
      * rewrite (pstep_block _ _ _ _ Hst2) in Hq. split_and!; [congruence|lia|].
        unfold o in Hq. congruence.
      * rewrite (block_at_other _ _ _ _ _ Hst2 Hne), Hb1 in Hq.
        destruct (Hbl _ _ _ Hq) as (? & ? & ?). split_and!; [done|lia|done].
    + rewrite (free_pages_change s1 s2 o 1) by done. change (free_pages s1) with (free_pages s). lia.
    + intros q. rewrite (frame_ref _ _ _ _ (pstep_frame _ _ _ _ Hst2)). unfold s1. rewrite page_at_insert.
      case_decide; [apply Href|apply Href].
    + destruct Hst2 as [[-> ->] _ _ _]. done.
  - clear s Hi Hbl Hfree Href Hz HQ Hno s1 Hi1 Hb1 Hi2 Hst2 Hfc2 Hfor s2.
    intros i s Hrng (Hself & Hr & (n' & Hn' & Hi) & Hbl & Hfree & Href & Hz).
    rewrite add64_small by (rewrite TOTAL_PAGES_eq in *; lia). apply wp_upd_page; [lia|].
    assert (Hno : block_at s (pfn + i) = None).
    { destruct (block_at s (pfn + i)) as [[f r]|] eqn:E; [|done].
      pose proof (geom_disj _ _ _ (binv_geom _ _ Hi) pfn o (pfn + i) r) as Hd.
      enough (pfn + 2 ^ o <= pfn + i) by lia. apply Hd; [right; eauto|right; eauto|lia]. }
    destruct (binv_set_flags _ _ (pfn + i) clear_page_flags Hi Hno ltac:(set_solver)) as [Hi' Hb'].
    set (s' := set_mem_map _ s) in *. split; [by rewrite Hb'|]. split; [done|].
    split; [by exists n'|]. split; [intros q f r; rewrite Hb'; apply Hbl|].
    split; [done|]. split; [|done]. intros q. unfold s'. rewrite page_at_insert. case_decide; apply Href.
  - intros [] s' [_ Hs']. by apply HQ.
Qed.

(** What the boot-time initialisation establishes for a kernel image of [K] page frames. *)
Record initialised (K : Z) (s : pmm) : Prop := {
  in_inv : buddy_inv s /\ coalesced s;
  in_zone : first_pfn s = K /\ dma_end_pfn s = Z.min (K + 4096) (TOTAL_PAGES - 1);
  in_blocks : forall p f o, block_at s p = Some (f, o) -> f = true /\ o = best_order p;
  in_free : free_pages s = TOTAL_PAGES - K;
  in_ref : forall p, pg_ref_count (page_at s p) = 0;
}.

(** No two buddies are free: together they would have fitted. *)
Lemma best_coalesced X s :
  binv X s -> (forall p f o, block_at s p = Some (f, o) -> f = true /\ o = best_order p) ->
  coalesced s.
Proof.
  intros Hi Hbest p o Ho Hp Hb.
  destruct (block_range _ _ _ _ Hi Hp) as (Hor & Hal & Hk & Htop).
  destruct (block_range _ _ _ _ Hi Hb) as (_ & _ & Hk' & Htop'). simpl in *.
  destruct (binv_start _ _ Hi) as [_ Hst].
  pose proof (pow2_pos o ltac:(lia)).
  assert (Hpow : 2 ^ (o + 1) = 2 * 2 ^ o) by (rewrite Z.pow_add_r by lia; lia).
  destruct (buddy_pfn_spec p o) as [[E Hal']|[E Hal']]; [rewrite TOTAL_PAGES_eq in *; lia|lia|done| |];
    rewrite E in *.
  - destruct (Hbest _ _ _ Hp) as [_ Ho']. destruct (best_order_spec p ltac:(lia)) as (_ & _ & _ & Hmax).
    assert (fits p (o + 1) = false) as Hf by (apply Hmax; lia). unfold fits, aligned in *. lia.
  - destruct (Hbest _ _ _ Hb) as [_ Ho'].
    destruct (best_order_spec (p - 2 ^ o) ltac:(lia)) as (_ & _ & _ & Hmax).
    assert (fits (p - 2 ^ o) (o + 1) = false) as Hf by (apply Hmax; lia). unfold fits, aligned in *. lia.
Qed.

Lemma wp_init_loop K st dma s (Q : unit -> pmm -> Prop) :
  0 <= K -> st = frame_addr K -> dma = Z.min (K + 4096) (TOTAL_PAGES - 1) ->
  init_loop s K K st dma -> (forall s', initialised K s' -> Q tt s') ->
  wp (loop (S (Z.to_nat (TOTAL_PAGES - K))) (fun st : Z * Z =>
    let '(pfn, remain) := st in
    if remain >? 0 then
      order ← choose_order pfn remain;
      _ ← upd_page pfn clear_page_flags;
      _ ← add_to_free_area pfn order;
      _ ← for_n (Z.to_nat (shl64 1 order - 1)) 1 (fun i => upd_page (add64 pfn i) clear_page_flags);
      mret (inl (add64 pfn (shl64 1 order), sub64 remain (shl64 1 order)))
    else mret (inr tt)) (K, TOTAL_PAGES - K)) Q s.
Proof.
  intros HK Hst Hdma Hinit HQ.
  eapply (wp_loop (fun a s' => init_loop s' K a.1 st dma /\ a.2 = TOTAL_PAGES - a.1)
           (fun a _ => Z.to_nat a.2)); [by split|simpl; lia|].
  clear s Hinit. intros [pfn remain] s [Hl Hr]. simpl in Hl, Hr. subst remain.
  destruct (TOTAL_PAGES - pfn >? 0) eqn:E.
  - apply Z.gtb_lt in E. wp_steps. eapply wp_choose_order; [destruct Hl; lia|done|].
    destruct (best_order_spec pfn ltac:(destruct Hl; lia)) as (Ho & _ & Htop & _).
    pose proof (pow2_pos (best_order pfn) ltac:(lia)). pose proof (proj1 Hl).
    eapply wp_init_round; [done|lia|done|]. intros s' Hl'. apply wp_ret.
    rewrite shl64_1 by (unfold MAX_ORDER in *; lia).
    rewrite add64_small, sub64_small by (rewrite TOTAL_PAGES_eq in *; lia).
    simpl. split; [split; [done|lia]|lia].
  - rewrite Z.gtb_ltb in E. apply Z.ltb_ge in E. apply wp_ret, HQ.
    destruct Hl as (Hpf & (n & Hn & Hi) & Hbl & Hfree & Href & Hz1 & Hz2).
    assert (pfn = TOTAL_PAGES) as -> by lia.
    assert (greedy n TOTAL_PAGES = []) as Hg.
    { destruct n; [done|]. simpl. by rewrite Z.ltb_irrefl. }
    rewrite Hg in Hi.
    assert (Hbest : forall p f o, block_at s p = Some (f, o) -> f = true /\ o = best_order p).
    { intros p f o Hp. destruct (Hbl _ _ _ Hp) as (? & _ & ?). done. }
    split; [split; [done|by eapply best_coalesced]| |done|done|done].
    split; [|congruence]. unfold first_pfn. rewrite Hz1, Hst. apply pa_to_pfn_frame. lia.
Qed.

(** The first page frame after an image that ends at the virtual address [kernel_end]. *)
Definition image_pages (kernel_end : Z) : Z :=
  (kernel_end - KERNEL_LINK_BASE - PHYS_MEM_START + (PAGE_SIZE - 1)) / PAGE_SIZE.

Definition image_ok (kernel_end : Z) : Prop :=
  KERNEL_LINK_BASE + PHYS_MEM_START <= kernel_end <= KERNEL_LINK_BASE + BUDDY_MEM_END + 1.

Lemma image_start kernel_end : image_ok kernel_end ->
  ALIGN (sub64 kernel_end KERNEL_LINK_BASE) PAGE_SIZE = frame_addr (image_pages kernel_end) /\
  0 <= image_pages kernel_end <= TOTAL_PAGES.
Proof.
  unfold image_ok, ALIGN, frame_addr, image_pages. rewrite TOTAL_PAGES_eq, PAGE_SIZE_eq.
  unfold KERNEL_LINK_BASE, PHYS_MEM_START, BUDDY_MEM_END. intros Hk.
  rewrite sub64_small by lia. rewrite u64_small by lia.
  change (4096 - 1) with (2 ^ 12 - 1). rewrite land_not_mask by (unfold is_u64; lia).
  change (2 ^ 12) with 4096. lia.
Qed.

Lemma wp_buddy_init kernel_end (Q : unit -> pmm -> Prop) :
  image_ok kernel_end ->
  (forall s, initialised (image_pages kernel_end) s -> Q tt s) ->
  wp (buddy_init kernel_end) Q pmm_bss.
Proof.
  intros Hk HQ. destruct (image_start _ Hk) as [Hst HK]. set (K := image_pages kernel_end) in *.
  unfold buddy_init. rewrite Hst. cbv zeta. wp_step. apply wp_buddy_set_error. do 3 (wp_step; cbn beta).
  assert (Hpfn : pa_to_pfn (frame_addr K) = K) by (by apply pa_to_pfn_frame).
  assert (Hrem : shr64 (u64 (BUDDY_MEM_END - frame_addr K + 1)) PAGE_SHIFT = TOTAL_PAGES - K).
  { rewrite TOTAL_PAGES_eq in *. unfold frame_addr, BUDDY_MEM_END, PHYS_MEM_START. rewrite PAGE_SIZE_eq.
    rewrite u64_small by lia. rewrite shr64_div by (unfold PAGE_SHIFT; lia).
    change (2 ^ PAGE_SHIFT) with 4096. lia. }
  match goal with |- context [set_zone _ ?d] => set (dma := d) end.
  assert (Hdma : dma = Z.min (K + 4096) (TOTAL_PAGES - 1)).
  { unfold dma. rewrite TOTAL_PAGES_eq in *. unfold frame_addr, BUDDY_MEM_END, DMA_ZONE_SIZE, pa_to_pfn, PHYS_MEM_START.
    rewrite PAGE_SIZE_eq. rewrite add64_small by lia.
    case_match eqn:E; rewrite sub64_small by lia; rewrite shr64_div by (unfold PAGE_SHIFT; lia);
      change (2 ^ PAGE_SHIFT) with 4096; lia. }
  rewrite Hpfn, Hrem. apply (wp_init_free_area (frame_addr K) dma).
  { split; [intros; lia|done|done|done]. }
  intros s1 Hb1. wp_step. eapply wp_init_pages; [exact Hb1|]. intros s2 Hb2. wp_step.
  pose proof (wp_reserve 0 (Z.to_nat K) _ _ s2 (fun _ s' => boot NR_ORDERS (frame_addr K) dma s' /\
    forall p, 0 <= p < K -> pg_flags (page_at s' p) = PG_RESERVED) Hb2) as Hres.
  eapply wp_mono; [apply Hres; [lia|lia|intros; lia|]|].
  { intros s' ? Hr. split; [done|]. intros p Hp. apply Hr. lia. }
  intros [] s3 [Hb3 Hr3]. wp_step.
  eapply wp_reserve; [exact Hb3|lia|lia|done|]. intros s4 Hb4 Hr4.
  destruct (boot_binv K _ _ s4 Hb4 eq_refl HK) as [Hi4 Hn4]; [intros; apply Hr4; lia|].
  eapply (wp_init_loop K (frame_addr K)); [lia|done|exact Hdma| |exact HQ].
  split; [lia|]. split; [eexists; split; [|exact Hi4]; lia|].
  split; [intros q f o; by rewrite Hn4|]. split; [|split; [apply (boot_ref _ _ _ _ Hb4)|by apply (boot_zone _ _ _ _ Hb4)]].
  unfold free_pages. change (seqZ 0 NR_ORDERS) with [0;1;2;3;4;5;6;7;8;9;10]. unfold sumZ. cbn [foldr].
  destruct (boot_lists _ _ _ _ Hb4 0) as [_ ->]; [done|].
  assert (Hz : forall o, 0 <= o < NR_ORDERS -> free_count s4 o = 0) by (intros o Ho; by apply (boot_lists _ _ _ _ Hb4)).
  rewrite !Hz by done. lia.
Qed.
