(* ===== verification/PmmProps.v ===== *)
(** What the page allocator promises ([kernel/pmm.c]): the theorems about whole operations.

    The rules of PmmOps and PmmInit are restated here as facts about runs, and the facts about
    sequences of calls are added: the invariant, the non-overlap of live blocks and the page
    accounting hold in every reachable state, and freeing what was just allocated restores the
    free blocks exactly. *)
From S2P Require Import Prelude ListHead Pmm PmmTheory PmmOps PmmInit.

(** ** Reference counts *)

Definition with_ref (p rc : Z) (s : pmm) : pmm :=
  set_mem_map (<[p := set_ref_count rc (page_at s p)]> (mem_map s)) s.

Lemma with_ref_blocks p rc s q : block_at (with_ref p rc s) q = block_at s q.
Proof. apply block_at_set_ref. Qed.

Lemma with_ref_coalesced p rc s : coalesced s -> coalesced (with_ref p rc s).
Proof. intros Hc q o. rewrite !with_ref_blocks. apply Hc. Qed.

Lemma with_ref_with_ref p a b s : with_ref p a (with_ref p b s) = with_ref p a s.
Proof.
  unfold with_ref, set_mem_map. f_equal. simpl. unfold page_at at 1. simpl.
  rewrite lookup_insert_eq. simpl. by rewrite insert_insert_eq.
Qed.

Lemma pa_to_pfn_nonneg pa : 0 <= pa_to_pfn pa.
Proof. unfold pa_to_pfn. apply Z.shiftr_nonneg. unfold sub64. apply u64_range. Qed.

Lemma wp_get_page pa Q s :
  (pa_to_pfn pa < TOTAL_PAGES ->
   Q tt (with_ref (pa_to_pfn pa) (u64 (pg_ref_count (page_at s (pa_to_pfn pa)) + 1)) s)) ->
  (TOTAL_PAGES <= pa_to_pfn pa -> Q tt s) -> wp (get_page pa) Q s.
Proof.
  intros H1 H2. unfold get_page. pose proof (pa_to_pfn_nonneg pa). case_match eqn:E.
  - apply wp_ret, H2. lia.
  - apply wp_upd_page; [lia|]. apply H1. lia.
Qed.

(** [put_page] ends in one of three ways: it does nothing, it decrements a count above one, or it
    drops the last reference and calls [free_phys_pages] for a single page. *)
Lemma wp_put_page pa (Q : unit -> pmm -> Prop) s :
  let p := pa_to_pfn pa in
  let rc := pg_ref_count (page_at s p) in
  0 <= rc < 2 ^ 64 ->
  (TOTAL_PAGES <= p \/ rc = 0 -> Q tt s) ->
  (p < TOTAL_PAGES -> 1 < rc -> Q tt (with_ref p (rc - 1) s)) ->
  (p < TOTAL_PAGES -> rc = 1 -> wp (free_phys_pages pa 0) Q (with_ref p 0 s)) ->
  wp (put_page pa) Q s.
Proof.
  intros p rc Hrc H1 H2 H3. unfold put_page. fold p. pose proof (pa_to_pfn_nonneg pa).
  destruct (TOTAL_PAGES <=? p) eqn:E; [apply wp_ret, H1; lia|].
  wp_step. apply wp_read_page; [lia|]. fold rc. destruct (rc =? 0) eqn:E0; [apply wp_ret, H1; lia|].
  wp_step. apply wp_upd_page; [lia|]. rewrite u64_small by lia. fold (with_ref p (rc - 1) s).
  wp_step. apply wp_read_page; [lia|]. unfold with_ref at 1. rewrite page_at_insert, decide_True by done.
  simpl. destruct (rc - 1 =? 0) eqn:E1.
  - assert (rc = 1) as Hrc1 by lia. rewrite Hrc1. apply H3; [lia|done].
  - apply wp_ret, H2; lia.
Qed.

(** ** Runs of single operations *)

(** C1: from the zeroed memory of boot, [buddy_init] returns for every image end in RAM; the
    frames below the image end stay out of the allocator, every other frame is in a free block of
    the largest aligned order that fits, no two buddies are free, and the invariant holds. *)
Theorem buddy_init_correct kernel_end : image_ok kernel_end ->
  exists s, buddy_init kernel_end pmm_bss = Done (tt, s) /\ initialised (image_pages kernel_end) s.
Proof.
  intros Hk. pose proof (wp_buddy_init kernel_end (fun _ s => initialised (image_pages kernel_end) s) Hk (fun s H => H)) as H.
  destruct (wp_done _ _ _ H) as ([] & s & Hrun & Hinit). exists s. split; [exact Hrun|exact Hinit].
Qed.

(** An image of 4 MiB, loaded at the start of RAM. *)
Definition sample_end : Z := 0xffff800040400000.

Lemma sample_ok : image_ok sample_end.
Proof. done. Qed.

Lemma buddy_init_correct_witness :
  image_ok sample_end /\
  exists s, buddy_init sample_end pmm_bss = Done (tt, s) /\ initialised 1024 s.
Proof. split; [apply sample_ok|]. apply (buddy_init_correct sample_end sample_ok). Defined.

(** The booted allocator the witnesses start from. *)
Lemma booted : exists s, initialised 1024 s.
Proof.
  pose proof (wp_buddy_init sample_end (fun _ s => initialised 1024 s) sample_ok (fun s H => H)) as H.
  destruct (wp_done _ _ _ H) as (? & s & _ & Hinit). exists s. exact Hinit.
Qed.

(** C2: [alloc_phys_pages] always returns.  Either the order is invalid, or no list can serve the
    request (with the flag GFP_DMA only the first block of a list is examined), each with address 0, its
    error code and the rest of the state unchanged; or the result is the address of a block that was free,
    is aligned to its size, inside the managed range and the DMA zone if asked, and is now the one
    new live block. *)
Theorem alloc_phys_pages_correct s order flags : buddy_inv s -> 0 <= order ->
  let dma := negb (Z.land flags GFP_DMA =? 0) in
  exists pa s', alloc_phys_pages order flags s = Done (pa, s') /\
    ((MAX_ORDER < order /\ pa = 0 /\ s' = with_error BUDDY_ERR_BAD_ORDER s) \/
     (order <= MAX_ORDER /\ pa = 0 /\ s' = with_error BUDDY_ERR_NO_MEMORY s /\
        forall o, order <= o <= MAX_ORDER -> no_candidate s dma o) \/
     (order <= MAX_ORDER /\ buddy_last_error s' = BUDDY_OK /\
        exists p, pa = frame_addr p /\ allocated s order dma p s')).
Proof.
  intros Hi Ho dma. destruct (decide (order <= MAX_ORDER)).
  2:{ exists 0, (with_error BUDDY_ERR_BAD_ORDER s). split; [|left; split_and!; done || lia].
      unfold alloc_phys_pages, valid_order. by replace (order <=? MAX_ORDER) with false by lia. }
  eapply wp_done, wp_alloc_phys_pages; [done|lia| |].
  - intros p s' Hal Herr. right; right. split_and!; [done|done|]. by exists p.
  - intros Hnc. right; left. done.
Qed.

Lemma alloc_phys_pages_correct_witness : exists s, buddy_inv s /\ 0 <= 3 /\
  exists pa s', alloc_phys_pages 3 GFP_KERNEL s = Done (pa, s') /\
    ((MAX_ORDER < 3 /\ pa = 0 /\ s' = with_error BUDDY_ERR_BAD_ORDER s) \/
     (3 <= MAX_ORDER /\ pa = 0 /\ s' = with_error BUDDY_ERR_NO_MEMORY s /\
        forall o, 3 <= o <= MAX_ORDER -> no_candidate s false o) \/
     (3 <= MAX_ORDER /\ buddy_last_error s' = BUDDY_OK /\
        exists p, pa = frame_addr p /\ allocated s 3 false p s')).
Proof.
  destruct booted as [s [[Hi _] _ _ _ _]]. exists s. split; [exact Hi|]. split; [lia|].
  apply (alloc_phys_pages_correct s 3 GFP_KERNEL Hi). lia.
Defined.

(** C3: [free_phys_pages] always returns.  It releases exactly the live blocks: for the address and
    order of one, the block (merged with every free buddy) is free again and nothing else changed;
    for any other argument only the error code changes, and it is DOUBLE_FREE when the address is that
    of a free block. *)
Theorem free_phys_pages_correct s pa order : buddy_inv s -> is_u64 pa -> 0 <= order ->
  exists s', free_phys_pages pa order s = Done (tt, s') /\
    ((is_live_addr s pa order /\ released s (pa_to_pfn pa) order s' /\ buddy_last_error s' = BUDDY_OK) \/
     (~ is_live_addr s pa order /\ exists e, s' = with_error e s /\ e <> BUDDY_OK /\
        forall o, PHYS_MEM_START <= pa -> order <= MAX_ORDER -> pa = frame_addr (pa_to_pfn pa) ->
          aligned (pa_to_pfn pa) order -> block_at s (pa_to_pfn pa) = Some (true, o) ->
          e = BUDDY_ERR_DOUBLE_FREE)).
Proof.
  intros Hi Hu Ho.
  assert (Hwp : wp (free_phys_pages pa order) (fun _ s' =>
    (is_live_addr s pa order /\ released s (pa_to_pfn pa) order s' /\ buddy_last_error s' = BUDDY_OK) \/
     (~ is_live_addr s pa order /\ exists e, s' = with_error e s /\ e <> BUDDY_OK /\
        forall o, PHYS_MEM_START <= pa -> order <= MAX_ORDER -> pa = frame_addr (pa_to_pfn pa) ->
          aligned (pa_to_pfn pa) order -> block_at s (pa_to_pfn pa) = Some (true, o) ->
          e = BUDDY_ERR_DOUBLE_FREE)) s).
  { apply wp_free_phys_pages; [done..|intros; by left|]. intros e ? ? ?. right. eauto 10. }
  apply wp_done in Hwp as ([] & s' & ? & ?). eauto.
Qed.

Lemma free_phys_pages_correct_witness : exists s, buddy_inv s /\ is_u64 0x40400000 /\ 0 <= 2 /\
  exists s', free_phys_pages 0x40400000 2 s = Done (tt, s') /\
    ((is_live_addr s 0x40400000 2 /\ released s (pa_to_pfn 0x40400000) 2 s' /\ buddy_last_error s' = BUDDY_OK) \/
     (~ is_live_addr s 0x40400000 2 /\ exists e, s' = with_error e s /\ e <> BUDDY_OK /\
        forall o, PHYS_MEM_START <= 0x40400000 -> 2 <= MAX_ORDER ->
          0x40400000 = frame_addr (pa_to_pfn 0x40400000) ->
          aligned (pa_to_pfn 0x40400000) 2 -> block_at s (pa_to_pfn 0x40400000) = Some (true, o) ->
          e = BUDDY_ERR_DOUBLE_FREE)).
Proof.
  destruct booted as [s [[Hi _] _ _ _ _]]. exists s. split; [exact Hi|].
  split; [unfold is_u64; lia|]. split; [lia|].
  apply (free_phys_pages_correct s 0x40400000 2 Hi); [unfold is_u64; lia|lia].
Defined.

(** ** Sequences of calls *)

(** The calls other parts of the kernel make, with any arguments of their C types. *)
Inductive pmm_call : Type :=
| CallAlloc (order flags : Z)
| CallFree (pa order : Z)
| CallGet (pa : Z)
| CallPut (pa : Z).

Definition call_ok (c : pmm_call) : Prop :=
  match c with
  | CallAlloc order flags => is_u32 order /\ is_u32 flags
  | CallFree pa order => is_u64 pa /\ is_u32 order
  | CallGet pa | CallPut pa => is_u64 pa
  end.

Definition run_call (c : pmm_call) : M pmm unit :=
  match c with
  | CallAlloc order flags => _ ← alloc_phys_pages order flags; mret tt
  | CallFree pa order => free_phys_pages pa order
  | CallGet pa => get_page pa
  | CallPut pa => put_page pa
  end.

Fixpoint run_calls (cs : list pmm_call) : M pmm unit :=
  match cs with
  | [] => mret tt
  | c :: cs' => _ ← run_call c; run_calls cs'
  end.

(** [ls] lists the live blocks; the frames in use and the free frames add up to the zone. *)
Definition frames_of (ls : list (Z * Z)) : Z := foldr (fun b acc => 2 ^ b.2 + acc) 0 ls.

Record accounts (K : Z) (ls : list (Z * Z)) (s : pmm) : Prop := {
  ac_nodup : NoDup ls.*1;
  ac_live : forall p o, (p, o) ∈ ls <-> live s p o;
  ac_sum : frames_of ls + free_pages s = TOTAL_PAGES - K;
}.

(** What holds between calls. *)
Record pmm_ok (K : Z) (s : pmm) : Prop := {
  ok_inv : buddy_inv s;
  ok_coalesced : coalesced s;
  ok_zone : first_pfn s = K;
  ok_refs : forall p, 0 <= pg_ref_count (page_at s p) < 2 ^ 64;
  ok_accounts : exists ls, accounts K ls s;
}.

Lemma frames_of_split ls1 b ls2 : frames_of (ls1 ++ b :: ls2) = 2 ^ b.2 + frames_of (ls1 ++ ls2).
Proof. induction ls1 as [|c ls1 IH]; simpl; [done|]. rewrite IH. lia. Qed.

Lemma first_pfn_eq s s' : buddy_mem_start s' = buddy_mem_start s -> first_pfn s' = first_pfn s.
Proof. unfold first_pfn. by intros ->. Qed.

Lemma pmm_ok_allocated K s order dma p s' :
  pmm_ok K s -> allocated s order dma p s' -> pmm_ok K s'.
Proof.
  intros [Hi Hc Hz Hr (ls & [Hnd Hl Hs])] [[Hi' Hc'] _ _ (h & _ & Hb & _) Hlv [Hr1 Hr2] Hcnt [Hz' _]].
  split; [done|by apply Hc'|by rewrite (first_pfn_eq _ _ Hz')| |].
  - intros q. destruct (decide (q = p)) as [->|Hne]; [rewrite Hr1; lia|by rewrite Hr2].
  - exists ((p, order) :: ls). split.
    + simpl. apply NoDup_cons. split; [|done]. rewrite list_elem_of_fmap.
      intros ([q o] & -> & Hq). apply Hl in Hq. unfold live in Hq. simpl in *. congruence.
    + intros q o. rewrite elem_of_cons, Hl, Hlv. naive_solver.
    + simpl. rewrite Hcnt. lia.
Qed.

Lemma pmm_ok_released K s p order s' :
  pmm_ok K s -> live s p order -> released s p order s' -> pmm_ok K s'.
Proof.
  intros [Hi Hc Hz Hr (ls & [Hnd Hl Hs])] Hlive [[Hi' Hc'] _ Hlv Hrf Hcnt [Hz' _]].
  split; [done|by apply Hc'|by rewrite (first_pfn_eq _ _ Hz')|intros; by rewrite Hrf|].
  apply Hl in Hlive. apply list_elem_of_split in Hlive as (l1 & l2 & ->).
  rewrite fmap_app, fmap_cons in Hnd. apply NoDup_app in Hnd as (Hnd1 & Hd & Hnd2).
  apply NoDup_cons in Hnd2 as [Hp Hnd2]. simpl in *.
  exists (l1 ++ l2). split.
  - rewrite fmap_app. apply NoDup_app. set_solver.
  - intros q o. rewrite Hlv, <- Hl, !elem_of_app, elem_of_cons. split.
    + intros Hin. split; [tauto|]. intros ->. destruct Hin as [Hin|Hin].
      * apply (Hd p); [|set_solver]. apply list_elem_of_fmap. by exists (p, o).
      * apply Hp, list_elem_of_fmap. by exists (p, o).
    + intros [[?|[[=]|?]] ?]; naive_solver.
  - rewrite Hcnt. rewrite frames_of_split in Hs. simpl in Hs. lia.
Qed.

Lemma pmm_ok_with_error K e s : pmm_ok K s -> pmm_ok K (with_error e s).
Proof.
  intros [Hi Hc Hz Hr (ls & [Hnd Hl Hs])]. split; [by apply binv_with_error|done|done|done|].
  exists ls. by split.
Qed.

Lemma pmm_ok_with_ref K p rc s : 0 <= rc < 2 ^ 64 -> pmm_ok K s -> pmm_ok K (with_ref p rc s).
Proof.
  intros Hrc [Hi Hc Hz Hr (ls & [Hnd Hl Hs])].
  split; [by apply binv_set_ref|by apply with_ref_coalesced|done| |].
  - intros q. unfold with_ref. rewrite page_at_insert. by case_decide; simpl.
  - exists ls. split; [done| |done]. intros q o. unfold live. by rewrite with_ref_blocks.
Qed.

Lemma wp_free_ok K pa order s : pmm_ok K s -> is_u64 pa -> 0 <= order ->
  wp (free_phys_pages pa order) (fun _ => pmm_ok K) s.
Proof.
  intros Hok Hu Ho. eapply wp_free_phys_pages; [apply Hok|done|done| |].
  - intros s' (p & -> & Hl) Hrel _.
    pose proof (block_range _ _ _ _ (ok_inv _ _ Hok) Hl) as (? & _ & ? & ?). simpl in *.
    destruct (binv_start _ _ (ok_inv _ _ Hok)) as [_ ?]. pose proof (pow2_pos order ltac:(lia)).
    rewrite pa_to_pfn_frame in Hrel by lia. by eapply pmm_ok_released.
  - intros e _ _ _. by apply pmm_ok_with_error.
Qed.

Lemma wp_run_call K c s : pmm_ok K s -> call_ok c -> wp (run_call c) (fun _ => pmm_ok K) s.
Proof.
  intros Hok Hc. destruct c as [order flags|pa order|pa|pa]; simpl in *.
  - wp_step. destruct (decide (order <= MAX_ORDER)).
    + eapply wp_alloc_phys_pages; [apply Hok|unfold is_u32 in *; lia| |].
      * intros p s' Hal _. apply wp_ret. by eapply pmm_ok_allocated.
      * intros _. apply wp_ret. by apply pmm_ok_with_error.
    + unfold alloc_phys_pages, valid_order. replace (order <=? MAX_ORDER) with false by lia. simpl.
      wp_step. apply wp_buddy_set_error. do 2 wp_step. by apply pmm_ok_with_error.
  - destruct Hc as [? [? ?]]. by apply wp_free_ok.
  - apply wp_get_page; [|done]. intros _. apply pmm_ok_with_ref; [apply u64_range|done].
  - pose proof (ok_refs _ _ Hok (pa_to_pfn pa)). apply wp_put_page; [done|done| |].
    + intros _ Hrc. apply pmm_ok_with_ref; [lia|done].
    + intros _ _. apply wp_free_ok; [|done|lia]. by apply pmm_ok_with_ref.
Qed.

Lemma wp_run_calls K cs s : pmm_ok K s -> Forall call_ok cs -> wp (run_calls cs) (fun _ => pmm_ok K) s.
Proof.
  intros Hok Hcs. revert s Hok. induction Hcs as [|c cs Hc Hcs IH]; intros s Hok; simpl.
  - by apply wp_ret.
  - wp_step. eapply wp_mono; [by apply wp_run_call|]. intros [] s' Hs'. by apply IH.
Qed.

(** Two live blocks share no frame, and no live block meets a free one. *)
Definition blocks_disjoint (s : pmm) : Prop := forall p q f f' o o' z,
  block_at s p = Some (f, o) -> block_at s q = Some (f', o') ->
  p <= z < p + 2 ^ o -> q <= z < q + 2 ^ o' -> p = q /\ f = f'.

Lemma binv_disjoint X s : binv X s -> blocks_disjoint s.
Proof.
  intros Hi p q f f' o o' z Hp Hq Hz Hz'.
  pose proof (geom_disj _ _ _ (binv_geom _ _ Hi)) as Hd.
  assert (Ep : ent X s p o) by (right; eauto). assert (Eq : ent X s q o') by (right; eauto).
  destruct (Z.lt_trichotomy p q) as [Hlt|[->|Hlt]].
  - pose proof (Hd _ _ _ _ Ep Eq Hlt). lia.
  - split; [done|]. congruence.
  - pose proof (Hd _ _ _ _ Eq Ep Hlt). lia.
Qed.

Lemma initialised_ok K s : initialised K s -> pmm_ok K s.
Proof.
  intros [[Hi Hc] [Hz _] Hb Hf Hr]. split; try done; [intros; by rewrite Hr|]. exists []. split; [constructor| |].
  - intros p o. split; [set_solver|]. intros Hl. by destruct (Hb _ _ _ Hl).
  - simpl. lia.
Qed.

(** C4: after boot, any sequence of calls with any arguments runs without undefined behaviour and
    returns; it leaves the allocator with its invariant, fully coalesced, no frame in two blocks,
    and the frames of the live blocks and the free frames adding up to the managed range. *)
Theorem pmm_reachable kernel_end cs : image_ok kernel_end -> Forall call_ok cs ->
  exists s, (_ ← buddy_init kernel_end; run_calls cs) pmm_bss = Done (tt, s) /\
    pmm_ok (image_pages kernel_end) s /\ blocks_disjoint s.
Proof.
  intros Hk Hcs.
  assert (Hwp : wp (_ ← buddy_init kernel_end; run_calls cs)
                  (fun _ => pmm_ok (image_pages kernel_end)) pmm_bss).
  { apply wp_bind, wp_buddy_init; [done|]. intros s Hs. apply wp_run_calls; [by apply initialised_ok|done]. }
  destruct (wp_done _ _ _ Hwp) as ([] & s & Hrun & Hok). exists s. split; [exact Hrun|].
  split; [exact Hok|]. apply (binv_disjoint []), (ok_inv _ _ Hok).
Qed.

Definition sample_calls : list pmm_call :=
  [CallAlloc 3 GFP_KERNEL; CallGet 0x40400000; CallPut 0x40400000; CallFree 0x40400000 3].

Lemma sample_calls_ok : Forall call_ok sample_calls.
Proof. unfold sample_calls. rewrite !Forall_cons, Forall_nil. simpl. unfold is_u32, is_u64, GFP_KERNEL. lia. Qed.

Lemma pmm_reachable_witness : image_ok sample_end /\ Forall call_ok sample_calls /\
  exists s, (_ ← buddy_init sample_end; run_calls sample_calls) pmm_bss = Done (tt, s) /\
    pmm_ok (image_pages sample_end) s /\ blocks_disjoint s.
Proof.
  split; [apply sample_ok|]. split; [apply sample_calls_ok|].
  apply (pmm_reachable sample_end sample_calls sample_ok sample_calls_ok).
Defined.

(** ** The free blocks are determined by the live ones *)

Lemma aligned_nested p o q r z : 0 <= o <= r -> aligned p o -> aligned q r ->
  p <= z < p + 2 ^ o -> q <= z < q + 2 ^ r -> q <= p /\ p + 2 ^ o <= q + 2 ^ r.
Proof.
  intros Ho Hp Hq Hz Hz'. pose proof (pow2_pos o ltac:(lia)).
  assert (E : 2 ^ r = 2 ^ (r - o) * 2 ^ o) by (rewrite <- Z.pow_add_r by lia; f_equal; lia).
  unfold aligned in *. apply Z.mod_divide in Hp as [k ->]; [|lia].
  apply Z.mod_divide in Hq as [j ->]; [|pose proof (pow2_pos r ltac:(lia)); lia].
  rewrite E in *. clear E. revert H Hz Hz'. generalize (2 ^ o) (2 ^ (r - o)). intros B m HB Hz Hz'.
  replace (j * (m * B)) with (j * m * B) in * by lia. generalize dependent (j * m). intros Q Hz'.
  assert (k < Q + m) by nia. assert (Q < k + 1) by nia. nia.
Qed.

Section canonical.
Context (s1 s2 : pmm).
Hypothesis inv1 : buddy_inv s1.
Hypothesis inv2 : buddy_inv s2.
Hypothesis coalesced1 : coalesced s1.
Hypothesis same_zone : first_pfn s1 = first_pfn s2.
Hypothesis same_live : forall p o, live s1 p o <-> live s2 p o.

(** A frame of a free block of [s2] lies in a free block of [s1]. *)
Lemma free_cover q r z : block_at s2 q = Some (true, r) -> q <= z < q + 2 ^ r ->
  exists p o, block_at s1 p = Some (true, o) /\ p <= z < p + 2 ^ o.
Proof using All.
  intros Hq Hz. destruct (block_range _ _ _ _ inv2 Hq) as (_ & _ & ? & ?). simpl in *.
  destruct (geom_cover _ _ _ (binv_geom _ _ inv1) z ltac:(lia)) as (p & o & [Hp|[f Hp]] & Hz'); [set_solver|].
  destruct f; [by exists p, o|]. apply same_live in Hp.
  by destruct (binv_disjoint _ _ inv2 _ _ _ _ _ _ z Hp Hq Hz' Hz).
Qed.

Lemma no_smaller_block n : forall o p q r, o < Z.of_nat n ->
  block_at s1 p = Some (true, o) -> block_at s2 q = Some (true, r) -> o < r -> q <= p < q + 2 ^ r -> False.
Proof using All.
  induction n as [|n IH]; intros o p q r Hn Hp Hq Hor Hin.
  { destruct (block_range _ _ _ _ inv1 Hp). simpl in *. lia. }
  destruct (block_range _ _ _ _ inv1 Hp) as (Ho & Hal & Hk & Htop).
  destruct (block_range _ _ _ _ inv2 Hq) as (Hr & Halq & _ & _). simpl in *.
  destruct (binv_start _ _ inv1) as [_ Hst]. pose proof (pow2_pos o ltac:(lia)).
  assert (Hpow : 2 ^ (o + 1) = 2 * 2 ^ o) by (rewrite Z.pow_add_r by lia; lia).
  set (b := buddy_pfn p o).
  assert (Hm : exists m, aligned m (o + 1) /\ m <= p < m + 2 ^ (o + 1) /\ m <= b < m + 2 ^ (o + 1) /\ aligned b o).
  { destruct (buddy_pfn_spec p o) as [[E Hal']|[E Hal']]; [rewrite TOTAL_PAGES_eq in *; lia|lia|done| |]; fold b in E.
    - exists p. rewrite E. split_and!; try done; try lia.
      destruct (aligned_half p (o + 1) ltac:(lia) Hal') as [_ Hx]. by rewrite Z.add_simpl_r in Hx.
    - exists (p - 2 ^ o). rewrite E. split_and!; try done; try lia.
      destruct (aligned_half (p - 2 ^ o) (o + 1) ltac:(lia) Hal') as [Hx _]. by rewrite Z.add_simpl_r in Hx. }
  destruct Hm as (m & Halm & Hpm & Hbm & Halb).
  destruct (aligned_nested m (o + 1) q r p ltac:(lia) Halm Halq Hpm Hin) as [Hmq Hmq'].
  destruct (free_cover q r b Hq ltac:(lia)) as (x & t & Hx & Hxb).
  destruct (block_range _ _ _ _ inv1 Hx) as (Ht & Halx & _ & _). simpl in *.
  destruct (Z.lt_trichotomy t o) as [Hto|[->|Hto]].
  - destruct (aligned_nested x t q r b ltac:(lia) Halx Halq Hxb ltac:(lia)).
    pose proof (pow2_pos t ltac:(lia)). apply (IH t x q r); [lia|done|done|lia|lia].
  - assert (x = b) as ->.
    { destruct (aligned_nested x o b o b ltac:(lia) Halx Halb Hxb ltac:(lia)). lia. }
    by apply (coalesced1 p o ltac:(lia) Hp).
  - destruct (aligned_nested m (o + 1) x t b ltac:(lia) Halm Halx Hbm Hxb).
    destruct (binv_disjoint _ _ inv1 _ _ _ _ _ _ p Hp Hx ltac:(lia) ltac:(lia)) as [<- _].
    rewrite Hp in Hx. injection Hx as ->. lia.
Qed.
End canonical.

Lemma free_block_same s1 s2 p o :
  buddy_inv s1 -> buddy_inv s2 -> coalesced s1 -> coalesced s2 -> first_pfn s1 = first_pfn s2 ->
  (forall p o, live s1 p o <-> live s2 p o) ->
  block_at s1 p = Some (true, o) -> block_at s2 p = Some (true, o).
Proof.
  intros H1 H2 C1 C2 Hz Hl Hp. assert (Hl' : forall p o, live s2 p o <-> live s1 p o) by (intros; by rewrite Hl).
  destruct (block_range _ _ _ _ H1 Hp) as (Ho & Hal & _ & _). simpl in *.
  pose proof (pow2_pos o ltac:(lia)).
  destruct (free_cover s2 s1 H2 H1 C2 (eq_sym Hz) Hl' p o p Hp ltac:(lia)) as (q & r & Hq & Hin).
  destruct (block_range _ _ _ _ H2 Hq) as (Hr & Halq & _ & _). simpl in *.
  destruct (Z.lt_trichotomy o r) as [Hlt|[->|Hlt]].
  - destruct (no_smaller_block s1 s2 H1 H2 C1 Hz Hl 11 o p q r); unfold MAX_ORDER in *; try done; lia.
  - destruct (aligned_nested p r q r p ltac:(lia) Hal Halq ltac:(lia) Hin). by replace p with q by lia.
  - destruct (aligned_nested q r p o p ltac:(lia) Halq Hal Hin ltac:(lia)).
    pose proof (pow2_pos r ltac:(lia)).
    destruct (no_smaller_block s2 s1 H2 H1 C2 (eq_sym Hz) Hl' 11 r q p o); unfold MAX_ORDER in *; try done; lia.
Qed.

Lemma coalesced_unique s1 s2 :
  buddy_inv s1 -> buddy_inv s2 -> coalesced s1 -> coalesced s2 -> first_pfn s1 = first_pfn s2 ->
  (forall p o, live s1 p o <-> live s2 p o) -> forall p, block_at s1 p = block_at s2 p.
Proof.
  intros H1 H2 C1 C2 Hz Hl p. assert (Hl' : forall p o, live s2 p o <-> live s1 p o) by (intros; by rewrite Hl).
  destruct (block_at s1 p) as [[[] o]|] eqn:E1.
  - symmetry. by apply (free_block_same s1 s2).
  - symmetry. by apply Hl.
  - destruct (block_at s2 p) as [[[] o]|] eqn:E2; [| |done].
    + apply (free_block_same s2 s1) in E2; [congruence|done..].
    + apply Hl in E2. unfold live in E2. congruence.
Qed.

(** freeing a block right after its allocation restores the partition of memory into free and
    live blocks exactly as it was: the splits of the allocation are all merged back. *)
Theorem alloc_free_roundtrip s order flags : buddy_inv s -> coalesced s -> 0 <= order <= MAX_ORDER ->
  exists pa s', alloc_phys_pages order flags s = Done (pa, s') /\
    (pa <> 0 -> exists s'', free_phys_pages pa order s' = Done (tt, s'') /\
       buddy_inv s'' /\ (forall p, block_at s'' p = block_at s p) /\ free_pages s'' = free_pages s).
Proof.
  intros Hi Hc Ho.
  apply (wp_done _ (fun pa s' => pa <> 0 -> exists s'', free_phys_pages pa order s' = Done (tt, s'') /\
     buddy_inv s'' /\ (forall p, block_at s'' p = block_at s p) /\ free_pages s'' = free_pages s)).
  eapply wp_alloc_phys_pages; [done|done| |done].
  intros p s1 Hal _ _. pose proof (al_inv _ _ _ _ _ Hal) as [Hi1 Hc1].
  destruct (al_aligned _ _ _ _ _ Hal) as (_ & Hk & Htop). pose proof (pow2_pos order ltac:(lia)).
  destruct (binv_start _ _ Hi) as [_ Hst]. destruct (frame_addr_range p ltac:(lia)) as [_ Hu].
  assert (Hlive : live s1 p order) by (apply (al_live _ _ _ _ _ Hal); by right).
  assert (Hnl : forall o, ~ live s p o).
  { destruct (al_from _ _ _ _ _ Hal) as (h & _ & Hb & _). unfold live. congruence. }
  assert (Hwp : wp (free_phys_pages (frame_addr p) order)
    (fun u s'' => buddy_inv s'' /\ (forall p, block_at s'' p = block_at s p) /\ free_pages s'' = free_pages s) s1).
  { eapply wp_free_phys_pages; [done|done|lia| |].
    2:{ intros e Hno. destruct Hno. by exists p. }
    intros s2 _ Hrel _. rewrite pa_to_pfn_frame in Hrel by lia. destruct (rl_inv _ _ _ _ Hrel) as [Hi2 Hc2].
    split; [done|]. split.
    - apply coalesced_unique; [done|done|by apply Hc2, Hc1|done| |].
      + rewrite (first_pfn_eq _ _ (proj1 (rl_zone _ _ _ _ Hrel))).
        apply first_pfn_eq, (al_zone _ _ _ _ _ Hal).
      + intros q o. rewrite (rl_live _ _ _ _ Hrel), (al_live _ _ _ _ _ Hal). split.
        * intros [[?|[-> ->]] ?]; done.
        * intros Hl. split; [by left|]. intros ->. by destruct (Hnl o).
    - rewrite (rl_count _ _ _ _ Hrel), (al_count _ _ _ _ _ Hal). lia. }
  apply wp_done in Hwp as ([] & s2 & Hrun & Hres). by exists s2.
Qed.

Lemma alloc_free_roundtrip_witness : exists s, buddy_inv s /\ coalesced s /\ 0 <= 4 <= MAX_ORDER /\
  exists pa s', alloc_phys_pages 4 GFP_DMA s = Done (pa, s') /\
    (pa <> 0 -> exists s'', free_phys_pages pa 4 s' = Done (tt, s'') /\
       buddy_inv s'' /\ (forall p, block_at s'' p = block_at s p) /\ free_pages s'' = free_pages s).
Proof.
  destruct booted as [s [[Hi Hc] _ _ _ _]]. exists s. split; [exact Hi|]. split; [exact Hc|].
  assert (Ho : 0 <= 4 <= MAX_ORDER) by (unfold MAX_ORDER; lia). split; [exact Ho|].
  apply (alloc_free_roundtrip s 4 GFP_DMA Hi Hc Ho).
Defined.

(** C5: [put_page] always returns.  An address outside the array or a count of zero changes nothing;
    a count above one is decremented; the last reference releases the page when it is a live
    single-page block, and otherwise (a block of a larger order, an unaligned address) only the count
    and the error code change, so the block stays live with no reference left. *)
Theorem put_page_correct s pa : buddy_inv s -> is_u64 pa ->
  let p := pa_to_pfn pa in
  let rc := pg_ref_count (page_at s p) in
  0 <= rc < 2 ^ 64 ->
  exists s', put_page pa s = Done (tt, s') /\
    ((TOTAL_PAGES <= p \/ rc = 0) /\ s' = s \/
     p < TOTAL_PAGES /\ 1 < rc /\ s' = with_ref p (rc - 1) s \/
     rc = 1 /\ is_live_addr s pa 0 /\ released (with_ref p 0 s) p 0 s' \/
     rc = 1 /\ ~ is_live_addr s pa 0 /\ exists e, e <> BUDDY_OK /\ s' = with_error e (with_ref p 0 s)).
Proof.
  intros Hi Hu p rc Hrc.
  assert (Hwp : wp (put_page pa) (fun _ s' =>
    ((TOTAL_PAGES <= p \/ rc = 0) /\ s' = s \/
     p < TOTAL_PAGES /\ 1 < rc /\ s' = with_ref p (rc - 1) s \/
     rc = 1 /\ is_live_addr s pa 0 /\ released (with_ref p 0 s) p 0 s' \/
     rc = 1 /\ ~ is_live_addr s pa 0 /\ exists e, e <> BUDDY_OK /\ s' = with_error e (with_ref p 0 s))) s).
  { assert (Hl : is_live_addr (with_ref p 0 s) pa 0 <-> is_live_addr s pa 0).
    { unfold is_live_addr, live. by setoid_rewrite with_ref_blocks. }
    apply wp_put_page; [done|by left|by right; left|]. intros Hp Hrc1.
    apply wp_free_phys_pages; [by apply binv_set_ref|done|done| |].
    - intros s' Hla Hrel _. right; right; left. by rewrite <- Hl.
    - intros e Hla He _. do 3 right. rewrite <- Hl. eauto. }
  apply wp_done in Hwp as ([] & s' & Hrun & Hres). by exists s'.
Qed.

Lemma put_page_correct_witness : exists s, buddy_inv s /\ is_u64 0x40400000 /\
  0 <= pg_ref_count (page_at s (pa_to_pfn 0x40400000)) < 2 ^ 64 /\
  exists s', put_page 0x40400000 s = Done (tt, s').
Proof.
  destruct booted as [s [[Hi _] _ _ _ Hr]]. exists s. split; [exact Hi|].
  assert (Hu : is_u64 0x40400000) by (unfold is_u64; lia). split; [exact Hu|].
  assert (Hrc : 0 <= pg_ref_count (page_at s (pa_to_pfn 0x40400000)) < 2 ^ 64) by (rewrite Hr; lia).
  split; [exact Hrc|].
  destruct (put_page_correct s 0x40400000 Hi Hu Hrc) as (s' & Hrun & _). exists s'. exact Hrun.
Defined.

(** ** The statistics *)

Lemma frames_of_nonneg ls : Forall (fun b => 0 <= b.2) ls -> 0 <= frames_of ls.
Proof. induction 1; simpl; [done|]. pose proof (pow2_pos x.2). lia. Qed.

Lemma pmm_ok_free_range K s : pmm_ok K s -> 0 <= free_pages s <= TOTAL_PAGES - K /\ 0 <= K <= TOTAL_PAGES.
Proof.
  intros [Hi _ Hz _ (ls & [_ Hl Hs])]. destruct (binv_start _ _ Hi) as [_ Hst]. rewrite Hz in Hst.
  assert (Hf : 0 <= frames_of ls).
  { apply frames_of_nonneg, Forall_forall. intros [p o] Hin. apply Hl in Hin.
    destruct (block_range _ _ _ _ Hi Hin). simpl in *. lia. }
  split; [|done]. split; [|lia]. unfold free_pages. change (seqZ 0 NR_ORDERS) with [0;1;2;3;4;5;6;7;8;9;10].
  assert (Hc : forall o, 0 <= o <= MAX_ORDER -> 0 <= free_count s o).
  { intros o Ho. destruct (binv_lists _ _ Hi o Ho) as (xs & _ & _ & ->). lia. }
  unfold sumZ, MAX_ORDER in *. cbn [foldr].
  pose proof (Hc 0). pose proof (Hc 1). pose proof (Hc 2). pose proof (Hc 3). pose proof (Hc 4).
  pose proof (Hc 5). pose proof (Hc 6). pose proof (Hc 7). pose proof (Hc 8). pose proof (Hc 9).
  pose proof (Hc 10). lia.
Qed.

(** A sum of non-negative terms computed in 32 bits is exact when its total fits. *)
Lemma u32_sum (f : Z -> Z) l acc :
  0 <= acc -> (forall o, o ∈ l -> 0 <= f o) -> acc + sumZ f l < 2 ^ 32 ->
  foldl (fun total o => u32 (total + u32 (f o))) acc l = acc + sumZ f l.
Proof.
  revert acc. induction l as [|o l IH]; intros acc Ha Hf Hs; simpl in *; [lia|].
  assert (0 <= f o) by (apply Hf; set_solver).
  assert (Hl : 0 <= sumZ f l).
  { clear -Hf. induction l as [|o' l IH]; simpl; [done|].
    assert (0 <= f o') by (apply Hf; set_solver). enough (0 <= sumZ f l) by lia.
    apply IH. set_solver. }
  rewrite (u32_small (f o)) by lia. rewrite u32_small by lia. rewrite IH; [lia|lia| |lia].
  intros o' Ho'. apply Hf. set_solver.
Qed.

(** C6: the 32-bit statistics are exact in every reachable state: the free total is the number of
    free frames, and [buddy_nr_used_pages_total] is the rest of RAM, the kernel image included.
    [total_used_pages] adds the image's [K] frames a second time, so with nothing allocated it
    reports [2 * K]. *)
Theorem pmm_statistics K s : pmm_ok K s ->
  buddy_nr_free_pages_total s = free_pages s /\
  buddy_nr_used_pages_total s = TOTAL_PAGES - free_pages s /\
  K <= buddy_nr_used_pages_total s /\
  buddy_mem_usage_percent s = (TOTAL_PAGES - free_pages s) * 100 / TOTAL_PAGES /\
  total_used_pages s = 2 * K + (TOTAL_PAGES - K - free_pages s).
Proof.
  intros Hok. destruct (pmm_ok_free_range _ _ Hok) as [Hf HK].
  assert (Hfree : buddy_nr_free_pages_total s = free_pages s).
  { unfold buddy_nr_free_pages_total, free_pages.
    assert (E : forall l acc, (forall o, o ∈ l -> 0 <= o) ->
      foldl (fun total order => u32 (total + u32 (free_count s order * Z.shiftl 1 order))) acc l =
      foldl (fun total o => u32 (total + u32 (free_count s o * 2 ^ o))) acc l).
    { induction l as [|o l IH]; intros acc Ho; simpl; [done|].
      rewrite Z.shiftl_1_l. apply IH. set_solver. }
    rewrite E by (intros o ?%elem_of_seqZ; lia). rewrite (u32_sum (fun o => free_count s o * 2 ^ o)); [done|done| |].
    - intros o [Ho1 Ho2]%elem_of_seqZ. unfold NR_ORDERS in *.
      destruct (binv_lists _ _ (ok_inv _ _ Hok) o ltac:(lia)) as (xs & _ & _ & ->).
      pose proof (pow2_pos o Ho1). nia.
    - change (0 + sumZ _ _) with (free_pages s). rewrite TOTAL_PAGES_eq in *. lia. }
  assert (Hused : buddy_nr_used_pages_total s = TOTAL_PAGES - free_pages s).
  { unfold buddy_nr_used_pages_total. rewrite Hfree. rewrite TOTAL_PAGES_eq in *.
    rewrite sub64_small by lia. apply u32_small. lia. }
  split; [done|]. split; [done|]. split; [lia|]. split.
  - unfold buddy_mem_usage_percent. rewrite Hused. rewrite TOTAL_PAGES_eq in *. simpl.
    rewrite (u32_small (_ * 100)) by lia. apply u32_small. lia.
  - unfold total_used_pages. rewrite Hused. destruct (binv_start _ _ (ok_inv _ _ Hok)) as [-> _].
    rewrite (ok_zone _ _ Hok), TOTAL_PAGES_eq, PAGE_SIZE_eq in *. unfold PHYS_MEM_START.
    rewrite sub64_small by lia. rewrite add64_small by lia. lia.
Qed.

Lemma pmm_statistics_witness : exists s, pmm_ok 1024 s /\
  buddy_nr_free_pages_total s = free_pages s /\
  buddy_nr_used_pages_total s = TOTAL_PAGES - free_pages s /\
  1024 <= buddy_nr_used_pages_total s /\
  buddy_mem_usage_percent s = (TOTAL_PAGES - free_pages s) * 100 / TOTAL_PAGES /\
  total_used_pages s = 2 * 1024 + (TOTAL_PAGES - 1024 - free_pages s).
Proof.
  destruct booted as [s Hs]. exists s. pose proof (initialised_ok _ _ Hs) as Hok.
  split; [exact Hok|]. apply (pmm_statistics 1024 s Hok).
Defined.
