(* ===== verification/Sync.v ===== *)
(** Locks ([include/sync/], [kernel/sync/], [arch/arm64/include/asm/spinlock.h]).

    The operations are given twice.  As computations on one lock they are what the other components
    run: a lock that is not free makes the caller spin for ever, which is [NoFuel].  As step
    relations over any number of threads they show what the locks guarantee under every
    interleaving of their atomic steps; the exclusive load/store pair that takes a ticket is one
    step.  Memory barriers and the event instructions order and delay these steps and are not
    modelled; the wait-queue stubs of wait.c do nothing. *)
From S2P Require Import Prelude.

(** ** Ticket spinlock: one lock *)

Record arch_spinlock := ArchSpinlock { lock_next : Z; lock_owner : Z }.
Definition SPIN_LOCK_UNLOCKED : arch_spinlock := ArchSpinlock 0 0.
Definition spin_lock_init : M arch_spinlock unit := modify (fun _ => ArchSpinlock 0 0).

(** Taking a ticket. *)
Definition take_ticket : M arch_spinlock Z :=
  l ← gets id;
  _ ← modify (fun l => ArchSpinlock (u32 (lock_next l + 1)) (lock_owner l));
  mret (lock_next l).

(** With one thread nobody else advances [owner]: the wait ends at once or never. *)
Definition arch_spin_lock : M arch_spinlock unit :=
  ticket ← take_ticket;
  owner ← gets lock_owner;
  if owner =? ticket then mret tt else diverge.

Definition arch_spin_unlock : M arch_spinlock unit :=
  modify (fun l => ArchSpinlock (lock_next l) (u32 (lock_owner l + 1))).

Definition spin_lock := arch_spin_lock.
Definition spin_unlock := arch_spin_unlock.

Definition lock_free (l : arch_spinlock) : Prop := lock_owner l = lock_next l.

(** The interrupt mask: DAIF with its I bit set by [daifset, #2]. *)
Definition DAIF_I : Z := 0x80.
Definition arch_local_irq_save : M Z Z := daif ← gets id; _ ← modify (fun d => Z.lor d DAIF_I); mret daif.
Definition arch_local_irq_restore (flags : Z) : M Z unit := modify (fun _ => flags).
Definition arch_local_irq_enable : M Z unit := modify (fun d => Z.land d (not64 DAIF_I)).
Definition arch_local_irq_disable : M Z unit := modify (fun d => Z.lor d DAIF_I).

(** A lock and the interrupt mask. *)
Record irq_lock := IrqLock { il_lock : arch_spinlock; il_daif : Z }.
Definition on_lock {A} (m : M arch_spinlock A) : M irq_lock A :=
  zoom il_lock (fun l s => IrqLock l (il_daif s)) m.
Definition on_daif {A} (m : M Z A) : M irq_lock A := zoom il_daif (fun d s => IrqLock (il_lock s) d) m.

Definition spin_lock_irqsave : M irq_lock Z :=
  flags ← on_daif arch_local_irq_save; _ ← on_lock arch_spin_lock; mret flags.
Definition spin_unlock_irqrestore (flags : Z) : M irq_lock unit :=
  _ ← on_lock arch_spin_unlock; on_daif (arch_local_irq_restore flags).

Lemma wp_spin_lock Q l :
  lock_free l -> Q tt (ArchSpinlock (u32 (lock_next l + 1)) (lock_owner l)) -> wp arch_spin_lock Q l.
Proof.
  unfold lock_free, arch_spin_lock, take_ticket. intros Hf HQ. wp_steps. simpl.
  replace (lock_owner l =? lock_next l) with true by lia. by apply wp_ret.
Qed.

(** The same with the interrupt mask, on a free lock. *)
Lemma wp_spin_lock_irqsave (Q : Z -> irq_lock -> Prop) s : lock_free (il_lock s) ->
  Q (il_daif s) (IrqLock (ArchSpinlock (u32 (lock_next (il_lock s) + 1)) (lock_owner (il_lock s))) (Z.lor (il_daif s) DAIF_I)) ->
  wp spin_lock_irqsave Q s.
Proof.
  intros Hf HQ. unfold spin_lock_irqsave, on_daif, on_lock, arch_local_irq_save. do 9 wp_step.
  apply wp_spin_lock; [exact Hf|]. wp_step. exact HQ.
Qed.
Lemma wp_spin_unlock_irqrestore flags (Q : unit -> irq_lock -> Prop) s :
  Q tt (IrqLock (ArchSpinlock (lock_next (il_lock s)) (u32 (lock_owner (il_lock s) + 1))) flags) ->
  wp (spin_unlock_irqrestore flags) Q s.
Proof. intros HQ. unfold spin_unlock_irqrestore, on_daif, on_lock, arch_spin_unlock, arch_local_irq_restore. do 5 wp_step. exact HQ. Qed.

(** Lock and unlock leave a free lock free, whatever happens between. *)
Lemma spin_unlock_free l :
  lock_free l -> lock_free (ArchSpinlock (u32 (lock_next l + 1)) (u32 (lock_owner l + 1))).
Proof. unfold lock_free. simpl. by intros ->. Qed.

(** ** Ticket spinlock: any number of threads *)

Inductive phase : Set := Idle | Waiting (ticket : Z) | Holding.

#[export] Instance phase_eq_dec : EqDecision phase.
Proof. solve_decision. Defined.

Record lock_state := LockState { ls_lock : arch_spinlock; ls_threads : list phase }.

Inductive lock_step : lock_state -> lock_state -> Prop :=
| StepTake l ts i :
    ts !! i = Some Idle ->
    lock_step (LockState l ts)
      (LockState (ArchSpinlock (u32 (lock_next l + 1)) (lock_owner l)) (<[i := Waiting (lock_next l)]> ts))
| StepEnter l ts i ticket :
    ts !! i = Some (Waiting ticket) -> lock_owner l = ticket ->
    lock_step (LockState l ts) (LockState l (<[i := Holding]> ts))
| StepRelease l ts i :
    ts !! i = Some Holding ->
    lock_step (LockState l ts)
      (LockState (ArchSpinlock (lock_next l) (u32 (lock_owner l + 1))) (<[i := Idle]> ts)).

Definition lock_start (n : nat) : lock_state := LockState SPIN_LOCK_UNLOCKED (replicate n Idle).

(** The ticket a thread stands for: a holder's is the current owner. *)
Definition ticket_of (owner : Z) (p : phase) : option Z :=
  match p with Idle => None | Waiting t => Some t | Holding => Some owner end.

(** [q] lists the threads in the order they will hold the lock: the tickets outstanding are
    [owner], [owner + 1], ..., [next - 1], and thread [q !! k] has ticket [owner + k]. *)
Record lock_inv (s : lock_state) (q : list nat) : Prop := {
  li_nodup : NoDup q;
  li_range : 0 <= lock_owner (ls_lock s) < 2 ^ 32;
  li_next : lock_next (ls_lock s) = u32 (lock_owner (ls_lock s) + Z.of_nat (length q));
  li_small : Z.of_nat (length (ls_threads s)) < 2 ^ 32;
  li_queue : forall k i, q !! k = Some i -> exists p, ls_threads s !! i = Some p /\
     ticket_of (lock_owner (ls_lock s)) p = Some (u32 (lock_owner (ls_lock s) + Z.of_nat k)) /\
     (p = Holding -> k = 0%nat);
  li_idle : forall i p, ls_threads s !! i = Some p -> p <> Idle -> i ∈ q;
}.

Lemma lock_queue_length s q : lock_inv s q -> Z.of_nat (length q) <= Z.of_nat (length (ls_threads s)).
Proof.
  intros [Hnd _ _ _ Hq _]. assert (Hsub : q ⊆+ seq 0 (length (ls_threads s))).
  { apply NoDup_submseteq; [done|]. intros i Hi. apply list_elem_of_lookup in Hi as [k Hk].
    destruct (Hq k i Hk) as (p & Hp & _). apply lookup_lt_Some in Hp. apply elem_of_seq. lia. }
  apply submseteq_length in Hsub. rewrite length_seq in Hsub. lia.
Qed.

Lemma lock_inv_start n : Z.of_nat n < 2 ^ 32 -> lock_inv (lock_start n) [].
Proof.
  intros Hn. split; simpl; [constructor|lia|done|by rewrite length_replicate|done|].
  intros i p Hp%lookup_replicate. naive_solver.
Qed.

(** A thread that waits or holds is in the queue at the place its ticket says. *)
Lemma lock_inv_at s q i p : lock_inv s q -> ls_threads s !! i = Some p -> p <> Idle ->
  exists k, q !! k = Some i /\ ticket_of (lock_owner (ls_lock s)) p = Some (u32 (lock_owner (ls_lock s) + Z.of_nat k)) /\
    (p = Holding -> k = 0%nat).
Proof.
  intros Hi Hp Hne. pose proof (li_idle _ _ Hi i p Hp Hne) as Hin. apply list_elem_of_lookup in Hin as [k Hk].
  exists k. destruct (li_queue _ _ Hi k i Hk) as (p' & Hp' & Ht & Hh). simplify_eq. done.
Qed.

Lemma lock_inv_step s s' q : lock_inv s q -> lock_step s s' ->
  exists q', lock_inv s' q' /\ (q' = q \/ (exists i, q' = q ++ [i]) \/ exists i, q = i :: q').
Proof.
  intros Hi Hst. pose proof (lock_queue_length _ _ Hi) as Hlen.
  destruct Hst as [l ts i Hti|l ts i t Hti Ht|l ts i Hti]; pose proof Hi as [Hnd Hr Hn Hs Hq Hid]; simpl in *.
  - assert (Hiq : i ∉ q).
    { intros Hin. apply list_elem_of_lookup in Hin as [k Hk]. destruct (Hq k i Hk) as (p & Hp & Htk & _).
      by simplify_eq. }
    exists (q ++ [i]). split; [|right; left; by exists i]. split; simpl.
    + apply NoDup_app. split_and!; [done|set_solver|apply NoDup_singleton].
    + done.
    + rewrite Hn, length_app. simpl. unfold u32. lia.
    + by rewrite length_insert.
    + intros k j Hk. destruct (decide (j = i)) as [->|Hj].
      * exists (Waiting (lock_next l)). rewrite list_lookup_insert_eq by (by eapply lookup_lt_Some).
        assert (k = length q) as ->.
        { apply lookup_snoc_Some in Hk as [[_ Hk]|[-> _]]; [|done].
          destruct Hiq. by eapply list_elem_of_lookup_2. }
        split_and!; [done|simpl; by rewrite Hn|done].
      * apply lookup_snoc_Some in Hk as [[_ Hk]|[_ Hk]]; [|congruence].
        destruct (Hq k j Hk) as (p & Hp & Htk & Hh). exists p. by rewrite list_lookup_insert_ne.
    + intros j p Hj Hp. destruct (decide (j = i)) as [->|Hji]; [set_solver|].
      rewrite list_lookup_insert_ne in Hj by done. apply elem_of_app. left. by eapply Hid.
  - destruct (lock_inv_at _ _ i _ Hi Hti ltac:(done)) as (k & Hk & Htk & _). simpl in *.
    assert (k = 0%nat) as ->.
    { apply lookup_lt_Some in Hk as Hkl. injection Htk as Htk. unfold u32 in Htk. lia. }
    exists q. split; [|by left]. split; simpl; [done|done|done|by rewrite length_insert| |].
    + intros m j Hkj. destruct (decide (j = i)) as [->|Hj].
      * assert (m = 0%nat) as -> by (by eapply NoDup_lookup).
        exists Holding. rewrite list_lookup_insert_eq by (by eapply lookup_lt_Some).
        split_and!; [done|simpl|done]. f_equal. unfold u32. lia.
      * destruct (Hq m j Hkj) as (p & Hp & Htj & Hh). exists p. by rewrite list_lookup_insert_ne.
    + intros j p Hj Hp. destruct (decide (j = i)) as [->|Hji]; [by eapply list_elem_of_lookup_2|].
      rewrite list_lookup_insert_ne in Hj by done. by eapply Hid.
  - destruct (lock_inv_at _ _ i _ Hi Hti ltac:(done)) as (k & Hk & _ & Hk0). simpl in *.
    rewrite (Hk0 eq_refl) in Hk. destruct q as [|i' q]; [done|]. injection Hk as ->.
    apply NoDup_cons in Hnd as [Hiq Hnd].
    exists q. split; [|right; right; by exists i]. split; simpl.
    + done.
    + apply u32_range.
    + rewrite Hn. simpl. unfold u32. lia.
    + by rewrite length_insert.
    + intros m j Hkj. assert (j <> i) by (intros ->; by apply Hiq; eapply list_elem_of_lookup_2).
      destruct (Hq (S m) j Hkj) as (p & Hp & Htj & Hh). exists p. rewrite list_lookup_insert_ne by done.
      split; [done|]. destruct p as [|t|]; [done| |by specialize (Hh eq_refl)].
      split; [|done]. simpl in *. injection Htj as ->. f_equal. unfold u32. lia.
    + intros j p Hj Hp. destruct (decide (j = i)) as [->|Hji].
      * rewrite list_lookup_insert_eq in Hj by (by eapply lookup_lt_Some). congruence.
      * rewrite list_lookup_insert_ne in Hj by done. pose proof (Hid j p Hj Hp). set_solver.
Qed.

Lemma lock_inv_reachable n s : Z.of_nat n < 2 ^ 32 -> rtc lock_step (lock_start n) s -> exists q, lock_inv s q.
Proof.
  intros Hn Hr. assert (Hg : forall s0, rtc lock_step s0 s -> (exists q, lock_inv s0 q) -> exists q, lock_inv s q).
  { clear. induction 1 as [|s0 s1 s2 Hst _ IH]; [done|]. intros [q Hq]. apply IH.
    destruct (lock_inv_step _ _ _ Hq Hst) as (q' & Hq' & _). by exists q'. }
  apply Hg in Hr; [done|]. exists []. by apply lock_inv_start.
Qed.

(** C9: the ticket lock under every interleaving of fewer than [2 ^ 32] threads: at most one thread
    holds it; the threads hold it in the order in which they took their tickets, since every step
    leaves the queue alone, appends a thread or removes the first one; and whenever a thread waits or holds, the
    first thread of the queue can take a step, so the lock never blocks everyone. *)
Theorem ticket_lock_correct n s : Z.of_nat n < 2 ^ 32 -> rtc lock_step (lock_start n) s ->
  (forall i j, ls_threads s !! i = Some Holding -> ls_threads s !! j = Some Holding -> i = j) /\
  exists q, lock_inv s q /\
    (forall s', lock_step s s' -> exists q', lock_inv s' q' /\
       (q' = q \/ (exists i, q' = q ++ [i]) \/ exists i, q = i :: q')) /\
    (forall i q', q = i :: q' -> exists s', lock_step s s' /\
       (ls_threads s !! i = Some Holding /\ ls_threads s' !! i = Some Idle \/
        ls_threads s !! i <> Some Holding /\ ls_threads s' !! i = Some Holding)).
Proof.
  intros Hn Hr. destruct (lock_inv_reachable _ _ Hn Hr) as [q Hq]. split.
  - intros i j Hi Hj.
    destruct (lock_inv_at _ _ i _ Hq Hi ltac:(done)) as (k & Hk & _ & Hk0).
    destruct (lock_inv_at _ _ j _ Hq Hj ltac:(done)) as (m & Hm & _ & Hm0).
    rewrite (Hk0 eq_refl) in Hk. rewrite (Hm0 eq_refl) in Hm. congruence.
  - exists q. split; [done|]. split; [intros s'; by apply lock_inv_step|]. intros i q' ->.
    destruct (li_queue _ _ Hq 0%nat i eq_refl) as (p & Hp & Ht & _). destruct s as [l ts]. simpl in *.
    destruct p as [|t|]; [done| |].
    + eexists. split.
      * eapply StepEnter; [done|]. injection Ht as ->. pose proof (li_range _ _ Hq). simpl in *.
        rewrite Z.add_0_r. symmetry. by apply u32_small.
      * right. split; [congruence|]. simpl. apply list_lookup_insert_eq. by eapply lookup_lt_Some.
    + eexists. split; [by eapply StepRelease|]. left. split; [done|]. simpl.
      apply list_lookup_insert_eq. by eapply lookup_lt_Some.
Qed.

Lemma ticket_lock_correct_witness : Z.of_nat 2 < 2 ^ 32 /\
  exists s, rtc lock_step (lock_start 2) s /\ ls_threads s = [Holding; Waiting 1] /\
    forall i j, ls_threads s !! i = Some Holding -> ls_threads s !! j = Some Holding -> i = j.
Proof.
  assert (Hn : Z.of_nat 2 < 2 ^ 32) by lia. split; [exact Hn|].
  exists (LockState (ArchSpinlock 2 0) [Holding; Waiting 1]).
  assert (Hr : rtc lock_step (lock_start 2) (LockState (ArchSpinlock 2 0) [Holding; Waiting 1])).
  { eapply rtc_l; [exact (StepTake (ArchSpinlock 0 0) [Idle; Idle] 0 eq_refl)|].
    eapply rtc_l; [exact (StepTake (ArchSpinlock 1 0) [Waiting 0; Idle] 1 eq_refl)|].
    eapply rtc_l; [exact (StepEnter (ArchSpinlock 2 0) [Waiting 0; Waiting 1] 0 0 eq_refl eq_refl)|].
    apply rtc_refl. }
  split; [exact Hr|]. split; [reflexivity|].
  exact (proj1 (ticket_lock_correct 2 _ Hn Hr)).
Defined.

(** ** Reader-writer semaphore ([kernel/sync/rwsem.c])

    The count holds the readers in its low half and the writer in its high half.  A critical
    section under the semaphore's spinlock is one step; [None] means the caller unlocks and
    tries again. *)
Definition down_read_try (count : Z) : option Z :=
  if negb (Z.land (u32 count) 0xFFFF0000 =? 0) then None else Some (s32 (count + 1)).
Definition up_read_count (count : Z) : Z := s32 (count - 1).
Definition down_write_try (count : Z) : option Z :=
  let new_count := s32 (count + 0x10000) in
  if negb (new_count =? 0x10000) then None else Some new_count.
Definition up_write_count (count : Z) : Z := s32 (count - 0x10000).

Record rw_semaphore := RwSemaphore { rw_count : Z; rw_lock : arch_spinlock }.
Definition on_rw_lock {A} (m : M arch_spinlock A) : M rw_semaphore A :=
  zoom rw_lock (fun l s => RwSemaphore (rw_count s) l) m.
Definition set_count (c : Z) : M rw_semaphore unit := modify (fun s => RwSemaphore c (rw_lock s)).

(** Run by one thread, a [down] that has to wait never returns. *)
Definition down_with (try : Z -> option Z) : M rw_semaphore unit :=
  _ ← on_rw_lock spin_lock;
  count ← gets rw_count;
  match try count with
  | None => diverge
  | Some c => _ ← set_count c; on_rw_lock spin_unlock
  end.
Definition up_with (f : Z -> Z) : M rw_semaphore unit :=
  _ ← on_rw_lock spin_lock;
  count ← gets rw_count;
  _ ← set_count (f count);
  on_rw_lock spin_unlock.

Definition down_read := down_with down_read_try.
Definition up_read := up_with up_read_count.
Definition down_write := down_with down_write_try.
Definition up_write := up_with up_write_count.

Inductive rw_phase : Set := RwIdle | Reading | Writing.

#[export] Instance rw_phase_eq_dec : EqDecision rw_phase.
Proof. solve_decision. Defined.

Record rw_state := RwState { rs_count : Z; rs_threads : list rw_phase }.

Inductive rw_step : rw_state -> rw_state -> Prop :=
| StepDownRead c c' ts i : ts !! i = Some RwIdle -> down_read_try c = Some c' ->
    rw_step (RwState c ts) (RwState c' (<[i := Reading]> ts))
| StepUpRead c ts i : ts !! i = Some Reading ->
    rw_step (RwState c ts) (RwState (up_read_count c) (<[i := RwIdle]> ts))
| StepDownWrite c c' ts i : ts !! i = Some RwIdle -> down_write_try c = Some c' ->
    rw_step (RwState c ts) (RwState c' (<[i := Writing]> ts))
| StepUpWrite c ts i : ts !! i = Some Writing ->
    rw_step (RwState c ts) (RwState (up_write_count c) (<[i := RwIdle]> ts)).

Definition weight (p : rw_phase) : Z := match p with RwIdle => 0 | Reading => 1 | Writing => 0x10000 end.
Definition total (ts : list rw_phase) : Z := foldr (fun p acc => weight p + acc) 0 ts.

Lemma total_insert ts i p p' : ts !! i = Some p -> total (<[i := p']> ts) = total ts - weight p + weight p'.
Proof.
  revert i. induction ts as [|q ts IH]; intros [|i]; simpl; try done.
  - intros [= ->]. lia.
  - intros Hi. rewrite (IH i Hi). lia.
Qed.

Lemma total_nonneg ts : 0 <= total ts.
Proof. induction ts as [|[] ts IH]; simpl; lia. Qed.

Lemma total_lookup ts i p : ts !! i = Some p -> weight p <= total ts.
Proof.
  intros Hi. pose proof (total_insert ts i p RwIdle Hi) as E. pose proof (total_nonneg (<[i := RwIdle]> ts)).
  simpl in E. lia.
Qed.

Lemma total_readers ts : (forall i, ts !! i <> Some Writing) -> total ts <= Z.of_nat (length ts).
Proof.
  induction ts as [|p ts IH]; intros Hw; simpl; [lia|].
  assert (total ts <= Z.of_nat (length ts)) by (apply IH; intros i; apply (Hw (S i))).
  destruct p; simpl; [lia|lia|]. by destruct (Hw 0%nat).
Qed.

Lemma high_half c : 0 <= c < 2 ^ 31 -> (Z.land (u32 c) 0xFFFF0000 =? 0) = (c <? 0x10000).
Proof.
  intros Hc. rewrite u32_small by lia. apply eq_true_iff_eq. rewrite Z.eqb_eq, Z.ltb_lt.
  change 0xFFFF0000 with (Z.shiftl (Z.ones 16) 16).
  assert (E : Z.land c (Z.shiftl (Z.ones 16) 16) = Z.shiftl (Z.land (Z.shiftr c 16) (Z.ones 16)) 16).
  { apply Z.bits_inj'. intros i Hi. rewrite Z.land_spec. destruct (Z_lt_le_dec i 16).
    - rewrite !Z.shiftl_spec_low by lia. by rewrite andb_false_r.
    - rewrite !Z.shiftl_spec by lia. rewrite Z.land_spec, Z.shiftr_spec by lia.
      by replace (i - 16 + 16) with i by lia. }
  rewrite E, Z.land_ones, Z.shiftl_mul_pow2, Z.shiftr_div_pow2 by lia. lia.
Qed.

(** A writer is alone. *)
Definition rw_exclusive (ts : list rw_phase) : Prop :=
  forall i j p, ts !! i = Some Writing -> ts !! j = Some p -> p <> RwIdle -> i = j.

Record rw_inv (s : rw_state) : Prop := {
  rw_small : Z.of_nat (length (rs_threads s)) < 0x10000;
  rw_total : rs_count s = total (rs_threads s);
  rw_excl : rw_exclusive (rs_threads s);
}.

Lemma rw_count_bound s : rw_inv s -> 0 <= rs_count s <= 0x10000.
Proof.
  intros [Hs Ht He]. rewrite Ht. split; [apply total_nonneg|].
  destruct (decide (Writing ∈ rs_threads s)) as [[i Hi]%list_elem_of_lookup|Hn].
  - pose proof (total_insert _ _ _ RwIdle Hi) as E. simpl in E.
    enough (total (<[i := RwIdle]> (rs_threads s)) <= 0) by lia.
    assert (Hall : forall j p, <[i := RwIdle]> (rs_threads s) !! j = Some p -> p = RwIdle).
    { intros j p Hj. destruct (decide (j = i)) as [->|Hne].
      - rewrite list_lookup_insert_eq in Hj by (by eapply lookup_lt_Some). congruence.
      - rewrite list_lookup_insert_ne in Hj by done. destruct p; [done| |].
        + destruct Hne. symmetry. by eapply (He i j Reading).
        + destruct Hne. symmetry. by eapply (He i j Writing). }
    revert Hall. generalize (<[i := RwIdle]> (rs_threads s)). intros ts. clear.
    induction ts as [|p ts IH]; intros Hall; simpl; [lia|].
    rewrite (Hall 0%nat p eq_refl). simpl. apply IH. intros j q Hj. by apply (Hall (S j)).
  - pose proof (total_readers (rs_threads s)). enough (total (rs_threads s) <= Z.of_nat (length (rs_threads s))) by lia.
    apply H. intros i Hi. apply Hn. by eapply list_elem_of_lookup_2.
Qed.

Lemma excl_acquire_read ts i : (forall j, ts !! j <> Some Writing) -> rw_exclusive (<[i := Reading]> ts).
Proof.
  intros Hw a b p Ha _ _. exfalso. destruct (decide (a = i)) as [->|Hne].
  - apply list_lookup_insert_Some in Ha as [(_ & ? & _)|[? _]]; done.
  - rewrite list_lookup_insert_ne in Ha by done. by apply (Hw a).
Qed.

Lemma excl_release ts i : rw_exclusive ts -> rw_exclusive (<[i := RwIdle]> ts).
Proof.
  intros He a b p Ha Hb Hp.
  apply list_lookup_insert_Some in Ha as [(_ & ? & _)|[? Ha]]; [done|].
  apply list_lookup_insert_Some in Hb as [(_ & ? & _)|[? Hb]]; [congruence|]. by eapply He.
Qed.

Lemma rw_inv_step s s' : rw_inv s -> rw_step s s' -> rw_inv s'.
Proof.
  intros Hi Hst. pose proof (rw_count_bound _ Hi) as Hb.
  destruct Hst as [c c' ts i Hti Ht|c ts i Hti|c c' ts i Hti Ht|c ts i Hti];
    destruct Hi as [Hs Htot He]; simpl in *.
  - unfold down_read_try in Ht. rewrite high_half in Ht by lia. case_match eqn:E; [done|].
    apply negb_false_iff, Z.ltb_lt in E. injection Ht as <-.
    assert (Hw : forall j, ts !! j <> Some Writing).
    { intros j Hj. pose proof (total_lookup ts j Writing Hj). simpl in *. lia. }
    split; simpl; [by rewrite length_insert| |by apply excl_acquire_read].
    rewrite (total_insert _ _ _ _ Hti). simpl. unfold s32. rewrite u32_small by lia.
    replace (c + 1 <? 2 ^ 31) with true by lia. lia.
  - pose proof (total_lookup ts i Reading Hti). simpl in *.
    split; simpl; [by rewrite length_insert| |by apply excl_release].
    rewrite (total_insert _ _ _ _ Hti). simpl. unfold up_read_count, s32. rewrite u32_small by lia.
    replace (c - 1 <? 2 ^ 31) with true by lia. lia.
  - unfold down_write_try in Ht. case_match eqn:E; [done|]. apply negb_false_iff, Z.eqb_eq in E.
    injection Ht as <-. rewrite E. unfold s32 in E. rewrite u32_small in E by lia.
    replace (c + 65536 <? 2 ^ 31) with true in E by lia. assert (c = 0) as -> by lia.
    assert (Hidle : forall j p, ts !! j = Some p -> p = RwIdle).
    { intros j p Hj. pose proof (total_lookup ts j p Hj). destruct p; simpl in *; [done|lia|lia]. }
    split; simpl; [by rewrite length_insert| |].
    + rewrite (total_insert _ _ _ _ Hti). simpl. lia.
    + intros a b p Ha Hb' Hp.
      apply list_lookup_insert_Some in Ha as [(<- & _ & _)|[_ Ha]]; [|by apply Hidle in Ha].
      apply list_lookup_insert_Some in Hb' as [(<- & _ & _)|[_ Hb']]; [done|]. by apply Hidle in Hb'.
  - pose proof (total_lookup ts i Writing Hti). simpl in *.
    split; simpl; [by rewrite length_insert| |by apply excl_release].
    rewrite (total_insert _ _ _ _ Hti). simpl. unfold up_write_count, s32. rewrite u32_small by lia.
    replace (c - 65536 <? 2 ^ 31) with true by lia. lia.
Qed.

(** C10: the reader-writer semaphore under every interleaving of fewer than 65536 threads: a thread
    that writes is the only one inside, the count is the number of readers plus 0x10000 for a
    writer, and when nobody is inside both a reader and a writer can enter. *)
Theorem rwsem_exclusion n s : Z.of_nat n < 0x10000 ->
  rtc rw_step (RwState 0 (replicate n RwIdle)) s ->
  rw_exclusive (rs_threads s) /\ rs_count s = total (rs_threads s) /\
  (rs_count s = 0 -> down_read_try (rs_count s) = Some 1 /\ down_write_try (rs_count s) = Some 0x10000).
Proof.
  intros Hn Hr.
  assert (Hg : forall s0, rtc rw_step s0 s -> rw_inv s0 -> rw_inv s).
  { clear. induction 1 as [|s0 s1 s2 Hst _ IH]; [done|]. intros Hi. apply IH. by eapply rw_inv_step. }
  destruct (Hg _ Hr) as [_ Ht He].
  - split; simpl; [by rewrite length_replicate| |].
    + clear. induction n; simpl; [done|lia].
    + intros i j p Hi%lookup_replicate. naive_solver.
  - split; [done|]. split; [done|]. intros ->. done.
Qed.

Lemma rwsem_exclusion_witness : Z.of_nat 3 < 0x10000 /\
  exists s, rtc rw_step (RwState 0 (replicate 3 RwIdle)) s /\ rs_threads s = [Reading; RwIdle; Reading] /\
    rw_exclusive (rs_threads s).
Proof.
  assert (Hn : Z.of_nat 3 < 0x10000) by lia. split; [exact Hn|].
  exists (RwState 2 [Reading; RwIdle; Reading]).
  assert (Hr : rtc rw_step (RwState 0 (replicate 3 RwIdle)) (RwState 2 [Reading; RwIdle; Reading])).
  { eapply rtc_l; [exact (StepDownRead 0 1 [RwIdle; RwIdle; RwIdle] 0 eq_refl eq_refl)|].
    eapply rtc_l; [exact (StepDownRead 1 2 [Reading; RwIdle; RwIdle] 2 eq_refl eq_refl)|].
    apply rtc_refl. }
  split; [exact Hr|]. split; [reflexivity|]. exact (proj1 (rwsem_exclusion 3 _ Hn Hr)).
Defined.

(** ** Sequence lock ([include/sync/seqlock.h]) *)

Record seqlock := Seqlock { sequence : Z; seq_lock : arch_spinlock }.
Definition on_seq_lock {A} (m : M arch_spinlock A) : M seqlock A :=
  zoom seq_lock (fun l s => Seqlock (sequence s) l) m.
Definition bump_sequence : M seqlock unit := modify (fun s => Seqlock (u32 (sequence s + 1)) (seq_lock s)).

Definition write_seqlock : M seqlock unit := _ ← on_seq_lock spin_lock; bump_sequence.
Definition write_sequnlock : M seqlock unit := _ ← bump_sequence; on_seq_lock spin_unlock.
Definition read_seqbegin (sl : seqlock) : Z := sequence sl.
Definition read_seqretry (sl : seqlock) (seq : Z) : bool := negb (seq =? sequence sl).

(** ** Completions, wait queues and RCU: the stubs ([kernel/sync/*.c]) *)

Record completion := Completion { comp_done : Z }.
Definition init_completion : M completion unit := modify (fun _ => Completion 0).
(** The branch for an unfinished completion is empty: nothing waits. *)
Definition wait_for_completion : M completion unit :=
  done ← gets comp_done;
  _ ← (if done =? 0 then mret tt else mret tt : M completion unit);
  modify (fun _ => Completion 0).
Definition wake_up {S} : M S unit := mret tt.
Definition wake_up_all {S} : M S unit := mret tt.
Definition add_wait_queue {S} : M S unit := mret tt.
Definition remove_wait_queue {S} : M S unit := mret tt.
Definition complete : M completion unit := _ ← modify (fun _ => Completion 1); wake_up.
(** A barrier. *)
Definition synchronize_rcu {S} : M S unit := mret tt.

(** A read section that overlaps the start or the end of a write section is retried, and an
    undisturbed one is not.  A read section that lies wholly inside the write section is not
    retried either, although the sequence number is odd then (the comment in read_seqretry says it
    is): the test only compares the two numbers. *)
Theorem seqlock_window sl : lock_free (seq_lock sl) -> is_u32 (sequence sl) ->
  exists sl1 sl2, write_seqlock sl = Done (tt, sl1) /\ write_sequnlock sl1 = Done (tt, sl2) /\
    lock_free (seq_lock sl2) /\
    Z.odd (sequence sl1) = negb (Z.odd (sequence sl)) /\ Z.odd (sequence sl2) = Z.odd (sequence sl) /\
    read_seqretry sl (read_seqbegin sl) = false /\
    read_seqretry sl1 (read_seqbegin sl) = true /\
    read_seqretry sl2 (read_seqbegin sl) = true /\
    read_seqretry sl2 (read_seqbegin sl1) = true /\
    read_seqretry sl1 (read_seqbegin sl1) = false.
Proof.
  intros Hf Hu.
  assert (Hwp : wp write_seqlock (fun _ sl1 => sl1 = Seqlock (u32 (sequence sl + 1))
    (ArchSpinlock (u32 (lock_next (seq_lock sl) + 1)) (lock_owner (seq_lock sl)))) sl).
  { unfold write_seqlock, on_seq_lock, bump_sequence. wp_step. apply wp_zoom, wp_spin_lock; [done|].
    by wp_step. }
  apply wp_done in Hwp as ([] & sl1 & H1 & ->). do 2 eexists. split; [exact H1|]. split; [reflexivity|].
  simpl. split; [by apply spin_unlock_free|]. unfold read_seqretry, read_seqbegin. simpl.
  rewrite !Z.eqb_refl. unfold is_u32, u32 in *.
  assert (Hodd : forall z, Z.odd (z mod 2 ^ 32) = Z.odd z).
  { intros z. rewrite <- !Z.bit0_odd. apply Z.mod_pow2_bits_low. lia. }
  rewrite !Hodd, !Z.odd_add, !Hodd, !Z.odd_add. split; [by destruct (Z.odd _)|].
  split; [by destruct (Z.odd _)|]. split; [done|]. split; [lia|]. split; [lia|]. split; [lia|done].
Qed.

Lemma seqlock_window_witness :
  lock_free (seq_lock (Seqlock 4 SPIN_LOCK_UNLOCKED)) /\ is_u32 (sequence (Seqlock 4 SPIN_LOCK_UNLOCKED)) /\
  exists sl1 sl2, write_seqlock (Seqlock 4 SPIN_LOCK_UNLOCKED) = Done (tt, sl1) /\
    write_sequnlock sl1 = Done (tt, sl2) /\ read_seqretry sl1 (read_seqbegin sl1) = false.
Proof.
  assert (Hf : lock_free (seq_lock (Seqlock 4 SPIN_LOCK_UNLOCKED))) by reflexivity.
  assert (Hu : is_u32 (sequence (Seqlock 4 SPIN_LOCK_UNLOCKED))) by (unfold is_u32; simpl; lia).
  split; [exact Hf|]. split; [exact Hu|].
  destruct (seqlock_window _ Hf Hu) as (sl1 & sl2 & H1 & H2 & _ & _ & _ & _ & _ & _ & _ & H3).
  exists sl1, sl2. split; [exact H1|]. split; [exact H2|exact H3].
Defined.
