(* ===== verification/Printk.v ===== *)
(** Kernel messages ([kernel/printk.c], [include/printk.h]).

    Strings live in the byte memory of [Libc]; what is passed to [uart_putc] and [uart_puts] is
    appended to [pk_out] (the translation of line ends is the UART driver's).  A [va_list] is the
    list of the 64-bit argument slots, and taking more arguments than were passed is undefined, as
    is signed overflow. *)
From S2P Require Import Prelude Sync Libc.

Record console := Console { pk_lock : arch_spinlock; pk_daif : Z; pk_mem : bmem; pk_out : list Z }.

Definition on_pk_lock {A} (m : M irq_lock A) : M console A :=
  zoom (fun s => IrqLock (pk_lock s) (pk_daif s))
       (fun il s => Console (il_lock il) (il_daif il) (pk_mem s) (pk_out s)) m.
Definition byte_at (p : Z) : M console Z := m ← gets pk_mem; of_option (m !! p).
Definition emit (l : list Z) : M console unit :=
  modify (fun s => Console (pk_lock s) (pk_daif s) (pk_mem s) (pk_out s ++ l)).

Definition PF_SIGNED : Z := Z.shiftl 1 0.
Definition PF_HEX_UPPER : Z := Z.shiftl 1 1.
Definition PF_ALT_FORM : Z := Z.shiftl 1 2.
Definition PF_ZERO_PAD : Z := Z.shiftl 1 3.
Definition PF_LEFT_JUST : Z := Z.shiftl 1 4.
Definition has (flags f : Z) : bool := negb (Z.land flags f =? 0).

Definition print_char (c : Z) : M console unit := emit [u8 c].

Definition walk_str {A B} (body : A -> M console (A + B)) (a : A) : M console B :=
  n ← gets (fun s => size (pk_mem s)); loop (S n) body a.

Definition print_str (s : Z) : M console unit :=
  walk_str (fun s =>
    c ← byte_at s;
    if c =? 0 then mret (inr tt) else _ ← emit [c]; mret (inl (s + 1))) s.

(** Division of a 64-bit number by the base: at most 64 rounds. *)
Definition num_digits (num base : Z) : M console Z :=
  if num =? 0 then mret 1 else
  loop 65 (fun st : Z * Z =>
    let '(num, digits) := st in
    if num >? 0 then mret (inl (num / base, digits + 1)) else mret (inr digits)) (num, 0).

Definition hex_lower : list Z := bytes "0123456789abcdef".
Definition hex_upper : list Z := bytes "0123456789ABCDEF".

(** [while (pad_len--) print_char(c)] when [pad_len > 0]; [pad_len] is then -1. *)
Definition pad_with (c pad_len : Z) : M console unit := for_n (Z.to_nat pad_len) 0 (fun _ => emit [c]).

(** The digits, least significant first: [buf] is filled upwards and printed downwards. *)
Definition fill_digits (digits : list Z) (num base : Z) : M console (list Z) :=
  loop 65 (fun st : Z * list Z =>
    let '(num, buf) := st in
    if num >? 0 then
      _ ← guard_ub (Z.of_nat (length buf) <? 64);
      d ← of_option (digits !! Z.to_nat (num mod base));
      mret (inl (num / base, d :: buf))
    else mret (inr buf)) (num, []).

Definition print_prefix (base flags pad_len : Z) : M console Z :=
  if has flags PF_ALT_FORM then
    if base =? 16 then _ ← emit (bytes (if has flags PF_HEX_UPPER then "0X" else "0x")); mret (pad_len - 2)
    else if base =? 8 then _ ← emit [48]; mret (pad_len - 1)
    else if base =? 2 then _ ← emit (bytes "0b"); mret (pad_len - 2)
    else mret pad_len
  else mret pad_len.

Definition print_num (num base width flags : Z) : M console unit :=
  let digits := if has flags PF_HEX_UPPER then hex_upper else hex_lower in
  let is_neg := has flags PF_SIGNED && (s64 num <? 0) in
  _ ← guard_ub (negb (is_neg && (s64 num =? - 2 ^ 63)));
  let num := if is_neg then - s64 num else num in
  ndigits ← num_digits num base;
  let pad_len := width - ndigits in
  let pad_len := if is_neg then pad_len - 1 else pad_len in
  pad_len ← print_prefix base flags pad_len;
  pad_len ← (if negb (has flags PF_LEFT_JUST) && negb (has flags PF_ZERO_PAD) && (pad_len >? 0)
             then _ ← pad_with 32 pad_len; mret (-1) else mret pad_len);
  _ ← (if is_neg : bool then emit [45] else mret tt);
  pad_len ← (if has flags PF_ZERO_PAD && (pad_len >? 0)
             then _ ← pad_with 48 pad_len; mret (-1) else mret pad_len);
  _ ← (if num =? 0 then emit [48] else buf ← fill_digits digits num base; emit buf);
  if has flags PF_LEFT_JUST && (pad_len >? 0) then pad_with 32 pad_len else mret tt.

(** ** Formats *)

Definition va_arg (args : list Z) : M console (Z * list Z) :=
  match args with a :: rest => mret (a, rest) | [] => undef end.

(** [-], [+], [0] and [#]. *)
Definition parse_flags (fmt : Z) : M console (Z * Z) :=
  walk_str (fun st : Z * Z =>
    let '(fmt, flags) := st in
    c ← byte_at fmt;
    if c =? 45 then mret (inl (fmt + 1, Z.lor flags PF_LEFT_JUST)) else
    if c =? 43 then mret (inl (fmt + 1, Z.lor flags PF_SIGNED)) else
    if c =? 48 then mret (inl (fmt + 1, Z.lor flags PF_ZERO_PAD)) else
    if c =? 35 then mret (inl (fmt + 1, Z.lor flags PF_ALT_FORM)) else
    mret (inr (fmt, flags))) (fmt, 0).

Definition parse_width (fmt : Z) : M console (Z * Z) :=
  walk_str (fun st : Z * Z =>
    let '(fmt, width) := st in
    c ← byte_at fmt;
    if (48 <=? c) && (c <=? 57) then
      let width := width * 10 + (c - 48) in
      _ ← guard_ub (width <? 2 ^ 31);
      mret (inl (fmt + 1, width))
    else mret (inr (fmt, width))) (fmt, 0).

Definition parse_long (fmt : Z) : M console (Z * Z) :=
  c ← byte_at fmt;
  if c =? 108 then
    c ← byte_at (fmt + 1);
    if c =? 108 then mret (fmt + 2, 2) else mret (fmt + 1, 1)
  else mret (fmt, 0).

(** The unsigned conversions; [is_long] selects 64 or 32 bits of the argument. *)
Definition print_unsigned (args : list Z) (is_long base width flags : Z) : M console (list Z) :=
  a ← va_arg args;
  _ ← print_num (if 1 <=? is_long then a.1 else u32 a.1) base width flags;
  mret a.2.

(** The [switch] on the conversion character; the result is the pointer to the last character used
    and the remaining arguments. *)
Definition convert (fmt : Z) (args : list Z) (is_long width flags : Z) : M console (Z * list Z) :=
  c ← byte_at fmt;
  if c =? 115 then (* s *)
    a ← va_arg args;
    _ ← (if a.1 =? 0 then emit (bytes "(null)") else print_str a.1);
    mret (fmt, a.2)
  else if c =? 99 then (* c *)
    a ← va_arg args; _ ← print_char a.1; mret (fmt, a.2)
  else if (c =? 100) || (c =? 105) then (* d, i *)
    a ← va_arg args;
    let num := if 1 <=? is_long then a.1 else u64 (s32 a.1) in
    _ ← print_num num 10 width (Z.lor flags PF_SIGNED);
    mret (fmt, a.2)
  else if c =? 117 then (* u *)
    rest ← print_unsigned args is_long 10 width flags; mret (fmt, rest)
  else if c =? 120 then (* x *)
    rest ← print_unsigned args is_long 16 width flags; mret (fmt, rest)
  else if c =? 88 then (* X *)
    rest ← print_unsigned args is_long 16 width (Z.lor flags PF_HEX_UPPER); mret (fmt, rest)
  else if c =? 111 then (* o *)
    rest ← print_unsigned args is_long 8 width flags; mret (fmt, rest)
  else if c =? 98 then (* b *)
    rest ← print_unsigned args is_long 2 width flags; mret (fmt, rest)
  else if c =? 112 then (* p *)
    rest ← print_unsigned args 1 16 (if width =? 0 then 16 else width) (Z.lor flags PF_ALT_FORM);
    mret (fmt, rest)
  else if c =? 122 then (* z *)
    c ← byte_at (fmt + 1);
    if c =? 117 then rest ← print_unsigned args 1 10 width flags; mret (fmt + 1, rest)
    else if c =? 120 then rest ← print_unsigned args 1 16 width flags; mret (fmt + 1, rest)
    else mret (fmt + 1, args)
  else if c =? 37 then _ ← emit [37]; mret (fmt, args)
  else
    _ ← emit [37];
    _ ← (if negb (c =? 0) then emit [c] else mret tt);
    mret (fmt, args).

(** One round of the loop over the format. *)
Definition format_step (fmt : Z) (args : list Z) : M console (Z * list Z) :=
  c ← byte_at fmt;
  if c =? 37 then
    '(fmt, flags) ← parse_flags (fmt + 1);
    '(fmt, width) ← parse_width fmt;
    '(fmt, is_long) ← parse_long fmt;
    convert fmt args is_long width flags
  else _ ← emit [c]; mret (fmt, args).

Definition vprintk (fmt : Z) (args : list Z) : M console unit :=
  irq_flags ← on_pk_lock spin_lock_irqsave;
  _ ← walk_str (fun st : Z * list Z =>
        let '(fmt, args) := st in
        c ← byte_at fmt;
        if c =? 0 then mret (inr tt) else
        '(fmt, args) ← format_step fmt args;
        mret (inl (fmt + 1, args))) (fmt, args);
  on_pk_lock (spin_unlock_irqrestore irq_flags).

Definition printk (fmt : Z) (args : list Z) : M console unit := vprintk fmt args.

(** [panic] prints and then loops forever. *)
Definition panic (fmt : Z) (args : list Z) : M console unit :=
  _ ← emit ([10] ++ bytes "[PANIC] ");
  _ ← vprintk fmt args;
  _ ← emit ([10] ++ bytes "Kernel halted." ++ [10]);
  diverge.

(** [c_print_str] of libc.c; [fmt_s] is the address of its constant [%s]. *)
Definition c_print_str (fmt_s s : Z) : M console unit := printk fmt_s [s].
