(* ===== verification/PrintkTheory.v ===== *)
(** What kernel messages look like ([kernel/printk.c]): the layout and digits of a number
    ([print_num_correct]) and the text of a whole format against a grammar of directives
    ([printk_correct]). *)
From S2P Require Import Prelude Sync Libc Printk.

(** ** Digits *)

(** The digits of [n] in base [b], most significant first, 0 having none: a reference
    definition on numbers. *)
Fixpoint digits_of (fuel : nat) (b n : Z) : list Z :=
  match fuel with
  | O => []
  | S fuel' => if n >? 0 then digits_of fuel' b (n / b) ++ [n mod b] else []
  end.

(** The number a list of digits stands for. *)
Definition value_of (b : Z) (l : list Z) : Z := fold_left (fun v d => v * b + d) l 0.

Lemma value_of_app b l d : value_of b (l ++ [d]) = value_of b l * b + d.
Proof. unfold value_of. by rewrite fold_left_app. Qed.

Lemma div_pow b n k : 1 < b -> 0 < n < b ^ Z.of_nat (S k) -> 0 <= n / b < b ^ Z.of_nat k.
Proof.
  intros Hb Hn. rewrite Nat2Z.inj_succ, Z.pow_succ_r in Hn by lia.
  split; [apply Z.div_pos; lia|]. apply Z.div_lt_upper_bound; lia.
Qed.

Lemma digits_of_value fuel b n : 1 < b -> 0 <= n < b ^ Z.of_nat fuel -> value_of b (digits_of fuel b n) = n.
Proof.
  intros Hb. revert n. induction fuel as [|k IH]; intros n Hn; cbn [digits_of].
  - change (b ^ Z.of_nat 0) with 1 in Hn. cbn. lia.
  - destruct (n >? 0) eqn:E.
    + assert (Hn0 : 0 < n < b ^ Z.of_nat (S k)) by lia.
      rewrite value_of_app, IH by (by apply div_pow). rewrite (Z.div_mod n b) at 3 by lia. lia.
    + cbn. lia.
Qed.

Lemma digits_of_bound fuel b n d : 1 < b -> d ∈ digits_of fuel b n -> 0 <= d < b.
Proof.
  intros Hb. revert n. induction fuel as [|k IH]; intros n; cbn [digits_of]; [by intros ?%not_elem_of_nil|].
  destruct (n >? 0); [|by intros ?%not_elem_of_nil].
  rewrite elem_of_app, list_elem_of_singleton. intros [Hd| ->]; [by eapply IH|apply Z.mod_pos_bound; lia].
Qed.

Lemma digits_of_head fuel b n : 1 < b -> 0 < n < b ^ Z.of_nat fuel -> exists d l, digits_of fuel b n = d :: l /\ 0 < d.
Proof.
  intros Hb. revert n. induction fuel as [|k IH]; intros n Hn; cbn [digits_of].
  - change (b ^ Z.of_nat 0) with 1 in Hn. lia.
  - rewrite (proj2 (Z.gtb_lt n 0)) by lia. pose proof (div_pow b n k Hb Hn) as Hd.
    destruct (decide (n / b = 0)) as [E|E].
    + exists (n mod b), []. assert (digits_of k b (n / b) = []) as -> by (rewrite E; by destruct k).
      split; [done|]. pose proof (Z.div_mod n b ltac:(lia)). lia.
    + destruct (IH (n / b) ltac:(lia)) as (d & l & -> & Hd0). by exists d, (l ++ [n mod b]).
Qed.

(** Enough fuel: one digit per bit. *)
Definition numeral_digits (b n : Z) : list Z := if n =? 0 then [0] else digits_of 64 b n.

Lemma base_pow b k : 2 <= b -> 2 ^ Z.of_nat k <= b ^ Z.of_nat k.
Proof. intros. apply Z.pow_le_mono_l. lia. Qed.

(** ** The loops *)

Definition with_out (l : list Z) (s : console) : console := Console (pk_lock s) (pk_daif s) (pk_mem s) (pk_out s ++ l).

Lemma with_out_app a b s : with_out b (with_out a s) = with_out (a ++ b) s.
Proof. unfold with_out. cbn. by rewrite app_assoc. Qed.
Lemma with_out_nil s : with_out [] s = s.
Proof. destruct s. unfold with_out. cbn. by rewrite app_nil_r. Qed.
Lemma wp_emit l (Q : unit -> console -> Prop) s : Q tt (with_out l s) -> wp (emit l) Q s.
Proof. done. Qed.

Lemma wp_count_digits b fuel n k (Q : Z -> console -> Prop) s : 2 <= b -> 0 <= n < b ^ Z.of_nat fuel ->
  Q (k + Z.of_nat (length (digits_of fuel b n))) s ->
  wp (loop (S fuel) (fun st : Z * Z =>
    let '(num, digits) := st in
    if num >? 0 then mret (inl (num / b, digits + 1)) else mret (inr digits)) (n, k)) Q s.
Proof.
  intros Hb. revert n k. induction fuel as [|f IH]; intros n k Hn HQ; cbn [loop]; wp_step.
  - change (b ^ Z.of_nat 0) with 1 in Hn. assert (n = 0) as -> by lia.
    cbn [digits_of length] in HQ. rewrite Z.add_0_r in HQ. change (0 >? 0) with false. cbn iota. by do 2 wp_step.
  - cbn [digits_of] in HQ. destruct (n >? 0) eqn:E; wp_step.
    + apply IH; [apply div_pow; lia|]. rewrite length_app in HQ. cbn [length] in HQ.
      by replace (k + 1 + Z.of_nat (length (digits_of f b (n / b)))) with
        (k + Z.of_nat (length (digits_of f b (n / b)) + 1)) by lia.
    + cbn [length] in HQ. wp_step. by rewrite Z.add_0_r in HQ.
Qed.

Lemma u64_pow b n : 2 <= b -> 0 <= n < 2 ^ 64 -> 0 <= n < b ^ Z.of_nat 64.
Proof. intros Hb Hn. pose proof (base_pow b 64 Hb). change (2 ^ Z.of_nat 64) with (2 ^ 64) in *. lia. Qed.

Lemma wp_num_digits b n Q s : 2 <= b -> 0 <= n < 2 ^ 64 ->
  Q (Z.of_nat (length (numeral_digits b n))) s -> wp (num_digits n b) Q s.
Proof.
  intros Hb Hn HQ. unfold num_digits, numeral_digits in *. destruct (Z.eqb_spec n 0) as [->|H0]; [by wp_step|].
  apply wp_count_digits; [exact Hb|by apply u64_pow|exact HQ].
Qed.

Lemma digits_of_length fuel b n : (length (digits_of fuel b n) <= fuel)%nat.
Proof.
  revert n. induction fuel as [|k IH]; intros n; cbn [digits_of]; [done|].
  destruct (n >? 0); [|cbn; lia]. rewrite length_app. cbn. specialize (IH (n / b)). lia.
Qed.

(** The character of a digit. *)
Definition digit_char (digits : list Z) (d : Z) : Z := default 0 (digits !! Z.to_nat d).

Lemma wp_fill digits b fuel n buf (Q : list Z -> console -> Prop) s : 2 <= b <= Z.of_nat (length digits) ->
  0 <= n < b ^ Z.of_nat fuel -> (length buf + fuel <= 64)%nat ->
  Q (map (digit_char digits) (digits_of fuel b n) ++ buf) s ->
  wp (loop (S fuel) (fun st : Z * list Z =>
    let '(num, buf) := st in
    if num >? 0 then
      _ ← guard_ub (Z.of_nat (length buf) <? 64);
      d ← of_option (digits !! Z.to_nat (num mod b));
      mret (inl (num / b, d :: buf))
    else mret (inr buf)) (n, buf)) Q s.
Proof.
  intros Hb. revert n buf. induction fuel as [|f IH]; intros n buf Hn Hl HQ; cbn [loop]; wp_step.
  - change (b ^ Z.of_nat 0) with 1 in Hn. assert (n = 0) as -> by lia.
    change (0 >? 0) with false. cbn iota. by do 2 wp_step.
  - cbn [digits_of] in HQ. destruct (n >? 0) eqn:E.
    + wp_step. apply wp_guard; [lia|]. wp_step.
      assert (Hm : 0 <= n mod b < b) by (apply Z.mod_pos_bound; lia).
      destruct (lookup_lt_is_Some_2 digits (Z.to_nat (n mod b)) ltac:(lia)) as [d Hd].
      eapply wp_of_option; [exact Hd|]. wp_step.
      apply IH; [apply div_pow; lia|cbn [length]; lia|].
      rewrite map_app, <- app_assoc in HQ. cbn [map app] in HQ. unfold digit_char at 2 in HQ. by rewrite Hd in HQ.
    + do 2 wp_step. exact HQ.
Qed.

Lemma wp_fill_digits digits b n (Q : list Z -> console -> Prop) s : 2 <= b <= Z.of_nat (length digits) ->
  0 <= n < 2 ^ 64 -> Q (map (digit_char digits) (digits_of 64 b n)) s -> wp (fill_digits digits n b) Q s.
Proof.
  intros Hb Hn HQ. unfold fill_digits. apply (wp_fill digits b 64); [exact Hb|apply u64_pow; lia|cbn; lia|].
  by rewrite app_nil_r.
Qed.

Lemma wp_pad_with c n (Q : unit -> console -> Prop) s :
  Q tt (with_out (replicate (Z.to_nat n) c) s) -> wp (pad_with c n) Q s.
Proof.
  unfold pad_with. generalize 0. induction (Z.to_nat n) as [|m IH] in s |- *; intros lo HQ; cbn [for_n].
  - wp_step. cbn in HQ. by rewrite with_out_nil in HQ.
  - wp_step. apply wp_emit. apply IH. by rewrite with_out_app.
Qed.

(** ** A number on the console *)

Definition prefix_text (flags base : Z) : list Z :=
  if has flags PF_ALT_FORM then
    if base =? 16 then bytes (if has flags PF_HEX_UPPER then "0X" else "0x")
    else if base =? 8 then [48] else if base =? 2 then bytes "0b" else []
  else [].

(** The places left to fill when the number [n] with sign [neg] is printed. *)
Definition padding (flags base width : Z) (neg : bool) (n : Z) : nat :=
  Z.to_nat (width - Z.of_nat (length (numeral_digits base n)) - (if neg then 1 else 0)
            - Z.of_nat (length (prefix_text flags base))).

(** The text of a number: prefix, blanks, sign, zeros, digits, blanks. *)
Definition number_text (flags base width : Z) (neg : bool) (n : Z) : list Z :=
  let digits := if has flags PF_HEX_UPPER then hex_upper else hex_lower in
  let pad := padding flags base width neg n in
  prefix_text flags base
  ++ (if has flags PF_LEFT_JUST || has flags PF_ZERO_PAD then [] else replicate pad 32)
  ++ (if neg then [45] else [])
  ++ (if has flags PF_ZERO_PAD then replicate pad 48 else [])
  ++ map (digit_char digits) (numeral_digits base n)
  ++ (if has flags PF_LEFT_JUST && negb (has flags PF_ZERO_PAD) then replicate pad 32 else []).

Definition magnitude (num : Z) (neg : bool) : Z := if neg then - s64 num else num.
Definition negative (flags num : Z) : bool := has flags PF_SIGNED && (s64 num <? 0).

Lemma wp_print_prefix base flags pad (Q : Z -> console -> Prop) s :
  Q (pad - Z.of_nat (length (prefix_text flags base))) (with_out (prefix_text flags base) s) ->
  wp (print_prefix base flags pad) Q s.
Proof.
  unfold print_prefix, prefix_text. intros HQ.
  destruct (has flags PF_ALT_FORM); [|wp_step; cbn in HQ; by rewrite Z.sub_0_r, with_out_nil in HQ].
  destruct (base =? 16); [wp_step; apply wp_emit; wp_step; by destruct (has flags PF_HEX_UPPER)|].
  destruct (base =? 8); [wp_step; apply wp_emit; by wp_step|].
  destruct (base =? 2); [wp_step; apply wp_emit; by wp_step|].
  wp_step. cbn in HQ. by rewrite Z.sub_0_r, with_out_nil in HQ.
Qed.

Definition print_base (b : Z) : Prop := b = 2 \/ b = 8 \/ b = 10 \/ b = 16.

Lemma wp_print_num num base width flags (Q : unit -> console -> Prop) s :
  is_u64 num -> print_base base -> (has flags PF_SIGNED = true -> num <> 2 ^ 63) ->
  Q tt (with_out (number_text flags base width (negative flags num) (magnitude num (negative flags num))) s) ->
  wp (print_num num base width flags) Q s.
Proof.
  intros Hu Hb Hmin HQ. unfold is_u64 in Hu. unfold print_num.
  fold (negative flags num). set (neg := negative flags num) in *.
  assert (Hs : s64 num = if num <? 2 ^ 63 then num else num - 2 ^ 64).
  { unfold s64. by rewrite u64_small by lia. }
  wp_step. apply wp_guard.
  { subst neg. unfold negative. destruct (has flags PF_SIGNED); [|done]. specialize (Hmin eq_refl). cbn.
    apply negb_true_iff, andb_false_iff. rewrite Hs. destruct (Z.ltb_spec num (2 ^ 63)); [left|right]; lia. }
  fold (magnitude num neg). set (n := magnitude num neg) in *.
  assert (Hn : 0 <= n < 2 ^ 64).
  { subst n neg. unfold magnitude, negative. destruct (has flags PF_SIGNED); cbn [andb]; [|lia].
    destruct (Z.ltb_spec (s64 num) 0) as [Hlt|Hge]; [|lia]. rewrite Hs in *. destruct (Z.ltb_spec num (2 ^ 63)); lia. }
  assert (Hb2 : 2 <= base) by (destruct Hb as [-> |[-> |[-> | ->]]]; lia).
  wp_step. apply wp_num_digits; [exact Hb2|exact Hn|]. wp_step. apply wp_print_prefix.
  set (pre := prefix_text flags base). set (pad := _ - Z.of_nat (length pre)).
  assert (Hpad : padding flags base width neg n = Z.to_nat pad).
  { unfold padding, pad, pre. f_equal. destruct neg; lia. }
  unfold number_text in HQ. rewrite Hpad in HQ. fold pre in HQ.
  set (digits := if has flags PF_HEX_UPPER then hex_upper else hex_lower) in *.
  assert (Hdig : forall (Q : unit -> console -> Prop) s, Q tt (with_out (map (digit_char digits) (numeral_digits base n)) s) ->
    wp (if n =? 0 then emit [48] else buf ← fill_digits digits n base; emit buf) Q s).
  { clear HQ. intros Q' s' HQ'. unfold numeral_digits in HQ'. destruct (n =? 0).
    - apply wp_emit. subst digits. by destruct (has flags PF_HEX_UPPER).
    - wp_step. apply wp_fill_digits; [|exact Hn|by apply wp_emit].
      subst digits. destruct (has flags PF_HEX_UPPER); destruct Hb as [-> |[-> |[-> | ->]]]; vm_compute; split; congruence. }
  assert (Hsign : forall (Q : unit -> console -> Prop) s, Q tt (with_out (if neg then [45] else []) s) ->
    wp (if neg : bool then emit [45] else mret tt) Q s).
  { clear. intros Q s HQ. destruct neg; [by apply wp_emit|]. wp_step. by rewrite with_out_nil in HQ. }
  assert (Hnopad : pad >? 0 = false -> forall c, replicate (Z.to_nat pad) c = ([] : list Z)).
  { clear. intros E c. by replace (Z.to_nat pad) with 0%nat by lia. }
  assert (Heq : forall l l', l = l' -> Q tt (with_out l s) -> Q tt (with_out l' s)) by (by intros ? ? ->).
  destruct (has flags PF_LEFT_JUST), (has flags PF_ZERO_PAD); cbn [negb andb orb] in *; destruct (pad >? 0) eqn:E;
    repeat first [wp_step | apply wp_pad_with | apply Hsign | apply Hdig | progress cbn [Z.gtb Z.compare] | rewrite E];
    rewrite ?with_out_app; rewrite ?Hnopad in HQ by reflexivity;
    (eapply Heq; [|exact HQ]); rewrite <- ?app_assoc, ?app_nil_l, ?app_nil_r; reflexivity.
Qed.

(** ** Formats *)

Definition is_flag (c : Z) : Prop := c = 45 \/ c = 43 \/ c = 48 \/ c = 35.
Definition flag_bit (c : Z) : Z :=
  if c =? 45 then PF_LEFT_JUST else if c =? 43 then PF_SIGNED else if c =? 48 then PF_ZERO_PAD else PF_ALT_FORM.
Definition flags_value (fl : list Z) (f : Z) : Z := fold_left (fun f c => Z.lor f (flag_bit c)) fl f.
Definition is_digit (c : Z) : Prop := 48 <= c <= 57.
Definition width_value (wd : list Z) (w : Z) : Z := fold_left (fun w c => w * 10 + (c - 48)) wd w.

Definition number_out (flags base width num : Z) : list Z :=
  number_text flags base width (negative flags num) (magnitude num (negative flags num)).
(** The only number the code cannot negate. *)
Definition printable (flags num : Z) : Prop := is_u64 num /\ (has flags PF_SIGNED = true -> num <> 2 ^ 63).

(** The unsigned conversions: base, size, width and flags they use. *)
Definition unsigned_conversion (cv : list Z) (is_long width flags : Z) : option (Z * Z * Z * Z) :=
  if decide (cv = [117]) then Some (10, is_long, width, flags) else
  if decide (cv = [120]) then Some (16, is_long, width, flags) else
  if decide (cv = [88]) then Some (16, is_long, width, Z.lor flags PF_HEX_UPPER) else
  if decide (cv = [111]) then Some (8, is_long, width, flags) else
  if decide (cv = [98]) then Some (2, is_long, width, flags) else
  if decide (cv = [112]) then Some (16, 1, if width =? 0 then 16 else width, Z.lor flags PF_ALT_FORM) else
  if decide (cv = [122; 117]) then Some (10, 1, width, flags) else
  if decide (cv = [122; 120]) then Some (16, 1, width, flags) else None.

(** [conversion m is_long width flags cv args out rest]: the conversion [cv] takes its argument from
    [args], leaves [rest] and prints [out]. *)
Inductive conversion (m : bmem) (is_long width flags : Z) : list Z -> list Z -> list Z -> list Z -> Prop :=
| ConvString p l rest : p <> 0 -> cstr m p l -> conversion m is_long width flags [115] (p :: rest) l rest
| ConvNull rest : conversion m is_long width flags [115] (0 :: rest) (bytes "(null)") rest
| ConvChar a rest : conversion m is_long width flags [99] (a :: rest) [u8 a] rest
| ConvInt c a rest num : c = 100 \/ c = 105 -> num = (if 1 <=? is_long then a else u64 (s32 a)) ->
    printable (Z.lor flags PF_SIGNED) num ->
    conversion m is_long width flags [c] (a :: rest) (number_out (Z.lor flags PF_SIGNED) 10 width num) rest
| ConvUnsigned cv base lg w f a rest num : unsigned_conversion cv is_long width flags = Some (base, lg, w, f) ->
    num = (if 1 <=? lg then a else u32 a) -> printable f num ->
    conversion m is_long width flags cv (a :: rest) (number_out f base w num) rest
| ConvPercent args : conversion m is_long width flags [37] args [37] args.

Definition long_value (lm : list Z) : Z := Z.of_nat (length lm).

(** What a format prints: ordinary characters, and directives of flags, width, size and conversion. *)
Inductive renders (m : bmem) : list Z -> list Z -> list Z -> Prop :=
| RenderEnd args : renders m [] args []
| RenderChar c l args out : c <> 37 -> renders m l args out -> renders m (c :: l) args (c :: out)
| RenderDirective fl wd lm cv l args text rest out :
    Forall is_flag fl -> Forall is_digit wd -> (forall c, head wd = Some c -> ~ is_flag c) ->
    width_value wd 0 < 2 ^ 31 -> lm = [] \/ lm = [108] \/ lm = [108; 108] ->
    conversion m (long_value lm) (width_value wd 0) (flags_value fl 0) cv args text rest ->
    renders m l rest out ->
    renders m (37 :: fl ++ wd ++ lm ++ cv ++ l) args (text ++ out).

Lemma wp_byte_at p c (Q : Z -> console -> Prop) s : pk_mem s !! p = Some c -> Q c s -> wp (byte_at p) Q s.
Proof. intros Hc HQ. unfold byte_at. do 2 wp_step. by eapply wp_of_option. Qed.

(** Loops over the characters of a string. *)
Lemma wp_walk_list {A B} (I : list Z -> A -> console -> Prop) (body : A -> M console (A + B)) Q xs a s :
  I xs a s -> (length xs <= size (pk_mem s))%nat ->
  (forall x rest a s, I (x :: rest) a s ->
     wp (body a) (fun r s' => match r with inl a' => I rest a' s' | inr b => Q b s' end) s) ->
  (forall a s, I [] a s -> wp (body a) (fun r s' => match r with inl _ => False | inr b => Q b s' end) s) ->
  wp (walk_str body a) Q s.
Proof. intros HI Hl H1 H2. unfold walk_str. do 2 wp_step. apply (wp_loop_list I _ _ _ xs); [exact HI|lia|exact H1|exact H2]. Qed.

Lemma cstr_len m p l : cstr m p l -> (length l <= size m)%nat.
Proof. intros H%cstr_size. lia. Qed.

Lemma wp_print_str p l (Q : unit -> console -> Prop) s : cstr (pk_mem s) p l -> Q tt (with_out l s) -> wp (print_str p) Q s.
Proof.
  intros Hs HQ. unfold print_str.
  apply (wp_walk_list (fun xs p s' => exists ys, l = ys ++ xs /\ cstr (pk_mem s) p xs /\ s' = with_out ys s) _ _ l).
  - exists []. split; [reflexivity|]. split; [exact Hs|]. by rewrite with_out_nil.
  - by eapply cstr_len.
  - intros c rest p' s' (ys & Hl & (Hc & Hr & Hrest) & ->). wp_step. eapply wp_byte_at; [exact Hc|].
    rewrite (proj2 (Z.eqb_neq c 0)) by lia. wp_step. apply wp_emit. wp_step.
    exists (ys ++ [c]). rewrite <- app_assoc. split; [exact Hl|]. split; [exact Hrest|]. by rewrite with_out_app.
  - intros p' s' (ys & Hl & Hc & ->). wp_step. eapply wp_byte_at; [exact Hc|]. rewrite Z.eqb_refl. wp_step.
    rewrite app_nil_r in Hl. by subst ys.
Qed.

Lemma cstr_app m p l1 l2 : cstr m p (l1 ++ l2) -> cstr m (p + Z.of_nat (length l1)) l2.
Proof. intros H. apply (cstr_drop _ _ _ (length l1)) in H; [|rewrite length_app; lia]. by rewrite drop_app_length in H. Qed.

Lemma wp_parse_flags p fl c l (Q : Z * Z -> console -> Prop) s : cstr (pk_mem s) p (fl ++ c :: l) ->
  Forall is_flag fl -> ~ is_flag c -> Q (p + Z.of_nat (length fl), flags_value fl 0) s -> wp (parse_flags p) Q s.
Proof.
  intros Hs Hfl Hc HQ. unfold parse_flags.
  apply (wp_walk_list (fun xs '(q, f) s' => s' = s /\ cstr (pk_mem s) q (xs ++ c :: l) /\ Forall is_flag xs /\
    q + Z.of_nat (length xs) = p + Z.of_nat (length fl) /\ flags_value xs f = flags_value fl 0) _ _ fl).
  - repeat (split; [reflexivity || assumption|]). reflexivity.
  - apply cstr_len in Hs. rewrite length_app in Hs. lia.
  - intros x rest [q f] s' (-> & (Hx & _ & Hrest) & Hfx & Hlen & Hv). apply Forall_cons in Hfx as [Hfx Hfr].
    wp_step. eapply wp_byte_at; [exact Hx|]. unfold is_flag in Hfx. cbn [length] in Hlen. cbn [flags_value fold_left] in Hv.
    destruct Hfx as [-> |[-> |[-> | ->]]]; cbn [Z.eqb Pos.eqb]; wp_step; (split; [reflexivity|]);
      (split; [exact Hrest|]); (split; [exact Hfr|]); (split; [lia|exact Hv]).
  - intros [q f] s' (-> & (Hx & _ & _) & _ & Hlen & Hv). wp_step. eapply wp_byte_at; [exact Hx|].
    unfold is_flag in Hc. rewrite !(proj2 (Z.eqb_neq _ _)) by tauto. wp_step.
    cbn [length] in Hlen. rewrite Z.add_0_r in Hlen. subst q. cbn in Hv. by subst f.
Qed.

Lemma width_mono wd w : Forall is_digit wd -> 0 <= w -> w <= width_value wd w.
Proof.
  revert w. induction wd as [|c wd IH]; intros w Hd Hw; [cbn; lia|]. apply Forall_cons in Hd as [Hc Hd].
  cbn [width_value fold_left]. unfold is_digit in Hc. specialize (IH (w * 10 + (c - 48)) Hd ltac:(lia)).
  unfold width_value in IH. lia.
Qed.

Lemma wp_parse_width p wd c l (Q : Z * Z -> console -> Prop) s : cstr (pk_mem s) p (wd ++ c :: l) ->
  Forall is_digit wd -> ~ is_digit c -> width_value wd 0 < 2 ^ 31 ->
  Q (p + Z.of_nat (length wd), width_value wd 0) s -> wp (parse_width p) Q s.
Proof.
  intros Hs Hwd Hc Hmax HQ. unfold parse_width.
  apply (wp_walk_list (fun xs '(q, w) s' => s' = s /\ cstr (pk_mem s) q (xs ++ c :: l) /\ Forall is_digit xs /\ 0 <= w /\
    q + Z.of_nat (length xs) = p + Z.of_nat (length wd) /\ width_value xs w = width_value wd 0) _ _ wd).
  - repeat (split; [reflexivity || assumption || lia|]). reflexivity.
  - apply cstr_len in Hs. rewrite length_app in Hs. lia.
  - intros x rest [q w] s' (-> & (Hx & _ & Hrest) & Hfx & Hw & Hlen & Hv). apply Forall_cons in Hfx as [Hfx Hfr].
    wp_step. eapply wp_byte_at; [exact Hx|]. unfold is_digit in Hfx. cbn [length] in Hlen. cbn [width_value fold_left] in Hv.
    assert ((48 <=? x) && (x <=? 57) = true) as -> by lia.
    pose proof (width_mono rest (w * 10 + (x - 48)) Hfr ltac:(lia)) as Hm. unfold width_value in *.
    wp_step. apply wp_guard; [lia|]. wp_step. split; [reflexivity|].
    split; [exact Hrest|]. split; [exact Hfr|]. split; [lia|]. split; [lia|exact Hv].
  - intros [q w] s' (-> & (Hx & _ & _) & _ & _ & Hlen & Hv). wp_step. eapply wp_byte_at; [exact Hx|].
    unfold is_digit in Hc. assert ((48 <=? c) && (c <=? 57) = false) as -> by lia. wp_step.
    cbn [length] in Hlen. rewrite Z.add_0_r in Hlen. subst q. cbn in Hv. by subst w.
Qed.

Lemma wp_parse_long p lm c l (Q : Z * Z -> console -> Prop) s : cstr (pk_mem s) p (lm ++ c :: l) ->
  lm = [] \/ lm = [108] \/ lm = [108; 108] -> c <> 108 ->
  Q (p + Z.of_nat (length lm), long_value lm) s -> wp (parse_long p) Q s.
Proof.
  intros Hs Hlm Hc HQ. unfold parse_long.
  destruct Hlm as [-> |[-> | ->]]; cbn [app cstr length long_value] in *.
  - destruct Hs as (H1 & _ & _). wp_step. eapply wp_byte_at; [exact H1|]. rewrite (proj2 (Z.eqb_neq c 108)) by exact Hc.
    wp_step. by rewrite Z.add_0_r in HQ.
  - destruct Hs as (H1 & _ & H2 & _). wp_step. eapply wp_byte_at; [exact H1|]. cbn [Z.eqb Pos.eqb].
    wp_step. eapply wp_byte_at; [exact H2|]. rewrite (proj2 (Z.eqb_neq c 108)) by exact Hc. by wp_step.
  - destruct Hs as (H1 & _ & H2 & _). wp_step. eapply wp_byte_at; [exact H1|]. cbn [Z.eqb Pos.eqb].
    wp_step. eapply wp_byte_at; [exact H2|]. cbn [Z.eqb Pos.eqb]. by wp_step.
Qed.

Lemma wp_print_unsigned a rest is_long base width flags (Q : list Z -> console -> Prop) s :
  print_base base -> printable flags (if 1 <=? is_long then a else u32 a) ->
  Q rest (with_out (number_out flags base width (if 1 <=? is_long then a else u32 a)) s) ->
  wp (print_unsigned (a :: rest) is_long base width flags) Q s.
Proof.
  intros Hb [Hu Hm] HQ. unfold print_unsigned, va_arg. do 2 wp_step. cbn [fst snd].
  wp_step. apply wp_print_num; [exact Hu|exact Hb|exact Hm|]. by wp_step.
Qed.

(** The branch of [convert] for the character [c]. *)
Ltac conv_branch Hc := unfold convert; wp_step; (eapply wp_byte_at; [exact Hc|]); cbn [Z.eqb Pos.eqb orb].

Lemma wp_convert p cv l is_long width flags args text rest (Q : Z * list Z -> console -> Prop) s :
  conversion (pk_mem s) is_long width flags cv args text rest -> cstr (pk_mem s) p (cv ++ l) ->
  Q (p + Z.of_nat (length cv) - 1, rest) (with_out text s) -> wp (convert p args is_long width flags) Q s.
Proof.
  intros Hcv Hs HQ. destruct Hcv as [q t r Hq Ht|r|a r|c a r num Hc -> Hp|cv base lg w f a r num Hcv -> Hp|r];
    cbn [app cstr length] in *.
  - replace (p + Z.of_nat 1 - 1) with p in HQ by lia. destruct Hs as (H1 & _). conv_branch H1.
    unfold va_arg. do 2 wp_step. cbn [fst snd]. rewrite (proj2 (Z.eqb_neq q 0)) by exact Hq.
    wp_step. eapply wp_print_str; [exact Ht|]. by wp_step.
  - replace (p + Z.of_nat 1 - 1) with p in HQ by lia. destruct Hs as (H1 & _). conv_branch H1.
    unfold va_arg. do 2 wp_step. cbn [fst snd Z.eqb]. wp_step. apply wp_emit. by wp_step.
  - replace (p + Z.of_nat 1 - 1) with p in HQ by lia. destruct Hs as (H1 & _). conv_branch H1.
    unfold va_arg. do 2 wp_step. cbn [fst snd]. unfold print_char. wp_step. apply wp_emit. by wp_step.
  - replace (p + Z.of_nat 1 - 1) with p in HQ by lia. destruct Hs as (H1 & _). destruct Hp as [Hu Hm].
    destruct Hc as [-> | ->]; conv_branch H1; unfold va_arg; do 2 wp_step; cbn [fst snd]; wp_step;
      (apply wp_print_num; [exact Hu|unfold print_base; tauto|exact Hm|]); by wp_step.
  - assert (Hu : forall (Q : list Z -> console -> Prop), Q r (with_out (number_out f base w (if 1 <=? lg then a else u32 a)) s) ->
      wp (print_unsigned (a :: r) lg base w f) Q s).
    { intros Q' HQ'. apply wp_print_unsigned; [|exact Hp|exact HQ'].
      unfold unsigned_conversion in Hcv. repeat case_decide; simplify_eq; unfold print_base; tauto. }
    unfold unsigned_conversion in Hcv.
    repeat case_decide; simplify_eq; cbn [app cstr length] in *;
      (match type of HQ with context [p + Z.of_nat 2 - 1] => replace (p + Z.of_nat 2 - 1) with (p + 1) in HQ by lia
       | _ => replace (p + Z.of_nat 1 - 1) with p in HQ by lia end);
      destruct Hs as (Hb1 & _ & Hs);
      try (conv_branch Hb1; wp_step; apply Hu; wp_step; exact HQ);
      destruct Hs as (Hb2 & _); conv_branch Hb1; wp_step; (eapply wp_byte_at; [exact Hb2|]); cbn [Z.eqb Pos.eqb orb];
      wp_step; apply Hu; wp_step; exact HQ.
  - replace (p + Z.of_nat 1 - 1) with p in HQ by lia. destruct Hs as (H1 & _). conv_branch H1.
    wp_step. apply wp_emit. by wp_step.
Qed.

(** No conversion starts with a flag, a digit or the size letter. *)
Lemma conversion_head m is_long width flags cv args text rest : conversion m is_long width flags cv args text rest ->
  exists c cv', cv = c :: cv' /\ ~ is_flag c /\ ~ is_digit c /\ c <> 108.
Proof.
  intros Hcv. assert (Hin : head cv ∈ Some <$> [115; 99; 100; 105; 117; 120; 88; 111; 98; 112; 122; 37]).
  { destruct Hcv as [| | |c a r num Hc _ _|cv base lg w f a r num Hcv _ _|]; [set_solver..| | |set_solver].
    - destruct Hc as [-> | ->]; set_solver.
    - unfold unsigned_conversion in Hcv. repeat case_decide; simplify_eq; set_solver. }
  destruct cv as [|c cv]; [set_solver|]. exists c, cv. cbn [head hd_error] in Hin. unfold is_flag, is_digit.
  repeat (apply elem_of_cons in Hin as [[= ->]|Hin]; [split; [done|lia]|]). by apply not_elem_of_nil in Hin.
Qed.

Lemma head_app_not (P : Z -> Prop) l l' : (forall c, head l = Some c -> P c) -> (forall c, head l' = Some c -> P c) ->
  forall c, head (l ++ l') = Some c -> P c.
Proof. destruct l; [done|]. intros H _ c Hc. by apply H. Qed.

Lemma wp_directive p fl wd lm cv l args text rest (Q : Z * list Z -> console -> Prop) s :
  Forall is_flag fl -> Forall is_digit wd -> (forall c, head wd = Some c -> ~ is_flag c) ->
  width_value wd 0 < 2 ^ 31 -> lm = [] \/ lm = [108] \/ lm = [108; 108] ->
  conversion (pk_mem s) (long_value lm) (width_value wd 0) (flags_value fl 0) cv args text rest ->
  let d := 37 :: fl ++ wd ++ lm ++ cv in
  cstr (pk_mem s) p (37 :: fl ++ wd ++ lm ++ cv ++ l) ->
  Q (p + Z.of_nat (length d) - 1, rest) (with_out text s) -> wp (format_step p args) Q s.
Proof.
  intros Hfl Hwd Hwf Hmax Hlm Hcv d Hs HQ.
  destruct (conversion_head _ _ _ _ _ _ _ _ Hcv) as (c & cv' & Ecv & Hc1 & Hc2 & Hc3).
  destruct Hs as (H1 & _ & Hs). unfold format_step. wp_step. eapply wp_byte_at; [exact H1|]. cbn [Z.eqb Pos.eqb].
  assert (Hlc : forall x, head (lm ++ cv ++ l) = Some x -> ~ is_flag x /\ ~ is_digit x).
  { subst cv. unfold is_flag, is_digit. destruct Hlm as [-> |[-> | ->]]; cbn; intros x [= <-]; [done|lia|lia]. }
  assert (Hnf : exists x r, wd ++ lm ++ cv ++ l = x :: r /\ ~ is_flag x).
  { destruct wd as [|w wd]; cbn [app]; [|exists w, (wd ++ lm ++ cv ++ l); split; [done|by apply Hwf]].
    destruct (lm ++ cv ++ l) as [|x r] eqn:E; [subst cv; by destruct lm|].
    exists x, r. split; [done|by apply Hlc]. }
  destruct Hnf as (x & r & Ex & Hx). wp_step. rewrite Ex in Hs.
  eapply wp_parse_flags; [exact Hs|exact Hfl|exact Hx|]. apply cstr_app in Hs. rewrite <- Ex in Hs.
  destruct (lm ++ cv ++ l) as [|y t] eqn:Ey; [subst cv; by destruct lm|].
  wp_step. eapply wp_parse_width; [exact Hs|exact Hwd|by apply Hlc|exact Hmax|].
  apply cstr_app in Hs. rewrite <- Ey in Hs. subst cv. cbn [app] in Hs.
  wp_step. eapply wp_parse_long; [exact Hs|exact Hlm|exact Hc3|]. apply cstr_app in Hs.
  eapply wp_convert; [exact Hcv|exact Hs|]. unfold d in HQ. cbn [length] in HQ |- *. rewrite !length_app in HQ.
  cbn [length] in HQ. match goal with |- Q (?a, _) _ => replace a with (p + Z.of_nat (S (length fl + (length wd + (length lm + S (length cv'))))) - 1) by lia end.
  exact HQ.
Qed.

Definition format_loop (st : Z * list Z) : M console (Z * list Z + unit) :=
  let '(fmt, args) := st in
  c ← byte_at fmt;
  if c =? 0 then mret (inr tt) else
  '(fmt, args) ← format_step fmt args;
  mret (inl (fmt + 1, args)).

Lemma wp_format_loop m l args out : renders m l args out -> forall fuel p (Q : unit -> console -> Prop) s,
  pk_mem s = m -> cstr m p l -> (length l < fuel)%nat -> Q tt (with_out out s) -> wp (loop fuel format_loop (p, args)) Q s.
Proof.
  intros Hr. induction Hr as [args|c l args out Hc Hr IH|fl wd lm cv l args text rest out Hfl Hwd Hwf Hmax Hlm Hcv Hr IH];
    intros fuel p Q s Hm Hs Hf HQ; (destruct fuel as [|fuel]; [lia|]); cbn [loop]; wp_step; unfold format_loop at 1.
  - wp_step. eapply wp_byte_at; [rewrite Hm; exact Hs|]. rewrite Z.eqb_refl. do 2 wp_step. by rewrite with_out_nil in HQ.
  - destruct Hs as (H1 & Hr1 & Hs). wp_step. eapply wp_byte_at; [rewrite Hm; exact H1|].
    rewrite (proj2 (Z.eqb_neq c 0)) by lia. wp_step. unfold format_step. wp_step.
    eapply wp_byte_at; [rewrite Hm; exact H1|]. rewrite (proj2 (Z.eqb_neq c 37)) by exact Hc.
    wp_step. apply wp_emit. do 2 wp_step. cbn [length] in Hf.
    apply IH; [exact Hm|exact Hs|lia|]. by rewrite with_out_app.
  - pose proof Hs as (H1 & _ & _). wp_step. eapply wp_byte_at; [rewrite Hm; exact H1|]. cbn [Z.eqb Pos.eqb].
    wp_step. subst m. eapply wp_directive; [exact Hfl|exact Hwd|exact Hwf|exact Hmax|exact Hlm|exact Hcv|exact Hs|].
    wp_step. replace (37 :: fl ++ wd ++ lm ++ cv ++ l) with ((37 :: fl ++ wd ++ lm ++ cv) ++ l) in Hs, Hf
      by (cbn [app]; by rewrite <- !app_assoc).
    apply cstr_app in Hs. rewrite length_app in Hf. cbn [length] in Hf.
    apply IH; [reflexivity| |lia|by rewrite with_out_app].
    match goal with |- cstr _ ?a _ => replace a with (p + Z.of_nat (length (37 :: fl ++ wd ++ lm ++ cv))) by lia end. exact Hs.
Qed.

(** Taking and releasing the lock of the console. *)
Definition pk_locked (s : console) : console :=
  Console (ArchSpinlock (u32 (lock_next (pk_lock s) + 1)) (lock_owner (pk_lock s))) (Z.lor (pk_daif s) DAIF_I) (pk_mem s) (pk_out s).

Lemma wp_pk_lock (Q : Z -> console -> Prop) s : lock_free (pk_lock s) -> Q (pk_daif s) (pk_locked s) ->
  wp (on_pk_lock spin_lock_irqsave) Q s.
Proof.
  intros Hf HQ. unfold on_pk_lock. wp_step. apply wp_spin_lock_irqsave; [exact Hf|exact HQ].
Qed.

(** C28: for every format that consists of ordinary characters and complete directives with an
    argument each, [printk] returns: it appends to the console exactly the text the directives describe
    ([renders]: numbers are padded to the width; width and flags of [%s] and [%c] have no effect, although
    [include/printk.h] documents them for every conversion) and leaves memory and the interrupt mask unchanged and the lock free. *)
Theorem printk_correct fmt l args out s : cstr (pk_mem s) fmt l -> renders (pk_mem s) l args out -> lock_free (pk_lock s) ->
  exists s', printk fmt args s = Done (tt, s') /\ pk_out s' = pk_out s ++ out /\
    pk_mem s' = pk_mem s /\ pk_daif s' = pk_daif s /\ lock_free (pk_lock s').
Proof.
  intros Hs Hr Hl. assert (Hwp : wp (printk fmt args) (fun _ s' => pk_out s' = pk_out s ++ out /\
    pk_mem s' = pk_mem s /\ pk_daif s' = pk_daif s /\ lock_free (pk_lock s')) s).
  { unfold printk, vprintk. wp_step. apply wp_pk_lock; [exact Hl|]. wp_step. unfold walk_str. do 2 wp_step.
    eapply (wp_format_loop (pk_mem s)); [exact Hr|reflexivity|exact Hs|apply cstr_len in Hs; cbn; lia|].
    unfold on_pk_lock. wp_step. apply wp_spin_unlock_irqrestore. split; [reflexivity|]. split; [reflexivity|]. split; [reflexivity|]. exact (spin_unlock_free _ Hl). }
  destruct (wp_done _ _ _ Hwp) as ([] & s' & Hrun & Hp). by exists s'.
Qed.

(** [printk("%10s=%08x%%", "ab", 0x2f)]: the width of the string has no effect. *)
Definition sample_console : console := Console SPIN_LOCK_UNLOCKED 0
  (list_to_map (imap (fun i c => (Z.of_nat i, c)) (bytes "%10s=%08x%%" ++ [0] ++ bytes "ab" ++ [0]))) [].

Lemma printk_correct_witness : exists s', printk 0 [12; 0x2f] sample_console = Done (tt, s') /\
  pk_out s' = bytes "ab=0000002f%".
Proof.
  destruct (printk_correct 0 (bytes "%10s=%08x%%") [12; 0x2f] (bytes "ab=0000002f%") sample_console) as (s' & Hrun & Hout & _).
  - vm_compute. repeat (split; try reflexivity).
  - change (bytes "%10s=%08x%%") with (37 :: [] ++ [49; 48] ++ [] ++ [115] ++ 61 :: 37 :: [48] ++ [56] ++ [] ++ [120] ++ 37 :: [] ++ [] ++ [] ++ [37] ++ []).
    replace (bytes "ab=0000002f%") with (bytes "ab" ++ 61 :: number_out PF_ZERO_PAD 16 8 0x2f ++ bytes "%" ++ [])
      by (vm_compute; reflexivity).
    eapply RenderDirective; [constructor|repeat constructor; unfold is_digit; lia| |vm_compute; reflexivity|by left| |].
    { intros c [= <-]. unfold is_flag. lia. }
    { apply (ConvString _ _ _ _ 12); [lia|]. vm_compute. repeat (split; try reflexivity). }
    apply RenderChar; [lia|].
    eapply RenderDirective; [repeat constructor; unfold is_flag; tauto|repeat constructor; unfold is_digit; lia| |vm_compute; reflexivity|by left| |].
    { intros c [= <-]. unfold is_flag. lia. }
    { eapply (ConvUnsigned _ _ _ _ [120] 16 0 8 PF_ZERO_PAD 0x2f); [reflexivity|reflexivity|]. split; [unfold is_u64; vm_compute; split; congruence|done]. }
    eapply RenderDirective; [constructor|constructor|done|vm_compute; reflexivity|by left|constructor|constructor].
  - reflexivity.
  - exists s'. split; [exact Hrun|exact Hout].
Defined.

(** C29: what a number looks like: [print_num] appends its prefix, padding, sign and digits; the digits
    are those of the number in the base, so they read back as its magnitude, without leading zeros;
    and the text has the requested width unless it needs more. *)
Theorem print_num_correct num base width flags s :
  is_u64 num -> print_base base -> (has flags PF_SIGNED = true -> num <> 2 ^ 63) ->
  let neg := negative flags num in
  let n := magnitude num neg in
  let text := number_text flags base width neg n in
  print_num num base width flags s = Done (tt, with_out text s) /\
  value_of base (numeral_digits base n) = n /\
  (forall d, d ∈ numeral_digits base n -> 0 <= d < base) /\
  (n <> 0 -> exists d l, numeral_digits base n = d :: l /\ 0 < d) /\
  Z.of_nat (length text) = Z.max width (Z.of_nat (length (prefix_text flags base)) + (if neg then 1 else 0)
                                         + Z.of_nat (length (numeral_digits base n))).
Proof.
  intros Hu Hb Hm neg n text.
  assert (Hwp : wp (print_num num base width flags) (fun _ s' => s' = with_out text s) s)
    by (apply wp_print_num; [exact Hu|exact Hb|exact Hm|reflexivity]).
  destruct (wp_done _ _ _ Hwp) as ([] & s' & Hrun & ->). split; [exact Hrun|].
  assert (Hb2 : 2 <= base) by (destruct Hb as [-> |[-> |[-> | ->]]]; lia).
  assert (Hn : 0 <= n < 2 ^ 64).
  { subst n neg. unfold is_u64, magnitude, negative in *. destruct (has flags PF_SIGNED); cbn [andb]; [|exact Hu].
    specialize (Hm eq_refl). unfold s64. rewrite u64_small by exact Hu. destruct (Z.ltb_spec num (2 ^ 63)).
    - rewrite (proj2 (Z.ltb_ge num 0)) by lia. exact Hu.
    - rewrite (proj2 (Z.ltb_lt _ 0)) by lia. lia. }
  assert (Hn' : 0 <= n < base ^ Z.of_nat 64) by (by apply u64_pow).
  split; [|split; [|split]].
  - unfold numeral_digits. destruct (Z.eqb_spec n 0) as [->|]; [reflexivity|]. apply digits_of_value; [lia|exact Hn'].
  - unfold numeral_digits. destruct (n =? 0); intros d Hd; [|eapply digits_of_bound; [|exact Hd]; lia].
    apply list_elem_of_singleton in Hd. lia.
  - intros H0. unfold numeral_digits. rewrite (proj2 (Z.eqb_neq n 0)) by exact H0. apply digits_of_head; [lia|].
    split; [lia|apply Hn'].
  - unfold text, number_text, padding. rewrite !length_app, length_map.
    destruct (has flags PF_LEFT_JUST), (has flags PF_ZERO_PAD), neg; cbn [orb andb negb length]; rewrite ?length_replicate; lia.
Qed.

Lemma print_num_correct_witness : is_u64 0xbeef /\ print_base 16 /\
  print_num 0xbeef 16 8 (Z.lor PF_ALT_FORM PF_ZERO_PAD) sample_console
    = Done (tt, with_out (bytes "0x00beef") sample_console).
Proof.
  assert (Hu : is_u64 0xbeef) by (unfold is_u64; lia). assert (Hb : print_base 16) by (unfold print_base; tauto).
  split; [exact Hu|]. split; [exact Hb|].
  exact (proj1 (print_num_correct 0xbeef 16 8 (Z.lor PF_ALT_FORM PF_ZERO_PAD) sample_console Hu Hb (fun H => ltac:(discriminate H)))).
Defined.
