(* ===== verification/Machine.v ===== *)
(** The machine the memory-management code runs on: the page allocator's state, RAM, the linear
    map and the system registers ([include/mmu.h], [arch/arm64/mm/tlb.c]).

    RAM is a map from 8-byte-aligned physical addresses to 64-bit words; a word that was never
    written reads as 0, and the theorems hold for any contents.  The kernel reaches RAM only
    through the linear map, [VA = slab_linear_map_base + PA]; an access outside the physical
    range or not aligned is undefined.  The barrier macros ([wmb], [mb], [rmb]) order accesses of
    several observers and have no effect on this single-observer state, so they do not appear;
    TLB invalidation is counted. *)
From S2P Require Import Prelude ListHead Pmm.

Record machine := Machine {
  m_pmm : pmm;
  m_ram : gmap Z Z;
  slab_linear_map_base : Z;
  slab_l0_table_pa : Z;
  linear_map_base : Z;
  l0_table_pa : Z;
  ttbr0_el1 : Z;
  ttbr1_el1 : Z;
  mair_el1 : Z;
  tcr_el1 : Z;
  sctlr_el1 : Z;
  tlb_flushes : Z;
  daif : Z;
}.

Definition set_pmm p (s : machine) : machine :=
  Machine p (m_ram s) (slab_linear_map_base s) (slab_l0_table_pa s) (linear_map_base s)
    (l0_table_pa s) (ttbr0_el1 s) (ttbr1_el1 s) (mair_el1 s) (tcr_el1 s) (sctlr_el1 s) (tlb_flushes s) (daif s).
Definition set_ram r (s : machine) : machine :=
  Machine (m_pmm s) r (slab_linear_map_base s) (slab_l0_table_pa s) (linear_map_base s)
    (l0_table_pa s) (ttbr0_el1 s) (ttbr1_el1 s) (mair_el1 s) (tcr_el1 s) (sctlr_el1 s) (tlb_flushes s) (daif s).
Definition set_pgtbl_bases lin l0 (s : machine) : machine :=
  Machine (m_pmm s) (m_ram s) (slab_linear_map_base s) (slab_l0_table_pa s) lin l0
    (ttbr0_el1 s) (ttbr1_el1 s) (mair_el1 s) (tcr_el1 s) (sctlr_el1 s) (tlb_flushes s) (daif s).
Definition set_ttbr0 r (s : machine) : machine :=
  Machine (m_pmm s) (m_ram s) (slab_linear_map_base s) (slab_l0_table_pa s) (linear_map_base s)
    (l0_table_pa s) r (ttbr1_el1 s) (mair_el1 s) (tcr_el1 s) (sctlr_el1 s) (tlb_flushes s) (daif s).
Definition set_sysregs mair tcr sctlr (s : machine) : machine :=
  Machine (m_pmm s) (m_ram s) (slab_linear_map_base s) (slab_l0_table_pa s) (linear_map_base s)
    (l0_table_pa s) (ttbr0_el1 s) (ttbr1_el1 s) mair tcr sctlr (tlb_flushes s) (daif s).
Definition set_tlb_flushes n (s : machine) : machine :=
  Machine (m_pmm s) (m_ram s) (slab_linear_map_base s) (slab_l0_table_pa s) (linear_map_base s)
    (l0_table_pa s) (ttbr0_el1 s) (ttbr1_el1 s) (mair_el1 s) (tcr_el1 s) (sctlr_el1 s) n (daif s).

Definition set_daif d (s : machine) : machine :=
  Machine (m_pmm s) (m_ram s) (slab_linear_map_base s) (slab_l0_table_pa s) (linear_map_base s)
    (l0_table_pa s) (ttbr0_el1 s) (ttbr1_el1 s) (mair_el1 s) (tcr_el1 s) (sctlr_el1 s) (tlb_flushes s) d.

(** The page allocator's operations act on their part of the state. *)
Definition on_pmm {A} (m : M pmm A) : M machine A := zoom m_pmm set_pmm m.

(** ** The linear map *)

Definition phys_to_virt (pa : Z) : M machine Z := gets (fun s => add64 (slab_linear_map_base s) pa).
Definition virt_to_phys (va : Z) : M machine Z := gets (fun s => sub64 va (slab_linear_map_base s)).
Definition va_in_linear_map (va : Z) : M machine bool := gets (fun s => slab_linear_map_base s <=? va).

(** ** Memory accesses through a kernel pointer *)

Definition ram_ok (pa : Z) : bool :=
  (PHYS_MEM_START <=? pa) && (pa + 7 <=? PHYS_MEM_END) && (pa mod 8 =? 0).
Definition ram_at (s : machine) (pa : Z) : Z := default 0 (m_ram s !! pa).

Definition ld64 (va : Z) : M machine Z :=
  pa ← virt_to_phys va;
  _ ← guard_ub (ram_ok pa);
  gets (fun s => ram_at s pa).

Definition st64 (va v : Z) : M machine unit :=
  pa ← virt_to_phys va;
  _ ← guard_ub (ram_ok pa);
  modify (fun s => set_ram (<[pa := v]> (m_ram s)) s).

(** [memset(va, 0, len)] of a word-aligned area, and the loops that zero or copy a page byte by
    byte: the same words are written. *)
Definition zero_mem (va len : Z) : M machine unit :=
  for_n (Z.to_nat (len / 8)) 0 (fun i => st64 (add64 va (8 * i)) 0).
Definition copy_mem (dst src len : Z) : M machine unit :=
  for_n (Z.to_nat (len / 8)) 0 (fun i =>
    v ← ld64 (add64 src (8 * i)); st64 (add64 dst (8 * i)) v).

(** ** TLB *)

Definition arch_tlb_flush_all : M machine unit :=
  modify (fun s => set_tlb_flushes (tlb_flushes s + 1) s).

(** ** Sizes ([include/mmu.h]) *)

Definition align_up_ul (x a : Z) : Z := Z.land (sub64 (add64 x a) 1) (not64 (sub64 a 1)).

(** The loops run at most once per bit of the word. *)
Definition ilog2_ul (x : Z) : M unit Z :=
  loop 65 (fun st : Z * Z =>
    let '(x, r) := st in
    if x >? 1 then mret (inl (shr64 x 1, u32 (r + 1))) else mret (inr r)) (x, 0).

Definition get_order_loop {S} (pages : Z) : M S Z :=
  loop 66 (fun st : Z * Z =>
    let '(n, order) := st in
    if n <? pages then mret (inl (shl64 n 1, u32 (order + 1))) else mret (inr order)) (1, 0).

Definition get_order_ul {S} (size : Z) : M S Z :=
  if size =? 0 then mret 0 else
  get_order_loop (shr64 (sub64 (add64 size PAGE_SIZE) 1) PAGE_SHIFT).
