(* ===== verification/Mmu.v ===== *)
(** The AArch64 four-level page tables ([kernel/mmu.c], [include/pgtbl.h], [kernel/pgtbl.c]):
    constants, walks, mapping, unmapping, copying and freeing of a table tree, and the system
    register values. *)
From S2P Require Import Prelude ListHead Pmm Machine.

(** ** Entries ([include/pgtbl.h]) *)

Definition PTRS_PER_PTE : Z := 512.
Definition ARM64_PTE_VALID : Z := Z.shiftl 1 0.
Definition ARM64_PTE_TYPE_BLOCK : Z := Z.shiftl 0 1.
Definition ARM64_PTE_TYPE_TABLE : Z := Z.shiftl 1 1.
Definition ARM64_PTE_TYPE_PAGE : Z := Z.shiftl 1 1.
Definition ARM64_PTE_AF : Z := Z.shiftl 1 10.
Definition ARM64_PTE_NG : Z := Z.shiftl 0 11.
Definition ARM64_PTE_SH_NON_SHAREABLE : Z := Z.shiftl 0 8.
Definition ARM64_PTE_SH_OUTER_SHAREABLE : Z := Z.shiftl 2 8.
Definition ARM64_PTE_SH_INNER_SHAREABLE : Z := Z.shiftl 3 8.
Definition ARM64_PTE_AP_KERNEL_RW_EL0_NONE : Z := Z.shiftl 0 6.
Definition ARM64_PTE_AP_KERNEL_RW_EL0_RW : Z := Z.shiftl 1 6.
Definition ARM64_PTE_AP_KERNEL_RO_EL0_NONE : Z := Z.shiftl 2 6.
Definition ARM64_PTE_AP_KERNEL_RO_EL0_RO : Z := Z.shiftl 3 6.
Definition ARM64_PTE_NS_RES0 : Z := Z.shiftl 0 5.
Definition ARM64_PTE_ATTRIDX (idx : Z) : Z := shl64 idx 2.
Definition ARM64_PTE_UXN : Z := Z.shiftl 1 54.
Definition ARM64_PTE_PXN : Z := Z.shiftl 1 53.

(** The six combinations of the header share everything but shareability, access permissions and
    the memory attribute index. *)
Definition page_prot (sh ap attr : Z) : Z :=
  Z.lor (Z.lor (Z.lor (Z.lor (Z.lor (Z.lor (Z.lor (Z.lor (Z.lor
    ARM64_PTE_VALID ARM64_PTE_TYPE_PAGE) ARM64_PTE_AF) ARM64_PTE_NG) sh) ap)
    ARM64_PTE_NS_RES0) (ARM64_PTE_ATTRIDX attr)) ARM64_PTE_UXN) ARM64_PTE_PXN.

Definition ARM64_PAGE_PROT : Z := page_prot ARM64_PTE_SH_INNER_SHAREABLE ARM64_PTE_AP_KERNEL_RW_EL0_NONE 0.
Definition PAGE_KERNEL_RW : Z := page_prot ARM64_PTE_SH_INNER_SHAREABLE ARM64_PTE_AP_KERNEL_RW_EL0_NONE 0.
Definition PAGE_KERNEL_RX : Z := page_prot ARM64_PTE_SH_INNER_SHAREABLE ARM64_PTE_AP_KERNEL_RO_EL0_NONE 0.
Definition PAGE_DMA : Z := page_prot ARM64_PTE_SH_INNER_SHAREABLE ARM64_PTE_AP_KERNEL_RW_EL0_NONE 1.
Definition PAGE_DEVICE : Z := page_prot ARM64_PTE_SH_NON_SHAREABLE ARM64_PTE_AP_KERNEL_RW_EL0_NONE 2.
Definition PAGE_USER_RW : Z := page_prot ARM64_PTE_SH_INNER_SHAREABLE ARM64_PTE_AP_KERNEL_RW_EL0_RW 0.
Definition PAGE_USER_RX : Z := page_prot ARM64_PTE_SH_INNER_SHAREABLE ARM64_PTE_AP_KERNEL_RO_EL0_RO 0.

Definition ARM64_TABLE_PROT : Z := Z.lor ARM64_PTE_VALID ARM64_PTE_TYPE_TABLE.
Definition ARM64_PTE_ADDR_MASK : Z := 0x0000FFFFFFFFF000.

Definition L0_INDEX (va : Z) : Z := Z.land (shr64 va 39) 0x1FF.
Definition L1_INDEX (va : Z) : Z := Z.land (shr64 va 30) 0x1FF.
Definition L2_INDEX (va : Z) : Z := Z.land (shr64 va 21) 0x1FF.
Definition L3_INDEX (va : Z) : Z := Z.land (shr64 va 12) 0x1FF.

Definition pte_to_phys (pte : Z) : Z := Z.land pte ARM64_PTE_ADDR_MASK.
Definition pte_present (pte : Z) : bool := negb (Z.land pte ARM64_PTE_VALID =? 0).

(** [table[idx]] through a kernel pointer. *)
Definition ld_pte (table idx : Z) : M machine Z := ld64 (add64 table (8 * idx)).
Definition st_pte (table idx pte : Z) : M machine unit := st64 (add64 table (8 * idx)) pte.

Definition pte_table_empty (table : Z) : M machine bool :=
  r ← find_n (Z.to_nat PTRS_PER_PTE) 0 (fun i =>
        pte ← ld_pte table i;
        mret (if pte =? 0 then None else Some tt));
  mret (match r with None => true | Some _ => false end).

(** ** Registers *)

Definition read_ttbr0 : M machine Z := gets ttbr0_el1.
Definition read_ttbr1 : M machine Z := gets ttbr1_el1.
Definition is_user_addr (va : Z) : bool := shr64 va 47 =? 0.
Definition flush_tlb : M machine unit := arch_tlb_flush_all.
Definition switch_ttbr0 (ttbr0_pa : Z) : M machine unit := _ ← modify (set_ttbr0 ttbr0_pa); flush_tlb.
Definition read_ttbr0_el1 : M machine Z := gets ttbr0_el1.
Definition read_ttbr1_el1 : M machine Z := gets ttbr1_el1.

(** ** Mapping one page *)

(** One of the three steps "look up the next table, creating it if the entry is not present". *)
Definition next_table (table idx : Z) : M machine (option Z) :=
  pte ← ld_pte table idx;
  if negb (pte_present pte) then
    pa ← on_pmm (alloc_phys_pages 0 GFP_KERNEL);
    if pa =? 0 then mret None else
    va ← phys_to_virt pa;
    _ ← zero_mem va PAGE_SIZE;
    _ ← st_pte table idx (Z.lor ARM64_TABLE_PROT pa);
    mret (Some pa)
  else mret (Some (pte_to_phys pte)).

Definition walk_root (va : Z) : M machine Z :=
  if is_user_addr va then read_ttbr0 else read_ttbr1.

Definition arm64_map_one_page (va pa prot : Z) : M machine Z :=
  l0_pa ← walk_root va;
  if l0_pa =? 0 then mret (-1) else
  l0 ← phys_to_virt l0_pa;
  r1 ← next_table l0 (L0_INDEX va);
  match r1 with None => mret (-1) | Some l1_pa =>
  l1 ← phys_to_virt l1_pa;
  r2 ← next_table l1 (L1_INDEX va);
  match r2 with None => mret (-1) | Some l2_pa =>
  l2 ← phys_to_virt l2_pa;
  r3 ← next_table l2 (L2_INDEX va);
  match r3 with None => mret (-1) | Some l3_pa =>
  l3 ← phys_to_virt l3_pa;
  _ ← st_pte l3 (L3_INDEX va) (Z.lor prot (Z.land pa ARM64_PTE_ADDR_MASK));
  mret 0
  end end end.

(** ** Unmapping one page *)

Definition arm64_unmap_one_page (va : Z) : M machine unit :=
  l0_pa ← walk_root va;
  if l0_pa =? 0 then mret tt else
  l0 ← phys_to_virt l0_pa;
  e0 ← ld_pte l0 (L0_INDEX va);
  if negb (pte_present e0) then mret tt else
  let l1_pa := pte_to_phys e0 in
  l1 ← phys_to_virt l1_pa;
  e1 ← ld_pte l1 (L1_INDEX va);
  if negb (pte_present e1) then mret tt else
  let l2_pa := pte_to_phys e1 in
  l2 ← phys_to_virt l2_pa;
  e2 ← ld_pte l2 (L2_INDEX va);
  if negb (pte_present e2) then mret tt else
  let l3_pa := pte_to_phys e2 in
  l3 ← phys_to_virt l3_pa;
  e3 ← ld_pte l3 (L3_INDEX va);
  if negb (pte_present e3) then mret tt else
  _ ← st_pte l3 (L3_INDEX va) 0;
  _ ← flush_tlb;
  empty3 ← pte_table_empty l3;
  if negb empty3 then mret tt else
  _ ← st_pte l2 (L2_INDEX va) 0;
  _ ← on_pmm (free_phys_pages l3_pa 0);
  empty2 ← pte_table_empty l2;
  if negb empty2 then mret tt else
  _ ← st_pte l1 (L1_INDEX va) 0;
  _ ← on_pmm (free_phys_pages l2_pa 0);
  empty1 ← pte_table_empty l1;
  if negb empty1 then mret tt else
  _ ← st_pte l0 (L0_INDEX va) 0;
  on_pmm (free_phys_pages l1_pa 0).

(** ** Translation *)

Definition arm64_get_phys_from_va (va : Z) : M machine Z :=
  l0_pa ← walk_root va;
  if l0_pa =? 0 then mret 0 else
  l0 ← phys_to_virt l0_pa;
  e0 ← ld_pte l0 (L0_INDEX va);
  if negb (pte_present e0) then mret 0 else
  l1 ← phys_to_virt (pte_to_phys e0);
  e1 ← ld_pte l1 (L1_INDEX va);
  if negb (pte_present e1) then mret 0 else
  l2 ← phys_to_virt (pte_to_phys e1);
  e2 ← ld_pte l2 (L2_INDEX va);
  if negb (pte_present e2) then mret 0 else
  l3 ← phys_to_virt (pte_to_phys e2);
  e3 ← ld_pte l3 (L3_INDEX va);
  if negb (pte_present e3) then mret 0 else
  mret (pte_to_phys e3).

(** ** Copying the user half of an address space *)

Definition for_entries (body : Z -> M machine unit) : M machine unit :=
  for_n (Z.to_nat PTRS_PER_PTE) 0 body.

(** The child's entry: a writable user page becomes read-only. *)
Definition cow_pte (pte : Z) : Z :=
  if negb (Z.land pte (Z.shiftl 1 6) =? 0) && (Z.land pte (Z.shiftl 1 7) =? 0)
  then Z.lor pte (Z.shiftl 1 7) else pte.

Definition copy_l3_entry (src_l3 dst_l3 idx3 : Z) : M machine unit :=
  pte ← ld_pte src_l3 idx3;
  if negb (pte_present pte) then mret tt else
  _ ← st_pte dst_l3 idx3 (cow_pte pte);
  pte ← ld_pte src_l3 idx3;
  on_pmm (get_page (pte_to_phys pte)).

(** One entry of an upper level: find or create the destination table, then visit the pair of
    next-level tables. *)
Definition copy_entry (visit : Z -> Z -> M machine unit) (src dst idx : Z) : M machine unit :=
  e ← ld_pte src idx;
  if negb (pte_present e) then mret tt else
  src' ← phys_to_virt (pte_to_phys e);
  r ← next_table dst idx;
  match r with
  | None => mret tt
  | Some _ =>
      d ← ld_pte dst idx;
      dst' ← phys_to_virt (pte_to_phys d);
      visit src' dst'
  end.

Definition copy_user_page_table (src_pgd_pa dst_pgd_pa : Z) : M machine unit :=
  src_l0 ← phys_to_virt src_pgd_pa;
  dst_l0 ← phys_to_virt dst_pgd_pa;
  for_entries (copy_entry (fun src_l1 dst_l1 =>
    for_entries (copy_entry (fun src_l2 dst_l2 =>
      for_entries (copy_entry (fun src_l3 dst_l3 =>
        for_entries (copy_l3_entry src_l3 dst_l3)) src_l2 dst_l2)) src_l1 dst_l1)) src_l0 dst_l0).

(** ** Freeing a table tree *)

Definition free_l3_entry (l3 idx3 : Z) : M machine unit :=
  e ← ld_pte l3 idx3;
  if pte_present e then on_pmm (put_page (pte_to_phys e)) else mret tt.

Definition free_entry (visit : Z -> M machine unit) (table idx : Z) : M machine unit :=
  e ← ld_pte table idx;
  if negb (pte_present e) then mret tt else
  next ← phys_to_virt (pte_to_phys e);
  _ ← visit next;
  e ← ld_pte table idx;
  on_pmm (free_phys_pages (pte_to_phys e) 0).

Definition free_page_table_tree (pgd_pa : Z) : M machine unit :=
  l0 ← phys_to_virt pgd_pa;
  _ ← for_entries (free_entry (fun l1 =>
        for_entries (free_entry (fun l2 =>
          for_entries (free_entry (fun l3 => for_entries (free_l3_entry l3)) l2)) l1)) l0);
  on_pmm (free_phys_pages pgd_pa 0).

(** ** The debugging dump: the lines it prints, in order *)

Inductive dump_line : Type :=
| DumpPgd (pgd : Z)
| DumpL0 (idx pa : Z)
| DumpL1 (idx pa : Z)
| DumpL2Table (idx pa : Z)
| DumpL3 (idx va pa prot : Z)
| DumpL2Block (idx va pa prot : Z).

(** A loop over the entries of a table that collects output. *)
Fixpoint collect_entries (n : nat) (idx : Z) (body : Z -> M machine (list dump_line)) :
    M machine (list dump_line) :=
  match n with
  | O => mret []
  | S n' => out ← body idx; rest ← collect_entries n' (idx + 1) body; mret (out ++ rest)
  end.
Definition dump_entries := collect_entries (Z.to_nat PTRS_PER_PTE) 0.

Definition dump_l3 (idx0 idx1 idx2 l3 idx3 : Z) : M machine (list dump_line) :=
  e ← ld_pte l3 idx3;
  if negb (pte_present e) then mret [] else
  let va := Z.lor (Z.lor (Z.lor (shl64 idx0 39) (shl64 idx1 30)) (shl64 idx2 21)) (shl64 idx3 12) in
  mret [DumpL3 idx3 va (pte_to_phys e) (Z.land e (not64 ARM64_PTE_ADDR_MASK))].

Definition dump_l2 (idx0 idx1 l2 idx2 : Z) : M machine (list dump_line) :=
  e ← ld_pte l2 idx2;
  if negb (pte_present e) then mret [] else
  if negb (Z.land e ARM64_PTE_TYPE_TABLE =? 0) then
    l3 ← phys_to_virt (pte_to_phys e);
    out ← dump_entries (dump_l3 idx0 idx1 idx2 l3);
    mret (DumpL2Table idx2 (pte_to_phys e) :: out)
  else
    let va := Z.lor (Z.lor (shl64 idx0 39) (shl64 idx1 30)) (shl64 idx2 21) in
    mret [DumpL2Block idx2 va (pte_to_phys e) (Z.land e (not64 ARM64_PTE_ADDR_MASK))].

Definition dump_page_table (pgd_pa : Z) : M machine (list dump_line) :=
  l0 ← phys_to_virt pgd_pa;
  out ← dump_entries (fun idx0 =>
    e0 ← ld_pte l0 idx0;
    if negb (pte_present e0) then mret [] else
    l1 ← phys_to_virt (pte_to_phys e0);
    out ← dump_entries (fun idx1 =>
      e1 ← ld_pte l1 idx1;
      if negb (pte_present e1) then mret [] else
      l2 ← phys_to_virt (pte_to_phys e1);
      out ← dump_entries (dump_l2 idx0 idx1 l2);
      mret (DumpL1 idx1 (pte_to_phys e1) :: out));
    mret (DumpL0 idx0 (pte_to_phys e0) :: out));
  mret (DumpPgd pgd_pa :: out).

(** ** System registers *)

Definition set_bits (bits : list (Z * Z)) : Z := foldl (fun r '(v, n) => Z.lor r (shl64 v n)) 0 bits.

Definition MAIR_EL1_VALUE : Z :=
  set_bits [(0xFF, 0); (0x44, 8); (0, 16); (0, 24); (0, 32); (0, 40); (0, 48); (0, 56)].
Definition TCR_EL1_VALUE : Z :=
  set_bits [(16, 0); (0, 14); (2, 12); (1, 10); (1, 8); (16, 16); (2, 30); (2, 28); (1, 26); (1, 24); (2, 32)].
Definition SCTLR_EL1_VALUE : Z :=
  set_bits [(1, 0); (1, 1); (1, 2); (1, 3); (1, 4); (0, 5); (0, 6); (1, 7); (1, 8); (0, 9); (0, 10);
            (1, 11); (1, 12); (0, 13); (0, 14); (0, 15); (0, 16); (0, 17); (0, 18); (1, 19); (0, 20);
            (1, 21); (1, 22); (1, 23); (0, 24); (0, 25); (0, 26); (0, 27); (0, 28); (1, 29); (0, 30);
            (0, 31); (0, 32)].

Definition set_mair_el1 : M machine unit :=
  modify (fun s => set_sysregs MAIR_EL1_VALUE (tcr_el1 s) (sctlr_el1 s) s).
Definition set_tcr_el1 : M machine unit :=
  modify (fun s => set_sysregs (mair_el1 s) TCR_EL1_VALUE (sctlr_el1 s) s).
Definition set_sctlr_el1 : M machine unit :=
  modify (fun s => set_sysregs (mair_el1 s) (tcr_el1 s) SCTLR_EL1_VALUE s).

(** ** The architecture-independent names, and [kernel/pgtbl.c] *)

Definition map_page := arm64_map_one_page.
Definition unmap_page := arm64_unmap_one_page.
Definition get_phys_from_va := arm64_get_phys_from_va.
Definition flush_tlb_all := flush_tlb.
Definition copy_user_pgd := copy_user_page_table.
Definition free_pgd_tree := free_page_table_tree.

Definition sync_bases : M machine unit :=
  modify (fun s => set_pgtbl_bases (slab_linear_map_base s) (slab_l0_table_pa s) s).

Definition pgtbl_map_one_page (va pa prot : Z) : M machine Z :=
  _ ← sync_bases; map_page va pa prot.
Definition pgtbl_unmap_one_page (va : Z) : M machine unit :=
  _ ← sync_bases; unmap_page va.

(** [(size + 4095) & ~4095]; the number of rounds of the loops over [off]. *)
Definition range_len (size : Z) : Z := Z.land (add64 size 4095) (not64 4095).

Definition pgtbl_map_range (va pa size prot : Z) : M machine Z :=
  r ← find_n (Z.to_nat (range_len size / 4096)) 0 (fun k =>
        let off := k * 4096 in
        r ← pgtbl_map_one_page (add64 va off) (add64 pa off) prot;
        mret (if r =? 0 then None else Some tt));
  mret (match r with None => 0 | Some _ => -1 end).

Definition pgtbl_unmap_range (va size : Z) : M machine unit :=
  for_n (Z.to_nat (range_len size / 4096)) 0 (fun k => pgtbl_unmap_one_page (add64 va (k * 4096))).

Definition map_kernel_page (va pa prot : Z) : M machine unit :=
  _ ← pgtbl_map_one_page va pa prot; mret tt.
Definition unmap_kernel_page (va : Z) : M machine unit := pgtbl_unmap_one_page va.
