(* ===== verification/MmuTheory.v ===== *)
(** Correctness of the page-table operations.

    [walk s t p] follows the path [p] of table indices from the table at [t] in RAM.  [pt_inv D s root]
    says that the tables reachable from [root] through top-level indices in [D] form a tree: every
    table is a page frame of its own, and every table below the root is a live single page of the
    page allocator.  (Indices outside [D] are not restricted: the boot code puts block entries
    there.)  [leaf] is the abstract content of the tree; mapping and unmapping change it at one
    address only. *)
From S2P Require Import Prelude ListHead Pmm PmmTheory PmmOps PmmProps Machine Mmu.

(** ** Memory accesses *)

Lemma linear_cancel L t x : sub64 (add64 (add64 L t) x) L = u64 (t + x).
Proof. unfold sub64, add64, u64. lia. Qed.

Definition entry (s : machine) (t i : Z) : Z := ram_at s (t + 8 * i).

Definition page_ok (f : Z) : Prop := 0 <= f < TOTAL_PAGES.
Definition idx_ok (i : Z) : Prop := 0 <= i < PTRS_PER_PTE.

Lemma entry_addr f i : page_ok f -> idx_ok i ->
  u64 (frame_addr f + 8 * i) = frame_addr f + 8 * i /\ ram_ok (frame_addr f + 8 * i) = true.
Proof.
  unfold page_ok, idx_ok, PTRS_PER_PTE, ram_ok, frame_addr, PHYS_MEM_START, PHYS_MEM_END.
  rewrite TOTAL_PAGES_eq, PAGE_SIZE_eq. intros. split; [apply u64_small; lia|]. lia.
Qed.

Lemma entry_addr_inj f g i j : idx_ok i -> idx_ok j ->
  frame_addr f + 8 * i = frame_addr g + 8 * j -> f = g /\ i = j.
Proof. unfold idx_ok, PTRS_PER_PTE, frame_addr. rewrite PAGE_SIZE_eq. lia. Qed.

Lemma frame_addr_inj f g : frame_addr f = frame_addr g -> f = g.
Proof. unfold frame_addr. rewrite PAGE_SIZE_eq. lia. Qed.

Definition set_entry (t i v : Z) (s : machine) : machine := set_ram (<[t + 8 * i := v]> (m_ram s)) s.

Lemma entry_set_entry f i v g j s : idx_ok i -> idx_ok j ->
  entry (set_entry (frame_addr f) i v s) (frame_addr g) j =
  if decide (g = f /\ j = i) then v else entry s (frame_addr g) j.
Proof.
  intros Hi Hj. unfold entry, ram_at, set_entry. simpl. rewrite lookup_insert.
  repeat case_decide; simpl; try done.
  - exfalso. destruct (entry_addr_inj f g i j) as [-> ->]; done || tauto.
  - destruct H0 as [-> ->]. tauto.
Qed.

Lemma wp_ld_pte f i Q s : page_ok f -> idx_ok i -> Q (entry s (frame_addr f) i) s ->
  wp (ld_pte (add64 (slab_linear_map_base s) (frame_addr f)) i) Q s.
Proof.
  intros Hf Hi HQ. unfold ld_pte, ld64, virt_to_phys. do 2 wp_step. rewrite linear_cancel.
  destruct (entry_addr f i Hf Hi) as [-> Hok]. wp_step. apply wp_guard; [done|]. by wp_step.
Qed.

Lemma wp_st_pte f i v Q s : page_ok f -> idx_ok i -> Q tt (set_entry (frame_addr f) i v s) ->
  wp (st_pte (add64 (slab_linear_map_base s) (frame_addr f)) i v) Q s.
Proof.
  intros Hf Hi HQ. unfold st_pte, st64, virt_to_phys. do 2 wp_step. rewrite linear_cancel.
  destruct (entry_addr f i Hf Hi) as [-> Hok]. wp_step. apply wp_guard; [done|]. by wp_step.
Qed.

Lemma wp_phys_to_virt pa Q s : Q (add64 (slab_linear_map_base s) pa) s -> wp (phys_to_virt pa) Q s.
Proof. done. Qed.

(** [s'] has the registers of [s]. *)
Definition same_regs (s s' : machine) : Prop := s' = set_pmm (m_pmm s') (set_ram (m_ram s') (set_tlb_flushes (tlb_flushes s') s)).

Lemma same_regs_refl s : same_regs s s.
Proof. by destruct s. Qed.
Lemma same_regs_trans s1 s2 s3 : same_regs s1 s2 -> same_regs s2 s3 -> same_regs s1 s3.
Proof. unfold same_regs. intros -> ->. done. Qed.
Lemma same_regs_base s s' : same_regs s s' -> slab_linear_map_base s' = slab_linear_map_base s.
Proof. by intros ->. Qed.

Lemma wp_zero_page f Q s : page_ok f ->
  (forall s', same_regs s s' -> m_pmm s' = m_pmm s ->
     (forall i, idx_ok i -> entry s' (frame_addr f) i = 0) ->
     (forall g i, g <> f -> idx_ok i -> entry s' (frame_addr g) i = entry s (frame_addr g) i) -> Q tt s') ->
  wp (zero_mem (add64 (slab_linear_map_base s) (frame_addr f)) PAGE_SIZE) Q s.
Proof.
  intros Hf HQ. unfold zero_mem.
  pose proof (wp_for_n (fun k s' => same_regs s s' /\ m_pmm s' = m_pmm s /\
     (forall i, idx_ok i -> i < k -> entry s' (frame_addr f) i = 0) /\
     (forall g i, g <> f -> idx_ok i -> entry s' (frame_addr g) i = entry s (frame_addr g) i))
    (fun i => st64 (add64 (add64 (slab_linear_map_base s) (frame_addr f)) (8 * i)) 0)
    (Z.to_nat (PAGE_SIZE / 8)) 0 s) as Hfor.
  eapply wp_mono; [apply Hfor|].
  - split_and!; [apply same_regs_refl|done|unfold idx_ok; lia|done].
  - clear Hfor HQ. intros k s1 Hk (Hr & Hp & Hz & Ho).
    assert (Hik : idx_ok k) by (unfold idx_ok, PTRS_PER_PTE; rewrite PAGE_SIZE_eq in *; lia).
    rewrite <- (same_regs_base _ _ Hr). apply (wp_st_pte f k 0); [done|done|].
    split_and!; [by eapply same_regs_trans|done| |].
    + intros i Hi Hlt. rewrite entry_set_entry by done. case_decide as E; [done|].
      apply Hz; [done|]. assert (i <> k) by tauto. lia.
    + intros g i Hg Hi. rewrite entry_set_entry by done. rewrite decide_False by tauto. by apply Ho.
  - intros [] s' (Hr & Hp & Hz & Ho). apply HQ; [done|done| |done].
    intros i Hi. apply Hz; [done|]. unfold idx_ok, PTRS_PER_PTE in Hi. rewrite PAGE_SIZE_eq. lia.
Qed.

(** ** Table entries *)

Lemma land_addr_mask n : 0 <= n < 2 ^ 48 -> n mod 4096 = 0 -> Z.land n ARM64_PTE_ADDR_MASK = n.
Proof.
  intros Hn Hm. apply Z.mod_divide in Hm as [k ->]; [|lia].
  change ARM64_PTE_ADDR_MASK with (Z.shiftl (Z.ones 36) 12). change 4096 with (2 ^ 12).
  rewrite <- Z.shiftl_mul_pow2 by lia. rewrite <- Z.shiftl_land. f_equal.
  rewrite Z.land_ones by lia. apply Z.mod_small. lia.
Qed.

Lemma frame_addr_bounds f : page_ok f ->
  0 < frame_addr f < 2 ^ 48 /\ frame_addr f mod 4096 = 0.
Proof.
  unfold page_ok, frame_addr, PHYS_MEM_START. rewrite TOTAL_PAGES_eq, PAGE_SIZE_eq. lia.
Qed.

Lemma table_entry f : page_ok f ->
  pte_present (Z.lor ARM64_TABLE_PROT (frame_addr f)) = true /\
  pte_to_phys (Z.lor ARM64_TABLE_PROT (frame_addr f)) = frame_addr f.
Proof.
  intros Hf. destruct (frame_addr_bounds f Hf) as [Hb Hm]. split.
  - unfold pte_present. change ARM64_PTE_VALID with (2 ^ 1 - 1).
    rewrite land_mask by lia. apply negb_true_iff, Z.eqb_neq. change (2 ^ 1) with 2.
    assert (Z.odd (Z.lor ARM64_TABLE_PROT (frame_addr f)) = true) as Hodd.
    { rewrite <- Z.bit0_odd, Z.lor_spec. done. }
    rewrite Zmod_odd, Hodd. done.
  - unfold pte_to_phys. rewrite Z.land_lor_distr_l. change (Z.land ARM64_TABLE_PROT ARM64_PTE_ADDR_MASK) with 0.
    rewrite Z.lor_0_l. apply land_addr_mask; [lia|done].
Qed.

Lemma not_present_0 : pte_present 0 = false.
Proof. done. Qed.

(** ** Walks *)

Fixpoint walk (s : machine) (t : Z) (p : list Z) : option Z :=
  match p with
  | [] => Some t
  | i :: p' => let e := entry s t i in if pte_present e then walk s (pte_to_phys e) p' else None
  end.

Lemma walk_app s t p q : walk s t (p ++ q) = walk s t p ≫= fun t' => walk s t' q.
Proof. revert t. induction p as [|i p IH]; intros t; simpl; [done|]. case_match; [apply IH|done]. Qed.

(** A walk only depends on the entries it reads. *)
Lemma walk_frame s s' t p :
  (forall p' j q t', p = p' ++ j :: q -> walk s t p' = Some t' -> entry s' t' j = entry s t' j) ->
  walk s' t p = walk s t p.
Proof.
  revert t. induction p as [|i p IH]; intros t Hf; simpl; [done|].
  rewrite (Hf [] i p t) by done. case_match eqn:E; [|done]. apply IH.
  intros p' j q t' -> Hw. apply (Hf (i :: p') j q); [done|]. simpl. by rewrite E.
Qed.

(** The paths of a tree restricted to the top-level indices [D]. *)
Definition path_ok (D : Z -> bool) (p : list Z) : Prop :=
  Forall idx_ok p /\ (length p <= 3)%nat /\ match p with [] => True | i :: _ => D i = true end.

Lemma path_ok_prefix D p q : path_ok D (p ++ q) -> path_ok D p.
Proof.
  intros (Hf & Hl & Hd). apply Forall_app in Hf as [Hf _]. rewrite length_app in Hl.
  split_and!; [done|lia|]. by destruct p.
Qed.

(** A frame the page allocator will not hand out. *)
Definition held (s : pmm) (f : Z) : Prop :=
  f < first_pfn s \/ exists x o, live s x o /\ x <= f < x + 2 ^ o.

Lemma live_held s f : live s f 0 -> held s f.
Proof. intros. right. exists f, 0. split; [done|]. change (2 ^ 0) with 1. lia. Qed.

Record pt_inv (D : Z -> bool) (s : machine) (root : Z) : Prop := {
  pt_pmm : buddy_inv (m_pmm s);
  pt_tab : forall p t, path_ok D p -> walk s root p = Some t ->
    exists f, page_ok f /\ t = frame_addr f /\ held (m_pmm s) f /\ (p <> [] -> live (m_pmm s) f 0);
  pt_inj : forall p q t, path_ok D p -> path_ok D q ->
    walk s root p = Some t -> walk s root q = Some t -> p = q;
}.

(** The entry for a path of three table indices and a last index. *)
Definition leaf (s : machine) (root : Z) (p : list Z) (i : Z) : option Z :=
  match walk s root p with
  | Some t => let e := entry s t i in if pte_present e then Some e else None
  | None => None
  end.

Definition not_table D (s : machine) root (f : Z) : Prop :=
  forall p, path_ok D p -> walk s root p <> Some (frame_addr f).

(** A held frame stays what it is: part of the same live block, with the same references. *)
Record stays (s s' : pmm) (f : Z) : Prop := {
  st_held : held s' f;
  st_live : forall o, live s f o -> live s' f o;
  st_ref : pg_ref_count (page_at s' f) = pg_ref_count (page_at s f);
}.
Lemma stays_refl s f : held s f -> stays s s f.
Proof. by split. Qed.
Lemma stays_trans s1 s2 s3 f : stays s1 s2 f -> stays s2 s3 f -> stays s1 s3 f.
Proof. intros [H1 L1 R1] [H2 L2 R2]. split; [done|auto|congruence]. Qed.

(** What an operation on the tree leaves alone: the registers, and every held frame that is not a
    table. *)
Record pt_frame D (s s' : machine) root : Prop := {
  fr_regs : same_regs s s';
  fr_rest : forall f, held (m_pmm s) f -> not_table D s root f ->
    stays (m_pmm s) (m_pmm s') f /\ not_table D s' root f /\
    forall i, idx_ok i -> entry s' (frame_addr f) i = entry s (frame_addr f) i;
}.

Lemma pt_frame_refl D s root : pt_frame D s s root.
Proof. split; [apply same_regs_refl|]. intros f Hf Hn. split; [by apply stays_refl|done]. Qed.

Lemma pt_frame_trans D s1 s2 s3 root : pt_frame D s1 s2 root -> pt_frame D s2 s3 root -> pt_frame D s1 s3 root.
Proof.
  intros [Hr1 H1] [Hr2 H2]. split; [by eapply same_regs_trans|]. intros f Hh Hn.
  destruct (H1 f Hh Hn) as (Hh' & Hn' & He). destruct (H2 f (st_held _ _ _ Hh') Hn') as (Hh2 & Hn2 & He2).
  split_and!; [by eapply stays_trans|done|]. intros i Hi. by rewrite He2, He.
Qed.

(** The tree grew: nothing that was reachable is lost, and the leaves are the same. *)
Record grow D (s s' : machine) root : Prop := {
  gr_inv : pt_inv D s' root;
  gr_walk : forall p t, path_ok D p -> walk s root p = Some t -> walk s' root p = Some t;
  gr_leaf : forall p i, path_ok D p -> length p = 3%nat -> idx_ok i -> leaf s' root p i = leaf s root p i;
  gr_frame : pt_frame D s s' root;
}.

Lemma grow_refl D s root : pt_inv D s root -> grow D s s root.
Proof. intros. split; [done|done|done|apply pt_frame_refl]. Qed.

Lemma grow_trans D s1 s2 s3 root : grow D s1 s2 root -> grow D s2 s3 root -> grow D s1 s3 root.
Proof.
  intros [_ Hw1 Hl1 Hf1] [Hi2 Hw2 Hl2 Hf2]. split; [done|naive_solver| |by eapply pt_frame_trans].
  intros. by rewrite Hl2, Hl1.
Qed.

(** ** Frames that are handed out are fresh *)

Lemma free_not_held s p h : buddy_inv s -> block_at s p = Some (true, h) -> ~ held s p.
Proof.
  intros Hi Hb. destruct (block_range _ _ _ _ Hi Hb) as (Hh & _ & Hk & _). simpl in *.
  pose proof (pow2_pos h ltac:(lia)). intros [?|(x & o & Hl & Hx)]; [lia|].
  by destruct (binv_disjoint _ _ Hi _ _ _ _ _ _ p Hb Hl ltac:(lia) Hx).
Qed.

Lemma allocated_held s dma p s' f : allocated s 0 dma p s' -> held s f -> held s' f.
Proof.
  intros Hal [Hf|(x & o & Hl & Hx)].
  - left. by rewrite (first_pfn_eq _ _ (proj1 (al_zone _ _ _ _ _ Hal))).
  - right. exists x, o. split; [|done]. apply (al_live _ _ _ _ _ Hal). by left.
Qed.

Lemma allocated_fresh s dma p s' : buddy_inv s -> allocated s 0 dma p s' -> ~ held s p /\ live s' p 0 /\ page_ok p.
Proof.
  intros Hi Hal. destruct (al_from _ _ _ _ _ Hal) as (h & _ & Hb & _).
  destruct (al_aligned _ _ _ _ _ Hal) as (_ & ? & Ht). change (2 ^ 0) with 1 in Ht.
  destruct (binv_start _ _ Hi) as [_ ?]. split; [by eapply free_not_held|]. split.
  - apply (al_live _ _ _ _ _ Hal). by right.
  - unfold page_ok. lia.
Qed.

Lemma released_held s p s' f : released s p 0 s' -> live s p 0 -> f <> p -> held s f -> held s' f.
Proof.
  intros Hrl Hp Hne [Hf|(x & o & Hl & Hx)].
  - left. by rewrite (first_pfn_eq _ _ (proj1 (rl_zone _ _ _ _ Hrl))).
  - right. exists x, o. split; [|done]. apply (rl_live _ _ _ _ Hrl). split; [done|].
    intros ->. assert (o = 0) as -> by (unfold live in *; congruence). change (2 ^ 0) with 1 in Hx. lia.
Qed.

(** ** Growing the tree by one table *)

Lemma extends_dec (p : list Z) i q : (exists r, q = p ++ i :: r) \/ (forall r, q <> p ++ i :: r).
Proof.
  destruct (decide ((p ++ [i]) `prefix_of` q)) as [[r ->]|Hn].
  - left. exists r. by rewrite <- app_assoc.
  - right. intros r ->. apply Hn. exists r. by rewrite <- app_assoc.
Qed.

(** The state between the allocation of the new table [n] and its linking. *)
Record fresh_table (s s1 : machine) (n : Z) : Prop := {
  ft_regs : same_regs s s1;
  ft_pmm : buddy_inv (m_pmm s1);
  ft_new : ~ held (m_pmm s) n /\ live (m_pmm s1) n 0 /\ page_ok n;
  ft_held : forall f, held (m_pmm s) f -> held (m_pmm s1) f;
  ft_live : forall f o, live (m_pmm s) f o -> live (m_pmm s1) f o;
  ft_ref : forall f, f <> n -> pg_ref_count (page_at (m_pmm s1) f) = pg_ref_count (page_at (m_pmm s) f);
  ft_zero : forall i, idx_ok i -> entry s1 (frame_addr n) i = 0;
  ft_rest : forall g i, g <> n -> idx_ok i -> entry s1 (frame_addr g) i = entry s (frame_addr g) i;
}.

Section link.
Context (D : Z -> bool) (s s1 : machine) (root : Z) (p : list Z) (f i n : Z).
Hypothesis inv : pt_inv D s root.
Hypothesis ok : path_ok D (p ++ [i]).
Hypothesis at_f : walk s root p = Some (frame_addr f).
Hypothesis f_ok : page_ok f.
Hypothesis absent : pte_present (entry s (frame_addr f) i) = false.
Hypothesis fresh : fresh_table s s1 n.

Let s2 := set_entry (frame_addr f) i (Z.lor ARM64_TABLE_PROT (frame_addr n)) s1.

Lemma link_idx : idx_ok i /\ (length p < 3)%nat.
Proof using ok.
  destruct ok as (Hf & Hl & _). apply Forall_app in Hf as [_ Hf]. rewrite length_app in Hl. simpl in Hl.
  split; [|lia]. by apply Forall_cons in Hf as [? _].
Qed.

Lemma link_table q t : path_ok D q -> walk s root q = Some t -> exists g, t = frame_addr g /\ g <> n /\
  held (m_pmm s) g /\ page_ok g.
Proof using inv fresh.
  intros Hq Hw. destruct (pt_tab _ _ _ inv _ _ Hq Hw) as (g & ? & -> & Hh & _).
  exists g. split_and!; try done. intros ->. by apply (proj1 (ft_new _ _ _ fresh)).
Qed.

Lemma link_f_ne : f <> n.
Proof using inv ok at_f fresh.
  destruct (link_table p (frame_addr f)) as (g & E & Hg & _); [by eapply path_ok_prefix|done|].
  by rewrite (frame_addr_inj _ _ E).
Qed.

Lemma link_entry g j : g <> n -> idx_ok j -> ~ (g = f /\ j = i) ->
  entry s2 (frame_addr g) j = entry s (frame_addr g) j.
Proof using ok fresh.
  intros Hg Hj Hne. unfold s2. rewrite entry_set_entry by (done || apply link_idx).
  rewrite decide_False by done. by apply (ft_rest _ _ _ fresh).
Qed.

Lemma link_entry_f : entry s2 (frame_addr f) i = Z.lor ARM64_TABLE_PROT (frame_addr n).
Proof using ok. unfold s2. rewrite entry_set_entry by apply link_idx. by rewrite decide_True. Qed.

Lemma link_walk_other q : path_ok D q -> (forall r, q <> p ++ i :: r) -> walk s2 root q = walk s root q.
Proof using inv ok at_f fresh.
  intros Hq Hne. apply walk_frame. intros p' j q' t' -> Hw.
  assert (Hp' : path_ok D p') by (by eapply path_ok_prefix).
  destruct (link_table p' t' Hp' Hw) as (g & -> & Hg & _). apply link_entry; [done| |].
  - destruct Hq as (Hf & _). apply Forall_app in Hf as [_ Hf]. by apply Forall_cons in Hf as [? _].
  - intros [-> ->]. assert (p' = p) as ->; [|by apply (Hne q')].
    eapply (pt_inj _ _ _ inv); [done|by eapply path_ok_prefix|done|done].
Qed.

Lemma link_walk_new r : path_ok D (p ++ i :: r) ->
  walk s2 root (p ++ i :: r) = match r with [] => Some (frame_addr n) | _ => None end.
Proof using inv ok at_f fresh.
  intros Hq. rewrite walk_app, link_walk_other, at_f; [|by eapply path_ok_prefix|].
  2:{ intros r' E. apply (f_equal length) in E. rewrite length_app in E. simpl in E. lia. }
  simpl. rewrite link_entry_f. destruct (table_entry n) as [-> ->]; [apply (ft_new _ _ _ fresh)|].
  destruct r as [|j r]; [done|]. simpl.
  assert (Hj : idx_ok j).
  { destruct Hq as (Hf & _). apply Forall_app in Hf as [_ Hf]. do 2 apply Forall_cons in Hf as [? Hf]. done. }
  unfold s2. rewrite entry_set_entry by (done || apply link_idx).
  rewrite decide_False by (intros [E _]; symmetry in E; by apply link_f_ne).
  by rewrite (ft_zero _ _ _ fresh).
Qed.

Lemma link_walk_old r : walk s root (p ++ i :: r) = None.
Proof using at_f absent. rewrite walk_app, at_f. simpl. by rewrite absent. Qed.

Lemma link_inv : pt_inv D s2 root.
Proof using inv ok at_f fresh.
  split.
  - apply (ft_pmm _ _ _ fresh).
  - intros q t Hq Hw. destruct (extends_dec p i q) as [[r ->]|Hne].
    + rewrite link_walk_new in Hw by done. destruct r; [|done]. injection Hw as <-.
      destruct (ft_new _ _ _ fresh) as (_ & Hl & Hok). exists n. split_and!; [done|done| |done].
      by apply live_held.
    + rewrite link_walk_other in Hw by done.
      destruct (pt_tab _ _ _ inv _ _ Hq Hw) as (g & ? & ? & Hh & Hl). exists g.
      split_and!; [done|done|by apply (ft_held _ _ _ fresh)|intros; by apply (ft_live _ _ _ fresh), Hl].
  - intros q q' t Hq Hq' Hw Hw'.
    destruct (extends_dec p i q) as [[r ->]|Hne], (extends_dec p i q') as [[r' ->]|Hne'].
    + rewrite link_walk_new in Hw, Hw' by done. by destruct r, r'.
    + rewrite link_walk_new in Hw by done. rewrite link_walk_other in Hw' by done.
      destruct r; [|done]. injection Hw as <-. destruct (link_table q' _ Hq' Hw') as (g & E & Hg & _).
      apply frame_addr_inj in E. congruence.
    + rewrite link_walk_new in Hw' by done. rewrite link_walk_other in Hw by done.
      destruct r'; [|done]. injection Hw' as <-. destruct (link_table q _ Hq Hw) as (g & E & Hg & _).
      apply frame_addr_inj in E. congruence.
    + rewrite link_walk_other in Hw, Hw' by done. by eapply (pt_inj _ _ _ inv).
Qed.

Lemma link_leaf q j : path_ok D q -> length q = 3%nat -> idx_ok j -> leaf s2 root q j = leaf s root q j.
Proof using inv ok at_f absent fresh.
  intros Hq Hlen Hj. unfold leaf. destruct (extends_dec p i q) as [[r ->]|Hne].
  - rewrite link_walk_old, link_walk_new by done. destruct r; [|done].
    unfold s2. rewrite entry_set_entry by (done || apply link_idx).
    rewrite decide_False by (intros [E _]; symmetry in E; by apply link_f_ne).
    by rewrite (ft_zero _ _ _ fresh).
  - rewrite link_walk_other by done. destruct (walk s root q) as [t|] eqn:Hw; [|done].
    destruct (link_table q t Hq Hw) as (g & -> & Hg & _). rewrite link_entry; [done|done|done|].
    intros [-> ->]. assert (q = p) as ->; [|pose proof (proj2 link_idx); lia].
    eapply (pt_inj _ _ _ inv); [done|by eapply path_ok_prefix|done|done].
Qed.

Lemma link_grow : grow D s s2 root /\ walk s2 root (p ++ [i]) = Some (frame_addr n).
Proof using All.
  split; [|by apply link_walk_new]. split.
  - apply link_inv.
  - intros q t Hq Hw. destruct (extends_dec p i q) as [[r ->]|Hne].
    + by rewrite link_walk_old in Hw.
    + by rewrite link_walk_other.
  - apply link_leaf.
  - split; [eapply same_regs_trans; [apply (ft_regs _ _ _ fresh)|done]|].
    intros g Hg Hnt. assert (g <> n) by (intros ->; by apply (proj1 (ft_new _ _ _ fresh))).
    split_and!; [split; [by apply (ft_held _ _ _ fresh)|apply (ft_live _ _ _ fresh)|by apply (ft_ref _ _ _ fresh)]| |].
    + intros q Hq Hw. destruct (extends_dec p i q) as [[r ->]|Hne].
      * rewrite link_walk_new in Hw by done. destruct r; [|done]. injection Hw as E.
        apply frame_addr_inj in E. congruence.
      * rewrite link_walk_other in Hw by done. by apply (Hnt q).
    + intros j Hj. apply link_entry; [done|done|]. intros [-> _].
      apply (Hnt p); [by eapply path_ok_prefix|done].
Qed.
End link.

Lemma wp_on_pmm {A} (m : M pmm A) Q s :
  wp m (fun a p => Q a (set_pmm p s)) (m_pmm s) -> wp (on_pmm m) Q s.
Proof. apply wp_zoom. Qed.

(** Only the allocator's error code changed. *)
Lemma pt_inv_same_blocks D s s' root :
  pt_inv D s root -> m_ram s' = m_ram s -> buddy_inv (m_pmm s') ->
  (forall f, held (m_pmm s) f -> held (m_pmm s') f) ->
  (forall f, live (m_pmm s) f 0 -> live (m_pmm s') f 0) -> pt_inv D s' root.
Proof.
  intros [Hp Ht Hi] Hr Hp' Hh Hl.
  assert (Hw : forall p t, walk s' t p = walk s t p).
  { intros p t. apply walk_frame. intros. unfold entry, ram_at. by rewrite Hr. }
  split; [done| |].
  - intros p t Hok Hw'. rewrite Hw in Hw'. destruct (Ht p t Hok Hw') as (f & ? & ? & ? & ?).
    exists f. split_and!; naive_solver.
  - intros p q t. rewrite !Hw. apply Hi.
Qed.

Lemma grow_same_ram D s s' root :
  pt_inv D s root -> same_regs s s' -> m_ram s' = m_ram s -> buddy_inv (m_pmm s') ->
  (forall f, held (m_pmm s) f -> stays (m_pmm s) (m_pmm s') f) -> grow D s s' root.
Proof.
  intros Hi Hregs Hr Hp' Hh.
  assert (He : forall t i, entry s' t i = entry s t i) by (intros; unfold entry, ram_at; by rewrite Hr).
  assert (Hw : forall p t, walk s' t p = walk s t p) by (intros p t; apply walk_frame; intros; apply He).
  split.
  - eapply pt_inv_same_blocks; [done|done|done|intros f Hf; apply (Hh f Hf)|].
    intros f Hf. apply (st_live _ _ _ (Hh f (live_held _ _ Hf))), Hf.
  - intros p t _. by rewrite Hw.
  - intros p i _ _ _. unfold leaf. rewrite Hw. case_match; [|done]. by rewrite He.
  - split; [done|]. intros f Hf Hn. split_and!; [by apply Hh| |done]. intros p Hp. rewrite Hw. by apply Hn.
Qed.

(** [next_table] at the end of a path: it finds the next table or adds one; it fails only when the page
    allocator has no page. *)
Lemma wp_next_table D s root p t i (Q : option Z -> machine -> Prop) :
  pt_inv D s root -> path_ok D (p ++ [i]) -> walk s root p = Some t ->
  (forall s', grow D s s' root -> free_pages (m_pmm s') = 0 -> Q None s') ->
  (forall n s', grow D s s' root -> walk s' root (p ++ [i]) = Some n -> free_pages (m_pmm s') <= free_pages (m_pmm s) -> Q (Some n) s') ->
  wp (next_table (add64 (slab_linear_map_base s) t) i) Q s.
Proof.
  intros Hi Hok Hw HQ1 HQ2. destruct (pt_tab _ _ _ Hi p t) as (f & Hf & -> & _); [by eapply path_ok_prefix|done|].
  destruct (link_idx _ _ _ Hok) as [Hidx _].
  unfold next_table. wp_step. apply wp_ld_pte; [done|done|].
  destruct (pte_present (entry s (frame_addr f) i)) eqn:Ep; simpl.
  { apply wp_ret, HQ2; [by apply grow_refl| |done]. rewrite walk_app, Hw. simpl. by rewrite Ep. }
  pose proof (pt_pmm _ _ _ Hi) as Hpmm.
  wp_step. apply wp_on_pmm. eapply wp_alloc_phys_pages; [done|unfold MAX_ORDER; lia| |].
  2:{ intros Hno. apply wp_ret, HQ1; [apply grow_same_ram; try done; by apply binv_with_error|]. by apply (no_free_pages (m_pmm s)). }
  intros n pm Hal _. destruct (allocated_fresh _ _ _ _ Hpmm Hal) as (Hnh & Hnl & Hnok).
  pose proof (frame_addr_bounds n Hnok) as [Hnb _]. replace (frame_addr n =? 0) with false by lia.
  wp_step. apply wp_phys_to_virt. wp_step. apply wp_zero_page; [done|].
  intros s1 Hregs Hp1 Hz Ho. wp_step.
  assert (Hfresh : fresh_table s s1 n).
  { split.
    - eapply same_regs_trans, Hregs. by destruct s.
    - rewrite Hp1. apply (al_inv _ _ _ _ _ Hal).
    - by rewrite Hp1.
    - intros g. rewrite Hp1. by eapply allocated_held.
    - intros g o Hg. rewrite Hp1. apply (al_live _ _ _ _ _ Hal). by left.
    - intros g Hg. rewrite Hp1. by apply (al_ref _ _ _ _ _ Hal).
    - done.
    - intros g j Hg Hj. by rewrite Ho. }
  rewrite <- (same_regs_base _ _ (ft_regs _ _ _ Hfresh)). apply wp_st_pte; [done|done|]. apply wp_ret.
  destruct (link_grow D s s1 root p f i n Hi Hok Hw Hf Ep Hfresh). apply HQ2; [done|done|].
  change (free_pages (m_pmm s1) <= free_pages (m_pmm s)). rewrite Hp1. cbn. rewrite (al_count _ _ _ _ _ Hal). lia.
Qed.

(** ** Mapping *)

Definition table_path (va : Z) : list Z := [L0_INDEX va; L1_INDEX va; L2_INDEX va].

Lemma index_ok va n : idx_ok (Z.land (shr64 va n) 0x1FF).
Proof.
  unfold idx_ok, PTRS_PER_PTE. change 0x1FF with (2 ^ 9 - 1). rewrite land_mask by lia.
  pose proof (Z.mod_pos_bound (shr64 va n) (2 ^ 9)). lia.
Qed.

Lemma l3_ok va : idx_ok (L3_INDEX va).
Proof. apply index_ok. Qed.

Lemma table_path_ok D va : D (L0_INDEX va) = true -> path_ok D (table_path va).
Proof.
  intros. split; [|done]. repeat (apply Forall_cons; split; [apply index_ok|]). constructor.
Qed.

(** The root a walk for [va] starts from. *)
Definition root_of (s : machine) (va : Z) : Z := if is_user_addr va then ttbr0_el1 s else ttbr1_el1 s.

Lemma wp_walk_root va Q s : Q (root_of s va) s -> wp (walk_root va) Q s.
Proof. unfold walk_root, root_of. by case_match. Qed.

Lemma same_regs_root s s' va : same_regs s s' -> root_of s' va = root_of s va.
Proof. by intros ->. Qed.

(** A write to a last-level entry changes that leaf only. *)
Lemma set_leaf D s root p f i v :
  pt_inv D s root -> path_ok D p -> length p = 3%nat -> idx_ok i -> walk s root p = Some (frame_addr f) ->
  let s' := set_entry (frame_addr f) i v s in
  pt_inv D s' root /\ pt_frame D s s' root /\
  (forall q t, path_ok D q -> walk s root q = Some t -> walk s' root q = Some t) /\
  (forall q j, path_ok D q -> length q = 3%nat -> idx_ok j ->
     leaf s' root q j = if decide (q = p /\ j = i) then if pte_present v then Some v else None
                        else leaf s root q j).
Proof.
  intros Hi Hp Hlen Hidx Hw s'.
  assert (Hwalk : forall q, path_ok D q -> walk s' root q = walk s root q).
  { intros q Hq. apply walk_frame. intros p' j q' t -> Hw'.
    assert (Hp' : path_ok D p') by (by eapply path_ok_prefix).
    destruct (pt_tab _ _ _ Hi p' t Hp' Hw') as (g & _ & -> & _).
    assert (Hj : idx_ok j).
    { destruct Hq as (Hf & _). apply Forall_app in Hf as [_ Hf]. by apply Forall_cons in Hf as [? _]. }
    unfold s'. rewrite entry_set_entry by done. rewrite decide_False; [done|]. intros [-> _].
    assert (p' = p) as -> by (by eapply (pt_inj _ _ _ Hi)).
    destruct Hq as (_ & Hl & _). rewrite length_app in Hl. simpl in Hl. lia. }
  split_and!.
  - destruct Hi as [Hpm Ht Hinj]. split; [done| |].
    + intros q t Hq. rewrite Hwalk by done. by apply Ht.
    + intros q q' t Hq Hq'. rewrite !Hwalk by done. by apply Hinj.
  - split; [done|]. intros g Hg Hn. split_and!; [by apply stays_refl| |].
    + intros q Hq. rewrite Hwalk by done. by apply Hn.
    + intros j Hj. unfold s'. rewrite entry_set_entry by done. rewrite decide_False; [done|].
      intros [-> _]. by apply (Hn p).
  - intros q t Hq. by rewrite Hwalk.
  - intros q j Hq Hl Hj. unfold leaf. rewrite Hwalk by done.
    destruct (walk s root q) as [t|] eqn:Hwq.
    + destruct (pt_tab _ _ _ Hi q t Hq Hwq) as (g & _ & -> & _). unfold s'. rewrite entry_set_entry by done.
      destruct (decide (q = p /\ j = i)) as [[-> ->]|Hne].
      * rewrite Hw in Hwq. injection Hwq as E. apply frame_addr_inj in E as ->. by rewrite decide_True.
      * rewrite decide_False; [done|]. intros [-> ->]. apply Hne. split; [|done].
        by eapply (pt_inj _ _ _ Hi).
    + rewrite decide_False; [done|]. intros [-> _]. congruence.
Qed.

(** The tree maps [va] to the entry [e]; [None] when it is not mapped. *)
Definition mapping (s : machine) (root va : Z) : option Z := leaf s root (table_path va) (L3_INDEX va).

Definition same_page (va va' : Z) : Prop :=
  table_path va = table_path va' /\ L3_INDEX va = L3_INDEX va'.

#[export] Instance same_page_dec va va' : Decision (same_page va va').
Proof. apply _. Defined.

Lemma walk_root_table D s root : pt_inv D s root -> exists f, page_ok f /\ root = frame_addr f.
Proof.
  intros Hi. destruct (pt_tab _ _ _ Hi [] root) as (f & ? & ? & _); [by split; [constructor|split; [simpl; lia|]]|done|].
  by exists f.
Qed.

Lemma wp_map_one_page D va pa prot (Q : Z -> machine -> Prop) s :
  pt_inv D s (root_of s va) -> D (L0_INDEX va) = true ->
  (forall s', grow D s s' (root_of s va) -> free_pages (m_pmm s') = 0 -> Q (-1) s') ->
  (forall s', pt_inv D s' (root_of s va) -> pt_frame D s s' (root_of s va) ->
     (forall va', D (L0_INDEX va') = true ->
        mapping s' (root_of s va) va' =
          if decide (same_page va' va)
          then let e := Z.lor prot (Z.land pa ARM64_PTE_ADDR_MASK) in if pte_present e then Some e else None
          else mapping s (root_of s va) va') -> free_pages (m_pmm s') <= free_pages (m_pmm s) -> Q 0 s') ->
  wp (arm64_map_one_page va pa prot) Q s.
Proof.
  intros Hi HD HQ1 HQ2. pose proof (table_path_ok D va HD) as Hok. unfold table_path in Hok.
  destruct (walk_root_table _ _ _ Hi) as (f0 & Hf0 & Hroot). pose proof (frame_addr_bounds _ Hf0).
  unfold arm64_map_one_page. wp_step. apply wp_walk_root. set (root := root_of s va) in *.
  replace (root =? 0) with false by lia. wp_step. apply wp_phys_to_virt. wp_step.
  eapply (wp_next_table D s root []); [done|exact (path_ok_prefix D [_] _ Hok)|done| |].
  { intros s1 Hg H0. by apply wp_ret, HQ1. }
  intros n1 s1 Hg1 Hw1 Hp1. wp_step. apply wp_phys_to_virt. wp_step.
  eapply (wp_next_table D s1 root [L0_INDEX va]); [apply Hg1|exact (path_ok_prefix D [_; _] _ Hok)|done| |].
  { intros s2 Hg H0. apply wp_ret, HQ1; [by eapply grow_trans|done]. }
  intros n2 s2 Hg2 Hw2 Hp2. pose proof (grow_trans _ _ _ _ _ Hg1 Hg2) as Hg12. wp_step. apply wp_phys_to_virt. wp_step.
  eapply (wp_next_table D s2 root [L0_INDEX va; L1_INDEX va]); [apply Hg2|done|done| |].
  { intros s3 Hg H0. apply wp_ret, HQ1; [by eapply grow_trans|done]. }
  intros n3 s3 Hg3 Hw3 Hp3. pose proof (grow_trans _ _ _ _ _ Hg12 Hg3) as Hg13. simpl in Hw3.
  wp_step. apply wp_phys_to_virt. wp_step.
  destruct (pt_tab _ _ _ (gr_inv _ _ _ _ Hg3) _ _ Hok Hw3) as (f3 & Hf3 & -> & _).
  apply wp_st_pte; [done|apply index_ok|]. apply wp_ret.
  destruct (set_leaf D s3 root _ f3 (L3_INDEX va) (Z.lor prot (Z.land pa ARM64_PTE_ADDR_MASK))
              (gr_inv _ _ _ _ Hg3) Hok eq_refl (index_ok _ _) Hw3) as (Hi4 & Hf4 & _ & Hl4).
  apply HQ2; [done|eapply pt_frame_trans; [apply Hg13|done]| |cbn; lia].
  intros va' HD'. pose proof (table_path_ok D va' HD') as Hok'. unfold mapping.
  rewrite (Hl4 (table_path va') (L3_INDEX va') Hok' eq_refl (l3_ok va')). unfold same_page. fold (table_path va).
  destruct (decide (same_page va' va)) as [Hs|Hs].
  - by rewrite !(decide_True _ _ Hs).
  - rewrite !(decide_False _ _ Hs). apply (gr_leaf _ _ _ _ Hg13); [exact Hok'|done|apply index_ok].
Qed.

(** ** Translation *)

Lemma wp_get_phys_from_va D va (Q : Z -> machine -> Prop) s :
  pt_inv D s (root_of s va) -> D (L0_INDEX va) = true ->
  Q (match mapping s (root_of s va) va with Some e => pte_to_phys e | None => 0 end) s ->
  wp (arm64_get_phys_from_va va) Q s.
Proof.
  intros Hi HD. pose proof (table_path_ok D va HD) as Hok. unfold mapping, leaf, table_path in *.
  destruct (walk_root_table _ _ _ Hi) as (f0 & Hf0 & Hroot). pose proof (frame_addr_bounds _ Hf0).
  unfold arm64_get_phys_from_va. intros HQ. wp_step. apply wp_walk_root. set (root := root_of s va) in *.
  replace (root =? 0) with false by lia. wp_step. apply wp_phys_to_virt. wp_step.
  rewrite Hroot. apply wp_ld_pte; [done|apply index_ok|]. rewrite <- Hroot.
  cbn [walk] in HQ. destruct (pte_present (entry s root (L0_INDEX va))) eqn:E0; simpl; [|by apply wp_ret].
  assert (Hw1 : walk s root [L0_INDEX va] = Some (pte_to_phys (entry s root (L0_INDEX va)))) by (simpl; by rewrite E0).
  destruct (pt_tab _ _ _ Hi _ _ (path_ok_prefix D [_] _ Hok) Hw1) as (f1 & Hf1 & E1 & _).
  wp_step. apply wp_phys_to_virt. wp_step. rewrite E1 in *. apply wp_ld_pte; [done|apply index_ok|].
  destruct (pte_present (entry s (frame_addr f1) (L1_INDEX va))) eqn:P1; simpl; [|by apply wp_ret].
  assert (Hw2 : walk s root [L0_INDEX va; L1_INDEX va] = Some (pte_to_phys (entry s (frame_addr f1) (L1_INDEX va)))).
  { simpl. by rewrite E0, E1, P1. }
  destruct (pt_tab _ _ _ Hi _ _ (path_ok_prefix D [_; _] _ Hok) Hw2) as (f2 & Hf2 & E2 & _).
  wp_step. apply wp_phys_to_virt. wp_step. rewrite E2 in *. apply wp_ld_pte; [done|apply index_ok|].
  destruct (pte_present (entry s (frame_addr f2) (L2_INDEX va))) eqn:P2; simpl; [|by apply wp_ret].
  assert (Hw3 : walk s root (table_path va) = Some (pte_to_phys (entry s (frame_addr f2) (L2_INDEX va)))).
  { simpl. by rewrite E0, E1, P1, E2, P2. }
  destruct (pt_tab _ _ _ Hi _ _ Hok Hw3) as (f3 & Hf3 & E3 & _).
  wp_step. apply wp_phys_to_virt. wp_step. rewrite E3 in *. apply wp_ld_pte; [done|apply index_ok|].
  destruct (pte_present (entry s (frame_addr f3) (L3_INDEX va))) eqn:P3; simpl; by apply wp_ret.
Qed.

(** ** Unmapping *)

Lemma wp_pte_table_empty f (Q : bool -> machine -> Prop) s :
  page_ok f -> ((forall i, idx_ok i -> entry s (frame_addr f) i = 0) -> Q true s) ->
  ((exists i, idx_ok i /\ entry s (frame_addr f) i <> 0) -> Q false s) ->
  wp (pte_table_empty (add64 (slab_linear_map_base s) (frame_addr f))) Q s.
Proof.
  intros Hf HQ1 HQ2. unfold pte_table_empty. wp_step.
  apply (wp_find_n (fun k s' => s' = s /\ forall i, 0 <= i < k -> entry s (frame_addr f) i = 0)).
  - split; [done|]. lia.
  - intros k ? Hk [-> Hz]. assert (Hik : idx_ok k) by (unfold idx_ok, PTRS_PER_PTE in *; lia).
    wp_step. apply wp_ld_pte; [done|done|]. apply wp_ret.
    destruct (entry s (frame_addr f) k =? 0) eqn:E.
    + apply Z.eqb_eq in E. split; [done|]. intros i Hi. destruct (decide (i = k)) as [->|]; [done|]. apply Hz. lia.
    + apply Z.eqb_neq in E. apply wp_ret, HQ2. by exists k.
  - intros ? [-> Hz]. apply wp_ret, HQ1. intros i Hi. apply Hz. unfold idx_ok, PTRS_PER_PTE in *. lia.
Qed.

Lemma child_live D s root p i c :
  pt_inv D s root -> path_ok D (p ++ [i]) -> walk s root (p ++ [i]) = Some (frame_addr c) ->
  live (m_pmm s) c 0.
Proof.
  intros Hi Hok Hw. destruct (pt_tab _ _ _ Hi _ _ Hok Hw) as (g & _ & E & _ & Hl).
  apply frame_addr_inj in E as ->. apply Hl. intros [_ [=]]%app_eq_nil.
Qed.

(** Cutting off the empty table [c] and giving its page back. *)
Section prune.
Context (D : Z -> bool) (s : machine) (pm : pmm) (root : Z) (p : list Z) (f i c : Z).
Hypothesis inv : pt_inv D s root.
Hypothesis ok : path_ok D (p ++ [i]).
Hypothesis at_f : walk s root p = Some (frame_addr f).
Hypothesis at_c : walk s root (p ++ [i]) = Some (frame_addr c).
Hypothesis c_empty : forall j, idx_ok j -> entry s (frame_addr c) j = 0.
Hypothesis rel : released (m_pmm s) c 0 pm.

Let s2 := set_pmm pm (set_entry (frame_addr f) i 0 s).

Lemma prune_entry g j : idx_ok j -> entry s2 (frame_addr g) j =
  if decide (g = f /\ j = i) then 0 else entry s (frame_addr g) j.
Proof using All. intros Hj. apply entry_set_entry; [apply (link_idx _ _ _ ok)|done]. Qed.

Lemma prune_walk_other q : path_ok D q -> (forall r, q <> p ++ i :: r) -> walk s2 root q = walk s root q.
Proof using All.
  intros Hq Hne. apply walk_frame. intros p' j q' t' -> Hw.
  assert (Hp' : path_ok D p') by (by eapply path_ok_prefix).
  destruct (pt_tab _ _ _ inv p' t' Hp' Hw) as (g & _ & -> & _).
  assert (Hj : idx_ok j).
  { destruct Hq as (Hf & _). apply Forall_app in Hf as [_ Hf]. by apply Forall_cons in Hf as [? _]. }
  rewrite prune_entry, decide_False; [done| |done]. intros [-> ->]. apply (Hne q'). f_equal.
  eapply (pt_inj _ _ _ inv); [done|by eapply path_ok_prefix|done|done].
Qed.

Lemma prune_walk_cut r : path_ok D (p ++ i :: r) -> walk s2 root (p ++ i :: r) = None.
Proof using All.
  intros Hq. rewrite walk_app, prune_walk_other, at_f; [|by eapply path_ok_prefix|].
  2:{ intros r' E. apply (f_equal length) in E. rewrite length_app in E. simpl in E. lia. }
  simpl. rewrite prune_entry by apply (link_idx _ _ _ ok). by rewrite decide_True.
Qed.

Lemma prune_ne_c q g : path_ok D q -> (forall r, q <> p ++ i :: r) -> walk s root q = Some (frame_addr g) -> g <> c.
Proof using All.
  intros Hq Hne Hw ->. apply (Hne []). by eapply (pt_inj _ _ _ inv).
Qed.

Lemma prune_inv : pt_inv D s2 root.
Proof using All.
  pose proof (child_live _ _ _ _ _ _ inv ok at_c) as Hlive. split; [apply (rl_inv _ _ _ _ rel)| |].
  - intros q t Hq Hw. destruct (extends_dec p i q) as [[r ->]|Hne]; [by rewrite prune_walk_cut in Hw|].
    rewrite prune_walk_other in Hw by done. destruct (pt_tab _ _ _ inv _ _ Hq Hw) as (g & ? & -> & Hh & Hl).
    pose proof (prune_ne_c q g Hq Hne Hw) as Hgc. exists g. split_and!; [done|done| |].
    + by eapply released_held.
    + intros Hq0. apply (rl_live _ _ _ _ rel). split; [by apply Hl|done].
  - intros q q' t Hq Hq' Hw Hw'.
    destruct (extends_dec p i q) as [[r ->]|Hne]; [by rewrite prune_walk_cut in Hw|].
    destruct (extends_dec p i q') as [[r ->]|Hne']; [by rewrite prune_walk_cut in Hw'|].
    rewrite prune_walk_other in Hw, Hw' by done. by eapply (pt_inj _ _ _ inv).
Qed.

Lemma prune_leaf q j : path_ok D q -> length q = 3%nat -> idx_ok j -> leaf s2 root q j = leaf s root q j.
Proof using All.
  intros Hq Hlen Hj. unfold leaf. destruct (extends_dec p i q) as [[r ->]|Hne].
  - rewrite prune_walk_cut by done.
    change (i :: r) with ([i] ++ r). rewrite app_assoc, walk_app, at_c. simpl.
    destruct r as [|k r]; simpl; [by rewrite c_empty|].
    assert (Hk : idx_ok k).
    { destruct Hq as (Hf & _). apply Forall_app in Hf as [_ Hf]. do 2 apply Forall_cons in Hf as [? Hf]. done. }
    by rewrite c_empty.
  - rewrite prune_walk_other by done. destruct (walk s root q) as [t|] eqn:Hw; [|done].
    destruct (pt_tab _ _ _ inv q t Hq Hw) as (g & _ & -> & _). rewrite prune_entry by done.
    rewrite decide_False; [done|]. intros [-> ->]. assert (q = p) as ->.
    { eapply (pt_inj _ _ _ inv); [done|by eapply path_ok_prefix|done|done]. }
    pose proof (proj2 (link_idx _ _ _ ok)). lia.
Qed.

Lemma prune_frame : pt_frame D s s2 root.
Proof using All.
  split; [by destruct s|]. intros g Hg Hnt.
  assert (Hgc : g <> c) by (intros ->; by apply (Hnt (p ++ [i]))).
  split_and!.
  - split; [eapply released_held; [exact rel|by eapply child_live|done|done]| |apply (rl_ref _ _ _ _ rel)].
    intros o Ho. by apply (rl_live _ _ _ _ rel).
  - intros q Hq Hw. destruct (extends_dec p i q) as [[r ->]|Hne]; [by rewrite prune_walk_cut in Hw|].
    rewrite prune_walk_other in Hw by done. by apply (Hnt q).
  - intros j Hj. rewrite prune_entry, decide_False; [done| |done]. intros [-> _].
    apply (Hnt p); [by eapply path_ok_prefix|done].
Qed.
End prune.

(** Freeing a live single page. *)
Lemma wp_free_live f (Q : unit -> pmm -> Prop) s :
  buddy_inv s -> live s f 0 -> page_ok f -> (forall s', released s f 0 s' -> Q tt s') ->
  wp (free_phys_pages (frame_addr f) 0) Q s.
Proof.
  intros Hi Hl Hf HQ. destruct (frame_addr_range f Hf) as [_ Hu].
  eapply wp_free_phys_pages; [done|done|done| |].
  - intros s' _ Hrel _. apply HQ. rewrite pa_to_pfn_frame in Hrel; [done|]. unfold page_ok in *. lia.
  - intros e Hno. destruct Hno. by exists f.
Qed.

Lemma released_set_entry s f i v c pm :
  released (m_pmm (set_entry f i v s)) c 0 pm -> released (m_pmm s) c 0 pm.
Proof. done. Qed.

(** The unmapping so far: the tree [s'] has the leaves of [s] except the one at [va]. *)
Record unmapped D (s s' : machine) root va : Prop := {
  un_inv : pt_inv D s' root;
  un_leaf : forall va', D (L0_INDEX va') = true ->
    mapping s' root va' = if decide (same_page va' va) then None else mapping s root va';
  un_frame : pt_frame D s s' root;
  un_live : forall g o, live (m_pmm s') g o -> live (m_pmm s) g o;
}.

(** Every table of [s] is a table of [s'] at the same place, or its page is with the page allocator again. *)
Definition given_back D (s s' : machine) root : Prop := forall q c, path_ok D q -> walk s root q = Some (frame_addr c) ->
  walk s' root q = Some (frame_addr c) \/ forall o, ~ live (m_pmm s') c o.

Definition not_empty (s : machine) (t : Z) : Prop := exists j, idx_ok j /\ entry s t j <> 0.

(** No table below the root on the way to [va] is empty. *)
Definition tidy (s : machine) root va : Prop := forall q r t, table_path va = q ++ r -> q <> [] ->
  walk s root q = Some t -> not_empty s t.

(** The unmapping so far, with what became of the tables. *)
Record cutting D (s s' : machine) root va : Prop := {
  ct_unmapped : unmapped D s s' root va;
  ct_back : given_back D s s' root;
}.

(** A whole call: of an address that is not mapped nothing changes, otherwise no empty table is left. *)
Record removed D (s s' : machine) root va : Prop := {
  rm_cutting : cutting D s s' root va;
  rm_absent : mapping s root va = None -> s' = s;
  rm_tidy : mapping s root va <> None -> tidy s' root va;
}.

(** The way is cut below the last table, which is not empty. *)
Lemma tidy_cut s root va p t r : table_path va = p ++ r -> walk s root p = Some t -> p = [] \/ not_empty s t ->
  match r with [] => True | i :: _ => walk s root (p ++ [i]) = None end -> Forall idx_ok (table_path va) -> tidy s root va.
Proof.
  intros Hpath Hw Hne Hcut Hidx q r' t' Hq Hq0 Hw'. rewrite Hpath in Hq.
  destruct (decide (length q < length p)%nat) as [Hlt|Hge].
  - apply app_eq_inv in Hq as [(l & -> & ->)|(l & -> & ->)]; [|rewrite length_app in Hlt; lia].
    destruct l as [|j l]; [rewrite app_nil_r in Hlt; lia|].
    assert (idx_ok j) as Hj by (eapply (Forall_lookup_1 _ _ (length q)); [exact Hidx|]; rewrite Hpath, <- app_assoc, lookup_app_r, Nat.sub_diag by lia; done).
    exists j. split; [exact Hj|]. intros E. rewrite walk_app, Hw' in Hw. cbn in Hw. rewrite E in Hw. discriminate Hw.
  - apply app_eq_inv in Hq as [(l & -> & ->)|(l & -> & ->)].
    + destruct l as [|i l]; [|rewrite length_app in Hge; cbn in Hge; lia]. rewrite app_nil_r in *. rewrite Hw in Hw'. injection Hw' as <-.
      by destruct Hne.
    + destruct l as [|i l]; [rewrite app_nil_r in *; rewrite Hw in Hw'; injection Hw' as <-; by destruct Hne|].
      cbn in Hcut. change (i :: l) with ([i] ++ l) in Hw'. by rewrite app_assoc, walk_app, Hcut in Hw'.
Qed.

(** One round of the clean-up: if the table under [p ++ [i]] is empty it is cut off, and the clean-up
    goes on one level up. *)
Lemma wp_prune_step D s0 s root va p i f c (k : M machine unit) (Q : unit -> machine -> Prop) :
  cutting D s0 s root va -> path_ok D (p ++ [i]) ->
  walk s root p = Some (frame_addr f) -> walk s root (p ++ [i]) = Some (frame_addr c) ->
  page_ok f -> page_ok c ->
  (not_empty s (frame_addr c) -> Q tt s) ->
  (forall s', cutting D s0 s' root va -> same_regs s s' -> walk s' root (p ++ [i]) = None ->
     (forall q, path_ok D q -> (forall r, q <> p ++ i :: r) -> walk s' root q = walk s root q) ->
     wp k Q s') ->
  wp (empty ← pte_table_empty (add64 (slab_linear_map_base s) (frame_addr c));
      if negb empty then mret tt else
      _ ← st_pte (add64 (slab_linear_map_base s) (frame_addr f)) i 0;
      _ ← on_pmm (free_phys_pages (frame_addr c) 0);
      k) Q s.
Proof.
  intros [[Hi Hl Hfr Hlv] Hback] Hok Hf Hc Hfok Hcok HQ Hk. destruct (link_idx _ _ _ Hok) as [Hidx _].
  wp_step. apply wp_pte_table_empty; [done| |intros Hne; by apply wp_ret, HQ].
  intros Hz. simpl. wp_step. apply wp_st_pte; [done|done|]. wp_step. apply wp_on_pmm.
  apply wp_free_live; [apply (pt_pmm _ _ _ Hi)|exact (child_live _ _ _ _ _ _ Hi Hok Hc)|done|]. intros pm Hrel.
  apply released_set_entry in Hrel. apply Hk.
  - split; [split|].
    + by eapply prune_inv.
    + intros va' HD'. rewrite <- Hl by done. unfold mapping.
      by apply (prune_leaf D s pm root p f i c Hi Hok Hf Hc Hz Hrel); [apply table_path_ok| |apply index_ok].
    + eapply pt_frame_trans; [done|]. by eapply prune_frame.
    + intros g o Hg. by apply Hlv, (proj1 (rl_live _ _ _ _ Hrel g o)).
    + intros q g Hq Hw. destruct (Hback q g Hq Hw) as [Hw1|Hno].
      2:{ right. intros o Hg. by apply (Hno o), (proj1 (rl_live _ _ _ _ Hrel g o)). }
      destruct (extends_dec p i q) as [[r ->]|Hne]; [|left; rewrite <- Hw1; by eapply prune_walk_other].
      right. intros o Hg. apply (rl_live _ _ _ _ Hrel) in Hg as [_ Hgc]. destruct r as [|j r].
      * apply Hgc. rewrite Hc in Hw1. injection Hw1 as E. by apply frame_addr_inj in E.
      * change (i :: j :: r) with ([i] ++ j :: r) in Hw1. rewrite app_assoc, walk_app, Hc in Hw1. cbn in Hw1.
        rewrite Hz in Hw1; [done|]. destruct Hq as (Hall & _). apply Forall_app in Hall as [_ Hall]. by do 2 apply Forall_cons in Hall as [? Hall].
  - by destruct s.
  - by eapply prune_walk_cut.
  - intros q Hq Hne. by eapply prune_walk_other.
Qed.

Lemma unmapped_clear D s root va f3 :
  pt_inv D s root -> D (L0_INDEX va) = true -> walk s root (table_path va) = Some (frame_addr f3) ->
  let s' := set_tlb_flushes (tlb_flushes s + 1) (set_entry (frame_addr f3) (L3_INDEX va) 0 s) in
  unmapped D s s' root va /\ same_regs s s' /\ 
  forall q t, path_ok D q -> walk s root q = Some t -> walk s' root q = Some t.
Proof.
  intros Hi HD Hw s'. pose proof (table_path_ok D va HD) as Hok.
  destruct (set_leaf D s root _ f3 (L3_INDEX va) 0 Hi Hok eq_refl (index_ok _ _) Hw) as (Hi1 & Hf1 & Hw1 & Hl1).
  set (s1 := set_entry _ _ _ s) in *.
  assert (Hg : grow D s1 s' root) by (apply grow_same_ram; done || apply (pt_pmm _ _ _ Hi1) || apply stays_refl).
  split; [split|split].
  - apply Hg.
  - intros va' HD'. unfold mapping. pose proof (table_path_ok D va' HD') as Hok'.
    rewrite (gr_leaf _ _ _ _ Hg _ _ Hok' eq_refl (l3_ok va')), (Hl1 _ _ Hok' eq_refl (l3_ok va')).
    destruct (decide (same_page va' va)) as [Hs|Hs].
    + by rewrite (decide_True _ _ Hs).
    + by rewrite (decide_False _ _ Hs).
  - eapply pt_frame_trans; [done|apply Hg].
  - done.
  - by destruct s.
  - intros q t Hq Hwq. apply (gr_walk _ _ _ _ Hg); [done|]. by apply Hw1.
Qed.

(** Reading the entry that leads one level down. *)
Lemma wp_ld_table D s root p t i (Q : Z -> machine -> Prop) :
  pt_inv D s root -> path_ok D p -> idx_ok i -> walk s root p = Some t ->
  (forall f, page_ok f -> t = frame_addr f -> Q (entry s (frame_addr f) i) s) ->
  wp (ld_pte (add64 (slab_linear_map_base s) t) i) Q s.
Proof.
  intros Hi Hp Hidx Hw HQ. destruct (pt_tab _ _ _ Hi p t Hp Hw) as (f & Hf & -> & _).
  apply wp_ld_pte; [done|done|]. by apply HQ.
Qed.

Lemma walk_snoc s root p t i : walk s root p = Some t ->
  walk s root (p ++ [i]) = if pte_present (entry s t i) then Some (pte_to_phys (entry s t i)) else None.
Proof. intros Hw. rewrite walk_app, Hw. simpl. by case_match. Qed.

Lemma unmapped_none D s root va : pt_inv D s root -> mapping s root va = None -> unmapped D s s root va.
Proof.
  intros Hi Hn. split; [done| |apply pt_frame_refl|done]. intros va' _.
  destruct (decide (same_page va' va)) as [[Ht Hl]|]; [|done]. unfold mapping in *. by rewrite Ht, Hl.
Qed.

Lemma wp_unmap_tables D s0 s root va f1 f2 f3 f0 (Q : unit -> machine -> Prop) :
  cutting D s0 s root va -> D (L0_INDEX va) = true ->
  root = frame_addr f0 -> page_ok f0 -> page_ok f1 -> page_ok f2 -> page_ok f3 ->
  walk s root [L0_INDEX va] = Some (frame_addr f1) ->
  walk s root [L0_INDEX va; L1_INDEX va] = Some (frame_addr f2) ->
  walk s root (table_path va) = Some (frame_addr f3) ->
  (forall s', cutting D s0 s' root va -> tidy s' root va -> Q tt s') ->
  wp (empty3 ← pte_table_empty (add64 (slab_linear_map_base s) (frame_addr f3));
      if negb empty3 then mret tt else
      _ ← st_pte (add64 (slab_linear_map_base s) (frame_addr f2)) (L2_INDEX va) 0;
      _ ← on_pmm (free_phys_pages (frame_addr f3) 0);
      empty2 ← pte_table_empty (add64 (slab_linear_map_base s) (frame_addr f2));
      if negb empty2 then mret tt else
      _ ← st_pte (add64 (slab_linear_map_base s) (frame_addr f1)) (L1_INDEX va) 0;
      _ ← on_pmm (free_phys_pages (frame_addr f2) 0);
      empty1 ← pte_table_empty (add64 (slab_linear_map_base s) (frame_addr f1));
      if negb empty1 then mret tt else
      _ ← st_pte (add64 (slab_linear_map_base s) root) (L0_INDEX va) 0;
      on_pmm (free_phys_pages (frame_addr f1) 0)) Q s.
Proof.
  intros Hu HD Hroot Hf0 Hf1 Hf2 Hf3 H1 H2 H3 HQ.
  pose proof (table_path_ok D va HD) as Hok3.
  pose proof (path_ok_prefix D [L0_INDEX va; L1_INDEX va] [L2_INDEX va] Hok3) as Hok2.
  pose proof (path_ok_prefix D [L0_INDEX va] [L1_INDEX va] Hok2) as Hok1.
  pose proof (proj1 Hok3) as Hidx.
  eapply (wp_prune_step D s0 s root va [L0_INDEX va; L1_INDEX va]); [done|done|done|done|done|done| |].
  { intros Hne. apply HQ; [done|]. apply (tidy_cut s root va (table_path va) (frame_addr f3) []); [by rewrite app_nil_r|done|by right|done|done]. }
  intros s1 Hu1 Hr1 Hcut1 Hw1. rewrite <- (same_regs_base _ _ Hr1).
  assert (H1' : walk s1 root [L0_INDEX va] = Some (frame_addr f1)) by (rewrite Hw1; done).
  assert (H2' : walk s1 root [L0_INDEX va; L1_INDEX va] = Some (frame_addr f2)) by (rewrite Hw1; done).
  eapply (wp_prune_step D s0 s1 root va [L0_INDEX va]); [done|done|done|done|done|done| |].
  { intros Hne. apply HQ; [done|]. apply (tidy_cut s1 root va [L0_INDEX va; L1_INDEX va] (frame_addr f2) [L2_INDEX va]); [done|done|by right|done|done]. }
  intros s2 Hu2 Hr2 Hcut2 Hw2. rewrite <- (same_regs_base _ _ Hr2).
  assert (H1'' : walk s2 root [L0_INDEX va] = Some (frame_addr f1)) by (rewrite Hw2; done).
  pose proof (wp_prune_step D s0 s2 root va [] (L0_INDEX va) f0 f1 (mret tt) Q Hu2 Hok1) as Hlast.
  assert (HQ1 : not_empty s2 (frame_addr f1) -> Q tt s2).
  { intros Hne. apply HQ; [done|]. apply (tidy_cut s2 root va [L0_INDEX va] (frame_addr f1) [L1_INDEX va; L2_INDEX va]); [done|done|by right|done|done]. }
  assert (HQ2 : forall s', cutting D s0 s' root va -> walk s' root [L0_INDEX va] = None -> Q tt s').
  { intros s' Hs' Hcut. apply HQ; [done|]. apply (tidy_cut s' root va [] root (table_path va)); [done|done|by left|done|done]. }
  rewrite Hroot in *. revert Hlast. clear -Hf0 Hf1 H1'' HQ1 HQ2. intros Hlast.
  specialize (Hlast eq_refl H1'' Hf0 Hf1 HQ1 (fun s' Hs' _ Hc _ => HQ2 s' Hs' Hc)).
  wp_step. eapply wp_mono; [exact (wp_bind_inv _ _ _ _ Hlast)|]. intros [] s'; simpl; [|done].
  intros H%wp_bind_inv. wp_step. eapply wp_mono; [exact H|]. intros [] s'' H'%wp_bind_inv.
  eapply wp_mono; [exact H'|]. by intros [].
Qed.

Lemma removed_none D s root va : pt_inv D s root -> mapping s root va = None -> removed D s s root va.
Proof. intros Hi Hn. split; [split; [by apply unmapped_none|by left]|done|done]. Qed.

Lemma wp_unmap_removed D va (Q : unit -> machine -> Prop) s :
  pt_inv D s (root_of s va) -> D (L0_INDEX va) = true ->
  (forall s', removed D s s' (root_of s va) va -> Q tt s') ->
  wp (arm64_unmap_one_page va) Q s.
Proof.
  intros Hi HD HQ. pose proof (table_path_ok D va HD) as Hok3.
  pose proof (path_ok_prefix D [L0_INDEX va; L1_INDEX va] [L2_INDEX va] Hok3) as Hok2.
  pose proof (path_ok_prefix D [L0_INDEX va] [L1_INDEX va] Hok2) as Hok1.
  destruct (walk_root_table _ _ _ Hi) as (f0 & Hf0 & Hroot). pose proof (frame_addr_bounds _ Hf0).
  unfold arm64_unmap_one_page. wp_step. apply wp_walk_root. set (root := root_of s va) in *.
  replace (root =? 0) with false by lia. wp_step. apply wp_phys_to_virt. wp_step.
  eapply (wp_ld_table D s root []); [done|by apply (path_ok_prefix D [] _ Hok1)|apply index_ok|done|].
  intros g1 _ <-. pose proof (walk_snoc s root [] root (L0_INDEX va) eq_refl) as Hw1.
  simpl app in Hw1. destruct (pte_present (entry s root (L0_INDEX va))) eqn:E0; simpl.
  2:{ apply wp_ret, HQ, removed_none; [done|]. unfold mapping, leaf, table_path. cbn [walk]. by rewrite E0. }
  destruct (pt_tab _ _ _ Hi _ _ Hok1 Hw1) as (f1 & Hf1 & E1 & _). rewrite E1 in *.
  wp_step. apply wp_phys_to_virt. wp_step.
  eapply (wp_ld_table D s root [L0_INDEX va]); [done|done|apply index_ok|done|].
  intros g2 _ <-. pose proof (walk_snoc s root [L0_INDEX va] _ (L1_INDEX va) Hw1) as Hw2.
  destruct (pte_present (entry s (frame_addr f1) (L1_INDEX va))) eqn:P1; simpl.
  2:{ apply wp_ret, HQ, removed_none; [done|]. unfold mapping, leaf, table_path. cbn [walk]. by rewrite E0, E1, P1. }
  simpl app in Hw2. destruct (pt_tab _ _ _ Hi _ _ Hok2 Hw2) as (f2 & Hf2 & E2 & _). rewrite E2 in *.
  wp_step. apply wp_phys_to_virt. wp_step.
  eapply (wp_ld_table D s root [L0_INDEX va; L1_INDEX va]); [done|done|apply index_ok|done|].
  intros g3 _ <-. pose proof (walk_snoc s root _ _ (L2_INDEX va) Hw2) as Hw3.
  destruct (pte_present (entry s (frame_addr f2) (L2_INDEX va))) eqn:P2; simpl.
  2:{ apply wp_ret, HQ, removed_none; [done|]. unfold mapping, leaf, table_path. cbn [walk]. by rewrite E0, E1, P1, E2, P2. }
  simpl app in Hw3. fold (table_path va) in Hw3. destruct (pt_tab _ _ _ Hi _ _ Hok3 Hw3) as (f3 & Hf3 & E3 & _). rewrite E3 in *.
  wp_step. apply wp_phys_to_virt. wp_step.
  eapply (wp_ld_table D s root (table_path va)); [done|done|apply index_ok|done|].
  intros g4 _ <-.
  destruct (pte_present (entry s (frame_addr f3) (L3_INDEX va))) eqn:P3; simpl.
  2:{ apply wp_ret, HQ, removed_none; [done|]. unfold mapping, leaf. rewrite Hw3. by rewrite P3. }
  destruct (unmapped_clear D s root va f3 Hi HD Hw3) as (Hu & Hregs & Hwk).
  wp_step. apply wp_st_pte; [done|apply index_ok|]. wp_step. unfold flush_tlb, arch_tlb_flush_all. wp_step.
  assert (Hmap : mapping s root va <> None) by (unfold mapping, leaf; rewrite Hw3, P3; done).
  pose proof (wp_unmap_tables D s _ root va f1 f2 f3 f0 Q (Build_cutting _ _ _ _ _ Hu ltac:(by left; apply Hwk)) HD Hroot Hf0 Hf1 Hf2 Hf3
    (Hwk _ _ Hok1 Hw1) (Hwk _ _ Hok2 Hw2) (Hwk _ _ Hok3 Hw3)
    (fun s' Hc Ht => HQ s' (Build_removed _ _ _ _ _ Hc (fun E => match Hmap E with end) (fun _ => Ht)))) as Hfin.
  rewrite (same_regs_base _ _ Hregs) in Hfin. exact Hfin.
Qed.

Lemma wp_unmap_one_page D va (Q : unit -> machine -> Prop) s :
  pt_inv D s (root_of s va) -> D (L0_INDEX va) = true ->
  (forall s', unmapped D s s' (root_of s va) va -> Q tt s') ->
  wp (arm64_unmap_one_page va) Q s.
Proof. intros Hi HD HQ. apply (wp_unmap_removed D); [done|done|]. intros s' Hr. apply HQ, Hr. Qed.
