(* ===== verification/MmuProps.v ===== *)
(** What the page-table interface promises ([kernel/mmu.c]): [map_page], [unmap_page] and
    [get_phys_from_va] are an update, a removal and a lookup of one address in the map the tree
    represents, whatever the shape of the tree. *)
From S2P Require Import Prelude ListHead Pmm PmmTheory PmmOps PmmInit PmmProps Machine Mmu MmuTheory.

Lemma grow_mapping D s s' root va : grow D s s' root -> D (L0_INDEX va) = true ->
  mapping s' root va = mapping s root va.
Proof. intros Hg HD. apply (gr_leaf _ _ _ _ Hg); [by apply table_path_ok|done|apply l3_ok]. Qed.

(** ** A concrete machine: an empty tree in the kernel image *)

(** Both roots lie in the image; RAM is zeroed. *)
Definition sample_machine (pm : pmm) : machine :=
  Machine pm ∅ 0xffff800000000000 (frame_addr 5) 0xffff800000000000 (frame_addr 5)
    (frame_addr 6) (frame_addr 5) 0 0 0 0 0.

Lemma sample_pt_inv pm f : initialised 1024 pm -> 0 <= f < 1024 ->
  pt_inv (fun _ => true) (sample_machine pm) (frame_addr f).
Proof.
  intros [[Hi _] [Hz _] _ _ _] Hf.
  assert (Hw : forall p t, walk (sample_machine pm) (frame_addr f) p = Some t -> p = [] /\ t = frame_addr f).
  { intros [|i p] t; simpl; [by intros [= <-]|]. unfold entry, ram_at. simpl. by rewrite lookup_empty. }
  split.
  - done.
  - intros p t _ [-> ->]%Hw. exists f. split_and!; [|done| |done].
    + unfold page_ok. rewrite TOTAL_PAGES_eq. lia.
    + left. change (f < first_pfn pm). lia.
  - intros p q t _ _ [-> _]%Hw [-> _]%Hw. done.
Qed.

Definition sample_va : Z := 0xffff000000123000.

Lemma sample_root pm : root_of (sample_machine pm) sample_va = frame_addr 5.
Proof. done. Qed.

(** C7: [map_page] always returns.  On success the address maps to the given frame and attributes; on
    failure no mapping changes, and the page allocator has no page left, so that no table could be had.  Either way every other address keeps its mapping,
    the tables stay a tree of live pages, and memory that belongs to anyone else is not written. *)
Theorem map_page_correct D s va pa prot :
  pt_inv D s (root_of s va) -> D (L0_INDEX va) = true ->
  let e := Z.lor prot (Z.land pa ARM64_PTE_ADDR_MASK) in
  pte_present e = true ->
  exists r s', map_page va pa prot s = Done (r, s') /\
    pt_inv D s' (root_of s va) /\ pt_frame D s s' (root_of s va) /\
    ((r = -1 /\ free_pages (m_pmm s') = 0 /\ forall va', D (L0_INDEX va') = true ->
        mapping s' (root_of s va) va' = mapping s (root_of s va) va') \/
     (r = 0 /\ forall va', D (L0_INDEX va') = true ->
        mapping s' (root_of s va) va' =
          if decide (same_page va' va) then Some e else mapping s (root_of s va) va')).
Proof.
  intros Hi HD e He. eapply wp_done, wp_map_one_page; [done|done| |].
  - intros s' Hg Hno. split_and!; [apply Hg|apply Hg|]. left. split_and!; [done|done|]. intros. by eapply grow_mapping.
  - intros s' Hi' Hf Hm _. split_and!; [done|done|]. right. split; [done|]. intros va' HD'. rewrite Hm by done.
    fold e. cbv zeta. by rewrite He.
Qed.

Lemma map_page_correct_witness : exists s, pt_inv (fun _ => true) s (root_of s sample_va) /\
  exists r s', map_page sample_va 0x40500000 PAGE_KERNEL_RW s = Done (r, s') /\
    pt_inv (fun _ => true) s' (root_of s sample_va).
Proof.
  destruct booted as [pm Hpm]. exists (sample_machine pm).
  assert (Hi : pt_inv (fun _ => true) (sample_machine pm) (root_of (sample_machine pm) sample_va)).
  { apply (sample_pt_inv pm 5 Hpm). lia. }
  split; [exact Hi|].
  destruct (map_page_correct (fun _ => true) (sample_machine pm) sample_va 0x40500000 PAGE_KERNEL_RW Hi eq_refl eq_refl)
    as (r & s' & Hrun & Hi' & _).
  exists r, s'. split; [exact Hrun|exact Hi'].
Defined.

(** C8: [unmap_page] always returns; afterwards the address is not mapped, every other address keeps its
    mapping, and memory that belongs to anyone else is not written.  Each table of the tree is still there or
    its page is back with the page allocator.  When the address was mapped, no table on the way to it, the
    root apart, is left empty; when it was not, nothing changes at all. *)
Theorem unmap_page_correct D s va :
  pt_inv D s (root_of s va) -> D (L0_INDEX va) = true ->
  exists s', unmap_page va s = Done (tt, s') /\
    pt_inv D s' (root_of s va) /\ pt_frame D s s' (root_of s va) /\
    (forall va', D (L0_INDEX va') = true ->
      mapping s' (root_of s va) va' =
        if decide (same_page va' va) then None else mapping s (root_of s va) va') /\
    given_back D s s' (root_of s va) /\
    (if mapping s (root_of s va) va then tidy s' (root_of s va) va else s' = s).
Proof.
  intros Hi HD.
  assert (Hwp : wp (unmap_page va) (fun _ s' => removed D s s' (root_of s va) va) s) by (by apply (wp_unmap_removed D)).
  apply wp_done in Hwp as ([] & s' & Hrun & [[[Hi' Hl Hf _] Hb] Ha Ht]). exists s'. split_and!; [done..|].
  destruct (mapping s (root_of s va) va); [by apply Ht|by apply Ha].
Qed.

Lemma unmap_page_correct_witness : exists s, pt_inv (fun _ => true) s (root_of s sample_va) /\
  exists s', unmap_page sample_va s = Done (tt, s') /\ pt_inv (fun _ => true) s' (root_of s sample_va).
Proof.
  destruct booted as [pm Hpm]. exists (sample_machine pm).
  assert (Hi : pt_inv (fun _ => true) (sample_machine pm) (root_of (sample_machine pm) sample_va)).
  { apply (sample_pt_inv pm 5 Hpm). lia. }
  split; [exact Hi|].
  destruct (unmap_page_correct (fun _ => true) (sample_machine pm) sample_va Hi eq_refl) as (s' & Hrun & Hi' & _).
  exists s'. split; [exact Hrun|exact Hi'].
Defined.

(** The lookup sees exactly what was mapped: after a successful [map_page] of a valid entry,
    [get_phys_from_va] of any address of the page is the frame, and of any other address what it was
    before; the lookup changes nothing. *)
Theorem map_translate D s s' va va' pa prot :
  pt_inv D s (root_of s va) -> D (L0_INDEX va) = true -> D (L0_INDEX va') = true ->
  root_of s va' = root_of s va ->
  pte_present prot = true -> Z.land prot ARM64_PTE_ADDR_MASK = 0 ->
  map_page va pa prot s = Done (0, s') ->
  get_phys_from_va va' s' = Done (if decide (same_page va' va) then Z.land pa ARM64_PTE_ADDR_MASK else
    match mapping s (root_of s va) va' with Some e => pte_to_phys e | None => 0 end, s').
Proof.
  intros Hi HD HD' Hroot Hv Hp Hrun. set (e := Z.lor prot (Z.land pa ARM64_PTE_ADDR_MASK)).
  assert (He : pte_present e = true /\ pte_to_phys e = Z.land pa ARM64_PTE_ADDR_MASK).
  { unfold pte_present, pte_to_phys, e in *. rewrite !Z.land_lor_distr_l, Hp, <- !Z.land_assoc.
    rewrite Z.land_diag. change (Z.land ARM64_PTE_ADDR_MASK ARM64_PTE_VALID) with 0.
    by rewrite Z.land_0_r, Z.lor_0_r. }
  destruct He as [He1 He2].
  assert (Hwp : wp (map_page va pa prot) (fun r t => r = 0 -> pt_inv D t (root_of s va) /\
     same_regs s t /\ forall x, D (L0_INDEX x) = true -> mapping t (root_of s va) x =
       if decide (same_page x va) then Some e else mapping s (root_of s va) x) s).
  { eapply wp_map_one_page; [done|done|done|]. intros t Ht Hf Hm _ _. split_and!; [done|apply Hf|].
    intros x Hx. rewrite Hm by done. fold e. cbv zeta. by rewrite He1. }
  unfold wp in Hwp. rewrite Hrun in Hwp. destruct (Hwp eq_refl) as (Hi' & Hregs & Hm).
  assert (Hr' : root_of s' va' = root_of s va) by (rewrite (same_regs_root _ _ _ Hregs); done).
  assert (Hg : wp (get_phys_from_va va') (fun r t => r = (match mapping s' (root_of s va) va' with
      Some e => pte_to_phys e | None => 0 end) /\ t = s') s').
  { eapply (wp_get_phys_from_va D); rewrite ?Hr'; done. }
  apply wp_done in Hg as (r & t & Hg & -> & ->). rewrite Hg, Hm by done.
  destruct (decide (same_page va' va)); [|done]. by rewrite He2.
Qed.

Lemma map_translate_witness : exists s, pt_inv (fun _ => true) s (root_of s sample_va) /\
  forall s', map_page sample_va 0x40500000 PAGE_KERNEL_RW s = Done (0, s') ->
    get_phys_from_va sample_va s' = Done (0x40500000, s').
Proof.
  destruct booted as [pm Hpm]. exists (sample_machine pm).
  assert (Hi : pt_inv (fun _ => true) (sample_machine pm) (root_of (sample_machine pm) sample_va)).
  { apply (sample_pt_inv pm 5 Hpm). lia. }
  split; [exact Hi|]. intros s' Hrun.
  exact (map_translate (fun _ => true) (sample_machine pm) s' sample_va sample_va 0x40500000 PAGE_KERNEL_RW
           Hi eq_refl eq_refl eq_refl eq_refl eq_refl Hrun).
Defined.

(** Unmapping a page just mapped restores the map: every address is mapped as before, the page
    itself not at all. *)
Theorem map_unmap_roundtrip D s va pa prot :
  pt_inv D s (root_of s va) -> D (L0_INDEX va) = true -> mapping s (root_of s va) va = None ->
  exists r s' s'', map_page va pa prot s = Done (r, s') /\ unmap_page va s' = Done (tt, s'') /\
    pt_inv D s'' (root_of s va) /\ pt_frame D s s'' (root_of s va) /\
    forall va', D (L0_INDEX va') = true -> mapping s'' (root_of s va) va' = mapping s (root_of s va) va'.
Proof.
  intros Hi HD Hnone.
  assert (Hwp : wp (map_page va pa prot) (fun _ t => pt_inv D t (root_of s va) /\ pt_frame D s t (root_of s va) /\
     forall x, D (L0_INDEX x) = true -> ~ same_page x va -> mapping t (root_of s va) x = mapping s (root_of s va) x) s).
  { eapply wp_map_one_page; [done|done| |].
    - intros t Ht _. split_and!; [apply Ht|apply Ht|]. intros. by eapply grow_mapping.
    - intros t Ht Hf Hm _. split_and!; [done|done|]. intros x Hx Hne. rewrite Hm by done. by rewrite decide_False. }
  apply wp_done in Hwp as (r & s' & Hrun & Hi' & Hf' & Hm).
  assert (Hr' : root_of s' va = root_of s va) by (apply same_regs_root, Hf').
  assert (Hu : wp (unmap_page va) (fun _ t => unmapped D s' t (root_of s va) va) s').
  { rewrite <- Hr'. apply (wp_unmap_one_page D); rewrite ?Hr'; done. }
  apply wp_done in Hu as ([] & s'' & Hrun' & [Hi2 Hl2 Hf2 _]).
  exists r, s', s''. split_and!; [done|done|done|by eapply pt_frame_trans|].
  intros va' HD'. rewrite Hl2 by done. destruct (decide (same_page va' va)) as [[Ht Hl]|Hne]; [|by apply Hm].
  unfold mapping in *. by rewrite Ht, Hl.
Qed.

Lemma map_unmap_roundtrip_witness : exists s, pt_inv (fun _ => true) s (root_of s sample_va) /\
  mapping s (root_of s sample_va) sample_va = None /\
  exists r s' s'', map_page sample_va 0x40500000 PAGE_DEVICE s = Done (r, s') /\
    unmap_page sample_va s' = Done (tt, s'').
Proof.
  destruct booted as [pm Hpm]. exists (sample_machine pm).
  assert (Hi : pt_inv (fun _ => true) (sample_machine pm) (root_of (sample_machine pm) sample_va)).
  { apply (sample_pt_inv pm 5 Hpm). lia. }
  assert (Hn : mapping (sample_machine pm) (root_of (sample_machine pm) sample_va) sample_va = None) by reflexivity.
  split; [exact Hi|]. split; [exact Hn|].
  destruct (map_unmap_roundtrip (fun _ => true) (sample_machine pm) sample_va 0x40500000 PAGE_DEVICE Hi eq_refl Hn)
    as (r & s' & s'' & H1 & H2 & _).
  exists r, s', s''. split; [exact H1|exact H2].
Defined.
