(* ===== verification/UserPages.v ===== *)
(** Pages of a process: a frame that no table uses, from the allocator into the tree of page tables, copied, and back.

    These are the steps [kernel/mm.c], [kernel/brk.c] and [kernel/page_fault.c] share. *)
From S2P Require Import Prelude ListHead Pmm PmmTheory PmmOps PmmInit PmmProps Machine Mmu MmuTheory MmuProps.

(** ** Changes the tree does not notice *)

(** From [s] to [s'] only frames of [G] changed, none of which is a table. *)
Section quiet.
Context (D : Z -> bool) (s s' : machine) (root : Z) (G : Z -> Prop).
Hypothesis inv : pt_inv D s root.
Hypothesis pm_inv : buddy_inv (m_pmm s').
Hypothesis keep : forall g, held (m_pmm s) g -> ~ G g ->
  stays (m_pmm s) (m_pmm s') g /\ forall i, idx_ok i -> entry s' (frame_addr g) i = entry s (frame_addr g) i.
Hypothesis not_tables : forall g, G g -> not_table D s root g.

Lemma quiet_table p t : path_ok D p -> walk s root p = Some t -> exists g, page_ok g /\ t = frame_addr g /\ held (m_pmm s) g /\
  ~ G g /\ (p <> [] -> live (m_pmm s) g 0).
Proof using inv not_tables.
  intros Hok Hw. destruct (pt_tab _ _ _ inv p t Hok Hw) as (g & ? & -> & ? & ?). exists g. split_and!; try done.
  intros HG. by apply (not_tables g HG p Hok).
Qed.
Lemma quiet_walk p : path_ok D p -> walk s' root p = walk s root p.
Proof using inv keep not_tables.
  intros Hok. apply walk_frame. intros p' j q t' -> Hw.
  destruct (quiet_table p' t' (path_ok_prefix _ _ _ Hok) Hw) as (g & _ & -> & Hh & HG & _). apply (keep g Hh HG).
  destruct Hok as (Hf & _). by apply Forall_app in Hf as [_ [Hj _]%Forall_cons].
Qed.
Lemma quiet_not_table f : not_table D s' root f <-> not_table D s root f.
Proof using inv keep not_tables. unfold not_table. split; intros Hn p Hok; specialize (Hn p Hok); rewrite quiet_walk in *; done. Qed.
Lemma quiet_leaf p i : path_ok D p -> idx_ok i -> leaf s' root p i = leaf s root p i.
Proof using inv keep not_tables.
  intros Hok Hi. unfold leaf. rewrite quiet_walk by done. destruct (walk s root p) as [t|] eqn:Hw; [|done].
  destruct (quiet_table p t Hok Hw) as (g & _ & -> & Hh & HG & _). by rewrite (proj2 (keep g Hh HG)).
Qed.
Lemma quiet_mapping va : D (L0_INDEX va) = true -> mapping s' root va = mapping s root va.
Proof using inv keep not_tables. intros HD. apply quiet_leaf; [by apply table_path_ok|apply l3_ok]. Qed.
Lemma quiet_inv : pt_inv D s' root.
Proof using All.
  split; [exact pm_inv| |].
  - intros p t Hok Hw. rewrite quiet_walk in Hw by done. destruct (quiet_table p t Hok Hw) as (g & Hg & -> & Hh & HG & Hl).
    destruct (keep g Hh HG) as [[Hh' Hl' _] _]. exists g. split_and!; [done|done|done|]. intros Hp. by apply Hl', Hl.
  - intros p q t Hp Hq. rewrite !quiet_walk by done. by apply (pt_inj _ _ _ inv).
Qed.
(** All held frames stay: the tree grew by nothing. *)
Lemma quiet_grow : same_regs s s' -> (forall g, held (m_pmm s) g -> ~ G g) -> grow D s s' root.
Proof using All.
  intros Hr HG. split; [apply quiet_inv|intros p t Hok; by rewrite quiet_walk|intros p i Hok _ Hi; by apply quiet_leaf|].
  split; [exact Hr|]. intros f Hf Hn. destruct (keep f Hf (HG f Hf)). split_and!; [done|by apply quiet_not_table|done].
Qed.
End quiet.

(** ** A page of one's own *)

(** [s1] is [s] with the page [n] allocated and written. *)
Record own_page (s s1 : machine) (n : Z) : Prop := {
  op_regs : same_regs s s1;
  op_pmm : buddy_inv (m_pmm s1);
  op_new : ~ held (m_pmm s) n /\ live (m_pmm s1) n 0 /\ page_ok n /\ pg_ref_count (page_at (m_pmm s1) n) = 1;
  op_stays : forall f, held (m_pmm s) f -> stays (m_pmm s) (m_pmm s1) f;
  op_rest : forall g i, g <> n -> idx_ok i -> entry s1 (frame_addr g) i = entry s (frame_addr g) i;
}.

Lemma own_allocated s n pm dma : buddy_inv (m_pmm s) -> allocated (m_pmm s) 0 dma n pm -> own_page s (set_pmm pm s) n.
Proof.
  intros Hi Hal. destruct (allocated_fresh _ _ _ _ Hi Hal) as (Hnh & Hnl & Hok). split.
  - by destruct s.
  - apply (al_inv _ _ _ _ _ Hal).
  - split_and!; [done..|apply (al_ref _ _ _ _ _ Hal)].
  - intros f Hf. split; [by eapply allocated_held| |apply (al_ref _ _ _ _ _ Hal); by intros ->].
    intros o Ho. apply (al_live _ _ _ _ _ Hal). by left.
  - done.
Qed.
Lemma own_written s s1 s2 n : own_page s s1 n -> same_regs s1 s2 -> m_pmm s2 = m_pmm s1 ->
  (forall g i, g <> n -> idx_ok i -> entry s2 (frame_addr g) i = entry s1 (frame_addr g) i) -> own_page s s2 n.
Proof.
  intros [H1 H2 H3 H4 H5] Hr Hp He. split; rewrite ?Hp; try done; [by eapply same_regs_trans|].
  intros g i Hg Hi. by rewrite He, H5.
Qed.

(** The new page is in no tree, and the tree does not notice it. *)
Section own.
Context (D : Z -> bool) (s s1 : machine) (root n : Z).
Hypothesis inv : pt_inv D s root.
Hypothesis own : own_page s s1 n.

Lemma own_ne f : held (m_pmm s) f -> f <> n.
Proof using own. intros Hf ->. by apply (proj1 (op_new _ _ _ own)). Qed.
Lemma own_keep g : held (m_pmm s) g -> g <> n ->
  stays (m_pmm s) (m_pmm s1) g /\ forall i, idx_ok i -> entry s1 (frame_addr g) i = entry s (frame_addr g) i.
Proof using own. intros Hh Hg. split; [by apply (op_stays _ _ _ own)|]. intros i Hi. by apply (op_rest _ _ _ own). Qed.
Lemma own_fresh g : g = n -> not_table D s root g.
Proof using inv own.
  intros -> p Hok Hw. destruct (pt_tab _ _ _ inv p _ Hok Hw) as (g & _ & E & Hh & _).
  apply frame_addr_inj in E as <-. by apply (own_ne _ Hh).
Qed.
Lemma own_not_table : not_table D s1 root n.
Proof using inv own. by apply (quiet_not_table D s s1 root (fun g => g = n) inv own_keep own_fresh), own_fresh. Qed.
Lemma own_grow : grow D s s1 root.
Proof using inv own.
  exact (quiet_grow D s s1 root (fun g => g = n) inv (op_pmm _ _ _ own) own_keep own_fresh (op_regs _ _ _ own) own_ne).
Qed.
End own.

(** ** Copying a page *)

Lemma wp_copy_page f n (Q : unit -> machine -> Prop) s : page_ok f -> page_ok n -> f <> n ->
  (forall s', same_regs s s' -> m_pmm s' = m_pmm s ->
     (forall i, idx_ok i -> entry s' (frame_addr n) i = entry s (frame_addr f) i) ->
     (forall g i, g <> n -> idx_ok i -> entry s' (frame_addr g) i = entry s (frame_addr g) i) -> Q tt s') ->
  wp (copy_mem (add64 (slab_linear_map_base s) (frame_addr n)) (add64 (slab_linear_map_base s) (frame_addr f)) PAGE_SIZE) Q s.
Proof.
  intros Hf Hn Hne HQ. unfold copy_mem.
  eapply wp_mono; [apply (wp_for_n (fun k s' => same_regs s s' /\ m_pmm s' = m_pmm s /\
     (forall i, idx_ok i -> i < k -> entry s' (frame_addr n) i = entry s (frame_addr f) i) /\
     (forall g i, g <> n -> idx_ok i -> entry s' (frame_addr g) i = entry s (frame_addr g) i)))|].
  - split_and!; [apply same_regs_refl|done|unfold idx_ok; lia|done].
  - intros k s1 Hk (Hr & Hp & Hz & Ho).
    assert (Hik : idx_ok k) by (unfold idx_ok, PTRS_PER_PTE; rewrite PAGE_SIZE_eq in *; lia).
    rewrite <- (same_regs_base _ _ Hr). wp_step. apply (wp_ld_pte f k); [done|done|]. apply (wp_st_pte n k); [done|done|].
    split_and!; [by eapply same_regs_trans|done| |].
    + intros i Hi Hlt. rewrite entry_set_entry by done. case_decide as E; [destruct E as [_ ->]; by apply Ho|].
      apply Hz; [done|]. assert (i <> k) by tauto. lia.
    + intros g i Hg Hi. rewrite entry_set_entry by done. rewrite decide_False by tauto. by apply Ho.
  - intros [] s' (Hr & Hp & Hz & Ho). apply HQ; [done|done| |done].
    intros i Hi. apply Hz; [done|]. unfold idx_ok, PTRS_PER_PTE in Hi. rewrite PAGE_SIZE_eq. lia.
Qed.

(** ** The tree does not notice a change of the allocator that keeps its tables *)

Section allocator.
Context (D : Z -> bool) (s : machine) (root : Z) (pm : pmm).
Hypothesis inv : pt_inv D s root.
Hypothesis pm_inv : buddy_inv pm.

Lemma pmm_walk p t : walk (set_pmm pm s) t p = walk s t p.
Proof using. by apply walk_frame. Qed.
Lemma pmm_leaf p i : leaf (set_pmm pm s) root p i = leaf s root p i.
Proof using. unfold leaf. by rewrite pmm_walk. Qed.
Lemma pmm_mapping va : mapping (set_pmm pm s) root va = mapping s root va.
Proof using. apply pmm_leaf. Qed.
Lemma pmm_not_table f : not_table D (set_pmm pm s) root f <-> not_table D s root f.
Proof using. unfold not_table. by setoid_rewrite pmm_walk. Qed.
Lemma pmm_pt_inv f : not_table D s root f -> (forall g, g <> f -> held (m_pmm s) g -> stays (m_pmm s) pm g) -> pt_inv D (set_pmm pm s) root.
Proof using inv pm_inv.
  intros Hn Hst. apply (quiet_inv D s (set_pmm pm s) root (fun g => g = f)); [done|done| |by intros g ->].
  intros g Hh Hg. split; [by apply Hst|done].
Qed.
End allocator.

(** ** Giving up a page *)

Lemma released_stays pm f pm' g : released pm f 0 pm' -> live pm f 0 -> g <> f -> held pm g -> stays pm pm' g.
Proof.
  intros Hrel Hl Hg Hh. split; [by eapply released_held| |apply (rl_ref _ _ _ _ Hrel)].
  intros o Ho. by apply (rl_live _ _ _ _ Hrel).
Qed.
Lemma with_ref_stays pm f rc g : g <> f -> held pm g -> stays pm (with_ref f rc pm) g.
Proof.
  intros Hg Hh. split.
  - revert Hh. unfold held, live. by setoid_rewrite with_ref_blocks.
  - intros o. unfold live. by rewrite with_ref_blocks.
  - unfold with_ref. by rewrite page_at_insert, decide_False by done.
Qed.

(** The allocator after one reference to the page [f] was dropped. *)
Inductive dropped (pm : pmm) (f : Z) : pmm -> Prop :=
| DropShared : 1 < pg_ref_count (page_at pm f) -> dropped pm f (with_ref f (pg_ref_count (page_at pm f) - 1) pm)
| DropLast pm' : pg_ref_count (page_at pm f) = 1 -> released (with_ref f 0 pm) f 0 pm' -> dropped pm f pm'.

Lemma wp_put_live f (Q : unit -> pmm -> Prop) pm : buddy_inv pm -> live pm f 0 -> page_ok f -> 1 <= pg_ref_count (page_at pm f) < 2 ^ 64 ->
  (forall pm', dropped pm f pm' -> Q tt pm') -> wp (put_page (frame_addr f)) Q pm.
Proof.
  intros Hi Hl Hf Hrc HQ. destruct (frame_addr_range f Hf) as [_ Hu]. assert (Hpfn : pa_to_pfn (frame_addr f) = f) by (apply pa_to_pfn_frame; unfold page_ok in *; lia).
  apply wp_put_page; rewrite Hpfn; [lia|unfold page_ok in *; lia|intros _ Hrc1; by apply HQ, DropShared|].
  intros _ Hrc1. apply wp_free_live; [by apply binv_set_ref| |done|intros pm' Hrel; by apply HQ, DropLast].
  unfold live. by rewrite with_ref_blocks.
Qed.

Lemma dropped_inv pm f pm' : buddy_inv pm -> dropped pm f pm' -> buddy_inv pm'.
Proof. intros Hi [_|pm'' _ Hrel]; [by apply binv_set_ref|apply (rl_inv _ _ _ _ Hrel)]. Qed.
Lemma dropped_stays pm f pm' g : live pm f 0 -> dropped pm f pm' -> g <> f -> held pm g -> stays pm pm' g.
Proof.
  intros Hl [_|pm'' _ Hrel] Hg Hh; [by apply with_ref_stays|]. pose proof (with_ref_stays pm f 0 g Hg Hh) as Hs.
  eapply stays_trans; [exact Hs|]. eapply released_stays; [exact Hrel| |exact Hg|apply (st_held _ _ _ Hs)].
  unfold live. by rewrite with_ref_blocks.
Qed.

(** ** The steps on the machine *)

(** An attribute word of a page: valid, and no address bits. *)
Definition prot_ok (prot : Z) : Prop := pte_present prot = true /\ Z.land prot ARM64_PTE_ADDR_MASK = 0.

Lemma page_entry prot n : prot_ok prot -> page_ok n ->
  pte_present (Z.lor prot (frame_addr n)) = true /\ pte_to_phys (Z.lor prot (frame_addr n)) = frame_addr n.
Proof.
  intros [Hv Hp] Hn. destruct (frame_addr_bounds n Hn) as [Hb Hmod].
  pose proof (land_addr_mask (frame_addr n) ltac:(lia) Hmod) as Hm. unfold pte_present, pte_to_phys in *.
  split; [|by rewrite Z.land_lor_distr_l, Hp, Z.lor_0_l].
  rewrite Z.land_lor_distr_l, <- Hm, <- Z.land_assoc. change (Z.land ARM64_PTE_ADDR_MASK ARM64_PTE_VALID) with 0.
  by rewrite Z.land_0_r, Z.lor_0_r.
Qed.

(** The new page [n] holds [content] and is what [va] maps to; nothing else changed. *)
Record page_added D (s s' : machine) root va prot (content : Z -> Z) n : Prop := {
  pa_inv : pt_inv D s' root;
  pa_frame : pt_frame D s s' root;
  pa_new : ~ held (m_pmm s) n /\ live (m_pmm s') n 0 /\ page_ok n /\ not_table D s' root n /\
    pg_ref_count (page_at (m_pmm s') n) = 1;
  pa_content : forall i, idx_ok i -> entry s' (frame_addr n) i = content i;
  pa_map : forall va', D (L0_INDEX va') = true -> mapping s' root va' =
    if decide (same_page va' va) then Some (Z.lor prot (frame_addr n)) else mapping s root va';
}.

Section steps.
Context (D : Z -> bool) (s : machine) (root : Z).

(** Giving the new page back. *)
Lemma wp_free_own s1 s2 n (Q : unit -> machine -> Prop) : pt_inv D s root -> own_page s s1 n -> grow D s1 s2 root ->
  (forall s', grow D s s' root -> free_pages (m_pmm s') = free_pages (m_pmm s2) + 1 -> Q tt s') -> wp (on_pmm (free_phys_pages (frame_addr n) 0)) Q s2.
Proof.
  intros Hi Hown Hg HQ. pose proof (own_grow _ _ _ _ _ Hi Hown) as Hg1. pose proof (grow_trans _ _ _ _ _ Hg1 Hg) as Hg2.
  destruct (op_new _ _ _ Hown) as (Hnh & Hl & Hok & _).
  destruct (fr_rest _ _ _ _ (gr_frame _ _ _ _ Hg) n (live_held _ _ Hl) (own_not_table _ _ _ _ _ Hi Hown)) as (Hst & Hnt & _).
  pose proof (st_live _ _ _ Hst _ Hl) as Hl2. pose proof (gr_inv _ _ _ _ Hg2) as Hi2.
  apply wp_on_pmm, wp_free_live; [apply (pt_pmm _ _ _ Hi2)|done|done|]. intros pm Hrel.
  apply HQ; [|exact (rl_count _ _ _ _ Hrel)]. split.
  - apply (pmm_pt_inv _ _ _ _ Hi2 (proj1 (rl_inv _ _ _ _ Hrel)) n Hnt). intros g Hgn Hh. by eapply released_stays.
  - intros p t Hp Hw. rewrite pmm_walk. by apply (gr_walk _ _ _ _ Hg2).
  - intros p i Hp Hlen Hx. rewrite pmm_leaf. by apply (gr_leaf _ _ _ _ Hg2).
  - destruct (gr_frame _ _ _ _ Hg2) as [Hr Hf]. split; [eapply same_regs_trans; [exact Hr|by destruct s2]|].
    intros f Hf0 Hn0. destruct (Hf f Hf0 Hn0) as (Hs & Hn' & He). split_and!; [|by apply pmm_not_table|done].
    eapply stays_trans; [exact Hs|]. eapply released_stays; [done|done| |apply (st_held _ _ _ Hs)].
    by apply (own_ne _ _ _ Hown).
Qed.

(** Mapping the new page. *)
Lemma wp_map_own s1 va prot n (Q : Z -> machine -> Prop) : pt_inv D s root -> own_page s s1 n -> prot_ok prot ->
  root = root_of s va -> D (L0_INDEX va) = true ->
  (forall s', grow D s1 s' root -> free_pages (m_pmm s') = 0 -> Q (-1) s') ->
  (forall s', page_added D s s' root va prot (entry s1 (frame_addr n)) n -> Q 0 s') -> wp (map_page va (frame_addr n) prot) Q s1.
Proof.
  intros Hi Hown Hprot Hroot HD HQ1 HQ2. pose proof (own_grow _ _ _ _ _ Hi Hown) as Hg1.
  pose proof (same_regs_root _ _ va (op_regs _ _ _ Hown)) as Hr. rewrite <- Hroot in Hr.
  destruct (op_new _ _ _ Hown) as (Hnh & Hl & Hok & Hrc). destruct (frame_addr_bounds n Hok) as [Hb Hmod].
  destruct (page_entry prot n Hprot Hok) as [Hv _].
  apply (wp_map_one_page D); rewrite ?Hr; [apply Hg1|done|done|]. intros s' Hi' Hf Hm _. apply HQ2.
  destruct (fr_rest _ _ _ _ Hf n (live_held _ _ Hl) (own_not_table _ _ _ _ _ Hi Hown)) as ([_ Hl' Hrc'] & Hn' & He').
  split; [done|by eapply pt_frame_trans; [apply Hg1|]| |done|].
  - split_and!; [done|by apply Hl'|done|done|congruence].
  - intros va' HD'. rewrite Hm by done. rewrite (land_addr_mask (frame_addr n)) by (done || lia). cbv zeta. rewrite Hv.
    case_decide; [done|]. by apply (grow_mapping D).
Qed.
End steps.

(** ** Dropping a page that is no longer mapped *)

(** The reference to [f] is gone; every other held page, and [f] itself while somebody else uses it, stays. *)
Record page_put D (s s' : machine) root f : Prop := {
  pp_regs : same_regs s s';
  pp_rest : forall g, g <> f -> held (m_pmm s) g -> not_table D s root g ->
    stays (m_pmm s) (m_pmm s') g /\ not_table D s' root g /\
    forall i, idx_ok i -> entry s' (frame_addr g) i = entry s (frame_addr g) i;
  pp_shared : 1 < pg_ref_count (page_at (m_pmm s) f) ->
    live (m_pmm s') f 0 /\ pg_ref_count (page_at (m_pmm s') f) = pg_ref_count (page_at (m_pmm s) f) - 1 /\
    not_table D s' root f /\ forall i, idx_ok i -> entry s' (frame_addr f) i = entry s (frame_addr f) i;
}.

(** A page that is used as such: live, in no table, and referenced. *)
Definition user_page D (s : machine) root f : Prop :=
  page_ok f /\ live (m_pmm s) f 0 /\ not_table D s root f /\ 1 <= pg_ref_count (page_at (m_pmm s) f) < 2 ^ 64.

Lemma user_page_frame D s s' root f : pt_frame D s s' root -> user_page D s root f ->
  user_page D s' root f /\ pg_ref_count (page_at (m_pmm s') f) = pg_ref_count (page_at (m_pmm s) f) /\
  forall i, idx_ok i -> entry s' (frame_addr f) i = entry s (frame_addr f) i.
Proof.
  intros Hf (Hok & Hl & Hn & Hrc). destruct (fr_rest _ _ _ _ Hf f (live_held _ _ Hl) Hn) as ([_ Hl' Hrc'] & Hn' & He).
  split; [|done]. split_and!; [done|by apply Hl'|done|lia..].
Qed.

Lemma page_put_l D s1 s2 s3 root f : pt_frame D s1 s2 root -> user_page D s1 root f -> page_put D s2 s3 root f -> page_put D s1 s3 root f.
Proof.
  intros Hf Hu [Hr Hrest Hsh]. destruct (user_page_frame _ _ _ _ _ Hf Hu) as (_ & Hrc & He). destruct Hf as [Hr1 Hf1]. split.
  - by eapply same_regs_trans.
  - intros g Hg Hh Hn. destruct (Hf1 g Hh Hn) as (Hs & Hn' & Hge). destruct (Hrest g Hg (st_held _ _ _ Hs) Hn') as (Hs2 & Hn2 & Hge2).
    split_and!; [by eapply stays_trans|done|]. intros i Hi. by rewrite Hge2, Hge.
  - intros H1. destruct Hsh as (? & ? & ? & He2); [lia|]. split_and!; [done|lia|done|]. intros i Hi. by rewrite He2, He.
Qed.
Lemma page_put_r D s1 s2 s3 root f : page_put D s1 s2 root f -> pt_frame D s2 s3 root -> page_put D s1 s3 root f.
Proof.
  intros [Hr Hrest Hsh] [Hr3 Hf3]. split.
  - by eapply same_regs_trans.
  - intros g Hg Hh Hn. destruct (Hrest g Hg Hh Hn) as (Hs & Hn' & Hge). destruct (Hf3 g (st_held _ _ _ Hs) Hn') as (Hs2 & Hn2 & Hge2).
    split_and!; [by eapply stays_trans|done|]. intros i Hi. by rewrite Hge2, Hge.
  - intros H1. destruct (Hsh H1) as (Hl & Hrc & Hn & He). destruct (Hf3 f (live_held _ _ Hl) Hn) as ([_ Hl2 Hrc2] & Hn2 & He2).
    split_and!; [by apply Hl2|lia|done|]. intros i Hi. by rewrite He2, He.
Qed.

Section put.
Context (D : Z -> bool) (s : machine) (root f : Z).
Hypothesis inv : pt_inv D s root.
Hypothesis used : user_page D s root f.

Lemma wp_put_user (Q : unit -> machine -> Prop) :
  (forall s', pt_inv D s' root -> page_put D s s' root f -> (forall va, mapping s' root va = mapping s root va) -> Q tt s') ->
  wp (on_pmm (put_page (frame_addr f))) Q s.
Proof using inv used.
  intros HQ. destruct used as (Hok & Hl & Hn & Hrc).
  apply wp_on_pmm, wp_put_live; [apply (pt_pmm _ _ _ inv)|done..|]. intros pm Hd. apply HQ.
  - apply (pmm_pt_inv _ _ _ _ inv (dropped_inv _ _ _ (pt_pmm _ _ _ inv) Hd) f Hn). intros g Hg Hh. by eapply dropped_stays.
  - split; [by destruct s|intros g Hg Hh Hng|intros H1].
    + split_and!; [by eapply dropped_stays|by apply pmm_not_table|done].
    + destruct Hd as [_|pm' E _]; [|lia]. split_and!; [|  |by apply pmm_not_table|done].
      * revert Hl. unfold live. cbn [m_pmm set_pmm]. by rewrite with_ref_blocks.
      * unfold with_ref. cbn [m_pmm set_pmm]. by rewrite page_at_insert, decide_True.
  - intros va. apply pmm_mapping.
Qed.

(** The reference count is ignored by a plain free. *)
Lemma wp_free_user (Q : unit -> machine -> Prop) :
  (forall s', pt_inv D s' root -> same_regs s s' -> released (m_pmm s) f 0 (m_pmm s') ->
     (forall g, not_table D s' root g <-> not_table D s root g) ->
     (forall g i, entry s' g i = entry s g i) -> (forall va, mapping s' root va = mapping s root va) -> Q tt s') ->
  wp (on_pmm (free_phys_pages (frame_addr f) 0)) Q s.
Proof using inv used.
  intros HQ. destruct used as (Hok & Hl & Hn & _).
  apply wp_on_pmm, wp_free_live; [apply (pt_pmm _ _ _ inv)|done..|]. intros pm Hrel. apply HQ; [|by destruct s|done|intros; apply pmm_not_table|done|intros va; apply pmm_mapping].
  apply (pmm_pt_inv _ _ _ _ inv (proj1 (rl_inv _ _ _ _ Hrel)) f Hn). intros g Hg Hh. by eapply released_stays.
Qed.
End put.

(** ** The pages of a range *)

Lemma same_page_number p p' : 0 <= p < 2 ^ 64 -> 0 <= p' < 2 ^ 64 -> p / 2 ^ 48 = p' / 2 ^ 48 -> same_page p p' -> p / 4096 = p' / 4096.
Proof.
  assert (Hd : forall q, 0 <= q < 2 ^ 64 -> q / 4096 = (((q / 2 ^ 48 * 512 + L0_INDEX q) * 512 + L1_INDEX q) * 512 + L2_INDEX q) * 512 + L3_INDEX q).
  { intros q Hq. unfold L0_INDEX, L1_INDEX, L2_INDEX, L3_INDEX. change 0x1FF with (2 ^ 9 - 1).
    rewrite !land_mask, !shr64_div by lia. change (2 ^ 9) with 512.
    assert (E : forall k k', 0 <= k -> k' = k + 9 -> q / 2 ^ k' = q / 2 ^ k / 512).
    { intros k k' Hk ->. rewrite Z.pow_add_r, Z.div_div by lia. done. }
    pose proof (E 12 21 ltac:(lia) eq_refl) as E1. pose proof (E 21 30 ltac:(lia) eq_refl) as E2.
    pose proof (E 30 39 ltac:(lia) eq_refl) as E3. pose proof (E 39 48 ltac:(lia) eq_refl) as E4.
    change 4096 with (2 ^ 12).
    pose proof (Z.div_mod (q / 2 ^ 12) 512). pose proof (Z.div_mod (q / 2 ^ 21) 512). pose proof (Z.div_mod (q / 2 ^ 30) 512).
    pose proof (Z.div_mod (q / 2 ^ 39) 512). lia. }
  intros Hp Hp' H4 [Ht H3]. injection Ht as H0 H1 H2. rewrite (Hd p Hp), (Hd p' Hp'). congruence.
Qed.
Lemma same_page_eq p p' : 0 <= p < 2 ^ 48 -> 0 <= p' < 2 ^ 48 -> same_page p p' -> p / 4096 = p' / 4096.
Proof. intros Hp Hp'. apply same_page_number; [lia|lia|]. by rewrite !Z.div_small. Qed.

(** The pages a loop from [lo] in steps of a page visits below [hi]. *)
Definition page_in (lo hi p : Z) : Prop := lo <= p < hi /\ (p - lo) mod 4096 = 0.
Definition covered (lo hi va : Z) : Prop := exists p, page_in lo hi p /\ same_page va p.

Lemma page_in_inj lo hi p p' : 0 <= lo -> hi <= 2 ^ 48 -> page_in lo hi p -> page_in lo hi p' -> same_page p p' -> p = p'.
Proof.
  intros Hlo Hhi [Hp Hm] [Hp' Hm'] Hs. pose proof (same_page_eq p p' ltac:(lia) ltac:(lia) Hs). lia.
Qed.
Lemma page_in_snoc lo a p : lo <= a -> (a - lo) mod 4096 = 0 -> page_in lo (a + 4096) p <-> page_in lo a p \/ p = a.
Proof. intros Ha Hm. unfold page_in. lia. Qed.
