(* ===== verification/Slab.v ===== *)
(** The kernel heap ([kernel/slab.c], [include/slab.h]).

    Eleven caches of power-of-two object sizes sit on blocks of the page allocator; larger
    requests go to the page allocator directly.  The metadata pools are arrays, so a
    [struct slab_page *] is an index into [slab_pages] and NULL is [None]; the free objects of a
    slab are linked through the first word of each object, in RAM. *)
From S2P Require Import Prelude ListHead Pmm Sync Machine.

Definition SZ_8K : Z := 8 * 1024.
Definition SZ_4M : Z := 4 * 1024 * 1024.
Definition SLAB_CACHE_COUNT : Z := 11.
Definition MAX_SLAB_PAGES : Z := 4096.
Definition MAX_LARGE_ALLOCS : Z := 2048.
Definition SLAB_MAGIC : Z := 0x534C4142.
Definition LARGE_MAGIC : Z := 0x4C415247.

Record slab_page := SlabPage {
  sp_magic : Z;
  sp_cache : option Z;
  sp_next : option Z;
  sp_pa : Z;
  sp_va : Z;
  sp_order : Z;
  sp_obj_size : Z;
  sp_capacity : Z;
  sp_inuse : Z;
  sp_freelist : Z;
  sp_used : bool;
}.
Definition slab_page_zero : slab_page := SlabPage 0 None None 0 0 0 0 0 0 0 false.

Record slab_cache := SlabCache { sc_size : Z; sc_partial : option Z }.
Definition slab_cache_zero : slab_cache := SlabCache 0 None.

Record large_meta := LargeMeta {
  la_magic : Z;
  la_va : Z;
  la_pa : Z;
  la_size : Z;
  la_order : Z;
  la_used : bool;
}.
Definition large_zero : large_meta := LargeMeta 0 0 0 0 0 false.

Definition slab_sizes : list Z := [8; 16; 32; 64; 128; 256; 512; 1024; 2048; 4096; 8192].

Record slab := Slab {
  slab_caches : gmap Z slab_cache;
  slab_pages : gmap Z slab_page;
  large_allocs : gmap Z large_meta;
  slab_lock : arch_spinlock;
  mach : machine;
}.

Definition set_caches c (s : slab) : slab := Slab c (slab_pages s) (large_allocs s) (slab_lock s) (mach s).
Definition set_pages p (s : slab) : slab := Slab (slab_caches s) p (large_allocs s) (slab_lock s) (mach s).
Definition set_larges l (s : slab) : slab := Slab (slab_caches s) (slab_pages s) l (slab_lock s) (mach s).
Definition set_mach m (s : slab) : slab := Slab (slab_caches s) (slab_pages s) (large_allocs s) (slab_lock s) m.

Definition on_mach {A} (m : M machine A) : M slab A := zoom mach set_mach m.

(** The slab lock together with the CPU's interrupt mask. *)
Definition on_slab_lock {A} (m : M irq_lock A) : M slab A :=
  zoom (fun s => IrqLock (slab_lock s) (daif (mach s)))
       (fun il s => Slab (slab_caches s) (slab_pages s) (large_allocs s) (il_lock il)
                      (set_daif (il_daif il) (mach s))) m.

(** Array accesses; an index outside the array is undefined. *)
Definition cache_at (s : slab) (c : Z) : slab_cache := default slab_cache_zero (slab_caches s !! c).
Definition sp_at (s : slab) (i : Z) : slab_page := default slab_page_zero (slab_pages s !! i).
Definition la_at (s : slab) (i : Z) : large_meta := default large_zero (large_allocs s !! i).

Definition in_bounds (i n : Z) : bool := (0 <=? i) && (i <? n).
Definition read_cache (c : Z) : M slab slab_cache :=
  _ ← guard_ub (in_bounds c SLAB_CACHE_COUNT); gets (fun s => cache_at s c).
Definition write_cache (c : Z) (x : slab_cache) : M slab unit :=
  _ ← guard_ub (in_bounds c SLAB_CACHE_COUNT); modify (fun s => set_caches (<[c := x]> (slab_caches s)) s).
Definition read_sp (i : Z) : M slab slab_page :=
  _ ← guard_ub (in_bounds i MAX_SLAB_PAGES); gets (fun s => sp_at s i).
Definition write_sp (i : Z) (x : slab_page) : M slab unit :=
  _ ← guard_ub (in_bounds i MAX_SLAB_PAGES); modify (fun s => set_pages (<[i := x]> (slab_pages s)) s).
Definition read_la (i : Z) : M slab large_meta :=
  _ ← guard_ub (in_bounds i MAX_LARGE_ALLOCS); gets (fun s => la_at s i).
Definition write_la (i : Z) (x : large_meta) : M slab unit :=
  _ ← guard_ub (in_bounds i MAX_LARGE_ALLOCS); modify (fun s => set_larges (<[i := x]> (large_allocs s)) s).

Definition sp_set_next n (p : slab_page) : slab_page :=
  SlabPage (sp_magic p) (sp_cache p) n (sp_pa p) (sp_va p) (sp_order p) (sp_obj_size p) (sp_capacity p)
    (sp_inuse p) (sp_freelist p) (sp_used p).
Definition sp_set_free f u (p : slab_page) : slab_page :=
  SlabPage (sp_magic p) (sp_cache p) (sp_next p) (sp_pa p) (sp_va p) (sp_order p) (sp_obj_size p)
    (sp_capacity p) u f (sp_used p).

(** ** Metadata pools *)

Definition alloc_slab_page_meta : M slab (option Z) :=
  find_n (Z.to_nat MAX_SLAB_PAGES) 0 (fun i =>
    sp ← read_sp i;
    if negb (sp_used sp) then
      _ ← write_sp i (SlabPage SLAB_MAGIC None None 0 0 0 0 0 0 0 true);
      mret (Some i)
    else mret None).

Definition free_slab_page_meta (sp : option Z) : M slab unit :=
  match sp with None => mret tt | Some i => write_sp i slab_page_zero end.

Definition alloc_large_meta : M slab (option Z) :=
  find_n (Z.to_nat MAX_LARGE_ALLOCS) 0 (fun i =>
    la ← read_la i;
    if negb (la_used la) then
      _ ← write_la i (LargeMeta LARGE_MAGIC 0 0 0 0 true);
      mret (Some i)
    else mret None).

Definition free_large_meta (la : option Z) : M slab unit :=
  match la with None => mret tt | Some i => write_la i large_zero end.

(** ** Caches *)

Definition find_slab_cache (size : Z) : M slab (option Z) :=
  find_n (Z.to_nat SLAB_CACHE_COUNT) 0 (fun i =>
    c ← read_cache i;
    mret (if size <=? sc_size c then Some i else None)).

(** [while ((1UL << order) < needed_pages) order++]: at most 64 rounds before the shift leaves the word. *)
Definition slab_order_for_size {S} (obj_size : Z) : M S Z :=
  let needed_pages := sub64 (add64 obj_size PAGE_SIZE) 1 / PAGE_SIZE in
  loop 65 (fun order => if shl64 1 order <? needed_pages then mret (inl (order + 1)) else mret (inr order)) 0.

Definition slab_cache_add_page (cache sp : Z) : M slab unit :=
  c ← read_cache cache;
  p ← read_sp sp;
  _ ← write_sp sp (sp_set_next (sc_partial c) p);
  write_cache cache (SlabCache (sc_size c) (Some sp)).

(** [struct slab_page **pp]: the cache's [partial] field or a page's [next] field. *)
Inductive slab_ref : Set := RefPartial (cache : Z) | RefNext (sp : Z).
Definition read_ref (r : slab_ref) : M slab (option Z) :=
  match r with
  | RefPartial c => x ← read_cache c; mret (sc_partial x)
  | RefNext i => x ← read_sp i; mret (sp_next x)
  end.
Definition write_ref (r : slab_ref) (v : option Z) : M slab unit :=
  match r with
  | RefPartial c => x ← read_cache c; write_cache c (SlabCache (sc_size x) v)
  | RefNext i => x ← read_sp i; write_sp i (sp_set_next v x)
  end.

(** The list has at most [MAX_SLAB_PAGES] pages. *)
Definition slab_cache_del_page (cache sp : Z) : M slab unit :=
  loop (Z.to_nat MAX_SLAB_PAGES + 1) (fun pp =>
    cur ← read_ref pp;
    match cur with
    | None => mret (inr tt)
    | Some i =>
        if i =? sp then
          p ← read_sp sp;
          _ ← write_ref pp (sp_next p);
          p ← read_sp sp;
          _ ← write_sp sp (sp_set_next None p);
          mret (inr tt)
        else mret (inl (RefNext i))
    end) (RefPartial cache).

Definition slab_find_page_by_va (va : Z) : M slab (option Z) :=
  find_n (Z.to_nat MAX_SLAB_PAGES) 0 (fun i =>
    sp ← read_sp i;
    if negb (sp_used sp) || negb (sp_magic sp =? SLAB_MAGIC) then mret None else
    let end_ := add64 (sp_va sp) (shl64 PAGE_SIZE (sp_order sp)) in
    mret (if (sp_va sp <=? va) && (va <? end_) then Some i else None)).

Definition large_find_by_va (va : Z) : M slab (option Z) :=
  find_n (Z.to_nat MAX_LARGE_ALLOCS) 0 (fun i =>
    la ← read_la i;
    if negb (la_used la) || negb (la_magic la =? LARGE_MAGIC) then mret None else
    mret (if la_va la =? va then Some i else None)).

(** ** Slabs *)

(** The loop that threads the objects onto the free list. *)
Definition thread_objects (base size capacity : Z) : M machine Z :=
  loop (S (Z.to_nat capacity)) (fun st : Z * Z =>
    let '(i, freelist) := st in
    if i <? capacity then
      let obj := add64 base (mul64 i size) in
      _ ← st64 obj freelist;
      mret (inl (i + 1, obj))
    else mret (inr freelist)) (0, 0).

Definition slab_grow (cache flags : Z) : M slab (option Z) :=
  c ← read_cache cache;
  order ← slab_order_for_size (sc_size c);
  let span := shl64 PAGE_SIZE order in
  _ ← guard_ub (negb (sc_size c =? 0));
  let capacity := u32 (span / sc_size c) in
  if capacity =? 0 then mret None else
  sp ← alloc_slab_page_meta;
  match sp with None => mret None | Some i =>
  pa ← on_mach (on_pmm (alloc_phys_pages order flags));
  if pa =? 0 then
    _ ← free_slab_page_meta (Some i); mret None
  else
    va ← on_mach (phys_to_virt pa);
    p ← read_sp i;
    freelist ← on_mach (thread_objects va (sc_size c) capacity);
    _ ← write_sp i (SlabPage (sp_magic p) (Some cache) (sp_next p) pa va order (sc_size c) capacity 0
                      freelist (sp_used p));
    _ ← slab_cache_add_page cache i;
    mret (Some i)
  end.

Definition slab_destroy_page (sp : option Z) : M slab unit :=
  match sp with None => mret tt | Some i =>
  p ← read_sp i;
  cache ← of_option (sp_cache p);
  _ ← slab_cache_del_page cache i;
  p ← read_sp i;
  _ ← on_mach (on_pmm (free_phys_pages (sp_pa p) (sp_order p)));
  free_slab_page_meta (Some i)
  end.

(** [for (sp = cache->partial; sp; sp = sp->next) if (sp->freelist) break;] *)
Definition find_partial (cache : Z) : M slab (option Z) :=
  c ← read_cache cache;
  loop (Z.to_nat MAX_SLAB_PAGES + 1) (fun sp : option Z =>
    match sp with
    | None => mret (inr None)
    | Some i =>
        p ← read_sp i;
        if negb (sp_freelist p =? 0) then mret (inr (Some i)) else mret (inl (sp_next p))
    end) (sc_partial c).

(** Taking the first free object of a slab. *)
Definition pop_object (i : Z) : M slab Z :=
  p ← read_sp i;
  let obj := sp_freelist p in
  next ← on_mach (ld64 obj);
  _ ← write_sp i (sp_set_free next (u32 (sp_inuse p + 1)) p);
  mret obj.

Definition slab_alloc (cache flags : Z) : M slab Z :=
  sp ← find_partial cache;
  sp ← match sp with Some i => mret (Some i) | None => slab_grow cache flags end;
  match sp with None => mret 0 | Some i => pop_object i end.

Definition slab_free_obj (va : Z) : M slab unit :=
  sp ← slab_find_page_by_va va;
  match sp with None => mret tt | Some i =>
  p ← read_sp i;
  _ ← on_mach (st64 va (sp_freelist p));
  let inuse := if sp_inuse p =? 0 then 0 else sp_inuse p - 1 in
  _ ← write_sp i (sp_set_free va inuse p);
  if inuse =? 0 then slab_destroy_page (Some i) else mret tt
  end.

(** ** Large allocations *)

Definition large_alloc (size flags : Z) : M slab Z :=
  order ← get_order_ul size;
  la ← alloc_large_meta;
  match la with None => mret 0 | Some i =>
  pa ← on_mach (on_pmm (alloc_phys_pages order flags));
  if pa =? 0 then
    _ ← free_large_meta (Some i); mret 0
  else
    va ← on_mach (phys_to_virt pa);
    m ← read_la i;
    _ ← write_la i (LargeMeta (la_magic m) va pa size order (la_used m));
    mret va
  end.

Definition large_free (la : option Z) : M slab unit :=
  match la with None => mret tt | Some i =>
  m ← read_la i;
  _ ← on_mach (on_pmm (free_phys_pages (la_pa m) (la_order m)));
  free_large_meta (Some i)
  end.

(** ** Interface *)

Definition slab_init : M slab unit :=
  _ ← modify (fun s => set_larges ∅ (set_pages ∅ (set_caches ∅ s)));
  for_n (Z.to_nat SLAB_CACHE_COUNT) 0 (fun i =>
    write_cache i (SlabCache (nth (Z.to_nat i) slab_sizes 0) None)).

Definition kmalloc (size flags : Z) : M slab Z :=
  if size =? 0 then mret 0 else
  if size >? SZ_4M then mret 0 else
  irq_flags ← on_slab_lock spin_lock_irqsave;
  if size <=? SZ_8K then
    cache ← find_slab_cache size;
    match cache with
    | None => _ ← on_slab_lock (spin_unlock_irqrestore irq_flags); mret 0
    | Some c =>
        result ← slab_alloc c flags;
        _ ← on_slab_lock (spin_unlock_irqrestore irq_flags);
        mret result
    end
  else
    result ← large_alloc size flags;
    _ ← on_slab_lock (spin_unlock_irqrestore irq_flags);
    mret result.

Definition kfree (va : Z) : M slab unit :=
  if va =? 0 then mret tt else
  in_map ← on_mach (va_in_linear_map va);
  if negb in_map then mret tt else
  irq_flags ← on_slab_lock spin_lock_irqsave;
  la ← large_find_by_va va;
  match la with
  | Some i =>
      _ ← large_free (Some i);
      on_slab_lock (spin_unlock_irqrestore irq_flags)
  | None =>
      _ ← slab_free_obj va;
      on_slab_lock (spin_unlock_irqrestore irq_flags)
  end.
