(* ===== verification/SlabTheory.v ===== *)
(** Correctness of the kernel heap: the invariant and the pieces of [Slab].

    [slab_inv F L s] says that every slab in use is a live block of the page allocator, that
    [F i] is the list of free objects of slab [i], threaded through RAM, that the partial list of a
    cache holds exactly its slabs, that all blocks are different, and that [L] maps the address of
    every live object to its size. *)
From S2P Require Import Prelude ListHead Pmm PmmTheory PmmOps PmmProps Sync Machine MmuTheory Slab.

(** ** Geometry of the caches *)

Definition cache_size (c : Z) : Z := 2 ^ (c + 3).
Definition cache_order (c : Z) : Z := if c =? 10 then 1 else 0.
Definition cache_cap (c : Z) : Z := if c =? 10 then 1 else 2 ^ (9 - c).
Definition cache_ok (c : Z) : Prop := 0 <= c < SLAB_CACHE_COUNT.

Lemma cache_cases c : cache_ok c ->
  c = 0 \/ c = 1 \/ c = 2 \/ c = 3 \/ c = 4 \/ c = 5 \/ c = 6 \/ c = 7 \/ c = 8 \/ c = 9 \/ c = 10.
Proof. unfold cache_ok, SLAB_CACHE_COUNT. lia. Qed.

(** Proving a closed fact about a cache for each of the eleven caches. *)
Ltac each_cache H :=
  let Hcc := fresh in pose proof (cache_cases _ H) as Hcc; destruct_or! Hcc; subst; try (vm_compute; repeat split; congruence).

Lemma cache_geometry c : cache_ok c ->
  0 < cache_size c /\ cache_size c mod 8 = 0 /\ 0 < cache_cap c <= 512 /\
  0 <= cache_order c <= 1 /\ cache_cap c * cache_size c = PAGE_SIZE * 2 ^ cache_order c.
Proof. rewrite PAGE_SIZE_eq. intros H. each_cache H. Qed.

Lemma wp_slab_order_for_size {S} c Q (s : S) : cache_ok c -> Q (cache_order c) s ->
  wp (slab_order_for_size (cache_size c)) Q s.
Proof.
  intros H HQ.
  assert (E : slab_order_for_size (cache_size c) s = Done (cache_order c, s)).
  { pose proof (cache_cases _ H) as Hcc. destruct_or! Hcc; subst; vm_compute; reflexivity. }
  unfold wp. by rewrite E.
Qed.

(** ** Reading the state *)

Definition base (s : slab) : Z := slab_linear_map_base (mach s).
Definition word (s : slab) (va : Z) : Z := ram_at (mach s) (va - base s).
Definition used (s : slab) (i : Z) : Prop := sp_used (sp_at s i) = true.
Definition lused (s : slab) (i : Z) : Prop := la_used (la_at s i) = true.
Definition slot_pfn (s : slab) (i : Z) : Z := pa_to_pfn (sp_pa (sp_at s i)).
Definition slot_cache (s : slab) (i : Z) : Z := default 0 (sp_cache (sp_at s i)).
Definition large_pfn (s : slab) (i : Z) : Z := pa_to_pfn (la_pa (la_at s i)).
Definition heap_pmm (s : slab) : pmm := m_pmm (mach s).

(** [o] is one of the objects of the slab at [va] of cache [c]. *)
Definition is_obj (va c o : Z) : Prop := exists k, 0 <= k < cache_cap c /\ o = va + k * cache_size c.

(** The list of pointers threaded through the first words. *)
Fixpoint obj_chain (w : Z -> Z) (p : Z) (fl : list Z) : Prop :=
  match fl with
  | [] => p = 0
  | o :: fl' => p = o /\ o <> 0 /\ obj_chain w (w o) fl'
  end.

Fixpoint sp_chain (next : Z -> option Z) (p : option Z) (xs : list Z) : Prop :=
  match xs with
  | [] => p = None
  | i :: xs' => p = Some i /\ sp_chain next (next i) xs'
  end.

Record slot_ok (s : slab) (i : Z) (fl : list Z) : Prop := {
  so_cache : cache_ok (slot_cache s i) /\ sp_cache (sp_at s i) = Some (slot_cache s i);
  so_magic : sp_magic (sp_at s i) = SLAB_MAGIC;
  so_pa : page_ok (slot_pfn s i) /\ sp_pa (sp_at s i) = frame_addr (slot_pfn s i);
  so_va : sp_va (sp_at s i) = base s + frame_addr (slot_pfn s i);
  so_geom : sp_order (sp_at s i) = cache_order (slot_cache s i) /\
            sp_capacity (sp_at s i) = cache_cap (slot_cache s i);
  so_live : live (heap_pmm s) (slot_pfn s i) (cache_order (slot_cache s i));
  so_chain : obj_chain (word s) (sp_freelist (sp_at s i)) fl;
  so_fl : NoDup fl /\ forall o, o ∈ fl -> is_obj (sp_va (sp_at s i)) (slot_cache s i) o;
  so_inuse : sp_inuse (sp_at s i) = cache_cap (slot_cache s i) - Z.of_nat (length fl);
}.

Record large_ok (s : slab) (i : Z) : Prop := {
  lo_magic : la_magic (la_at s i) = LARGE_MAGIC;
  lo_pa : page_ok (large_pfn s i) /\ la_pa (la_at s i) = frame_addr (large_pfn s i);
  lo_va : la_va (la_at s i) = base s + frame_addr (large_pfn s i);
  lo_live : live (heap_pmm s) (large_pfn s i) (la_order (la_at s i));
}.

(** A live object [o] of [z] bytes. *)
Inductive live_obj (s : slab) (F : Z -> list Z) (o z : Z) : Prop :=
| LiveSmall i : used s i -> is_obj (sp_va (sp_at s i)) (slot_cache s i) o -> o ∉ F i ->
    z = cache_size (slot_cache s i) -> live_obj s F o z
| LiveLarge i : lused s i -> o = la_va (la_at s i) -> z = PAGE_SIZE * 2 ^ la_order (la_at s i) ->
    live_obj s F o z.

(** The linear map covers RAM, and the address after it, without wrapping. *)
Definition base_ok (b : Z) : Prop := 0 < b /\ b mod 4096 = 0 /\ b + PHYS_MEM_END + 1 < 2 ^ 64.

Record slab_inv (F : Z -> list Z) (L : gmap Z Z) (s : slab) : Prop := {
  si_pmm : buddy_inv (heap_pmm s);
  si_base : base_ok (base s);
  si_sizes : forall c, cache_ok c -> sc_size (cache_at s c) = cache_size c;
  si_slots : forall i, used s i -> 0 <= i < MAX_SLAB_PAGES /\ slot_ok s i (F i);
  si_larges : forall i, lused s i -> 0 <= i < MAX_LARGE_ALLOCS /\ large_ok s i;
  si_parts : forall c, cache_ok c -> exists xs,
    sp_chain (fun i => sp_next (sp_at s i)) (sc_partial (cache_at s c)) xs /\ NoDup xs /\
    forall i, i ∈ xs <-> used s i /\ slot_cache s i = c;
  si_slots_ne : forall i j, used s i -> used s j -> slot_pfn s i = slot_pfn s j -> i = j;
  si_larges_ne : forall i j, lused s i -> lused s j -> large_pfn s i = large_pfn s j -> i = j;
  si_mixed_ne : forall i j, used s i -> lused s j -> slot_pfn s i <> large_pfn s j;
  si_live : forall o z, L !! o = Some z <-> live_obj s F o z;
}.

(** ** Accesses to the arrays *)

Lemma sp_at_write s i x j : sp_at (set_pages (<[i := x]> (slab_pages s)) s) j = if decide (j = i) then x else sp_at s j.
Proof. unfold sp_at. cbn. rewrite lookup_insert. repeat case_decide; subst; done. Qed.
Lemma la_at_write s i x j : la_at (set_larges (<[i := x]> (large_allocs s)) s) j = if decide (j = i) then x else la_at s j.
Proof. unfold la_at. cbn. rewrite lookup_insert. repeat case_decide; subst; done. Qed.
Lemma cache_at_write s c x d : cache_at (set_caches (<[c := x]> (slab_caches s)) s) d = if decide (d = c) then x else cache_at s d.
Proof. unfold cache_at. cbn. rewrite lookup_insert. repeat case_decide; subst; done. Qed.

Lemma sp_at_caches x s i : sp_at (set_caches x s) i = sp_at s i.
Proof. done. Qed.
Lemma sp_at_larges x s i : sp_at (set_larges x s) i = sp_at s i.
Proof. done. Qed.
Lemma sp_at_mach m s i : sp_at (set_mach m s) i = sp_at s i.
Proof. done. Qed.
Lemma la_at_caches x s i : la_at (set_caches x s) i = la_at s i.
Proof. done. Qed.
Lemma la_at_pages x s i : la_at (set_pages x s) i = la_at s i.
Proof. done. Qed.
Lemma la_at_mach m s i : la_at (set_mach m s) i = la_at s i.
Proof. done. Qed.
Lemma cache_at_pages x s c : cache_at (set_pages x s) c = cache_at s c.
Proof. done. Qed.
Lemma cache_at_larges x s c : cache_at (set_larges x s) c = cache_at s c.
Proof. done. Qed.
Lemma cache_at_mach m s c : cache_at (set_mach m s) c = cache_at s c.
Proof. done. Qed.
#[export] Hint Rewrite sp_at_caches sp_at_larges sp_at_mach la_at_caches la_at_pages la_at_mach
  cache_at_pages cache_at_larges cache_at_mach sp_at_write la_at_write cache_at_write : heap.

Lemma in_bounds_ok i n : 0 <= i < n -> in_bounds i n = true.
Proof. unfold in_bounds. lia. Qed.

Lemma wp_read_sp i Q s : 0 <= i < MAX_SLAB_PAGES -> Q (sp_at s i) s -> wp (read_sp i) Q s.
Proof. intros Hi HQ. unfold read_sp. wp_step. apply wp_guard; [by apply in_bounds_ok|]. by wp_step. Qed.
Lemma wp_write_sp i x Q s : 0 <= i < MAX_SLAB_PAGES ->
  Q tt (set_pages (<[i := x]> (slab_pages s)) s) -> wp (write_sp i x) Q s.
Proof. intros Hi HQ. unfold write_sp. wp_step. apply wp_guard; [by apply in_bounds_ok|]. by wp_step. Qed.
Lemma wp_read_la i Q s : 0 <= i < MAX_LARGE_ALLOCS -> Q (la_at s i) s -> wp (read_la i) Q s.
Proof. intros Hi HQ. unfold read_la. wp_step. apply wp_guard; [by apply in_bounds_ok|]. by wp_step. Qed.
Lemma wp_write_la i x Q s : 0 <= i < MAX_LARGE_ALLOCS ->
  Q tt (set_larges (<[i := x]> (large_allocs s)) s) -> wp (write_la i x) Q s.
Proof. intros Hi HQ. unfold write_la. wp_step. apply wp_guard; [by apply in_bounds_ok|]. by wp_step. Qed.
Lemma wp_read_cache c Q s : cache_ok c -> Q (cache_at s c) s -> wp (read_cache c) Q s.
Proof. intros Hi HQ. unfold read_cache. wp_step. apply wp_guard; [by apply in_bounds_ok|]. by wp_step. Qed.
Lemma wp_write_cache c x Q s : cache_ok c ->
  Q tt (set_caches (<[c := x]> (slab_caches s)) s) -> wp (write_cache c x) Q s.
Proof. intros Hi HQ. unfold write_cache. wp_step. apply wp_guard; [by apply in_bounds_ok|]. by wp_step. Qed.

(** ** Accesses to RAM through the linear map *)

Lemma ram_ok_bounds a : ram_ok a = true -> 0x40000000 <= a /\ a + 7 <= 0x4FFFFFFF /\ a mod 8 = 0.
Proof. unfold ram_ok, PHYS_MEM_START, PHYS_MEM_END. lia. Qed.

Lemma wp_on_mach {A} (m : M machine A) Q s :
  wp m (fun a k => Q a (set_mach k s)) (mach s) -> wp (on_mach m) Q s.
Proof. apply wp_zoom. Qed.

Lemma word_write (m : machine) b a v va : 0 <= a ->
  ram_at (set_ram (<[a := v]> (m_ram m)) m) (va - b) = if decide (va = b + a) then v else ram_at m (va - b).
Proof.
  intros. unfold ram_at. cbn. rewrite lookup_insert. repeat case_decide; done || lia.
Qed.

Lemma wp_st64_va m b a v Q : base_ok b -> slab_linear_map_base m = b -> ram_ok a = true ->
  Q tt (set_ram (<[a := v]> (m_ram m)) m) -> wp (st64 (b + a) v) Q m.
Proof.
  intros (Hb & _ & Hb2) Hm Ha HQ. unfold st64, virt_to_phys. do 2 wp_step. rewrite Hm.
  assert (E : sub64 (b + a) b = a).
  { unfold ram_ok, PHYS_MEM_START, PHYS_MEM_END in *. rewrite sub64_small; lia. }
  rewrite E. wp_step. apply wp_guard; [done|]. by wp_step.
Qed.

Lemma wp_ld64_va m b a Q : base_ok b -> slab_linear_map_base m = b -> ram_ok a = true ->
  Q (ram_at m a) m -> wp (ld64 (b + a)) Q m.
Proof.
  intros (Hb & _ & Hb2) Hm Ha HQ. unfold ld64, virt_to_phys. do 2 wp_step. rewrite Hm.
  assert (E : sub64 (b + a) b = a).
  { unfold ram_ok, PHYS_MEM_START, PHYS_MEM_END in *. rewrite sub64_small; lia. }
  rewrite E. wp_step. apply wp_guard; [done|]. by wp_step.
Qed.

(** The physical address of an object. *)
Lemma obj_ram p c k : cache_ok c -> page_ok p -> p + 2 ^ cache_order c <= TOTAL_PAGES -> 0 <= k < cache_cap c ->
  ram_ok (frame_addr p + k * cache_size c) = true.
Proof.
  intros Hc Hp Ht Hk. destruct (cache_geometry c Hc) as (Hs & H8 & _ & _ & Hg).
  unfold ram_ok, frame_addr, page_ok, PHYS_MEM_START, PHYS_MEM_END in *. rewrite TOTAL_PAGES_eq, PAGE_SIZE_eq in *.
  apply Z.mod_divide in H8 as [q Hq]; [|lia]. rewrite Hq in *.
  assert (k * (q * 8) + q * 8 <= 4096 * 2 ^ cache_order c) by nia.
  assert ((1073741824 + p * 4096 + k * (q * 8)) mod 8 = 0) as ->.
  { replace (1073741824 + p * 4096 + k * (q * 8)) with ((134217728 + p * 512 + k * q) * 8) by lia.
    by apply Z_mod_mult. }
  rewrite andb_true_r. apply andb_true_iff. split; lia.
Qed.

(** ** Free lists *)

Lemma obj_chain_ext w w' p fl : (forall o, o ∈ fl -> w' o = w o) -> obj_chain w p fl -> obj_chain w' p fl.
Proof.
  revert p. induction fl as [|o fl IH]; intros p Hw; [done|]. cbn. intros (-> & Ho & Hc).
  split_and!; [done|done|]. rewrite Hw by set_solver. apply IH; [|done]. intros. apply Hw. set_solver.
Qed.

Fixpoint all_objs (va c : Z) (n : nat) : list Z :=
  match n with
  | O => []
  | S n' => va + Z.of_nat n' * cache_size c :: all_objs va c n'
  end.

Lemma all_objs_elem va c n o : o ∈ all_objs va c n <-> exists k, 0 <= k < Z.of_nat n /\ o = va + k * cache_size c.
Proof.
  induction n as [|n IH]; cbn.
  - split; [by intros ?%not_elem_of_nil|]. intros (k & ? & _). lia.
  - rewrite elem_of_cons, IH. split.
    + intros [->|(k & ? & ->)]; [exists (Z.of_nat n)|exists k]; split; done || lia.
    + intros (k & Hk & ->). destruct (decide (k = Z.of_nat n)) as [->|]; [by left|right].
      exists k. split; [lia|done].
Qed.

Lemma all_objs_length va c n : length (all_objs va c n) = n.
Proof. induction n; cbn; lia. Qed.

Lemma cache_size_pos c : cache_ok c -> 0 < cache_size c.
Proof. intros H. apply (cache_geometry c H). Qed.

Lemma all_objs_nodup va c n : cache_ok c -> NoDup (all_objs va c n).
Proof.
  intros Hc. pose proof (cache_size_pos c Hc). induction n as [|n IH]; cbn; constructor; [|done].
  rewrite all_objs_elem. intros (k & Hk & E). nia.
Qed.

(** The words of a block at frame [p]. *)
Definition in_block (p c a : Z) : Prop := frame_addr p <= a < frame_addr p + PAGE_SIZE * 2 ^ cache_order c.

Lemma obj_in_block p c k : cache_ok c -> 0 <= k < cache_cap c -> in_block p c (frame_addr p + k * cache_size c).
Proof.
  intros Hc Hk. destruct (cache_geometry c Hc) as (Hs & _ & _ & _ & Hg). unfold in_block. rewrite <- Hg. nia.
Qed.

(** Threading the objects of a new slab. *)
Lemma wp_thread_objects m b p c Q : base_ok b -> slab_linear_map_base m = b -> cache_ok c -> page_ok p ->
  p + 2 ^ cache_order c <= TOTAL_PAGES ->
  (forall freelist r,
     obj_chain (fun va => ram_at (set_ram r m) (va - b)) freelist
       (all_objs (b + frame_addr p) c (Z.to_nat (cache_cap c))) ->
     (forall a, ~ in_block p c a -> ram_at (set_ram r m) a = ram_at m a) -> Q freelist (set_ram r m)) ->
  wp (thread_objects (b + frame_addr p) (cache_size c) (cache_cap c)) Q m.
Proof.
  intros Hb Hm Hc Hp Ht HQ. pose proof (cache_geometry c Hc) as (Hs & H8 & Hcap & Ho & Hg).
  unfold thread_objects.
  apply (wp_loop (fun (st : Z * Z) m' => 0 <= st.1 <= cache_cap c /\ exists r, m' = set_ram r m /\
     obj_chain (fun va => ram_at m' (va - b)) st.2 (all_objs (b + frame_addr p) c (Z.to_nat st.1)) /\
     (forall a, ~ in_block p c a -> ram_at m' a = ram_at m a))
   (fun st _ => Z.to_nat (cache_cap c - st.1))).
  - split; [cbn; lia|]. exists (m_ram m). split_and!; [by destruct m|done|done].
  - cbn. lia.
  - intros [k fl] m1 [Hk (r & -> & Hch & Hfr)]. cbn [fst snd] in *.
    destruct (Z.ltb_spec k (cache_cap c)) as [Hlt|Hge].
    2:{ wp_step. replace k with (cache_cap c) in * by lia. by apply HQ. }
    pose proof (obj_ram p c k Hc Hp Ht ltac:(lia)) as Hram.
    assert (Hadd : add64 (b + frame_addr p) (mul64 k (cache_size c)) = b + (frame_addr p + k * cache_size c)).
    { destruct Hb as (Hb0 & _ & Hb1). apply ram_ok_bounds in Hram as (? & ? & _).
      assert (0x40000000 <= frame_addr p).
      { unfold frame_addr, PHYS_MEM_START, page_ok in *. rewrite PAGE_SIZE_eq. lia. }
      unfold PHYS_MEM_END in Hb1. assert (0 <= k * cache_size c) by nia.
      rewrite mul64_small by lia. rewrite add64_small; lia. }
    rewrite Hadd. wp_step. eapply wp_st64_va; [done|done|done|]. wp_step. split.
    2:{ cbn [fst]. lia. }
    split; [cbn; lia|]. exists (<[frame_addr p + k * cache_size c:=fl]> r). split_and!; [done| |].
    + cbn [fst snd]. replace (Z.to_nat (k + 1)) with (S (Z.to_nat k)) by lia. cbn [all_objs obj_chain].
      rewrite Z2Nat.id by lia. split_and!; [lia| |].
      * destruct Hb. unfold ram_ok, PHYS_MEM_START in Hram. lia.
      * rewrite word_write by (unfold ram_ok, PHYS_MEM_START in Hram; lia). rewrite decide_True by lia.
        eapply obj_chain_ext, Hch. intros o Ho'. cbn beta.
        rewrite word_write by (unfold ram_ok, PHYS_MEM_START in Hram; lia). rewrite decide_False; [done|].
        apply all_objs_elem in Ho' as (j & Hj & ->). nia.
    + intros a Ha. rewrite <- Hfr by done. unfold ram_at. cbn. rewrite lookup_insert_ne; [done|].
      intros <-. apply Ha. apply obj_in_block; [done|lia].
Qed.

(** ** Preservation of what an operation does not touch *)

Lemma slot_ok_frame s s' i fl : slot_ok s i fl -> sp_at s' i = sp_at s i -> base s' = base s ->
  (forall o, o ∈ fl -> word s' o = word s o) ->
  live (heap_pmm s') (slot_pfn s i) (cache_order (slot_cache s i)) -> slot_ok s' i fl.
Proof.
  intros [] Hsp Hb Hw Hl. unfold slot_pfn, slot_cache in *.
  split; unfold slot_pfn, slot_cache; rewrite ?Hsp, ?Hb; try done. by eapply obj_chain_ext.
Qed.

Lemma large_ok_frame s s' i : large_ok s i -> la_at s' i = la_at s i -> base s' = base s ->
  live (heap_pmm s') (large_pfn s i) (la_order (la_at s i)) -> large_ok s' i.
Proof. intros [] Hla Hb Hl. unfold large_pfn in *. split; unfold large_pfn; by rewrite ?Hla, ?Hb. Qed.

Lemma sp_chain_ext next next' p xs : (forall i, i ∈ xs -> next' i = next i) -> sp_chain next p xs -> sp_chain next' p xs.
Proof.
  revert p. induction xs as [|i xs IH]; intros p Hn; [done|]. cbn. intros (-> & Hc). split; [done|].
  rewrite Hn by set_solver. apply IH; [|done]. intros. apply Hn. set_solver.
Qed.

Lemma live_obj_frame s s' F F' o z :
  (forall i, used s' i <-> used s i) -> (forall i, lused s' i <-> lused s i) ->
  (forall i, used s i -> sp_va (sp_at s' i) = sp_va (sp_at s i) /\ slot_cache s' i = slot_cache s i) ->
  (forall i, lused s i -> la_at s' i = la_at s i) ->
  (forall i, used s i -> is_obj (sp_va (sp_at s i)) (slot_cache s i) o -> o ∈ F' i <-> o ∈ F i) ->
  live_obj s' F' o z <-> live_obj s F o z.
Proof.
  intros Hu Hl Hs Hla HF. split.
  - intros [i Hi Ho Hn ->|i Hi -> ->].
    + apply Hu in Hi. destruct (Hs i Hi) as [Hva Hc]. rewrite Hva, Hc in *.
      eapply LiveSmall; [done|done| |done]. by rewrite <- HF.
    + apply Hl in Hi. rewrite Hla by done. by eapply LiveLarge.
  - intros [i Hi Ho Hn ->|i Hi -> ->].
    + destruct (Hs i Hi) as [Hva Hc]. eapply LiveSmall; [by apply Hu|by rewrite Hva, Hc| |by rewrite Hc].
      by rewrite HF.
    + rewrite <- Hla by done. eapply LiveLarge; [by apply Hl|done|done].
Qed.

Lemma live_disjoint s p q o o' : buddy_inv s -> live s p o -> live s q o' -> p <> q ->
  p + 2 ^ o <= q \/ q + 2 ^ o' <= p.
Proof.
  intros Hi Hp Hq Hne.
  pose proof (geom_disj _ _ _ (binv_geom _ _ Hi)) as Hd.
  destruct (Z.lt_total p q) as [|[|]]; [left|done|right]; eapply Hd; try lia; right; eauto.
Qed.

Lemma live_page_ok s p o : buddy_inv s -> live s p o -> page_ok p /\ p + 2 ^ o <= TOTAL_PAGES /\ 0 <= o <= MAX_ORDER.
Proof.
  intros Hi Hl. pose proof (block_range _ _ _ _ Hi Hl) as (Ho & _ & Hk & Ht). cbn in *.
  destruct (binv_start _ _ Hi) as [_ Hfp]. pose proof (pow2_pos o ltac:(lia)). unfold page_ok. lia.
Qed.

(** ** Metadata slots *)

Definition new_slot : slab_page := SlabPage SLAB_MAGIC None None 0 0 0 0 0 0 0 true.
Definition new_large : large_meta := LargeMeta LARGE_MAGIC 0 0 0 0 true.

Lemma wp_alloc_slab_page_meta (Q : option Z -> slab -> Prop) s :
  (forall i, 0 <= i < MAX_SLAB_PAGES -> ~ used s i -> Q (Some i) (set_pages (<[i := new_slot]> (slab_pages s)) s)) ->
  ((forall j, 0 <= j < MAX_SLAB_PAGES -> used s j) -> Q None s) -> wp alloc_slab_page_meta Q s.
Proof.
  intros H1 H2. unfold alloc_slab_page_meta.
  apply (wp_find_n (fun k s' => s' = s /\ forall j, 0 <= j < k -> used s j)); [split; [done|lia]| |].
  2:{ intros s' [-> Hall]. by apply H2. }
  intros i s' Hi [-> Hall]. unfold MAX_SLAB_PAGES in *. wp_step. apply wp_read_sp; [unfold MAX_SLAB_PAGES; lia|].
  destruct (sp_used (sp_at s i)) eqn:E; cbn [negb].
  - wp_step. split; [done|]. intros j Hj. destruct (decide (j = i)) as [->|]; [exact E|apply Hall; lia].
  - wp_step. apply wp_write_sp; [unfold MAX_SLAB_PAGES; lia|]. wp_step. apply H1; [lia|]. unfold used. by rewrite E.
Qed.

Lemma wp_alloc_large_meta (Q : option Z -> slab -> Prop) s :
  (forall i, 0 <= i < MAX_LARGE_ALLOCS -> ~ lused s i -> Q (Some i) (set_larges (<[i := new_large]> (large_allocs s)) s)) ->
  ((forall j, 0 <= j < MAX_LARGE_ALLOCS -> lused s j) -> Q None s) -> wp alloc_large_meta Q s.
Proof.
  intros H1 H2. unfold alloc_large_meta.
  apply (wp_find_n (fun k s' => s' = s /\ forall j, 0 <= j < k -> lused s j)); [split; [done|lia]| |].
  2:{ intros s' [-> Hall]. by apply H2. }
  intros i s' Hi [-> Hall]. unfold MAX_LARGE_ALLOCS in *. wp_step. apply wp_read_la; [unfold MAX_LARGE_ALLOCS; lia|].
  destruct (la_used (la_at s i)) eqn:E; cbn [negb].
  - wp_step. split; [done|]. intros j Hj. destruct (decide (j = i)) as [->|]; [exact E|apply Hall; lia].
  - wp_step. apply wp_write_la; [unfold MAX_LARGE_ALLOCS; lia|]. wp_step. apply H1; [lia|]. unfold lused. by rewrite E.
Qed.

(** ** The partial lists *)

Definition next_of (s : slab) (i : Z) : option Z := sp_next (sp_at s i).
Definition slots_ok (xs : list Z) : Prop := forall i, i ∈ xs -> 0 <= i < MAX_SLAB_PAGES.

Lemma slots_length xs : NoDup xs -> slots_ok xs -> (length xs <= Z.to_nat MAX_SLAB_PAGES)%nat.
Proof.
  intros Hnd Hok.
  assert (Hsub : xs ⊆+ seqZ 0 MAX_SLAB_PAGES).
  { apply NoDup_submseteq; [done|]. intros i Hi. apply elem_of_seqZ. specialize (Hok i Hi). lia. }
  apply submseteq_length in Hsub. by rewrite length_seqZ in Hsub.
Qed.

Lemma wp_find_partial c xs (Q : option Z -> slab -> Prop) s :
  cache_ok c -> sp_chain (next_of s) (sc_partial (cache_at s c)) xs -> NoDup xs -> slots_ok xs ->
  (forall i, i ∈ xs -> sp_freelist (sp_at s i) <> 0 -> Q (Some i) s) ->
  ((forall i, i ∈ xs -> sp_freelist (sp_at s i) = 0) -> Q None s) -> wp (find_partial c) Q s.
Proof.
  intros Hc Hch Hnd Hok HS HN. unfold find_partial. wp_step. apply wp_read_cache; [done|].
  pose proof (slots_length xs Hnd Hok) as Hlen.
  apply (wp_loop_list (fun rest p s' => s' = s /\ sp_chain (next_of s) p rest /\ (forall i, i ∈ rest -> i ∈ xs) /\
           forall i, i ∈ xs -> i ∈ rest \/ sp_freelist (sp_at s i) = 0)
           _ _ _ xs); [split_and!; [done|done|done|by left]|lia| |].
  - intros i rest p s' (-> & [-> Hrest] & Hin & Hall). wp_step. apply wp_read_sp; [apply Hok, Hin; set_solver|].
    destruct (Z.eqb_spec (sp_freelist (sp_at s i)) 0); cbn [negb]; wp_step.
    + split_and!; [done|done| |]; [intros; apply Hin; set_solver|]. intros j Hj. destruct (Hall j Hj) as [[->|?]%elem_of_cons|]; naive_solver.
    + apply HS; [apply Hin; set_solver|done].
  - intros p s' (-> & -> & _ & Hall). wp_step. apply HN. intros i Hi. destruct (Hall i Hi) as [?%not_elem_of_nil|]; done.
Qed.

(** Where the pointer to the rest of the list is stored. *)
Definition ref_of (c : Z) (pre : list Z) : slab_ref :=
  match last pre with None => RefPartial c | Some i => RefNext i end.
Definition ref_val (s : slab) (r : slab_ref) : option Z :=
  match r with RefPartial c => sc_partial (cache_at s c) | RefNext i => next_of s i end.

Lemma sp_chain_ref s c pre rest : sp_chain (next_of s) (sc_partial (cache_at s c)) (pre ++ rest) ->
  sp_chain (next_of s) (ref_val s (ref_of c pre)) rest.
Proof.
  revert rest. induction pre as [|i pre IH] using rev_ind; intros rest; [done|]. intros H. unfold ref_of. rewrite last_snoc. cbn [ref_val].
  rewrite <- app_assoc in H. apply IH in H. by destruct H.
Qed.

Lemma sp_chain_remove next next' p p' pre i post :
  NoDup (pre ++ i :: post) -> sp_chain next p (pre ++ i :: post) ->
  p' = (if decide (pre = []) then next i else p) ->
  (forall j, j ∈ pre ++ post -> next' j = if decide (last pre = Some j) then next i else next j) ->
  sp_chain next' p' (pre ++ post).
Proof.
  revert p p'. induction pre as [|x pre IH]; intros p p' Hnd Hch Hp Hnx; cbn in *.
  - destruct Hch as [-> Hch]. subst p'. eapply sp_chain_ext, Hch. intros j Hj. by apply Hnx.
  - destruct Hch as [-> Hch]. subst p'. split; [done|]. apply NoDup_cons in Hnd as [Hx Hnd].
    eapply IH; [done|done| |].
    + rewrite Hnx by set_solver. destruct pre as [|y pre]; cbn.
      * by rewrite decide_True by done.
      * rewrite decide_False; [by rewrite decide_False by done|].
        intros E. apply Hx. change (last (y :: pre) = Some x) in E.
        apply last_Some_elem_of in E. set_solver.
    + intros j Hj. rewrite Hnx by set_solver. destruct pre as [|y pre]; cbn.
      * rewrite decide_False; [done|]. intros [= ->]. set_solver.
      * done.
Qed.

(** Only [next] links and partial heads changed. *)
Record relinked (s s' : slab) : Prop := {
  rk_sp : forall j, exists n, sp_at s' j = sp_set_next n (sp_at s j);
  rk_la : large_allocs s' = large_allocs s;
  rk_mach : mach s' = mach s;
  rk_lock : slab_lock s' = slab_lock s;
  rk_size : forall c, sc_size (cache_at s' c) = sc_size (cache_at s c);
}.

Lemma sp_set_next_id p : sp_set_next (sp_next p) p = p.
Proof. by destruct p. Qed.

Definition write_ref_state (r : slab_ref) (v : option Z) (s : slab) : slab :=
  match r with
  | RefPartial c => set_caches (<[c := SlabCache (sc_size (cache_at s c)) v]> (slab_caches s)) s
  | RefNext i => set_pages (<[i := sp_set_next v (sp_at s i)]> (slab_pages s)) s
  end.
Definition ref_ok (r : slab_ref) : Prop :=
  match r with RefPartial c => cache_ok c | RefNext i => 0 <= i < MAX_SLAB_PAGES end.

Lemma ref_of_ok c pre : cache_ok c -> slots_ok pre -> ref_ok (ref_of c pre).
Proof.
  intros Hc Hp. unfold ref_of. destruct (last pre) as [i|] eqn:E; [|done].
  apply Hp. by apply last_Some_elem_of in E.
Qed.
Lemma wp_read_ref r Q s : ref_ok r -> Q (ref_val s r) s -> wp (read_ref r) Q s.
Proof.
  destruct r; cbn; intros Hr HQ; wp_step; [apply wp_read_cache|apply wp_read_sp]; try done; by wp_step.
Qed.
Lemma wp_write_ref r v Q s : ref_ok r -> Q tt (write_ref_state r v s) -> wp (write_ref r v) Q s.
Proof.
  destruct r; cbn; intros Hr HQ; wp_step; [apply wp_read_cache|apply wp_read_sp]; try done.
  - by apply wp_write_cache.
  - by apply wp_write_sp.
Qed.

Lemma sp_set_next_set n m p : sp_set_next n (sp_set_next m p) = sp_set_next n p.
Proof. done. Qed.

Lemma wp_slab_cache_del_page c sp pre post Q s :
  let xs := pre ++ sp :: post in
  cache_ok c -> sp_chain (next_of s) (sc_partial (cache_at s c)) xs -> NoDup xs -> slots_ok xs ->
  (forall s', relinked s s' -> sp_chain (next_of s') (sc_partial (cache_at s' c)) (pre ++ post) ->
     (forall j, j ∉ xs -> next_of s' j = next_of s j) ->
     (forall d, d <> c -> cache_at s' d = cache_at s d) -> Q tt s') ->
  wp (slab_cache_del_page c sp) Q s.
Proof.
  intros xs Hc Hch Hnd Hok HQ. unfold slab_cache_del_page.
  pose proof (slots_length xs Hnd Hok) as Hlen.
  apply (wp_loop_list (fun rest pp s' => s' = s /\ exists done, done ++ rest = xs /\ pp = ref_of c done /\
            (sp ∉ done)) _ _ _ xs).
  - split; [done|]. exists []. split_and!; [done|done|set_solver].
  - lia.
  - intros i rest pp s' (-> & dn & Hxs & -> & Hsp).
    assert (Hdn : slots_ok dn) by (intros j Hj; apply Hok; rewrite <- Hxs; set_solver).
    pose proof (ref_of_ok c dn Hc Hdn) as Hr.
    rewrite <- Hxs in Hch. pose proof (sp_chain_ref s c dn _ Hch) as [Hv _].
    wp_step. apply wp_read_ref; [done|]. rewrite Hv.
    destruct (Z.eqb_spec i sp) as [->|Hne].
    2:{ wp_step. split; [done|]. exists (dn ++ [i]). split_and!; [by rewrite <- app_assoc| |set_solver].
        unfold ref_of. by rewrite last_snoc. }
    assert (dn = pre /\ rest = post) as [-> ->].
    { unfold xs in Hxs, Hnd. clear -Hxs Hsp Hnd. revert pre Hxs Hnd. induction dn as [|d dn IH]; intros pre Hxs Hnd.
      - destruct pre as [|x pre]; simplify_eq/=; [done|]. exfalso. apply NoDup_cons in Hnd as [Hn _]. set_solver.
      - destruct pre as [|x pre]; simplify_eq/=; [set_solver|].
        destruct (IH ltac:(set_solver) pre) as [-> ->]; [done|by apply NoDup_cons in Hnd as [? ?]|done]. }
    assert (Hspok : 0 <= sp < MAX_SLAB_PAGES) by (apply Hok; unfold xs; set_solver).
    wp_step. apply wp_read_sp; [done|]. wp_step. apply wp_write_ref; [done|].
    set (s1 := write_ref_state (ref_of c pre) (next_of s sp) s).
    wp_step. apply wp_read_sp; [done|]. wp_step. apply wp_write_sp; [done|]. wp_step.
    set (s2 := set_pages (<[sp := sp_set_next None (sp_at s1 sp)]> (slab_pages s1)) s1).
    assert (Hsp1 : forall j, sp_at s1 j = if decide (last pre = Some j) then sp_set_next (next_of s sp) (sp_at s j) else sp_at s j).
    { intros j. unfold s1, ref_of. destruct (last pre) as [l|] eqn:El; cbn [write_ref_state].
      - rewrite sp_at_write. repeat case_decide; congruence.
      - rewrite decide_False by done. done. }
    assert (Hsp2 : forall j, sp_at s2 j = if decide (j = sp) then sp_set_next None (sp_at s1 sp) else sp_at s1 j).
    { intros j. apply sp_at_write. }
    assert (Hca2 : forall d, cache_at s2 d = if decide (pre = [] /\ d = c) then SlabCache (sc_size (cache_at s c)) (next_of s sp) else cache_at s d).
    { intros d. change (cache_at s2 d) with (cache_at s1 d). unfold s1, ref_of. destruct (last pre) as [l|] eqn:El; cbn [write_ref_state].
      - rewrite decide_False; [done|]. intros [-> _]. done.
      - apply last_None in El. subst pre. rewrite cache_at_write. repeat case_decide; naive_solver. }
    assert (Hlast : last pre <> Some sp).
    { intros E. apply last_Some_elem_of in E. done. }
    apply HQ.
    + split.
      * intros j. rewrite Hsp2, !Hsp1. repeat case_decide; subst; try done; eexists; try done; symmetry; apply sp_set_next_id.
      * unfold s2, s1, ref_of. by destruct (last pre).
      * unfold s2, s1, ref_of. by destruct (last pre).
      * unfold s2, s1, ref_of. by destruct (last pre).
      * intros d. rewrite Hca2. case_decide as E; [|done]. destruct E as [_ ->]. done.
    + eapply (sp_chain_remove (next_of s) _ _ _ pre sp post); [exact Hnd|by rewrite <- Hxs| |].
      * rewrite Hca2. repeat case_decide; naive_solver.
      * intros j Hj. unfold next_of at 1. rewrite Hsp2, decide_False, Hsp1.
        2:{ intros ->. apply NoDup_app in Hnd as (_ & Hd & Hnd). apply NoDup_cons in Hnd as [Hn _].
            apply elem_of_app in Hj as [Hj|Hj]; [|done]. apply (Hd sp Hj). set_solver. }
        by case_decide.
    + intros j Hj. unfold next_of at 1. rewrite Hsp2, decide_False, Hsp1, decide_False; [done| |].
      * intros E. apply last_Some_elem_of in E. apply Hj. unfold xs. set_solver.
      * intros ->. apply Hj. unfold xs. set_solver.
    + intros d Hd. rewrite Hca2. rewrite decide_False; naive_solver.
  - intros pp s' (-> & dn & Hxs & _ & Hsp). exfalso. apply Hsp. rewrite app_nil_r in Hxs. subst dn. unfold xs. set_solver.
Qed.

(** Taking or releasing the lock and masking interrupts touch nothing the invariant is about. *)
Definition with_lock (l : arch_spinlock) (d : Z) (s : slab) : slab :=
  Slab (slab_caches s) (slab_pages s) (large_allocs s) l (set_daif d (mach s)).

Lemma slab_inv_with_lock F L l d s : slab_inv F L s -> slab_inv F L (with_lock l d s).
Proof.
  intros [H1 H2 H3 H4 H5 H6 H7 H8 H9 H10]. split; [exact H1|exact H2|exact H3| | |exact H6|exact H7|exact H8|exact H9|].
  - intros i Hu. destruct (H4 i Hu) as [Hr Hok]. split; [exact Hr|]. destruct Hok. split; assumption.
  - intros i Hu. destruct (H5 i Hu) as [Hr Hok]. split; [exact Hr|]. destruct Hok. split; assumption.
  - intros o z. rewrite H10. split; (intros [i ? ? ? ?|i ? ? ?]; [by eapply (LiveSmall _ _ _ _ i)|by eapply (LiveLarge _ _ _ _ i)]).
Qed.

Lemma wp_slab_lock (Q : Z -> slab -> Prop) s : lock_free (slab_lock s) ->
  Q (daif (mach s)) (with_lock (ArchSpinlock (u32 (lock_next (slab_lock s) + 1)) (lock_owner (slab_lock s)))
                       (Z.lor (daif (mach s)) DAIF_I) s) ->
  wp (on_slab_lock spin_lock_irqsave) Q s.
Proof.
  intros Hf HQ. unfold on_slab_lock. wp_step. apply wp_spin_lock_irqsave; [exact Hf|exact HQ].
Qed.

Lemma wp_slab_unlock (Q : unit -> slab -> Prop) flags s :
  Q tt (with_lock (ArchSpinlock (lock_next (slab_lock s)) (u32 (lock_owner (slab_lock s) + 1))) flags s) ->
  wp (on_slab_lock (spin_unlock_irqrestore flags)) Q s.
Proof.
  intros HQ. unfold on_slab_lock. wp_step. apply wp_spin_unlock_irqrestore. exact HQ.
Qed.
