(* ===== verification/SlabOps.v ===== *)
(** Correctness of the kernel heap, part 2: what each operation does to the invariant.

    A new slab ([slab_inv_add]), taking and returning an object ([slab_inv_pop], [slab_inv_push]),
    releasing a slab and the large allocations, each with the frame it leaves. *)
From S2P Require Import Prelude ListHead Pmm PmmTheory PmmOps PmmProps Sync Machine MmuTheory Slab SlabTheory.

Definition upd (F : Z -> list Z) (i : Z) (fl : list Z) : Z -> list Z := fun j => if decide (j = i) then fl else F j.
Lemma upd_eq F i fl : upd F i fl i = fl.
Proof. unfold upd. by rewrite decide_True. Qed.
Lemma upd_ne F i fl j : j <> i -> upd F i fl j = F j.
Proof. intros. unfold upd. by rewrite decide_False. Qed.

(** ** Where objects are *)

Lemma frame_addr_add p n : frame_addr (p + n) = frame_addr p + PAGE_SIZE * n.
Proof. unfold frame_addr. lia. Qed.

Lemma slot_range F L s i o : slab_inv F L s -> used s i -> is_obj (sp_va (sp_at s i)) (slot_cache s i) o ->
  base s + frame_addr (slot_pfn s i) <= o <
  base s + frame_addr (slot_pfn s i + 2 ^ cache_order (slot_cache s i)).
Proof.
  intros Hi Hu (k & Hk & ->). destruct (si_slots _ _ _ Hi i Hu) as [_ Hs].
  destruct (so_cache _ _ _ Hs) as [Hc _]. rewrite (so_va _ _ _ Hs), frame_addr_add.
  destruct (cache_geometry _ Hc) as (? & _ & _ & _ & Hg). rewrite <- Hg. nia.
Qed.

Lemma obj_slot_unique F L s i j o : slab_inv F L s -> used s i -> used s j ->
  is_obj (sp_va (sp_at s i)) (slot_cache s i) o -> is_obj (sp_va (sp_at s j)) (slot_cache s j) o -> i = j.
Proof.
  intros Hi Hu Hv Ho Ho'. destruct (decide (slot_pfn s i = slot_pfn s j)) as [|Hne].
  { by apply (si_slots_ne _ _ _ Hi). }
  pose proof (slot_range _ _ _ _ _ Hi Hu Ho) as R. pose proof (slot_range _ _ _ _ _ Hi Hv Ho') as R'.
  destruct (si_slots _ _ _ Hi i Hu) as [_ Hs]. destruct (si_slots _ _ _ Hi j Hv) as [_ Ht].
  rewrite !frame_addr_add in *. unfold frame_addr in *. rewrite PAGE_SIZE_eq in *.
  destruct (live_disjoint _ _ _ _ _ (si_pmm _ _ _ Hi) (so_live _ _ _ Hs) (so_live _ _ _ Ht) Hne); lia.
Qed.

Lemma obj_not_large F L s i j : slab_inv F L s -> used s i -> lused s j ->
  ~ is_obj (sp_va (sp_at s i)) (slot_cache s i) (la_va (la_at s j)).
Proof.
  intros Hi Hu Hv Ho. pose proof (slot_range _ _ _ _ _ Hi Hu Ho) as R.
  destruct (si_slots _ _ _ Hi i Hu) as [_ Hs]. destruct (si_larges _ _ _ Hi j Hv) as [_ Ht].
  rewrite (lo_va _ _ Ht), frame_addr_add in R. unfold frame_addr in R. rewrite PAGE_SIZE_eq in R.
  pose proof (si_mixed_ne _ _ _ Hi i j Hu Hv) as Hne.
  destruct (live_page_ok _ _ _ (si_pmm _ _ _ Hi) (lo_live _ _ Ht)) as (_ & _ & Ho').
  pose proof (pow2_pos (la_order (la_at s j)) ltac:(lia)).
  destruct (live_disjoint _ _ _ _ _ (si_pmm _ _ _ Hi) (so_live _ _ _ Hs) (lo_live _ _ Ht) Hne); lia.
Qed.

(** ** Frames *)

(** Memory inside the free blocks of the page allocator. *)
Definition in_free (s : pmm) (a : Z) : Prop :=
  exists p h, block_at s p = Some (true, h) /\ frame_addr p <= a < frame_addr (p + 2 ^ h).

(** What the page allocator went through. *)
Inductive pmm_grew (s : pmm) : pmm -> Prop :=
| GrewNot : pmm_grew s s
| GrewError e : pmm_grew s (with_error e s)
| GrewBlock o dma p s' : allocated s o dma p s' -> pmm_grew s s'.

Lemma pmm_grew_live s s' p o : pmm_grew s s' -> live s p o -> live s' p o.
Proof. intros [|e|o' dma q s'' Hal] Hl; [done|done|]. apply (al_live _ _ _ _ _ Hal). by left. Qed.
Lemma pmm_grew_inv s s' : pmm_grew s s' -> buddy_inv s -> buddy_inv s'.
Proof. intros [|e|o' dma q s'' Hal] Hi; [done|by apply binv_with_error|apply (al_inv _ _ _ _ _ Hal)]. Qed.

(** What an allocation may change: memory that was free. *)
Record heap_step (s s' : slab) : Prop := {
  hs_regs : mach s' = set_pmm (heap_pmm s') (set_ram (m_ram (mach s')) (mach s));
  hs_lock : slab_lock s' = slab_lock s;
  hs_ram : forall a, ~ in_free (heap_pmm s) a -> ram_at (mach s') a = ram_at (mach s) a;
  hs_pmm : pmm_grew (heap_pmm s) (heap_pmm s');
}.

Lemma heap_step_base s s' : heap_step s s' -> base s' = base s.
Proof. intros [Hr _ _ _]. unfold base. by rewrite Hr. Qed.

Lemma live_not_free s p o a : buddy_inv s -> live s p o -> frame_addr p <= a < frame_addr (p + 2 ^ o) -> ~ in_free s a.
Proof.
  intros Hi Hl Ha (q & h & Hb & Hq).
  pose proof (geom_disj _ _ _ (binv_geom _ _ Hi)) as Hd. rewrite !frame_addr_add in *.
  assert (p <> q) as Hne by (intros ->; unfold live in Hl; congruence).
  unfold frame_addr in *. rewrite PAGE_SIZE_eq in *.
  destruct (Z.lt_total p q) as [|[|]]; [|done|].
  - enough (p + 2 ^ o <= q) by lia. eapply Hd; try lia; right; eauto.
  - enough (q + 2 ^ h <= p) by lia. eapply Hd; try lia; right; eauto.
Qed.

(** The words of a live or free object of a slab are not free memory. *)
Lemma obj_not_free F L s i o k : slab_inv F L s -> used s i ->
  is_obj (sp_va (sp_at s i)) (slot_cache s i) o -> 0 <= k < cache_size (slot_cache s i) ->
  ~ in_free (heap_pmm s) (o + k - base s).
Proof.
  intros Hi Hu (j & Hj & ->) Hk. destruct (si_slots _ _ _ Hi i Hu) as [_ Hs].
  eapply live_not_free; [apply (si_pmm _ _ _ Hi)|apply (so_live _ _ _ Hs)|].
  destruct (so_cache _ _ _ Hs) as [Hc _]. destruct (cache_geometry _ Hc) as (? & _ & _ & _ & Hg).
  rewrite frame_addr_add, <- Hg, (so_va _ _ _ Hs). nia.
Qed.

Lemma word_same F L s s' o i : slab_inv F L s -> heap_step s s' -> used s i -> o ∈ F i -> word s' o = word s o.
Proof.
  intros Hi Hst Hu Ho. unfold word. rewrite (heap_step_base _ _ Hst). apply (hs_ram _ _ Hst).
  destruct (si_slots _ _ _ Hi i Hu) as [_ Hs]. destruct (so_fl _ _ _ Hs) as [_ Hobj].
  destruct (so_cache _ _ _ Hs) as [Hc _]. pose proof (cache_size_pos _ Hc).
  replace (o - base s) with (o + 0 - base s) by lia. eapply obj_not_free; [done|done|by apply Hobj|lia].
Qed.

(** Nothing in use changed. *)
Lemma slab_inv_frame F L s s' : slab_inv F L s -> heap_step s s' ->
  (forall i, used s' i <-> used s i) -> (forall i, used s i -> sp_at s' i = sp_at s i) ->
  (forall c, cache_at s' c = cache_at s c) ->
  (forall i, lused s' i <-> lused s i) -> (forall i, lused s i -> la_at s' i = la_at s i) ->
  slab_inv F L s'.
Proof.
  intros Hi Hst Hu Hsp Hca Hl Hla. pose proof (heap_step_base _ _ Hst) as Hb.
  assert (Hlv : forall p o, live (heap_pmm s) p o -> live (heap_pmm s') p o)
    by (intros p o; apply pmm_grew_live, (hs_pmm _ _ Hst)).
  assert (Hpfn : forall i, used s i -> slot_pfn s' i = slot_pfn s i /\ slot_cache s' i = slot_cache s i)
    by (intros i Hui; unfold slot_pfn, slot_cache; by rewrite Hsp).
  assert (Hlpfn : forall i, lused s i -> large_pfn s' i = large_pfn s i)
    by (intros i Hui; unfold large_pfn; by rewrite Hla).
  split.
  - eapply pmm_grew_inv; [apply (hs_pmm _ _ Hst)|apply (si_pmm _ _ _ Hi)].
  - rewrite Hb. apply (si_base _ _ _ Hi).
  - intros c Hc. rewrite Hca. by apply (si_sizes _ _ _ Hi).
  - intros i Hui%Hu. destruct (si_slots _ _ _ Hi i Hui) as [Hr Hok]. split; [done|].
    eapply slot_ok_frame; [exact Hok|by apply Hsp|done| |apply Hlv, (so_live _ _ _ Hok)].
    intros o Ho. by eapply word_same.
  - intros i Hui%Hl. destruct (si_larges _ _ _ Hi i Hui) as [Hr Hok]. split; [done|].
    eapply large_ok_frame; [exact Hok|by apply Hla|done|apply Hlv, (lo_live _ _ Hok)].
  - intros c Hc. destruct (si_parts _ _ _ Hi c Hc) as (xs & Hch & Hnd & Hxs). exists xs. rewrite Hca.
    split_and!; [|done|].
    + eapply sp_chain_ext, Hch. intros i Hix. cbn beta. rewrite Hsp; [done|]. by apply Hxs in Hix as [? _].
    + intros i. rewrite Hxs, Hu. split; intros [Hui Hc']; (split; [done|]);
        destruct (Hpfn i Hui); congruence.
  - intros i j Hui%Hu Huj%Hu. destruct (Hpfn i Hui) as [-> _], (Hpfn j Huj) as [-> _]. by apply (si_slots_ne _ _ _ Hi).
  - intros i j Hui%Hl Huj%Hl. rewrite !Hlpfn by done. by apply (si_larges_ne _ _ _ Hi).
  - intros i j Hui%Hu Huj%Hl. destruct (Hpfn i Hui) as [-> _]. rewrite Hlpfn by done. by apply (si_mixed_ne _ _ _ Hi).
  - intros o z. rewrite (si_live _ _ _ Hi). symmetry. apply live_obj_frame; try done.
    intros i Hui. rewrite Hsp by done. split; [done|]. by apply Hpfn.
Qed.

(** ** A new slab *)

(** Slot [i] becomes a slab of cache [c] whose objects are all free. *)
Record slab_added (s s' : slab) (i c : Z) (fl : list Z) : Prop := {
  ad_slot : 0 <= i < MAX_SLAB_PAGES /\ ~ used s i /\ used s' i /\ slot_cache s' i = c /\ slot_ok s' i fl;
  ad_fresh : forall o, ~ live (heap_pmm s) (slot_pfn s' i) o;
  ad_all : forall o, is_obj (sp_va (sp_at s' i)) c o -> o ∈ fl;
  ad_sp : forall j, j <> i -> sp_at s' j = sp_at s j;
  ad_next : sp_next (sp_at s' i) = sc_partial (cache_at s c);
  ad_cache : forall d, cache_at s' d = if decide (d = c) then SlabCache (sc_size (cache_at s c)) (Some i) else cache_at s d;
  ad_la : forall j, la_at s' j = la_at s j;
}.

Lemma slab_inv_add F L s s' i c fl : slab_inv F L s -> heap_step s s' -> slab_added s s' i c fl ->
  slab_inv (upd F i fl) L s'.
Proof.
  intros Hi Hst [(Hir & Hnu & Hui & Hci & Hok) Hfr Hall Hsp Hnx Hca Hla].
  pose proof (heap_step_base _ _ Hst) as Hb.
  assert (Hlv : forall p o, live (heap_pmm s) p o -> live (heap_pmm s') p o)
    by (intros p o; apply pmm_grew_live, (hs_pmm _ _ Hst)).
  destruct (so_cache _ _ _ Hok) as [Hc _]. rewrite Hci in Hc.
  assert (Hu : forall j, j <> i -> used s' j <-> used s j) by (intros j Hj; unfold used; by rewrite Hsp).
  assert (Hsame : forall j, j <> i -> slot_pfn s' j = slot_pfn s j /\ slot_cache s' j = slot_cache s j)
    by (intros j Hj; unfold slot_pfn, slot_cache; by rewrite Hsp).
  assert (Hl : forall j, lused s' j <-> lused s j) by (intros j; unfold lused; by rewrite Hla).
  assert (Hlp : forall j, large_pfn s' j = large_pfn s j) by (intros j; unfold large_pfn; by rewrite Hla).
  assert (Hne : forall j, used s j -> slot_pfn s j <> slot_pfn s' i).
  { intros j Hj E. destruct (si_slots _ _ _ Hi j Hj) as [_ Hokj].
    eapply (Hfr (cache_order (slot_cache s j))). rewrite <- E. apply (so_live _ _ _ Hokj). }
  split.
  - eapply pmm_grew_inv; [apply (hs_pmm _ _ Hst)|apply (si_pmm _ _ _ Hi)].
  - rewrite Hb. apply (si_base _ _ _ Hi).
  - intros d Hd. rewrite Hca. case_decide as E; [subst d|]; by apply (si_sizes _ _ _ Hi).
  - intros j Huj. destruct (decide (j = i)) as [->|Hji]; [rewrite upd_eq; done|]. rewrite upd_ne by done.
    apply Hu in Huj; [|done]. destruct (si_slots _ _ _ Hi j Huj) as [Hr Hokj]. split; [done|].
    eapply slot_ok_frame; [exact Hokj|by apply Hsp|done| |apply Hlv, (so_live _ _ _ Hokj)].
    intros o Ho. by eapply word_same.
  - intros j Huj%Hl. destruct (si_larges _ _ _ Hi j Huj) as [Hr Hokj]. split; [done|].
    eapply large_ok_frame; [exact Hokj|by apply Hla|done|apply Hlv, (lo_live _ _ Hokj)].
  - intros d Hd. destruct (si_parts _ _ _ Hi d Hd) as (xs & Hch & Hnd & Hxs).
    assert (Hix : i ∉ xs) by (intros Hin; apply Hnu; by apply Hxs in Hin as [? _]).
    assert (Hch' : forall p, sp_chain (fun i => sp_next (sp_at s i)) p xs -> sp_chain (fun i => sp_next (sp_at s' i)) p xs).
    { intros p. apply sp_chain_ext. intros j Hj. cbn beta. rewrite Hsp; [done|]. by intros ->. }
    destruct (decide (d = c)) as [->|Hdc].
    + exists (i :: xs). rewrite Hca, decide_True by done. cbn [sc_partial sp_chain]. split_and!; [done| | |].
      * rewrite Hnx. by apply Hch'.
      * by constructor.
      * intros j. rewrite elem_of_cons, Hxs. destruct (decide (j = i)) as [->|Hji]; [naive_solver|].
        rewrite Hu by done. destruct (Hsame j Hji) as [_ ->]. naive_solver.
    + exists xs. rewrite Hca, decide_False by done. split_and!; [by apply Hch'|done|].
      intros j. destruct (decide (j = i)) as [->|Hji]; [naive_solver|].
      rewrite Hxs, Hu by done. by destruct (Hsame j Hji) as [_ ->].
  - intros j k Huj Huk E. destruct (decide (j = i)) as [->|Hji], (decide (k = i)) as [->|Hki].
    + reflexivity.
    + exfalso. apply Hu in Huk; [|done]. destruct (Hsame k Hki) as [E' _]. by apply (Hne k Huk); congruence.
    + exfalso. apply Hu in Huj; [|done]. destruct (Hsame j Hji) as [E' _]. by apply (Hne j Huj); congruence.
    + apply Hu in Huj, Huk; [|done..]. destruct (Hsame j Hji) as [E1 _], (Hsame k Hki) as [E2 _].
      apply (si_slots_ne _ _ _ Hi); congruence.
  - intros j k Huj%Hl Huk%Hl. rewrite !Hlp. by apply (si_larges_ne _ _ _ Hi).
  - intros j k Huj Huk%Hl E. rewrite Hlp in E. destruct (decide (j = i)) as [->|Hji].
    + destruct (si_larges _ _ _ Hi k Huk) as [_ Hokk]. eapply Hfr. rewrite E. apply (lo_live _ _ Hokk).
    + apply Hu in Huj; [|done]. destruct (Hsame j Hji) as [E' _]. rewrite E' in E. by eapply (si_mixed_ne _ _ _ Hi).
  - intros o z. rewrite (si_live _ _ _ Hi). split.
    + intros [j Huj Hobj Hn ->|j Huj -> ->].
      * assert (j <> i) as Hji by (by intros ->). destruct (Hsame j Hji) as [_ Hc'].
        eapply (LiveSmall _ _ _ _ j); [by apply Hu| | |by rewrite Hc']; [by rewrite Hsp, Hc'|by rewrite upd_ne].
      * eapply (LiveLarge _ _ _ _ j); [by apply Hl|by rewrite Hla|by rewrite Hla].
    + intros [j Huj Hobj Hn ->|j Huj -> ->].
      * destruct (decide (j = i)) as [->|Hji].
        { exfalso. apply Hn. rewrite upd_eq. apply Hall. by rewrite <- Hci. }
        destruct (Hsame j Hji) as [_ Hc']. rewrite Hsp, Hc' in * by done. rewrite upd_ne in Hn by done.
        apply Hu in Huj; [|done]. by eapply (LiveSmall _ _ _ _ j).
      * rewrite Hla. apply Hl in Huj. by eapply (LiveLarge _ _ _ _ j).
Qed.

(** The page allocator as the heap calls it. *)
Lemma wp_heap_alloc order flags (Q : Z -> slab -> Prop) s : buddy_inv (heap_pmm s) -> 0 <= order <= MAX_ORDER ->
  (forall p pm, allocated (heap_pmm s) order (negb (Z.land flags GFP_DMA =? 0)) p pm ->
     Q (frame_addr p) (set_mach (set_pmm pm (mach s)) s)) ->
  (forall e, (forall o, order <= o <= MAX_ORDER -> no_candidate (heap_pmm s) (negb (Z.land flags GFP_DMA =? 0)) o) ->
     Q 0 (set_mach (set_pmm (with_error e (heap_pmm s)) (mach s)) s)) ->
  wp (on_mach (on_pmm (alloc_phys_pages order flags))) Q s.
Proof.
  intros Hi Ho H1 H2. apply wp_on_mach. apply wp_on_pmm. apply wp_alloc_phys_pages; [exact Hi|exact Ho| |].
  - intros p pm Hal _. exact (H1 p pm Hal).
  - exact (H2 BUDDY_ERR_NO_MEMORY).
Qed.

Lemma allocated_page s order dma p s' : buddy_inv s -> 0 <= order -> allocated s order dma p s' ->
  page_ok p /\ p + 2 ^ order <= TOTAL_PAGES /\ live s' p order /\
  (forall o, ~ live s p o) /\ (forall a, frame_addr p <= a < frame_addr (p + 2 ^ order) -> in_free s a).
Proof.
  intros Hi Ho Hal. destruct (al_aligned _ _ _ _ _ Hal) as (_ & Hf & Ht).
  destruct (binv_start _ _ Hi) as [_ Hfp]. pose proof (pow2_pos order Ho).
  destruct (al_from _ _ _ _ _ Hal) as (h & Hh & Hb & _). split_and!.
  - unfold page_ok. lia.
  - done.
  - apply (al_live _ _ _ _ _ Hal). by right.
  - intros o Hl. unfold live in Hl. congruence.
  - intros a Ha. exists p, h. split; [done|]. rewrite frame_addr_add in *.
    pose proof (pow2_mono order h ltac:(lia) Hh). rewrite PAGE_SIZE_eq in *. lia.
Qed.

Lemma frame_addr_ne0 p : page_ok p -> frame_addr p <> 0.
Proof. unfold page_ok, frame_addr, PHYS_MEM_START. rewrite PAGE_SIZE_eq. lia. Qed.

Lemma add64_va b p : base_ok b -> page_ok p -> add64 b (frame_addr p) = b + frame_addr p.
Proof.
  intros (Hb & _ & Hb2) Hp. apply add64_small.
  unfold page_ok, frame_addr, PHYS_MEM_START, PHYS_MEM_END in *. rewrite TOTAL_PAGES_eq, PAGE_SIZE_eq in *. lia.
Qed.

Lemma set_ram_id m : set_ram (m_ram m) m = m.
Proof. by destruct m. Qed.

Lemma cache_span c : cache_ok c -> shl64 PAGE_SIZE (cache_order c) = PAGE_SIZE * 2 ^ cache_order c /\
  u32 (shl64 PAGE_SIZE (cache_order c) / cache_size c) = cache_cap c /\ cache_order c <= MAX_ORDER.
Proof. rewrite PAGE_SIZE_eq. intros H. each_cache H. Qed.

(** The slabs in use after an operation were in use before, in the same caches. *)
Definition same_slots (s s' : slab) : Prop := forall j, used s' j -> used s j /\ slot_cache s' j = slot_cache s j.

Lemma same_slots_at s s' : (forall j, used s' j -> sp_at s' j = sp_at s j) -> same_slots s s'.
Proof. intros H j Hj. pose proof (H j Hj) as E. unfold used, slot_cache in *. rewrite E in *. done. Qed.

(** Why a request of [order] pages fails: a pool of descriptors is used up, or there is no such block. *)
Definition no_slots (s : slab) : Prop := forall j, 0 <= j < MAX_SLAB_PAGES -> used s j.
Definition no_larges (s : slab) : Prop := forall j, 0 <= j < MAX_LARGE_ALLOCS -> lused s j.
Definition no_pages (s : slab) (flags order : Z) : Prop :=
  forall o, order <= o <= MAX_ORDER -> no_candidate (heap_pmm s) (negb (Z.land flags GFP_DMA =? 0)) o.

Lemma wp_slab_grow F L c flags (Q : option Z -> slab -> Prop) s :
  slab_inv F L s -> cache_ok c ->
  (forall i o fl s', slab_inv (upd F i (o :: fl)) L s' -> heap_step s s' -> used s' i -> slot_cache s' i = c ->
     (forall j, j <> i -> sp_at s' j = sp_at s j) -> Z.of_nat (length fl) < cache_cap c ->
     (forall x, is_obj (sp_va (sp_at s' i)) c x -> in_free (heap_pmm s) (x - base s)) ->
     ~ (no_slots s \/ no_pages s flags (cache_order c)) -> free_pages (heap_pmm s') = free_pages (heap_pmm s) - 2 ^ cache_order c -> Q (Some i) s') ->
  (forall s', slab_inv F L s' -> heap_step s s' -> same_slots s s' -> (forall j, used s' j -> sp_at s' j = sp_at s j) -> (forall j, used s j -> used s' j) ->
     free_pages (heap_pmm s') = free_pages (heap_pmm s) -> no_slots s /\ no_slots s' \/ no_pages s flags (cache_order c) /\ no_pages s' flags (cache_order c) -> Q None s') ->
  wp (slab_grow c flags) Q s.
Proof.
  intros Hi Hc HS HN. pose proof (cache_geometry c Hc) as (Hs0 & H8 & Hcap & Hord & Hg).
  destruct (cache_span c Hc) as (Hspan & Hcapeq & Hmax).
  unfold slab_grow. wp_step. apply wp_read_cache; [done|]. rewrite (si_sizes _ _ _ Hi c Hc).
  wp_step. apply wp_slab_order_for_size; [done|]. rewrite Hcapeq.
  wp_step. apply wp_guard; [lia|]. rewrite (proj2 (Z.eqb_neq (cache_cap c) 0)) by lia.
  wp_step. apply wp_alloc_slab_page_meta.
  2:{ intros Hall. wp_step. apply HN; [done| |done|done|done|done|by left]. split; [|done|done|constructor]. unfold heap_pmm. by destruct (mach s). }
  intros i Hir Hnu. set (s1 := set_pages (<[i := new_slot]> (slab_pages s)) s).
  wp_step. apply wp_heap_alloc; [apply (si_pmm _ _ _ Hi)|lia| |].
  2:{ intros e Hno. rewrite Z.eqb_refl. wp_step. apply wp_write_sp; [done|]. wp_step. apply HN.
      - eapply slab_inv_frame; [exact Hi| | | | | |]; try done.
        + split; [done|done|done|]. apply GrewError.
        + intros j. unfold used, s1. autorewrite with heap. case_decide as E; [subst j|done].
          split; [by intros ?|]. intros Hx. by destruct Hnu.
        + intros j Hj. unfold s1. autorewrite with heap. by rewrite !decide_False by (by intros ->).
      - split; [done|done|done|]. apply GrewError.
      - apply same_slots_at. intros j. unfold used, s1. autorewrite with heap. repeat case_decide; done.
      - intros j. unfold used, s1. autorewrite with heap. repeat case_decide; done.
      - intros j Hj. assert (j <> i) by (by intros ->). unfold used, s1 in *. autorewrite with heap. by rewrite !decide_False.
      - reflexivity.
      - right. split; exact Hno. }
  intros p pm Hal. change (heap_pmm s1) with (heap_pmm s) in Hal.
  destruct (allocated_page _ _ _ _ _ (si_pmm _ _ _ Hi) (proj1 Hord) Hal) as (Hp & Ht & Hlv & Hfresh & Hfree).
  rewrite (proj2 (Z.eqb_neq (frame_addr p) 0)) by (by apply frame_addr_ne0).
  wp_step. apply wp_on_mach, wp_phys_to_virt. cbn [set_mach mach].
  change (slab_linear_map_base (set_pmm pm (mach s1))) with (base s).
  rewrite (add64_va _ _ (si_base _ _ _ Hi) Hp).
  wp_step. apply wp_read_sp; [done|].
  wp_step. apply wp_on_mach. apply (wp_thread_objects _ (base s) p c); [apply (si_base _ _ _ Hi)|done|done|done|done|].
  intros freelist r Hchain Hout. cbn [set_mach mach] in *.
  wp_step. apply wp_write_sp; [done|].
  wp_step. unfold slab_cache_add_page.
  wp_step. apply wp_read_cache; [done|]. wp_step. apply wp_read_sp; [done|]. wp_step. apply wp_write_sp; [done|].
  apply wp_write_cache; [done|]. wp_step.
  match goal with |- Q _ ?t => set (s' := t) end.
  set (fl := all_objs (base s + frame_addr p) c (Z.to_nat (cache_cap c))).
  assert (Hsi : sp_at s' i = SlabPage SLAB_MAGIC (Some c) (sc_partial (cache_at s c)) (frame_addr p)
                  (base s + frame_addr p) (cache_order c) (cache_size c) (cache_cap c) 0 freelist true).
  { unfold s', s1. autorewrite with heap. by rewrite !decide_True by done. }
  assert (Hpfn : slot_pfn s' i = p).
  { unfold slot_pfn. rewrite Hsi. cbn [sp_pa]. apply pa_to_pfn_frame. unfold page_ok in Hp. lia. }
  assert (Hci : slot_cache s' i = c) by (unfold slot_cache; by rewrite Hsi).
  assert (Hst : heap_step s s').
  { split; [done|done| |].
    - intros a Ha. change (ram_at (mach s') a) with (ram_at (set_ram r (set_pmm pm (mach s))) a).
      rewrite Hout; [done|]. intros Hin. apply Ha, Hfree. rewrite frame_addr_add. apply Hin.
    - change (heap_pmm s') with pm. by eapply GrewBlock. }
  assert (Hcap' : exists n, Z.to_nat (cache_cap c) = S n) by (exists (pred (Z.to_nat (cache_cap c))); lia).
  destruct Hcap' as [n Hn].
  assert (Hfl : fl = base s + frame_addr p + Z.of_nat n * cache_size c :: all_objs (base s + frame_addr p) c n)
    by (unfold fl; by rewrite Hn).
  eapply (HS i _ (all_objs (base s + frame_addr p) c n) s'); [|exact Hst|by unfold used; rewrite Hsi|done| | | | |exact (al_count _ _ _ _ _ Hal)].
  5:{ intros [Hall|Hno]; [by apply Hnu, Hall|by apply (al_found _ _ _ _ _ Hal)]. }
  2:{ intros j Hj. unfold s', s1. autorewrite with heap. by rewrite !decide_False by done. }
  2:{ rewrite all_objs_length. lia. }
  2:{ intros x (k & Hk & ->). rewrite Hsi. cbn [sp_va]. apply Hfree. rewrite frame_addr_add, <- Hg. nia. }
  rewrite <- Hfl.
  eapply (slab_inv_add _ _ _ _ _ c); [exact Hi|exact Hst|]. split.
  - split_and!; [apply Hir..|done|by unfold used; rewrite Hsi|done|].
    split; rewrite ?Hpfn, ?Hci, ?Hsi; cbn [sp_cache sp_magic sp_pa sp_va sp_order sp_capacity sp_freelist sp_inuse];
      try done.
    + split; [apply all_objs_nodup, Hc|]. intros o (k & Hk & ->)%all_objs_elem. exists k. split; [lia|done].
    + unfold fl. rewrite all_objs_length. lia.
  - rewrite Hpfn. exact Hfresh.
  - intros o (k & Hk & ->). rewrite Hsi. cbn [sp_va]. apply all_objs_elem. exists k. split; [lia|done].
  - intros j Hj. unfold s', s1. autorewrite with heap. by rewrite !decide_False by done.
  - by rewrite Hsi.
  - intros d. unfold s', s1. by autorewrite with heap.
  - done.
Qed.

(** ** Taking and returning objects *)

(** Only the free list of slab [i] changes. *)
Lemma slab_inv_relist F L L' s i f u fl m' : slab_inv F L s -> used s i ->
  let s' := set_pages (<[i := sp_set_free f u (sp_at s i)]> (slab_pages s)) (set_mach m' s) in
  m' = set_ram (m_ram m') (mach s) ->
  (forall j o, used s j -> j <> i -> o ∈ F j -> word s' o = word s o) ->
  obj_chain (word s') f fl -> NoDup fl ->
  (forall o, o ∈ fl -> is_obj (sp_va (sp_at s i)) (slot_cache s i) o) ->
  u = cache_cap (slot_cache s i) - Z.of_nat (length fl) ->
  (forall o z, L' !! o = Some z <-> live_obj s (upd F i fl) o z) ->
  slab_inv (upd F i fl) L' s'.
Proof.
  intros Hi Hu s' Hm Hw Hch Hnd Hobj Hinuse HL.
  assert (Hsp : forall j, sp_at s' j = if decide (j = i) then sp_set_free f u (sp_at s i) else sp_at s j).
  { intros j. unfold s'. rewrite (sp_at_write (set_mach m' s)). done. }
  assert (Hus : forall j, used s' j <-> used s j).
  { intros j. unfold used. rewrite Hsp. case_decide; [subst j|]; done. }
  assert (Hpfn : forall j, slot_pfn s' j = slot_pfn s j /\ slot_cache s' j = slot_cache s j /\
            sp_va (sp_at s' j) = sp_va (sp_at s j) /\ sp_next (sp_at s' j) = sp_next (sp_at s j)).
  { intros j. unfold slot_pfn, slot_cache. rewrite Hsp. case_decide; [subst j|]; done. }
  assert (Hb : base s' = base s) by (unfold base; cbn; by rewrite Hm).
  assert (Hp : heap_pmm s' = heap_pmm s) by (unfold heap_pmm; cbn; by rewrite Hm).
  destruct (si_slots _ _ _ Hi i Hu) as [Hir Hoki].
  split; rewrite ?Hp, ?Hb.
  - apply (si_pmm _ _ _ Hi).
  - apply (si_base _ _ _ Hi).
  - apply (si_sizes _ _ _ Hi).
  - intros j Huj%Hus. destruct (decide (j = i)) as [->|Hji].
    + split; [done|]. rewrite upd_eq. destruct (Hpfn i) as (E1 & E2 & E3 & _).
      destruct Hoki. split; rewrite ?E1, ?E2, ?E3, ?Hsp, ?decide_True, ?Hp, ?Hb by done; done.
    + rewrite upd_ne by done. destruct (si_slots _ _ _ Hi j Huj) as [Hr Hok]. split; [done|].
      eapply slot_ok_frame; [exact Hok|by rewrite Hsp, decide_False|done| |rewrite Hp; apply (so_live _ _ _ Hok)].
      intros o Ho. by apply (Hw j).
  - intros j Huj. destruct (si_larges _ _ _ Hi j Huj) as [Hr Hok]. split; [done|].
    eapply large_ok_frame; [exact Hok|done|done|rewrite Hp; apply (lo_live _ _ Hok)].
  - intros c Hc. destruct (si_parts _ _ _ Hi c Hc) as (xs & Hx & Hxn & Hxs). exists xs. split_and!; [|done|].
    + eapply sp_chain_ext, Hx. intros j _. apply Hpfn.
    + intros j. rewrite Hxs, Hus. by destruct (Hpfn j) as (_ & -> & _).
  - intros j k Huj%Hus Huk%Hus. destruct (Hpfn j) as [-> _], (Hpfn k) as [-> _]. by apply (si_slots_ne _ _ _ Hi).
  - apply (si_larges_ne _ _ _ Hi).
  - intros j k Huj%Hus Huk. destruct (Hpfn j) as [-> _]. by apply (si_mixed_ne _ _ _ Hi).
  - intros o z. rewrite HL. symmetry. apply live_obj_frame; try done.
    intros j Huj. destruct (Hpfn j) as (_ & -> & -> & _). done.
Qed.

(** The object map after an object leaves or joins the free list of slab [i]. *)
Lemma live_take F L s i o fl : slab_inv F L s -> used s i -> F i = o :: fl ->
  L !! o = None /\ forall o' z, <[o := cache_size (slot_cache s i)]> L !! o' = Some z <-> live_obj s (upd F i fl) o' z.
Proof.
  intros Hi Hu HF. destruct (si_slots _ _ _ Hi i Hu) as [_ Hok]. destruct (so_fl _ _ _ Hok) as [Hnd Hobj].
  rewrite HF in *. apply NoDup_cons in Hnd as [Hnin Hnd].
  assert (Ho : is_obj (sp_va (sp_at s i)) (slot_cache s i) o) by (apply Hobj; set_solver).
  assert (Huniq : forall j, used s j -> is_obj (sp_va (sp_at s j)) (slot_cache s j) o -> j = i)
    by (intros j Hj Hoj; by eapply obj_slot_unique).
  split.
  - destruct (L !! o) as [z|] eqn:E; [|done]. exfalso. apply (si_live _ _ _ Hi) in E as [j Hj Hoj Hn _|j Hj Hoj _].
    + rewrite (Huniq j Hj Hoj) in Hn. rewrite HF in Hn. set_solver.
    + subst o. by eapply (obj_not_large _ _ _ i j).
  - intros o' z. rewrite lookup_insert. case_decide as E.
    + subst o'. split.
      * intros [= <-]. eapply (LiveSmall _ _ _ _ i); [done|done|by rewrite upd_eq|done].
      * intros [j Hj Hoj Hn ->|j Hj Hoj _]; [by rewrite (Huniq j Hj Hoj)|].
        exfalso. subst o. by eapply (obj_not_large _ _ _ i j).
    + rewrite (si_live _ _ _ Hi). symmetry. apply live_obj_frame; try done.
      intros j Hj _. destruct (decide (j = i)) as [->|Hji]; [rewrite upd_eq, HF; set_solver|by rewrite upd_ne].
Qed.

Lemma live_give F L s i o : slab_inv F L s -> used s i ->
  is_obj (sp_va (sp_at s i)) (slot_cache s i) o -> o ∉ F i ->
  forall o' z, delete o L !! o' = Some z <-> live_obj s (upd F i (o :: F i)) o' z.
Proof.
  intros Hi Hu Ho Hn o' z. rewrite lookup_delete. case_decide as E.
  - subst o'. split; [done|]. intros [j Hj Hoj Hnj ->|j Hj Hoj _]; exfalso.
    + assert (j = i) as -> by (by eapply obj_slot_unique). apply Hnj. rewrite upd_eq. set_solver.
    + subst o. by eapply (obj_not_large _ _ _ i j).
  - rewrite (si_live _ _ _ Hi). symmetry. apply live_obj_frame; try done.
    intros j Hj _. destruct (decide (j = i)) as [->|Hji]; [rewrite upd_eq; set_solver|by rewrite upd_ne].
Qed.

(** The physical address of an object and its word. *)
Lemma obj_phys F L s i o : slab_inv F L s -> used s i -> is_obj (sp_va (sp_at s i)) (slot_cache s i) o ->
  exists a, o = base s + a /\ ram_ok a = true /\ word s o = ram_at (mach s) a.
Proof.
  intros Hi Hu (k & Hk & ->). destruct (si_slots _ _ _ Hi i Hu) as [_ Hok].
  destruct (live_page_ok _ _ _ (si_pmm _ _ _ Hi) (so_live _ _ _ Hok)) as (Hp & Ht & _).
  exists (frame_addr (slot_pfn s i) + k * cache_size (slot_cache s i)).
  rewrite (so_va _ _ _ Hok). split_and!; [lia| |].
  - apply obj_ram; [apply (so_cache _ _ _ Hok)|done|done|done].
  - unfold word. f_equal. lia.
Qed.

Lemma same_slots_free s m i f u :
  same_slots s (set_pages (<[i := sp_set_free f u (sp_at s i)]> (slab_pages s)) (set_mach m s)).
Proof.
  intros j. unfold used, slot_cache. rewrite (sp_at_write (set_mach m s)), sp_at_mach.
  case_decide as E; [subst j|]; intros Hj; (split; [exact Hj|reflexivity]).
Qed.

Lemma wp_pop_object F L i o fl (Q : Z -> slab -> Prop) s :
  slab_inv F L s -> used s i -> F i = o :: fl ->
  (forall s', slab_inv (upd F i fl) (<[o := cache_size (slot_cache s i)]> L) s' -> L !! o = None -> o <> 0 ->
     mach s' = mach s -> slab_lock s' = slab_lock s -> same_slots s s' -> Q o s') ->
  wp (pop_object i) Q s.
Proof.
  intros Hi Hu HF HQ. destruct (si_slots _ _ _ Hi i Hu) as [Hir Hok].
  destruct (so_fl _ _ _ Hok) as [Hnd Hobj]. pose proof (so_chain _ _ _ Hok) as Hch. pose proof (so_inuse _ _ _ Hok) as Hin.
  rewrite HF in *. cbn [obj_chain] in Hch. destruct Hch as (Hhead & Ho0 & Hch).
  assert (Ho : is_obj (sp_va (sp_at s i)) (slot_cache s i) o) by (apply Hobj; set_solver).
  destruct (obj_phys _ _ _ _ _ Hi Hu Ho) as (a & Ha & Hram & Hword).
  unfold pop_object. wp_step. apply wp_read_sp; [done|]. rewrite Hhead.
  wp_step. apply wp_on_mach. rewrite Ha at 1. apply wp_ld64_va; [apply (si_base _ _ _ Hi)|done|done|].
  rewrite <- Hword. wp_step. apply wp_write_sp; [done|]. wp_step.
  destruct (so_cache _ _ _ Hok) as [Hc _]. destruct (cache_geometry _ Hc) as (_ & _ & Hcap & _ & _).
  assert (Hlen : Z.of_nat (length fl) + 1 <= cache_cap (slot_cache s i)).
  { assert (Hsub : (o :: fl) ⊆+ all_objs (sp_va (sp_at s i)) (slot_cache s i) (Z.to_nat (cache_cap (slot_cache s i)))).
    { apply NoDup_submseteq; [done|]. intros x Hx. apply all_objs_elem.
      destruct (Hobj x Hx) as (k & Hk & ->). exists k. split; [lia|done]. }
    apply submseteq_length in Hsub. rewrite all_objs_length in Hsub. cbn [length] in Hsub. lia. }
  cbn [length] in Hin.
  assert (Hinu : u32 (sp_inuse (sp_at s i) + 1) = cache_cap (slot_cache s i) - Z.of_nat (length fl)).
  { rewrite u32_small; [lia|]. lia. }
  rewrite Hinu. destruct (live_take _ _ _ _ _ _ Hi Hu HF) as [HLo HL].
  eapply HQ; [|exact HLo|exact Ho0|reflexivity|reflexivity|exact (same_slots_free s (mach s) i _ _)].
  apply NoDup_cons in Hnd as [_ Hnd].
  apply (slab_inv_relist F L _ s i (word s o) _ fl (mach s));
    [exact Hi|exact Hu|by rewrite set_ram_id|reflexivity|exact Hch|exact Hnd| |reflexivity|exact HL].
  intros x Hx. apply Hobj. set_solver.
Qed.
