(* ===== verification/SlabFree.v ===== *)
(** Correctness of the kernel heap, part 3: returning objects, destroying slabs and the large
    allocations. *)
From S2P Require Import Prelude ListHead Pmm PmmTheory PmmOps PmmProps Sync Machine MmuTheory Slab SlabTheory SlabOps.

(** ** Finding the slab of an object *)

Lemma slot_bounds F L s i : slab_inv F L s -> used s i ->
  page_ok (slot_pfn s i) /\ slot_pfn s i + 2 ^ cache_order (slot_cache s i) <= TOTAL_PAGES /\
  add64 (sp_va (sp_at s i)) (shl64 PAGE_SIZE (sp_order (sp_at s i))) =
    base s + frame_addr (slot_pfn s i + 2 ^ cache_order (slot_cache s i)).
Proof.
  intros Hi Hu. destruct (si_slots _ _ _ Hi i Hu) as [_ Hok].
  destruct (live_page_ok _ _ _ (si_pmm _ _ _ Hi) (so_live _ _ _ Hok)) as (Hp & Ht & _).
  split; [exact Hp|]. split; [exact Ht|].
  destruct (so_geom _ _ _ Hok) as [-> _]. destruct (so_cache _ _ _ Hok) as [Hc _].
  destruct (cache_span _ Hc) as (-> & _ & _). rewrite (so_va _ _ _ Hok), frame_addr_add.
  destruct (si_base _ _ _ Hi) as (Hb & _ & Hb2).
  destruct (cache_geometry _ Hc) as (_ & _ & _ & Ho & _). pose proof (pow2_pos (cache_order (slot_cache s i)) ltac:(lia)).
  rewrite add64_small; [lia|].
  unfold page_ok, frame_addr, PHYS_MEM_START, PHYS_MEM_END in *. rewrite TOTAL_PAGES_eq, PAGE_SIZE_eq in *. lia.
Qed.

Lemma wp_slab_find_page_by_va F L i o (Q : option Z -> slab -> Prop) s :
  slab_inv F L s -> used s i -> is_obj (sp_va (sp_at s i)) (slot_cache s i) o ->
  Q (Some i) s -> wp (slab_find_page_by_va o) Q s.
Proof.
  intros Hi Hu Ho HQ. pose proof (slot_range _ _ _ _ _ Hi Hu Ho) as Hr.
  destruct (si_slots _ _ _ Hi i Hu) as [Hir Hok].
  unfold slab_find_page_by_va.
  apply (wp_find_n (fun k s' => s' = s /\ k <= i)); [split; [reflexivity|lia]| |].
  2:{ intros s' [_ Hk]. unfold MAX_SLAB_PAGES in *. lia. }
  intros k s' Hk [-> Hki]. wp_step. apply wp_read_sp; [unfold MAX_SLAB_PAGES in *; lia|].
  destruct (sp_used (sp_at s k)) eqn:Huk; cbn [negb orb].
  2:{ wp_step. split; [reflexivity|]. destruct (decide (k = i)) as [->|]; [unfold used in Hu; congruence|lia]. }
  destruct (si_slots _ _ _ Hi k Huk) as [_ Hokk]. rewrite (so_magic _ _ _ Hokk), Z.eqb_refl. cbn [negb].
  destruct (slot_bounds _ _ _ _ Hi Huk) as (_ & _ & ->). rewrite (so_va _ _ _ Hokk). wp_step.
  destruct (_ && _) eqn:E.
  - enough (k = i) as -> by exact HQ. destruct (decide (slot_pfn s k = slot_pfn s i)) as [Hp|Hne].
    { by apply (si_slots_ne _ _ _ Hi). }
    apply andb_true_iff in E as [E1%Z.leb_le E2%Z.ltb_lt]. rewrite !frame_addr_add in *.
    unfold frame_addr in *. rewrite PAGE_SIZE_eq in *.
    destruct (live_disjoint _ _ _ _ _ (si_pmm _ _ _ Hi) (so_live _ _ _ Hokk) (so_live _ _ _ Hok) Hne); lia.
  - split; [reflexivity|]. destruct (decide (k = i)) as [->|]; [|lia].
    exfalso. apply andb_false_iff in E as [E%Z.leb_gt|E%Z.ltb_ge]; lia.
Qed.

Lemma wp_large_find_found F L i (Q : option Z -> slab -> Prop) s :
  slab_inv F L s -> lused s i -> Q (Some i) s -> wp (large_find_by_va (la_va (la_at s i))) Q s.
Proof.
  intros Hi Hu HQ. destruct (si_larges _ _ _ Hi i Hu) as [Hir Hok]. unfold large_find_by_va.
  apply (wp_find_n (fun k s' => s' = s /\ k <= i)); [split; [reflexivity|lia]| |].
  2:{ intros s' [_ Hk]. unfold MAX_LARGE_ALLOCS in *. lia. }
  intros k s' Hk [-> Hki]. wp_step. apply wp_read_la; [unfold MAX_LARGE_ALLOCS in *; lia|].
  destruct (la_used (la_at s k)) eqn:Huk; cbn [negb orb].
  2:{ wp_step. split; [reflexivity|]. destruct (decide (k = i)) as [->|]; [unfold lused in Hu; congruence|lia]. }
  destruct (si_larges _ _ _ Hi k Huk) as [_ Hokk]. rewrite (lo_magic _ _ Hokk), Z.eqb_refl. cbn [negb]. wp_step.
  destruct (Z.eqb_spec (la_va (la_at s k)) (la_va (la_at s i))) as [E|E].
  - enough (k = i) as -> by exact HQ. apply (si_larges_ne _ _ _ Hi k i Huk Hu).
    rewrite (lo_va _ _ Hok), (lo_va _ _ Hokk) in E. unfold frame_addr in E. rewrite PAGE_SIZE_eq in E. lia.
  - split; [reflexivity|]. destruct (decide (k = i)) as [->|]; [done|lia].
Qed.

Lemma wp_large_find_none F L va (Q : option Z -> slab -> Prop) s :
  slab_inv F L s -> (forall i, lused s i -> la_va (la_at s i) <> va) -> Q None s -> wp (large_find_by_va va) Q s.
Proof.
  intros Hi Hn HQ. unfold large_find_by_va.
  apply (wp_find_n (fun k s' => s' = s)); [reflexivity| |by intros ? ->].
  intros k s' Hk ->. wp_step. apply wp_read_la; [unfold MAX_LARGE_ALLOCS in *; lia|].
  destruct (la_used (la_at s k)) eqn:Huk; cbn [negb orb]; [|by wp_step].
  destruct (si_larges _ _ _ Hi k Huk) as [_ Hokk]. rewrite (lo_magic _ _ Hokk), Z.eqb_refl. cbn [negb]. wp_step.
  rewrite (proj2 (Z.eqb_neq _ _)); [reflexivity|]. by apply Hn.
Qed.

(** ** Removing a slab *)

Record slab_removed (s s' : slab) (i : Z) : Prop := {
  rm_slot : used s i /\ ~ used s' i;
  rm_sp : forall j, j <> i -> exists n, sp_at s' j = sp_set_next n (sp_at s j);
  rm_la : forall j, la_at s' j = la_at s j;
  rm_size : forall c, sc_size (cache_at s' c) = sc_size (cache_at s c);
  rm_parts : forall c, cache_ok c -> exists xs, sp_chain (next_of s') (sc_partial (cache_at s' c)) xs /\ NoDup xs /\
    forall j, j ∈ xs <-> j <> i /\ used s j /\ slot_cache s j = c;
  rm_mach : mach s' = set_pmm (heap_pmm s') (mach s);
  rm_pmm : buddy_inv (heap_pmm s') /\
    forall q o, live (heap_pmm s') q o <-> live (heap_pmm s) q o /\ q <> slot_pfn s i;
}.

Lemma slab_inv_remove F L s s' i : slab_inv F L s -> slab_removed s s' i ->
  (forall o, is_obj (sp_va (sp_at s i)) (slot_cache s i) o -> o ∈ F i) -> slab_inv F L s'.
Proof.
  intros Hi [(Hu & Hnu) Hsp Hla Hsz Hpt Hm (Hbi & Hlv)] Hall.
  assert (Hb : base s' = base s) by (unfold base; by rewrite Hm).
  assert (Hw : forall o, word s' o = word s o) by (intros o; unfold word; by rewrite Hb, Hm).
  assert (Hus : forall j, used s' j <-> used s j /\ j <> i).
  { intros j. destruct (decide (j = i)) as [->|Hj]; [naive_solver|].
    destruct (Hsp j Hj) as [n E]. unfold used. rewrite E. cbn. naive_solver. }
  assert (Hsame : forall j, j <> i -> slot_pfn s' j = slot_pfn s j /\ slot_cache s' j = slot_cache s j /\
                    sp_va (sp_at s' j) = sp_va (sp_at s j)).
  { intros j Hj. unfold slot_pfn, slot_cache. by destruct (Hsp j Hj) as [n ->]. }
  assert (Hlus : forall j, lused s' j <-> lused s j) by (intros j; unfold lused; by rewrite Hla).
  assert (Hlp : forall j, large_pfn s' j = large_pfn s j) by (intros j; unfold large_pfn; by rewrite Hla).
  split; rewrite ?Hb.
  - exact Hbi.
  - apply (si_base _ _ _ Hi).
  - intros c Hc. rewrite Hsz. by apply (si_sizes _ _ _ Hi).
  - intros j [Huj Hji]%Hus. destruct (si_slots _ _ _ Hi j Huj) as [Hr Hok]. split; [exact Hr|].
    destruct (Hsame j Hji) as (E1 & E2 & E3). destruct (Hsp j Hji) as [n E].
    assert (slot_pfn s j <> slot_pfn s i) as Hne by (intros Hp; by apply Hji, (si_slots_ne _ _ _ Hi)).
    destruct Hok. split; rewrite ?E1, ?E2, ?E3, ?E, ?Hb; cbn; try assumption.
    + apply Hlv. split; assumption.
    + eapply obj_chain_ext; [|eassumption]. intros o _. apply Hw.
  - intros j Huj%Hlus. destruct (si_larges _ _ _ Hi j Huj) as [Hr Hok]. split; [exact Hr|].
    eapply large_ok_frame; [exact Hok|apply Hla|exact Hb|]. apply Hlv. split; [apply (lo_live _ _ Hok)|].
    intros E. by apply (si_mixed_ne _ _ _ Hi i j).
  - intros c Hc. destruct (Hpt c Hc) as (xs & Hch & Hnd & Hxs). exists xs. split; [exact Hch|]. split; [exact Hnd|].
    intros j. rewrite Hxs, Hus. split.
    + intros (Hji & Huj & Hcj). destruct (Hsame j Hji) as (_ & -> & _). done.
    + intros ((Huj & Hji) & Hcj). destruct (Hsame j Hji) as (_ & E & _). rewrite E in Hcj. done.
  - intros j k [Huj Hj]%Hus [Huk Hk]%Hus. destruct (Hsame j Hj) as [-> _], (Hsame k Hk) as [-> _].
    by apply (si_slots_ne _ _ _ Hi).
  - intros j k Huj%Hlus Huk%Hlus. rewrite !Hlp. by apply (si_larges_ne _ _ _ Hi).
  - intros j k [Huj Hj]%Hus Huk%Hlus. rewrite Hlp. destruct (Hsame j Hj) as [-> _]. by apply (si_mixed_ne _ _ _ Hi).
  - intros o z. rewrite (si_live _ _ _ Hi). split.
    + intros [j Huj Hobj Hn ->|j Huj -> ->].
      * assert (j <> i) as Hji by (intros ->; by apply Hn, Hall). destruct (Hsame j Hji) as (_ & E2 & E3).
        eapply (LiveSmall _ _ _ _ j); [by apply Hus|by rewrite E2, E3|exact Hn|by rewrite E2].
      * eapply (LiveLarge _ _ _ _ j); [by apply Hlus|by rewrite Hla|by rewrite Hla].
    + intros [j [Huj Hji]%Hus Hobj Hn ->|j Huj%Hlus -> ->].
      * destruct (Hsame j Hji) as (_ & E2 & E3). rewrite E2, E3 in *. by eapply (LiveSmall _ _ _ _ j).
      * rewrite Hla. by eapply (LiveLarge _ _ _ _ j).
Qed.

(** The page allocator as the heap calls it to release a live block. *)
Lemma wp_heap_free p order (Q : unit -> slab -> Prop) s : buddy_inv (heap_pmm s) -> live (heap_pmm s) p order ->
  (forall pm, released (heap_pmm s) p order pm -> Q tt (set_mach (set_pmm pm (mach s)) s)) ->
  wp (on_mach (on_pmm (free_phys_pages (frame_addr p) order))) Q s.
Proof.
  intros Hi Hl HQ. destruct (live_page_ok _ _ _ Hi Hl) as (Hp & Ht & Ho).
  apply wp_on_mach, wp_on_pmm. apply wp_free_phys_pages; [exact Hi| |lia| |].
  - unfold is_u64, page_ok, frame_addr, PHYS_MEM_START in *. rewrite TOTAL_PAGES_eq, PAGE_SIZE_eq in *. lia.
  - intros pm _ Hrel _. rewrite pa_to_pfn_frame in Hrel by (unfold page_ok in Hp; lia). exact (HQ pm Hrel).
  - intros e Hn _ _. destruct Hn. by exists p.
Qed.

(** What a release may change: the metadata of the block in the page allocator. *)
Record heap_released (s s' : slab) : Prop := {
  hr_mach : mach s' = set_pmm (heap_pmm s') (mach s);
  hr_lock : slab_lock s' = slab_lock s;
}.

Lemma wp_slab_destroy_page F L i (Q : unit -> slab -> Prop) s :
  slab_inv F L s -> used s i -> (forall o, is_obj (sp_va (sp_at s i)) (slot_cache s i) o -> o ∈ F i) ->
  (forall s', slab_inv F L s' -> heap_released s s' ->
     released (heap_pmm s) (slot_pfn s i) (cache_order (slot_cache s i)) (heap_pmm s') ->
     same_slots s s' -> ~ used s' i -> Q tt s') ->
  wp (slab_destroy_page (Some i)) Q s.
Proof.
  intros Hi Hu Hall HQ. destruct (si_slots _ _ _ Hi i Hu) as [Hir Hok].
  destruct (so_cache _ _ _ Hok) as [Hc Hceq]. set (c := slot_cache s i) in *.
  destruct (si_parts _ _ _ Hi c Hc) as (xs & Hch & Hnd & Hxs).
  assert (Hix : i ∈ xs) by (apply Hxs; split; [exact Hu|reflexivity]).
  apply list_elem_of_split in Hix as (pre & post & Hsplit). subst xs.
  unfold slab_destroy_page. wp_step. apply wp_read_sp; [exact Hir|]. rewrite Hceq.
  wp_step. eapply wp_of_option; [reflexivity|]. wp_step.
  eapply (wp_slab_cache_del_page c i pre post); [exact Hc|exact Hch|exact Hnd| |].
  { intros j Hj. apply Hxs in Hj as [Hj _]. by apply (si_slots _ _ _ Hi). }
  intros s1 Hrk Hch1 Hnx1 Hca1. wp_step. apply wp_read_sp; [exact Hir|].
  destruct (rk_sp _ _ Hrk i) as [n Hn]. rewrite Hn. cbn [sp_set_next sp_pa sp_order].
  destruct (so_pa _ _ _ Hok) as [Hp ->]. destruct (so_geom _ _ _ Hok) as [-> _].
  assert (Hpm : heap_pmm s1 = heap_pmm s) by (unfold heap_pmm; by rewrite (rk_mach _ _ Hrk)).
  wp_step. apply wp_heap_free; rewrite ?Hpm; [apply (si_pmm _ _ _ Hi)|apply (so_live _ _ _ Hok)|].
  intros pm Hrel. unfold free_slab_page_meta. apply wp_write_sp; [exact Hir|].
  match goal with |- Q tt ?t => set (s2 := t) end.
  assert (Hm2 : mach s2 = set_pmm (heap_pmm s2) (mach s)) by (unfold s2; cbn; by rewrite (rk_mach _ _ Hrk)).
  assert (Hsp2 : forall j, sp_at s2 j = if decide (j = i) then slab_page_zero else sp_at s1 j).
  { intros j. unfold s2. by autorewrite with heap. }
  assert (Hnu2 : ~ used s2 i) by (unfold used; rewrite Hsp2, decide_True by reflexivity; done).
  apply HQ; [|split; [exact Hm2|apply (rk_lock _ _ Hrk)]|exact Hrel| |exact Hnu2].
  2:{ intros j Hj. assert (j <> i) as Hji by (by intros ->).
      unfold used, slot_cache in *. rewrite Hsp2, decide_False in * by exact Hji.
      destruct (rk_sp _ _ Hrk j) as [m Hm]. rewrite Hm in *. split; [exact Hj|reflexivity]. }
  apply (slab_inv_remove _ _ _ _ i Hi); [|exact Hall]. split.
  - split; [exact Hu|exact Hnu2].
  - intros j Hj. rewrite Hsp2, decide_False by exact Hj. apply (rk_sp _ _ Hrk).
  - intros j. unfold s2. autorewrite with heap. unfold la_at. by rewrite (rk_la _ _ Hrk).
  - intros d. unfold s2. autorewrite with heap. apply (rk_size _ _ Hrk).
  - intros d Hd. assert (Hnext : forall j, j <> i -> next_of s2 j = next_of s1 j).
    { intros j Hj. unfold next_of. by rewrite Hsp2, decide_False by exact Hj. }
    change (cache_at s2 d) with (cache_at s1 d). destruct (decide (d = c)) as [->|Hdc].
    + assert (Hni : i ∉ pre ++ post).
      { rewrite <- Permutation_middle in Hnd. by apply NoDup_cons in Hnd as [? _]. }
      exists (pre ++ post). split; [|split].
      * eapply sp_chain_ext; [|exact Hch1]. intros j Hj. apply Hnext. by intros ->.
      * apply NoDup_app in Hnd as (? & Hd1 & Hnd). apply NoDup_cons in Hnd as [? ?].
        apply NoDup_app. split; [assumption|]. split; [|assumption]. set_solver.
      * intros j. fold c in Hxs. rewrite <- Hxs. split.
        -- intros Hj. split; [by intros ->|]. rewrite elem_of_app, elem_of_cons. apply elem_of_app in Hj. tauto.
        -- rewrite !elem_of_app, elem_of_cons. tauto.
    + destruct (si_parts _ _ _ Hi d Hd) as (ys & Hcy & Hndy & Hys). exists ys. rewrite Hca1 by exact Hdc.
      split; [|split; [exact Hndy|]].
      * eapply sp_chain_ext; [|exact Hcy]. intros j Hj. apply Hys in Hj as [Hj Hcj].
        assert (j <> i) as Hji by (intros ->; by apply Hdc). rewrite Hnext by exact Hji.
        apply Hnx1. intros Hin. apply Hxs in Hin as [_ Hin]. congruence.
      * intros j. rewrite Hys. split; [|tauto]. intros [Hj Hcj]. split; [|tauto]. intros ->. by apply Hdc.
  - exact Hm2.
  - split; [apply (rl_inv _ _ _ _ Hrel)|]. apply (rl_live _ _ _ _ Hrel).
Qed.

(** ** Returning an object *)

(** What freeing the object at [va] changes: the first word of the object, and possibly the block
    that holds it goes back to the page allocator. *)
Record heap_freed (s s' : slab) (va : Z) : Prop := {
  hf_regs : mach s' = set_pmm (heap_pmm s') (set_ram (m_ram (mach s')) (mach s));
  hf_lock : slab_lock s' = slab_lock s;
  hf_ram : forall a, a <> va - base s -> ram_at (mach s') a = ram_at (mach s) a;
  hf_pmm : heap_pmm s' = heap_pmm s \/ exists p o, live (heap_pmm s) p o /\ released (heap_pmm s) p o (heap_pmm s') /\
             base s + frame_addr p <= va < base s + frame_addr (p + 2 ^ o);
}.

(** Some object of every slab in use is live. *)
Definition busy (F : Z -> list Z) (s : slab) : Prop :=
  forall i, used s i -> Z.of_nat (length (F i)) < cache_cap (slot_cache s i).

Lemma full_slot_objs F L s i o : slab_inv F L s -> used s i ->
  Z.of_nat (length (F i)) = cache_cap (slot_cache s i) -> is_obj (sp_va (sp_at s i)) (slot_cache s i) o -> o ∈ F i.
Proof.
  intros Hi Hu Hlen (k & Hk & ->). destruct (si_slots _ _ _ Hi i Hu) as [_ Hok].
  destruct (so_fl _ _ _ Hok) as [Hnd Hobj]. destruct (so_cache _ _ _ Hok) as [Hc _].
  set (all := all_objs (sp_va (sp_at s i)) (slot_cache s i) (length (F i))).
  assert (Hsub : F i ⊆+ all).
  { apply NoDup_submseteq; [exact Hnd|]. intros x Hx. apply all_objs_elem.
    destruct (Hobj x Hx) as (j & Hj & ->). exists j. split; [lia|reflexivity]. }
  assert (Hperm : F i ≡ₚ all).
  { apply submseteq_length_Permutation; [exact Hsub|]. unfold all. rewrite all_objs_length. lia. }
  rewrite Hperm. apply all_objs_elem. exists k. split; [lia|reflexivity].
Qed.

Lemma wp_slab_free_obj F L i va (Q : unit -> slab -> Prop) s :
  slab_inv F L s -> busy F s -> used s i -> is_obj (sp_va (sp_at s i)) (slot_cache s i) va -> va ∉ F i ->
  (forall F' s', slab_inv F' (delete va L) s' -> busy F' s' -> heap_freed s s' va -> Q tt s') ->
  wp (slab_free_obj va) Q s.
Proof.
  intros Hi Hbusy Hu Ho Hn HQ. destruct (si_slots _ _ _ Hi i Hu) as [Hir Hok].
  pose proof (so_chain _ _ _ Hok) as Hch. pose proof (so_inuse _ _ _ Hok) as Hin.
  destruct (so_fl _ _ _ Hok) as [Hnd Hobj]. pose proof (Hbusy i Hu) as Hlen.
  destruct (so_cache _ _ _ Hok) as [Hc _]. destruct (cache_geometry _ Hc) as (_ & _ & Hcap & _ & _).
  destruct (obj_phys _ _ _ _ _ Hi Hu Ho) as (a & Ha & Hram & _).
  destruct (si_base _ _ _ Hi) as (Hb0 & _ & _). pose proof (ram_ok_bounds a Hram) as (Ha0 & _ & _).
  unfold slab_free_obj. wp_step. eapply wp_slab_find_page_by_va; [exact Hi|exact Hu|exact Ho|].
  wp_step. apply wp_read_sp; [exact Hir|]. wp_step. apply wp_on_mach. rewrite Ha at 1.
  apply wp_st64_va; [apply (si_base _ _ _ Hi)|reflexivity|exact Hram|].
  rewrite (proj2 (Z.eqb_neq (sp_inuse (sp_at s i)) 0)) by lia.
  wp_step. apply wp_write_sp; [exact Hir|]. rewrite sp_at_mach || idtac.
  set (m1 := set_ram (<[a := sp_freelist (sp_at s i)]> (m_ram (mach s))) (mach s)).
  match goal with |- wp _ _ ?t => set (s1 := t) end.
  assert (Hw1 : forall o, word s1 o = if decide (o = va) then sp_freelist (sp_at s i) else word s o).
  { intros o. unfold word at 1. change (mach s1) with m1. change (base s1) with (base s). unfold m1.
    rewrite word_write by lia. rewrite <- Ha. reflexivity. }
  assert (Hi1 : slab_inv (upd F i (va :: F i)) (delete va L) s1).
  { apply (slab_inv_relist F L _ s i va (sp_inuse (sp_at s i) - 1) (va :: F i) m1);
      [exact Hi|exact Hu|reflexivity| | | | | |].
    - intros j o Hj Hji Hoj. fold s1. rewrite Hw1, decide_False; [reflexivity|]. intros ->. apply Hji.
      destruct (si_slots _ _ _ Hi j Hj) as [_ Hokj]. destruct (so_fl _ _ _ Hokj) as [_ Hobjj].
      apply (obj_slot_unique _ _ _ _ _ _ Hi Hj Hu (Hobjj _ Hoj) Ho).
    - fold s1. cbn [obj_chain]. split; [reflexivity|]. split; [lia|]. rewrite Hw1, decide_True by reflexivity.
      eapply obj_chain_ext; [|exact Hch]. intros o Hoi. rewrite Hw1, decide_False; [reflexivity|]. by intros ->.
    - by constructor.
    - intros o Hoo. apply elem_of_cons in Hoo as [->|Hoo]; [exact Ho|by apply Hobj].
    - cbn [length]. lia.
    - exact (live_give _ _ _ _ _ Hi Hu Ho Hn). }
  assert (Hsm1 : same_slots s s1) by exact (same_slots_free s m1 i _ _).
  assert (Hu1 : used s1 i).
  { unfold used, s1. rewrite sp_at_write, decide_True by reflexivity. exact Hu. }
  assert (Hram1 : forall b, b <> va - base s -> ram_at (mach s1) b = ram_at (mach s) b).
  { intros b Hb. change (mach s1) with m1. unfold ram_at, m1. cbn. rewrite lookup_insert_ne; [reflexivity|]. lia. }
  destruct (Z.eqb_spec (sp_inuse (sp_at s i) - 1) 0) as [E|E].
  - eapply wp_slab_destroy_page; [exact Hi1|exact Hu1| |].
    { intros o Hoo. eapply full_slot_objs; [exact Hi1|exact Hu1| |exact Hoo].
      rewrite upd_eq. cbn [length]. destruct (Hsm1 i Hu1) as [_ ->]. lia. }
    intros s2 Hi2 [Hm2 Hl2] Hrel Hsm2 Hnu2. eapply HQ; [exact Hi2| |].
    + intros j Hj. destruct (Hsm2 j Hj) as [Hj1 ->]. destruct (Hsm1 j Hj1) as [Hj0 ->].
      rewrite upd_ne by (by intros ->). by apply Hbusy.
    + split; [by rewrite Hm2|by rewrite Hl2| |].
      * intros b Hb. rewrite Hm2. exact (Hram1 b Hb).
      * right. change (heap_pmm s1) with (heap_pmm s) in Hrel.
        assert (Hpfn : slot_pfn s1 i = slot_pfn s i) by (unfold slot_pfn, s1; by rewrite sp_at_write, decide_True).
        destruct (Hsm1 i Hu1) as [_ Hc1]. rewrite Hpfn, Hc1 in Hrel.
        eexists _, _. split; [destruct (si_slots _ _ _ Hi i Hu) as [_ Hok0]; apply (so_live _ _ _ Hok0)|]. split; [exact Hrel|]. eapply slot_range; [exact Hi|exact Hu|exact Ho].
  - wp_step. eapply HQ; [exact Hi1| |split; [reflexivity|reflexivity|exact Hram1|by left]].
    intros j Hj. destruct (Hsm1 j Hj) as [Hj0 ->]. destruct (decide (j = i)) as [->|Hji].
    + rewrite upd_eq. cbn [length]. lia.
    + rewrite upd_ne by exact Hji. by apply Hbusy.
Qed.

(** ** Large allocations *)

Lemma wp_get_order_loop {S} pages (Q : Z -> S -> Prop) s : 1 <= pages <= 2 ^ 31 ->
  (forall o, 0 <= o <= 31 -> pages <= 2 ^ o -> (o = 0 \/ 2 ^ (o - 1) < pages) -> Q o s) ->
  wp (get_order_loop pages) Q s.
Proof.
  intros Hp HQ. unfold get_order_loop.
  apply (wp_loop (fun (st : Z * Z) s' => s' = s /\ 0 <= st.2 <= 31 /\ st.1 = 2 ^ st.2 /\
                    (st.2 = 0 \/ 2 ^ (st.2 - 1) < pages)) (fun st _ => Z.to_nat (31 - st.2))).
  - split; [reflexivity|]. cbn. split; [lia|]. split; [reflexivity|]. by left.
  - cbn. lia.
  - intros [n o] s' (-> & Ho & Hn & Hmin). cbn [fst snd] in *. subst n.
    destruct (Z.ltb_spec (2 ^ o) pages) as [Hlt|Hge]; wp_step; [|apply HQ; assumption || lia].
    assert (o < 31) by (destruct (decide (o = 31)) as [->|]; lia).
    cbn [fst snd]. rewrite (u32_small (o + 1)) by lia.
    assert (Hsh : shl64 (2 ^ o) 1 = 2 ^ (o + 1)).
    { unfold shl64. rewrite Z.shiftl_mul_pow2 by lia. rewrite <- Z.pow_add_r by lia. apply u64_small.
      pose proof (pow2_pos (o + 1) ltac:(lia)). pose proof (pow2_mono (o + 1) 32 ltac:(lia) ltac:(lia)). lia. }
    split; [|lia]. split; [reflexivity|]. split; [lia|]. split; [exact Hsh|]. right.
    by replace (o + 1 - 1) with o by lia.
Qed.

(** The smallest order whose block holds [size] bytes. *)
Definition fit_order (size o : Z) : Prop :=
  size <= PAGE_SIZE * 2 ^ o /\ (o = 0 \/ PAGE_SIZE * 2 ^ (o - 1) < size).

Lemma wp_get_order_ul {S} size (Q : Z -> S -> Prop) s : 0 < size <= SZ_4M ->
  (forall o, 0 <= o <= MAX_ORDER -> fit_order size o -> Q o s) ->
  wp (get_order_ul size) Q s.
Proof.
  intros Hs HQ. unfold SZ_4M in Hs. unfold get_order_ul. rewrite (proj2 (Z.eqb_neq size 0)) by lia.
  assert (E : shr64 (sub64 (add64 size PAGE_SIZE) 1) PAGE_SHIFT = (size + 4095) / 4096).
  { rewrite PAGE_SIZE_eq. rewrite add64_small by lia. rewrite sub64_small by lia. unfold shr64, PAGE_SHIFT.
    rewrite Z.shiftr_div_pow2 by lia. f_equal; lia. }
  rewrite E. apply wp_get_order_loop; [lia|]. rewrite PAGE_SIZE_eq in *.
  intros o Ho Hle Hmin. apply HQ; [|unfold fit_order; rewrite PAGE_SIZE_eq; split].
  - split; [lia|]. unfold MAX_ORDER. destruct (decide (o <= 10)); [assumption|exfalso].
    destruct Hmin as [->|Hmin]; [lia|]. pose proof (pow2_mono 10 (o - 1) ltac:(lia) ltac:(lia)). lia.
  - lia.
  - destruct Hmin as [->|Hmin]; [by left|right; lia].
Qed.

(** Slot [i] of the large allocations becomes a live block. *)
Record large_added (s s' : slab) (i : Z) : Prop := {
  ld_slot : 0 <= i < MAX_LARGE_ALLOCS /\ ~ lused s i /\ lused s' i /\ large_ok s' i;
  ld_fresh : forall o, ~ live (heap_pmm s) (large_pfn s' i) o;
  ld_sp : forall j, sp_at s' j = sp_at s j;
  ld_cache : forall c, cache_at s' c = cache_at s c;
  ld_la : forall j, j <> i -> la_at s' j = la_at s j;
}.

Lemma large_added_same s s' i : large_added s s' i ->
  (forall j, used s' j <-> used s j) /\
  (forall j, slot_pfn s' j = slot_pfn s j /\ slot_cache s' j = slot_cache s j) /\
  (forall j, j <> i -> (lused s' j <-> lused s j) /\ large_pfn s' j = large_pfn s j).
Proof.
  intros [_ _ Hsp _ Hla]. split; [|split].
  - intros j. unfold used. by rewrite Hsp.
  - intros j. unfold slot_pfn, slot_cache. by rewrite Hsp.
  - intros j Hj. unfold lused, large_pfn. by rewrite Hla.
Qed.

Lemma large_added_live F s s' i : large_added s s' i -> forall o z,
  live_obj s' F o z <-> live_obj s F o z \/ (o = la_va (la_at s' i) /\ z = PAGE_SIZE * 2 ^ la_order (la_at s' i)).
Proof.
  intros Had o z. destruct (large_added_same _ _ _ Had) as (Hus & Hpfn & Hlus).
  destruct Had as [(_ & Hnu & Hui & _) _ Hsp _ Hla]. split.
  - intros [j Huj Hobj Hn ->|j Huj -> ->].
    + left. apply Hus in Huj. destruct (Hpfn j) as [_ Hc]. rewrite Hsp, Hc in *. by eapply (LiveSmall _ _ _ _ j).
    + destruct (decide (j = i)) as [->|Hji]; [right; by split|left]. rewrite Hla by exact Hji.
      apply (Hlus j Hji) in Huj. by eapply (LiveLarge _ _ _ _ j).
  - intros [[j Huj Hobj Hn ->|j Huj -> ->]|[-> ->]].
    + destruct (Hpfn j) as [_ Hc]. eapply (LiveSmall _ _ _ _ j); [by apply Hus|by rewrite Hsp, Hc|exact Hn|by rewrite Hc].
    + assert (j <> i) as Hji by (by intros ->).
      eapply (LiveLarge _ _ _ _ j); [by apply (Hlus j Hji)|by rewrite Hla|by rewrite Hla].
    + by eapply (LiveLarge _ _ _ _ i).
Qed.

(** The new block is none of the blocks in use. *)
Lemma large_added_ne F L s s' i : slab_inv F L s -> large_added s s' i ->
  (forall j, lused s j -> large_pfn s j <> large_pfn s' i) /\ (forall j, used s j -> slot_pfn s j <> large_pfn s' i).
Proof.
  intros Hi [_ Hfr _ _ _]. split; intros j Hj E.
  - destruct (si_larges _ _ _ Hi j Hj) as [_ Hok]. eapply Hfr. rewrite <- E. apply (lo_live _ _ Hok).
  - destruct (si_slots _ _ _ Hi j Hj) as [_ Hok]. eapply Hfr. rewrite <- E. apply (so_live _ _ _ Hok).
Qed.

Lemma large_added_fresh F L s s' i : slab_inv F L s -> heap_step s s' -> large_added s s' i ->
  L !! la_va (la_at s' i) = None.
Proof.
  intros Hi Hst Had. destruct (large_added_ne _ _ _ _ _ Hi Had) as [Hne Hne'].
  destruct Had as [(_ & _ & _ & Hok) _ _ _ _]. pose proof (heap_step_base _ _ Hst) as Hb.
  pose proof (pmm_grew_inv _ _ (hs_pmm _ _ Hst) (si_pmm _ _ _ Hi)) as Hbi.
  destruct (L !! la_va (la_at s' i)) as [z|] eqn:E; [exfalso|reflexivity].
  rewrite (lo_va _ _ Hok), Hb in E. apply (si_live _ _ _ Hi) in E as [j Huj Hobj _ _|j Huj E _].
  - pose proof (slot_range _ _ _ _ _ Hi Huj Hobj) as Hrg. destruct (si_slots _ _ _ Hi j Huj) as [_ Hokj].
    rewrite frame_addr_add in Hrg. unfold frame_addr in Hrg. rewrite PAGE_SIZE_eq in Hrg.
    destruct (live_page_ok _ _ _ Hbi (lo_live _ _ Hok)) as (_ & _ & Ho').
    pose proof (pow2_pos (la_order (la_at s' i)) ltac:(lia)).
    pose proof (pmm_grew_live _ _ _ _ (hs_pmm _ _ Hst) (so_live _ _ _ Hokj)) as Hlj.
    destruct (live_disjoint _ _ _ _ _ Hbi Hlj (lo_live _ _ Hok) (Hne' j Huj)); lia.
  - destruct (si_larges _ _ _ Hi j Huj) as [_ Hokj]. rewrite (lo_va _ _ Hokj) in E. apply (Hne j Huj).
    unfold frame_addr in E. rewrite PAGE_SIZE_eq in E. lia.
Qed.

Lemma slab_inv_add_large F L s s' i : slab_inv F L s -> heap_step s s' -> large_added s s' i ->
  slab_inv F (<[la_va (la_at s' i) := PAGE_SIZE * 2 ^ la_order (la_at s' i)]> L) s'.
Proof.
  intros Hi Hst Had. destruct (large_added_same _ _ _ Had) as (Hus & Hpfn & Hlus).
  destruct (large_added_ne _ _ _ _ _ Hi Had) as [Hne Hne'].
  pose proof (large_added_live F _ _ _ Had) as Hlive. pose proof (large_added_fresh _ _ _ _ _ Hi Hst Had) as HLn.
  destruct Had as [(Hir & Hnu & Hui & Hok) _ Hsp Hca Hla]. pose proof (heap_step_base _ _ Hst) as Hb.
  assert (Hlv : forall p o, live (heap_pmm s) p o -> live (heap_pmm s') p o)
    by (intros p o; apply pmm_grew_live, (hs_pmm _ _ Hst)).
  split.
  - eapply pmm_grew_inv; [apply (hs_pmm _ _ Hst)|apply (si_pmm _ _ _ Hi)].
  - rewrite Hb. apply (si_base _ _ _ Hi).
  - intros c Hc. rewrite Hca. by apply (si_sizes _ _ _ Hi).
  - intros j Huj%Hus. destruct (si_slots _ _ _ Hi j Huj) as [Hr Hokj]. split; [exact Hr|].
    eapply slot_ok_frame; [exact Hokj|apply Hsp|exact Hb| |apply Hlv, (so_live _ _ _ Hokj)].
    intros o Ho. by eapply word_same.
  - intros j Huj. destruct (decide (j = i)) as [->|Hji]; [split; assumption|]. apply (Hlus j Hji) in Huj.
    destruct (si_larges _ _ _ Hi j Huj) as [Hr Hokj]. split; [exact Hr|].
    eapply large_ok_frame; [exact Hokj|by apply Hla|exact Hb|apply Hlv, (lo_live _ _ Hokj)].
  - intros c Hc. destruct (si_parts _ _ _ Hi c Hc) as (xs & Hch & Hnd & Hxs). exists xs. rewrite Hca.
    split; [|split; [exact Hnd|]].
    + eapply sp_chain_ext, Hch. intros j _. cbn beta. by rewrite Hsp.
    + intros j. rewrite Hxs, Hus. by destruct (Hpfn j) as [_ ->].
  - intros j k Huj%Hus Huk%Hus. destruct (Hpfn j) as [-> _], (Hpfn k) as [-> _]. by apply (si_slots_ne _ _ _ Hi).
  - intros j k Huj Huk E. destruct (decide (j = i)) as [->|Hji], (decide (k = i)) as [->|Hki]; [reflexivity| | |].
    + exfalso. apply (Hlus k Hki) in Huk as Huk'. apply (Hne k Huk'). destruct (Hlus k Hki) as [_ <-]. congruence.
    + exfalso. apply (Hlus j Hji) in Huj as Huj'. apply (Hne j Huj'). destruct (Hlus j Hji) as [_ <-]. congruence.
    + apply (Hlus j Hji) in Huj. apply (Hlus k Hki) in Huk. destruct (Hlus j Hji) as [_ E1], (Hlus k Hki) as [_ E2].
      apply (si_larges_ne _ _ _ Hi); congruence.
  - intros j k Huj%Hus Huk. destruct (Hpfn j) as [-> _]. destruct (decide (k = i)) as [->|Hki]; [by apply Hne'|].
    apply (Hlus k Hki) in Huk. destruct (Hlus k Hki) as [_ ->]. by apply (si_mixed_ne _ _ _ Hi).
  - intros o z. rewrite Hlive, lookup_insert. case_decide as E; [subst o|].
    + split; [intros [= <-]; right; by split|]. intros [Hl|[_ ->]]; [|reflexivity].
      apply (si_live _ _ _ Hi) in Hl. congruence.
    + rewrite (si_live _ _ _ Hi). split; [by left|]. intros [Hl|[E' _]]; [exact Hl|]. by destruct E.
Qed.

Lemma wp_large_alloc F L size flags (Q : Z -> slab -> Prop) s :
  slab_inv F L s -> 0 < size <= SZ_4M ->
  (forall va z s', L !! va = None -> va <> 0 -> slab_inv F (<[va := z]> L) s' -> heap_step s s' -> same_slots s s' ->
     size <= z -> va mod PAGE_SIZE = 0 ->
     (forall k, 0 <= k < z -> in_free (heap_pmm s) (va + k - base s)) ->
     (exists o, fit_order size o /\ ~ (no_larges s \/ no_pages s flags o) /\ free_pages (heap_pmm s') = free_pages (heap_pmm s) - 2 ^ o) -> Q va s') ->
  (forall s' o, slab_inv F L s' -> heap_step s s' -> same_slots s s' -> fit_order size o ->
     free_pages (heap_pmm s') = free_pages (heap_pmm s) -> no_larges s /\ no_larges s' \/ no_pages s flags o /\ no_pages s' flags o -> Q 0 s') ->
  wp (large_alloc size flags) Q s.
Proof.
  intros Hi Hs HS HN. unfold large_alloc. wp_step. apply wp_get_order_ul; [exact Hs|]. intros o Ho Hfit. destruct (Hfit) as [Hsz _].
  wp_step. apply wp_alloc_large_meta.
  2:{ intros Hall. wp_step. apply (HN s o); [exact Hi| |apply same_slots_at; reflexivity|exact Hfit|done|by left].
      split; [unfold heap_pmm; by destruct (mach s)|reflexivity|reflexivity|constructor]. }
  intros i Hir Hnu. set (s1 := set_larges (<[i := new_large]> (large_allocs s)) s).
  wp_step. apply wp_heap_alloc; [apply (si_pmm _ _ _ Hi)|exact Ho| |].
  2:{ intros e Hno. rewrite Z.eqb_refl. wp_step. apply wp_write_la; [exact Hir|]. wp_step.
      match goal with |- Q 0 ?t => set (s2 := t) end.
      assert (Hst : heap_step s s2) by (split; [reflexivity|reflexivity|reflexivity|apply GrewError]).
      assert (Hla : forall j, la_at s2 j = if decide (j = i) then large_zero else la_at s j).
      { intros j. unfold s2, s1. autorewrite with heap. by case_decide. }
      apply (HN s2 o); [|exact Hst|apply same_slots_at; reflexivity|exact Hfit|done|by right].
      eapply slab_inv_frame; [exact Hi|exact Hst|reflexivity|reflexivity|reflexivity| |].
      - intros j. unfold lused in *. rewrite Hla. case_decide as E; [subst j|reflexivity]. cbn. split; [done|]. intros E. by destruct Hnu.
      - intros j Hj. rewrite Hla, decide_False; [reflexivity|]. by intros ->. }
  intros p pm Hal. change (heap_pmm s1) with (heap_pmm s) in Hal.
  destruct (allocated_page _ _ _ _ _ (si_pmm _ _ _ Hi) (proj1 Ho) Hal) as (Hp & Ht & Hlv & Hfresh & Hfree).
  rewrite (proj2 (Z.eqb_neq (frame_addr p) 0)) by (by apply frame_addr_ne0).
  wp_step. apply wp_on_mach, wp_phys_to_virt. cbn [set_mach mach].
  change (slab_linear_map_base (set_pmm pm (mach s1))) with (base s).
  rewrite (add64_va _ _ (si_base _ _ _ Hi) Hp).
  wp_step. apply wp_read_la; [exact Hir|]. wp_step. apply wp_write_la; [exact Hir|]. wp_step.
  match goal with |- Q _ ?t => set (s2 := t) end.
  assert (Hla : forall j, la_at s2 j = if decide (j = i) then
    LargeMeta LARGE_MAGIC (base s + frame_addr p) (frame_addr p) size o true else la_at s j).
  { intros j. unfold s2, s1. autorewrite with heap. rewrite (decide_True _ _ (eq_refl i)). by case_decide. }
  assert (Hlai := Hla i). rewrite decide_True in Hlai by reflexivity.
  assert (Hst : heap_step s s2).
  { split; [unfold heap_pmm, s2; cbn; by destruct (mach s)|reflexivity|reflexivity|by eapply GrewBlock]. }
  assert (Hpfn : large_pfn s2 i = p).
  { unfold large_pfn. rewrite Hlai. apply pa_to_pfn_frame. unfold page_ok in Hp. lia. }
  assert (Had : large_added s s2 i).
  { split; [|rewrite Hpfn; exact Hfresh|reflexivity|reflexivity|].
    - split; [exact Hir|]. split; [exact Hnu|]. split; [unfold lused; by rewrite Hlai|].
      split; rewrite ?Hpfn, ?Hlai; cbn [la_magic la_pa la_va la_order]; [reflexivity|by split|reflexivity|exact Hlv].
    - intros j Hj. by rewrite Hla, decide_False. }
  pose proof (slab_inv_add_large _ _ _ _ _ Hi Hst Had) as Hi2.
  pose proof (large_added_fresh _ _ _ _ _ Hi Hst Had) as HLn. rewrite Hlai in Hi2, HLn. cbn [la_va la_order] in Hi2, HLn.
  destruct (si_base _ _ _ Hi) as (Hb0 & Hb1 & _).
  eapply HS; [exact HLn| |exact Hi2|exact Hst|apply same_slots_at; reflexivity|exact Hsz| | |].
  - unfold page_ok, frame_addr, PHYS_MEM_START in *. rewrite PAGE_SIZE_eq in *. lia.
  - unfold frame_addr, PHYS_MEM_START. rewrite PAGE_SIZE_eq in *. lia.
  - intros k Hk. apply Hfree. rewrite frame_addr_add. lia.
  - exists o. split; [exact Hfit|]. split; [|exact (al_count _ _ _ _ _ Hal)]. intros [Hall|Hno]; [by apply Hnu, Hall|by apply (al_found _ _ _ _ _ Hal)].
Qed.

Lemma slab_inv_remove_large F L s s' i : slab_inv F L s -> lused s i ->
  (forall j, sp_at s' j = sp_at s j) -> (forall c, cache_at s' c = cache_at s c) ->
  (forall j, la_at s' j = if decide (j = i) then large_zero else la_at s j) ->
  mach s' = set_pmm (heap_pmm s') (mach s) -> buddy_inv (heap_pmm s') ->
  (forall q o, live (heap_pmm s') q o <-> live (heap_pmm s) q o /\ q <> large_pfn s i) ->
  slab_inv F (delete (la_va (la_at s i)) L) s'.
Proof.
  intros Hi Hu Hsp Hca Hla Hm Hbi Hlv.
  assert (Hb : base s' = base s) by (unfold base; by rewrite Hm).
  assert (Hus : forall j, used s' j <-> used s j) by (intros j; unfold used; by rewrite Hsp).
  assert (Hpfn : forall j, slot_pfn s' j = slot_pfn s j /\ slot_cache s' j = slot_cache s j)
    by (intros j; unfold slot_pfn, slot_cache; by rewrite Hsp).
  assert (Hlus : forall j, lused s' j <-> lused s j /\ j <> i).
  { intros j. unfold lused. rewrite Hla. case_decide; subst; cbn; naive_solver. }
  assert (Hla' : forall j, j <> i -> la_at s' j = la_at s j) by (intros j Hj; by rewrite Hla, decide_False).
  assert (Hlp : forall j, j <> i -> large_pfn s' j = large_pfn s j) by (intros j Hj; unfold large_pfn; by rewrite Hla').
  split; rewrite ?Hb.
  - exact Hbi.
  - apply (si_base _ _ _ Hi).
  - intros c Hc. rewrite Hca. by apply (si_sizes _ _ _ Hi).
  - intros j Huj%Hus. destruct (si_slots _ _ _ Hi j Huj) as [Hr Hok]. split; [exact Hr|].
    eapply slot_ok_frame; [exact Hok|apply Hsp|exact Hb| |].
    + intros o _. unfold word. by rewrite Hb, Hm.
    + apply Hlv. split; [apply (so_live _ _ _ Hok)|]. by apply (si_mixed_ne _ _ _ Hi).
  - intros j [Huj Hji]%Hlus. destruct (si_larges _ _ _ Hi j Huj) as [Hr Hok]. split; [exact Hr|].
    eapply large_ok_frame; [exact Hok|by apply Hla'|exact Hb|]. apply Hlv. split; [apply (lo_live _ _ Hok)|].
    intros E. by apply Hji, (si_larges_ne _ _ _ Hi).
  - intros c Hc. destruct (si_parts _ _ _ Hi c Hc) as (xs & Hch & Hnd & Hxs). exists xs. rewrite Hca.
    split; [|split; [exact Hnd|]].
    + eapply sp_chain_ext, Hch. intros j _. cbn beta. by rewrite Hsp.
    + intros j. rewrite Hxs, Hus. by destruct (Hpfn j) as [_ ->].
  - intros j k Huj%Hus Huk%Hus. destruct (Hpfn j) as [-> _], (Hpfn k) as [-> _]. by apply (si_slots_ne _ _ _ Hi).
  - intros j k [Huj Hj]%Hlus [Huk Hk]%Hlus. rewrite (Hlp j Hj), (Hlp k Hk). by apply (si_larges_ne _ _ _ Hi).
  - intros j k Huj%Hus [Huk Hk]%Hlus. destruct (Hpfn j) as [-> _]. rewrite (Hlp k Hk). by apply (si_mixed_ne _ _ _ Hi).
  - destruct (si_larges _ _ _ Hi i Hu) as [_ Hok].
    assert (Hvane : forall j, lused s j -> j <> i -> la_va (la_at s j) <> la_va (la_at s i)).
    { intros j Hj Hji E. destruct (si_larges _ _ _ Hi j Hj) as [_ Hokj]. rewrite (lo_va _ _ Hok), (lo_va _ _ Hokj) in E.
      apply Hji, (si_larges_ne _ _ _ Hi j i Hj Hu). unfold frame_addr in E. rewrite PAGE_SIZE_eq in E. lia. }
    intros o z. rewrite lookup_delete_Some, (si_live _ _ _ Hi). split.
    + intros [Hne [j Huj Hobj Hn ->|j Huj -> ->]].
      * destruct (Hpfn j) as [_ Hc]. eapply (LiveSmall _ _ _ _ j); [by apply Hus|by rewrite Hsp, Hc|exact Hn|by rewrite Hc].
      * assert (j <> i) as Hji by (by intros ->).
        eapply (LiveLarge _ _ _ _ j); [by apply Hlus|by rewrite Hla'|by rewrite Hla'].
    + intros [j Huj%Hus Hobj Hn ->|j [Huj Hji]%Hlus -> ->].
      * destruct (Hpfn j) as [_ Hc]. rewrite Hsp, Hc in *. split; [|by eapply (LiveSmall _ _ _ _ j)].
        intros E. apply (obj_not_large _ _ _ j i Hi Huj Hu). by rewrite E.
      * rewrite (Hla' j Hji). split; [|by eapply (LiveLarge _ _ _ _ j)]. intros E. by apply (Hvane j Huj Hji).
Qed.

Lemma wp_large_free F L i (Q : unit -> slab -> Prop) s :
  slab_inv F L s -> lused s i ->
  (forall s', slab_inv F (delete (la_va (la_at s i)) L) s' -> same_slots s s' ->
     heap_freed s s' (la_va (la_at s i)) -> Q tt s') ->
  wp (large_free (Some i)) Q s.
Proof.
  intros Hi Hu HQ. destruct (si_larges _ _ _ Hi i Hu) as [Hir Hok].
  unfold large_free. wp_step. apply wp_read_la; [exact Hir|]. destruct (lo_pa _ _ Hok) as [Hp ->].
  wp_step. apply wp_heap_free; [apply (si_pmm _ _ _ Hi)|apply (lo_live _ _ Hok)|]. intros pm Hrel.
  unfold free_large_meta. apply wp_write_la; [exact Hir|].
  match goal with |- Q tt ?t => set (s2 := t) end.
  assert (Hm2 : mach s2 = set_pmm (heap_pmm s2) (mach s)) by reflexivity.
  apply HQ; [|apply same_slots_at; reflexivity|].
  - apply (slab_inv_remove_large F L s s2 i Hi Hu); [reflexivity|reflexivity| |exact Hm2| |].
    + intros j. unfold s2. by autorewrite with heap.
    + apply (rl_inv _ _ _ _ Hrel).
    + apply (rl_live _ _ _ _ Hrel).
  - split; [unfold s2; cbn; by destruct (mach s)|reflexivity|reflexivity|]. right. exists (large_pfn s i), (la_order (la_at s i)).
    split; [apply (lo_live _ _ Hok)|]. split; [exact Hrel|]. rewrite (lo_va _ _ Hok), frame_addr_add, PAGE_SIZE_eq.
    destruct (live_page_ok _ _ _ (si_pmm _ _ _ Hi) (lo_live _ _ Hok)) as (_ & _ & Ho).
    pose proof (pow2_pos (la_order (la_at s i)) ltac:(lia)). lia.
Qed.
