(* ===== verification/SlabProps.v ===== *)
(** What the kernel heap promises ([kernel/slab.c]): [kmalloc], [kfree] and [slab_init] against a map
    [L] from the addresses of the live objects to their sizes. *)
From S2P Require Import Prelude ListHead Pmm PmmTheory PmmOps PmmInit PmmProps Sync Machine MmuTheory MmuProps Slab SlabTheory SlabOps SlabFree.

(** The heap between two calls: [L] are the live objects. *)
Definition heap_ok (L : gmap Z Z) (s : slab) : Prop :=
  exists F, slab_inv F L s /\ busy F s /\ lock_free (slab_lock s).

(** ** Live objects *)

(** The block a live object lies in. *)
Lemma live_obj_block F L s o z : slab_inv F L s -> L !! o = Some z ->
  0 < z /\ exists p h, live (heap_pmm s) p h /\ base s + frame_addr p <= o /\ o + z <= base s + frame_addr (p + 2 ^ h).
Proof.
  intros Hi Ho. apply (si_live _ _ _ Hi) in Ho as [i Hu (k & Hk & ->) _ ->|i Hu -> ->].
  - destruct (si_slots _ _ _ Hi i Hu) as [_ Hok]. destruct (so_cache _ _ _ Hok) as [Hc _].
    destruct (cache_geometry _ Hc) as (Hs & _ & _ & _ & Hg). split; [exact Hs|].
    exists (slot_pfn s i), (cache_order (slot_cache s i)). split; [apply (so_live _ _ _ Hok)|].
    rewrite (so_va _ _ _ Hok), frame_addr_add, <- Hg. split; nia.
  - destruct (si_larges _ _ _ Hi i Hu) as [_ Hok].
    destruct (live_page_ok _ _ _ (si_pmm _ _ _ Hi) (lo_live _ _ Hok)) as (_ & _ & Ho).
    pose proof (pow2_pos (la_order (la_at s i)) ltac:(lia)). rewrite PAGE_SIZE_eq. split; [lia|].
    exists (large_pfn s i), (la_order (la_at s i)). split; [apply (lo_live _ _ Hok)|].
    rewrite (lo_va _ _ Hok), frame_addr_add, PAGE_SIZE_eq. lia.
Qed.

(** The bytes of a live object are not free pages. *)
Lemma live_obj_not_free F L s o z k : slab_inv F L s -> L !! o = Some z -> 0 <= k < z ->
  ~ in_free (heap_pmm s) (o + k - base s).
Proof.
  intros Hi Ho Hk. destruct (live_obj_block _ _ _ _ _ Hi Ho) as (_ & p & h & Hl & H1 & H2).
  eapply live_not_free; [apply (si_pmm _ _ _ Hi)|exact Hl|]. lia.
Qed.

Lemma block_ends s p h q h' : buddy_inv s -> live s p h -> live s q h' -> p <> q ->
  frame_addr (p + 2 ^ h) <= frame_addr q \/ frame_addr (q + 2 ^ h') <= frame_addr p.
Proof.
  intros Hi Hp Hq Hne. unfold frame_addr. rewrite PAGE_SIZE_eq. destruct (live_disjoint _ _ _ _ _ Hi Hp Hq Hne); lia.
Qed.

(** The index of an object of a slab; two objects of one slab are apart. *)
Lemma same_slot_disjoint va c o o' : 0 < cache_size c -> is_obj va c o -> is_obj va c o' -> o <> o' ->
  o + cache_size c <= o' \/ o' + cache_size c <= o.
Proof.
  intros Hs (k & Hk & ->) (k' & Hk' & ->) Hne. destruct (Z.lt_total k k') as [|[->|]]; [left|done|right]; nia.
Qed.

Lemma live_objs_disjoint F L s o z o' z' : slab_inv F L s -> L !! o = Some z -> L !! o' = Some z' -> o <> o' ->
  o + z <= o' \/ o' + z' <= o.
Proof.
  intros Hi Ho Ho' Hne. pose proof Ho as Ha. pose proof Ho' as Hb.
  assert (Hblk : forall p h q h', live (heap_pmm s) p h -> live (heap_pmm s) q h' -> p <> q ->
    base s + frame_addr p <= o -> o + z <= base s + frame_addr (p + 2 ^ h) ->
    base s + frame_addr q <= o' -> o' + z' <= base s + frame_addr (q + 2 ^ h') -> o + z <= o' \/ o' + z' <= o).
  { intros p h q h' Hp Hq Hpq ? ? ? ?. destruct (block_ends _ _ _ _ _ (si_pmm _ _ _ Hi) Hp Hq Hpq); lia. }
  destruct (live_obj_block _ _ _ _ _ Hi Ho) as (Hz & p & h & Hl & H1 & H2).
  destruct (live_obj_block _ _ _ _ _ Hi Ho') as (Hz' & q & h' & Hl' & H1' & H2').
  destruct (decide (p = q)) as [->|Hpq]; [|by eapply (Hblk p h q h')].
  assert (h' = h) as -> by (unfold live in Hl, Hl'; congruence).
  (* both lie in the block of one slab, or they are the same large object *)
  assert (Hslot : forall i x y, used s i -> is_obj (sp_va (sp_at s i)) (slot_cache s i) x ->
    base s + frame_addr q <= x -> x + y <= base s + frame_addr (q + 2 ^ h) -> 0 < y -> slot_pfn s i = q).
  { intros i x y Hu Hx Hlo Hhi Hy. destruct (decide (slot_pfn s i = q)) as [E|E]; [exact E|exfalso].
    pose proof (slot_range _ _ _ _ _ Hi Hu Hx) as Hr. destruct (si_slots _ _ _ Hi i Hu) as [_ Hok].
    destruct (block_ends _ _ _ _ _ (si_pmm _ _ _ Hi) (so_live _ _ _ Hok) Hl E); lia. }
  assert (Hlarge : forall i, lused s i -> base s + frame_addr q <= la_va (la_at s i) ->
    la_va (la_at s i) + 1 <= base s + frame_addr (q + 2 ^ h) -> large_pfn s i = q).
  { intros i Hu Hlo Hhi. destruct (decide (large_pfn s i = q)) as [E|E]; [exact E|exfalso].
    destruct (si_larges _ _ _ Hi i Hu) as [_ Hok]. rewrite (lo_va _ _ Hok) in *.
    destruct (live_page_ok _ _ _ (si_pmm _ _ _ Hi) (lo_live _ _ Hok)) as (_ & _ & Hor).
    pose proof (pow2_pos (la_order (la_at s i)) ltac:(lia)).
    destruct (block_ends _ _ _ _ _ (si_pmm _ _ _ Hi) (lo_live _ _ Hok) Hl E) as [Hx|Hx];
      unfold frame_addr in *; rewrite PAGE_SIZE_eq in *; lia. }
  apply (si_live _ _ _ Hi) in Ha as [i Hu Hobj _ ->|i Hu -> ->];
    apply (si_live _ _ _ Hi) in Hb as [j Hv Hobj' _ ->|j Hv -> ->].
  - assert (i = j) as <-.
    { apply (si_slots_ne _ _ _ Hi); [exact Hu|exact Hv|].
      rewrite (Hslot i _ _ Hu Hobj H1 H2 Hz). symmetry. exact (Hslot j _ _ Hv Hobj' H1' H2' Hz'). }
    apply (same_slot_disjoint (sp_va (sp_at s i))); assumption.
  - exfalso. apply (si_mixed_ne _ _ _ Hi i j Hu Hv). rewrite (Hslot i _ _ Hu Hobj H1 H2 Hz).
    symmetry. apply Hlarge; [exact Hv|exact H1'|lia].
  - exfalso. apply (si_mixed_ne _ _ _ Hi j i Hv Hu). rewrite (Hslot j _ _ Hv Hobj' H1' H2' Hz').
    symmetry. apply Hlarge; [exact Hu|exact H1|lia].
  - exfalso. apply Hne. f_equal. f_equal. apply (si_larges_ne _ _ _ Hi); [exact Hu|exact Hv|].
    rewrite (Hlarge i Hu); [|lia|lia]. rewrite (Hlarge j Hv); [reflexivity|lia|lia].
Qed.

(** ** Allocation *)

(** The smallest cache for a size. *)
Definition fit_cache (size c : Z) : Prop :=
  cache_ok c /\ size <= cache_size c /\ (c = 0 \/ cache_size (c - 1) < size).

Lemma wp_find_slab_cache F L size (Q : option Z -> slab -> Prop) s : slab_inv F L s -> 0 < size <= SZ_8K ->
  (forall c, fit_cache size c -> Q (Some c) s) -> wp (find_slab_cache size) Q s.
Proof.
  intros Hi Hs HQ. unfold find_slab_cache.
  apply (wp_find_n (fun k s' => s' = s /\ (k = 0 \/ cache_size (k - 1) < size))); [split; [reflexivity|by left]| |].
  2:{ intros s' [_ [Hk|Hk]]; [discriminate Hk|]. exfalso. unfold SZ_8K in Hs.
      change (cache_size _) with 8192 in Hk. lia. }
  intros k s' Hk [-> Hmin]. assert (Hc : cache_ok k) by (unfold cache_ok, SLAB_CACHE_COUNT in *; lia).
  wp_step. apply wp_read_cache; [exact Hc|]. rewrite (si_sizes _ _ _ Hi k Hc). wp_step.
  destruct (Z.leb_spec size (cache_size k)).
  - apply HQ. split; [exact Hc|]. split; assumption.
  - split; [reflexivity|]. right. by replace (k + 1 - 1) with k by lia.
Qed.

Lemma fit_cache_order size c : 0 < size -> fit_cache size c -> fit_order size (cache_order c).
Proof.
  intros Hs (Hc & Hle & Hmin). unfold fit_order. rewrite PAGE_SIZE_eq. unfold cache_order, cache_size in *.
  pose proof (cache_cases c Hc) as Hcc. destruct_or! Hcc; subst c; cbn in *; lia.
Qed.

Lemma heap_step_trans s s1 s2 : heap_step s s1 -> mach s2 = mach s1 -> slab_lock s2 = slab_lock s1 -> heap_step s s2.
Proof. intros [H1 H2 H3 H4] Hm Hl. split; unfold heap_pmm in *; rewrite ?Hm, ?Hl; assumption. Qed.

Lemma heap_step_refl s : heap_step s s.
Proof. split; [unfold heap_pmm; by destruct (mach s)|reflexivity|reflexivity|constructor]. Qed.

(** Where a new object [r] lies: in memory that was free, or in a block that holds a live object. *)
Definition home (L : gmap Z Z) (s : slab) (r : Z) : Prop :=
  in_free (heap_pmm s) (r - base s) \/
  exists p h o z, live (heap_pmm s) p h /\ L !! o = Some z /\
    base s + frame_addr p <= o < base s + frame_addr (p + 2 ^ h) /\ base s + frame_addr p <= r < base s + frame_addr (p + 2 ^ h).

(** A slab that is not full of free objects holds a live one. *)
Lemma slot_has_live F L s i : slab_inv F L s -> used s i -> Z.of_nat (length (F i)) < cache_cap (slot_cache s i) ->
  exists o, is_obj (sp_va (sp_at s i)) (slot_cache s i) o /\ L !! o = Some (cache_size (slot_cache s i)).
Proof.
  intros Hi Hu Hlen. destruct (si_slots _ _ _ Hi i Hu) as [_ Hok]. destruct (so_cache _ _ _ Hok) as [Hc _].
  set (all := all_objs (sp_va (sp_at s i)) (slot_cache s i) (Z.to_nat (cache_cap (slot_cache s i)))).
  destruct (Exists_dec (fun o => o ∉ F i) all) as [(o & Ho & Hn)%Exists_exists|Hall].
  - apply all_objs_elem in Ho as (k & Hk & ->). exists (sp_va (sp_at s i) + k * cache_size (slot_cache s i)).
    assert (Hobj : is_obj (sp_va (sp_at s i)) (slot_cache s i) (sp_va (sp_at s i) + k * cache_size (slot_cache s i))).
    { exists k. split; [lia|reflexivity]. }
    split; [exact Hobj|]. apply (si_live _ _ _ Hi). by eapply (LiveSmall _ _ _ _ i).
  - exfalso. assert (Hsub : all ⊆+ F i).
    { apply NoDup_submseteq; [by apply all_objs_nodup|]. intros o Ho. destruct (decide (o ∈ F i)) as [|Hn]; [done|].
      exfalso. apply Hall, Exists_exists. by exists o. }
    apply submseteq_length in Hsub. unfold all in Hsub. rewrite all_objs_length in Hsub. lia.
Qed.

Lemma slot_home F L s i r : slab_inv F L s -> used s i -> Z.of_nat (length (F i)) < cache_cap (slot_cache s i) ->
  is_obj (sp_va (sp_at s i)) (slot_cache s i) r -> home L s r.
Proof.
  intros Hi Hu Hlen Hr. destruct (slot_has_live _ _ _ _ Hi Hu Hlen) as (o & Ho & HL). right.
  destruct (si_slots _ _ _ Hi i Hu) as [_ Hok]. eexists _, _, o, _. split; [apply (so_live _ _ _ Hok)|]. split; [exact HL|].
  split; by eapply slot_range.
Qed.

(** Why an allocation of [size] bytes fails.  A small one needs an object: no slab of the smallest cache that fits has
    one left, and there is no slot or no block for another slab.  A large one needs a descriptor and a block. *)
Inductive exhausted (s : slab) (flags size : Z) : Prop :=
| NoSmall c : size <= SZ_8K -> fit_cache size c -> (forall i, used s i -> slot_cache s i = c -> sp_freelist (sp_at s i) = 0) ->
    no_slots s \/ no_pages s flags (cache_order c) -> exhausted s flags size
| NoLarge o : SZ_8K < size -> fit_order size o -> no_larges s \/ no_pages s flags o -> exhausted s flags size.

Lemma fit_cache_unique size c d : fit_cache size c -> fit_cache size d -> c = d.
Proof.
  assert (forall c d, fit_cache size c -> fit_cache size d -> c <= d) as Hle; [|intros Hc Hd; pose proof (Hle c d Hc Hd); pose proof (Hle d c Hd Hc); lia].
  intros c' d' (Hc & _ & Hmin) (Hd & Hs & _). destruct (decide (c' <= d')) as [|Hgt]; [done|exfalso]. destruct Hmin as [->|Hmin]; [unfold cache_ok in *; lia|].
  unfold cache_size, cache_ok in *. pose proof (pow2_mono (d' + 3) (c' - 1 + 3) ltac:(lia) ltac:(lia)). lia.
Qed.

Lemma fit_order_unique size o p : 0 < size -> fit_order size o -> fit_order size p -> o = p.
Proof.
  intros H0. assert (forall o p, fit_order size o -> fit_order size p -> o <= p) as Hle; [|intros; apply Z.le_antisymm; by apply Hle].
  intros a b [_ Hmin] [Hs _]. assert (0 <= b) by (destruct (decide (0 <= b)); [done|rewrite Z.pow_neg_r in Hs by lia; lia]). destruct (decide (a <= b)) as [|Hgt]; [done|exfalso]. destruct Hmin as [->|Hmin]; [lia|].
  rewrite PAGE_SIZE_eq in *. pose proof (pow2_mono b (a - 1) ltac:(lia) ltac:(lia)). lia.
Qed.

Lemma fit_order_ge size o : 0 < size -> fit_order size o -> 0 <= o /\ 0 < 2 ^ o.
Proof.
  intros H0 [Hs _]. assert (0 <= o) by (destruct (decide (0 <= o)); [done|rewrite Z.pow_neg_r in Hs by lia; lia]). split; [done|by apply pow2_pos].
Qed.

(** The outcome of an allocation: an object of [z] bytes that was not live, or the heap is exhausted. *)
Inductive alloc_post (F : Z -> list Z) (L : gmap Z Z) (flags size : Z) (s : slab) (r : Z) (s' : slab) : Prop :=
| AllocFail : r = 0 -> slab_inv F L s' -> busy F s' -> heap_step s s' -> exhausted s flags size -> exhausted s' flags size ->
    free_pages (heap_pmm s') = free_pages (heap_pmm s) ->
    alloc_post F L flags size s r s'
| AllocOk F' z : ~ exhausted s flags size ->
    (forall o, fit_order size o -> free_pages (heap_pmm s) - 2 ^ o <= free_pages (heap_pmm s') <= free_pages (heap_pmm s)) -> r <> 0 -> size <= z -> r mod 8 = 0 -> L !! r = None -> home L s r ->
    slab_inv F' (<[r := z]> L) s' -> busy F' s' -> heap_step s s' -> alloc_post F L flags size s r s'.

Lemma busy_same F s s' : busy F s -> same_slots s s' -> busy F s'.
Proof. intros Hb Hs i Hu. destruct (Hs i Hu) as [Hu' ->]. by apply Hb. Qed.

Lemma obj_aligned F L s i o : slab_inv F L s -> used s i -> is_obj (sp_va (sp_at s i)) (slot_cache s i) o -> o mod 8 = 0.
Proof.
  intros Hi Hu (k & _ & ->). destruct (si_slots _ _ _ Hi i Hu) as [_ Hok]. destruct (so_cache _ _ _ Hok) as [Hc _].
  destruct (cache_geometry _ Hc) as (_ & H8 & _ & _ & _). apply Z.mod_divide in H8 as [q Hq]; [|lia].
  destruct (si_base _ _ _ Hi) as (_ & Hb & _). rewrite (so_va _ _ _ Hok), Hq. unfold frame_addr, PHYS_MEM_START.
  rewrite PAGE_SIZE_eq. replace (k * (q * 8)) with (k * q * 8) by lia. lia.
Qed.

Lemma wp_pop_post F L c flags size i s s1 : 0 < size -> fit_cache size c -> ~ exhausted s flags size ->
  free_pages (heap_pmm s) - 2 ^ cache_order c <= free_pages (heap_pmm s1) <= free_pages (heap_pmm s) ->
  slab_inv F L s1 -> heap_step s s1 -> used s1 i -> slot_cache s1 i = c -> F i <> [] ->
  (forall j, j <> i -> used s1 j -> Z.of_nat (length (F j)) < cache_cap (slot_cache s1 j)) ->
  Z.of_nat (length (F i)) <= cache_cap c ->
  (forall x, is_obj (sp_va (sp_at s1 i)) c x -> home L s x) ->
  wp (pop_object i) (fun r s' => alloc_post F L flags size s r s') s1.
Proof.
  intros Hs Hfit Hex Hcost Hi Hst Hu Hci Hne Hb Hlen Hhome. pose proof Hfit as (Hc & Hle & _). destruct (F i) as [|o fl] eqn:HF; [done|].
  eapply wp_pop_object; [exact Hi|exact Hu|exact HF|]. intros s2 Hi2 HLo Ho0 Hm Hl Hsm. rewrite Hci in Hi2.
  destruct (si_slots _ _ _ Hi i Hu) as [_ Hok]. destruct (so_fl _ _ _ Hok) as [_ Hobj].
  eapply AllocOk; [exact Hex| |exact Ho0|exact Hle| |exact HLo| |exact Hi2| |by eapply heap_step_trans].
  - intros o' Ho'. rewrite (fit_order_unique size o' (cache_order c)); [|done|done|by apply fit_cache_order]. unfold heap_pmm. by rewrite Hm.
  - eapply obj_aligned; [exact Hi|exact Hu|]. apply Hobj. rewrite HF. apply elem_of_cons. by left.
  - apply Hhome. rewrite <- Hci. apply Hobj. rewrite HF. apply elem_of_cons. by left.
  - intros j Hj. destruct (Hsm j Hj) as [Hj1 ->]. destruct (decide (j = i)) as [->|Hji].
    + rewrite upd_eq, Hci. cbn [length] in Hlen. lia.
    + rewrite upd_ne by exact Hji. by apply Hb.
Qed.

Lemma wp_slab_alloc F L c flags size s : slab_inv F L s -> busy F s -> 0 < size <= SZ_8K -> fit_cache size c ->
  wp (slab_alloc c flags) (fun r s' => exists F', alloc_post F' L flags size s r s') s.
Proof.
  intros Hi Hb Hs Hfit. destruct (Hfit) as (Hc & _). unfold slab_alloc.
  destruct (si_parts _ _ _ Hi c Hc) as (xs & Hch & Hnd & Hxs).
  wp_step. eapply wp_find_partial; [exact Hc|exact Hch|exact Hnd| | |].
  - intros j Hj. apply Hxs in Hj as [Hj _]. by apply (si_slots _ _ _ Hi).
  - intros i Hix Hfl. apply Hxs in Hix as [Hu Hci]. wp_step. wp_step.
    assert (HF : F i <> []).
    { intros E. destruct (si_slots _ _ _ Hi i Hu) as [_ Hok]. pose proof (so_chain _ _ _ Hok) as Hk. rewrite E in Hk. by apply Hfl. }
    eapply wp_mono; [eapply (wp_pop_post F L c flags size i s s); [apply Hs|exact Hfit| | |exact Hi|apply heap_step_refl|exact Hu|exact Hci|exact HF| | |]|].
    + intros [d _ Hd Hfull _|]; [|lia]. rewrite (fit_cache_unique _ _ _ Hfit Hd) in Hci. by apply Hfl, Hfull.
    + pose proof (proj1 (proj2 (proj2 (proj2 (cache_geometry c Hc))))) as Hord. pose proof (pow2_pos (cache_order c)). lia.
    + intros j _ Hj. by apply Hb.
    + pose proof (Hb i Hu). rewrite Hci in *. lia.
    + intros x Hx. eapply (slot_home F L s i); [exact Hi|exact Hu|by apply Hb|by rewrite Hci].
    + intros r s' Hp. by exists F.
  - intros Hnone. wp_step. eapply wp_slab_grow; [exact Hi|exact Hc| |].
    + intros i o fl s1 Hi1 Hst Hu Hci Hsp Hlen Hfree Hroom Hcost.
      eapply wp_mono; [eapply (wp_pop_post (upd F i (o :: fl)) L c flags size i s s1); [apply Hs|exact Hfit| | |exact Hi1|exact Hst|exact Hu|exact Hci| | | |]|].
      * intros [d _ Hd _ Hno|]; [|lia]. by rewrite (fit_cache_unique _ _ _ Hfit Hd) in Hroom.
      * pose proof (proj1 (proj2 (proj2 (proj2 (cache_geometry c Hc))))) as Hord. pose proof (pow2_pos (cache_order c)). lia.
      * by rewrite upd_eq.
      * intros j Hji Hj. rewrite upd_ne by exact Hji. unfold used, slot_cache in *. rewrite Hsp in * by exact Hji. by apply Hb.
      * rewrite upd_eq. cbn [length]. lia.
      * intros x Hx. left. by apply Hfree.
      * intros r s' Hp. by eexists.
    + intros s1 Hi1 Hst Hsm Hsame Hkeep Hcount Hex. wp_step. exists F.
      eapply AllocFail; [reflexivity|exact Hi1|by eapply busy_same|exact Hst| | |exact Hcount].
      * eapply NoSmall; [lia|exact Hfit| |tauto]. intros i Hu Hci. apply Hnone, Hxs. by split.
      * eapply NoSmall; [lia|exact Hfit| |tauto]. intros i Hu Hci. rewrite Hsame by done. destruct (Hsm i Hu) as [Hu0 Hc0]. apply Hnone, Hxs. split; [done|congruence].
Qed.

(** ** The interface *)

(** What a call leaves alone: the registers, the interrupt mask included, and the bytes of every
    object of [L]. *)
Record heap_kept (L : gmap Z Z) (s s' : slab) : Prop := {
  hk_regs : mach s' = set_pmm (heap_pmm s') (set_ram (m_ram (mach s')) (mach s));
  hk_bytes : forall o z k, L !! o = Some z -> 0 <= k < z ->
    ram_at (mach s') (o + k - base s) = ram_at (mach s) (o + k - base s);
}.

Definition locked (s : slab) : slab :=
  with_lock (ArchSpinlock (u32 (lock_next (slab_lock s) + 1)) (lock_owner (slab_lock s))) (Z.lor (daif (mach s)) DAIF_I) s.
Definition unlocked (flags : Z) (s : slab) : slab :=
  with_lock (ArchSpinlock (lock_next (slab_lock s)) (u32 (lock_owner (slab_lock s) + 1))) flags s.

(** Leaving the critical section entered in [s]. *)
Lemma unlocked_regs s s1 : mach s1 = set_pmm (heap_pmm s1) (set_ram (m_ram (mach s1)) (mach (locked s))) ->
  mach (unlocked (daif (mach s)) s1) =
    set_pmm (heap_pmm s1) (set_ram (m_ram (mach s1)) (mach s)).
Proof. intros E. cbn. rewrite E. cbn. by destruct (mach s). Qed.

Lemma unlocked_ok F L s s1 : lock_free (slab_lock s) -> slab_lock s1 = slab_lock (locked s) ->
  slab_inv F L s1 -> busy F s1 -> heap_ok L (unlocked (daif (mach s)) s1).
Proof.
  intros Hl Hl1 Hi Hb. exists F. split; [by apply slab_inv_with_lock|]. split; [exact Hb|].
  unfold unlocked. cbn [with_lock slab_lock]. rewrite Hl1. exact (spin_unlock_free _ Hl).
Qed.

Lemma heap_kept_step F L s s1 : slab_inv F L s -> heap_step (locked s) s1 ->
  heap_kept L s (unlocked (daif (mach s)) s1).
Proof.
  intros Hi Hst. split.
  - exact (unlocked_regs _ _ (hs_regs _ _ Hst)).
  - intros o z k Ho Hk. apply (hs_ram _ _ Hst). by eapply (live_obj_not_free F L s).
Qed.

(** Both paths of [kmalloc] end in the same way. *)
Definition kmalloc_post (L : gmap Z Z) (flags size : Z) (s : slab) (r : Z) (s' : slab) : Prop :=
  heap_kept L s s' /\
  ((r = 0 /\ heap_ok L s' /\ exhausted s flags size) \/
   (r <> 0 /\ r mod 8 = 0 /\ exists z, size <= z /\ L !! r = None /\ heap_ok (<[r := z]> L) s')).

Lemma exhausted_locked s flags size : exhausted (locked s) flags size <-> exhausted s flags size.
Proof. split; (intros [c Hs Hc Hf Hr|o Hs Ho Hr]; [by apply (NoSmall _ _ _ c)|by apply (NoLarge _ _ _ o)]). Qed.

Lemma exhausted_unlocked d s flags size : exhausted s flags size -> exhausted (unlocked d s) flags size.
Proof. intros [c Hs Hc Hf Hr|o Hs Ho Hr]; [by apply (NoSmall _ _ _ c)|by apply (NoLarge _ _ _ o)]. Qed.

(** With what the page allocator did, the memory that may have changed, and the place of the object. *)
Record kmalloc_grew L flags size s r s' : Prop := {
  kg_post : kmalloc_post L flags size s r s';
  kg_pmm : pmm_grew (heap_pmm s) (heap_pmm s');
  kg_ram : forall a, ~ in_free (heap_pmm s) a -> ram_at (mach s') a = ram_at (mach s) a;
  kg_home : r <> 0 -> home L s r;
  kg_room : r <> 0 -> ~ exhausted s flags size;
  kg_still : r = 0 -> exhausted s' flags size;
  kg_cost : forall o, fit_order size o -> free_pages (heap_pmm s) - (if r =? 0 then 0 else 2 ^ o) <= free_pages (heap_pmm s') <= free_pages (heap_pmm s);
}.

Lemma kmalloc_unlock F F' L flags size s r s1 : slab_inv F L s -> lock_free (slab_lock s) ->
  alloc_post F' L flags size (locked s) r s1 -> kmalloc_grew L flags size s r (unlocked (daif (mach s)) s1).
Proof.
  assert (Hfree : forall d, heap_pmm (unlocked d s1) = heap_pmm s1) by done. assert (Hstart : heap_pmm (locked s) = heap_pmm s) by done.
  intros Hi Hl [Hr Hi1 Hb1 Hst Hex Hex1 Hcount|F2 z Hex Hcost Hr Hz H8 HLn Hh Hi1 Hb1 Hst].
  - split; [|exact (hs_pmm _ _ Hst)|exact (hs_ram _ _ Hst)|done|done|intros _; by apply exhausted_unlocked|].
    + split; [by eapply heap_kept_step|]. left. split; [exact Hr|]. split; [|by apply exhausted_locked].
      eapply unlocked_ok; [exact Hl|apply (hs_lock _ _ Hst)|exact Hi1|exact Hb1].
    + intros o _. rewrite (proj2 (Z.eqb_eq r 0) Hr), Hfree, Hcount, Hstart. lia.
  - split; [|exact (hs_pmm _ _ Hst)|exact (hs_ram _ _ Hst)|exact (fun _ => Hh)|intros _ H; by apply Hex, exhausted_locked|done|].
    + split; [by eapply heap_kept_step|]. right. split; [exact Hr|]. split; [exact H8|]. exists z. split; [exact Hz|]. split; [exact HLn|].
      eapply unlocked_ok; [exact Hl|apply (hs_lock _ _ Hst)|exact Hi1|exact Hb1].
    + intros o Ho. rewrite (proj2 (Z.eqb_neq r 0) Hr), Hfree, <- Hstart. exact (Hcost o Ho).
Qed.

Lemma wp_kmalloc_grew L size flags s : heap_ok L s -> 0 < size <= SZ_4M ->
  wp (kmalloc size flags) (kmalloc_grew L flags size s) s.
Proof.
  intros (F & Hi & Hb & Hl) Hs. unfold kmalloc.
  rewrite (proj2 (Z.eqb_neq size 0)) by lia. rewrite Z.gtb_ltb, (proj2 (Z.ltb_ge SZ_4M size)) by lia.
  wp_step. apply wp_slab_lock; [exact Hl|]. fold (locked s).
  assert (Hi1 : slab_inv F L (locked s)) by (by apply slab_inv_with_lock).
  destruct (Z.leb_spec size SZ_8K).
  - wp_step. eapply wp_find_slab_cache; [exact Hi1|lia|]. intros c Hfit.
    wp_step. eapply wp_mono; [eapply wp_slab_alloc; [exact Hi1|exact Hb| |exact Hfit]; lia|].
    intros r s1 [F' Hp]. wp_step. apply wp_slab_unlock. wp_step. by eapply kmalloc_unlock.
  - wp_step. eapply wp_large_alloc; [exact Hi1|exact Hs| |].
    + intros va z s1 HLn Hva Hi2 Hst Hsm Hz Hal Hfree (o & Hfit & Hroom & Hcost). wp_step. apply wp_slab_unlock. wp_step.
      eapply (kmalloc_unlock F F); [exact Hi|exact Hl|].
      eapply AllocOk; [| |exact Hva|exact Hz| |exact HLn| |exact Hi2|by eapply busy_same|exact Hst].
      * intros [c Hle Hc _ _|p _ Hp Hno]; [lia|]. rewrite (fit_order_unique size p o) in Hno; [done|lia|done..].
      * intros p Hp. rewrite (fit_order_unique size p o); [|lia|done..]. destruct (fit_order_ge size o); [lia|done|]. lia.
      * rewrite PAGE_SIZE_eq in Hal. lia.
      * left. specialize (Hfree 0 ltac:(lia)). by rewrite Z.add_0_r in Hfree.
    + intros s1 o Hi2 Hst Hsm Hfit Hcount Hex. wp_step. apply wp_slab_unlock. wp_step.
      eapply (kmalloc_unlock F F); [exact Hi|exact Hl|].
      eapply AllocFail; [reflexivity|exact Hi2|by eapply busy_same|exact Hst| | |exact Hcount]; (eapply NoLarge; [lia|exact Hfit|tauto]).
Qed.
(** Registers the heap does not look at: the interrupt mask and the bases of [kernel/pgtbl.c]. *)
Definition other_regs (m m' : machine) : Prop := exists d lin l0, m' = set_daif d (set_pgtbl_bases lin l0 m).

(** A heap after some calls of [kmalloc]. *)
Inductive heap_run (L : gmap Z Z) (s : slab) : gmap Z Z -> slab -> Prop :=
| RunStart : heap_run L s L s
| RunRegs L1 s1 m : heap_run L s L1 s1 -> other_regs (mach s1) m -> heap_run L s L1 (set_mach m s1)
| RunNull L1 s1 flags size s2 : heap_run L s L1 s1 -> kmalloc_grew L1 flags size s1 0 s2 -> heap_ok L1 s2 -> heap_run L s L1 s2
| RunGot L1 s1 flags size r z s2 : heap_run L s L1 s1 -> kmalloc_grew L1 flags size s1 r s2 -> r <> 0 -> L1 !! r = None -> heap_ok (<[r := z]> L1) s2 ->
    heap_run L s (<[r := z]> L1) s2.
Lemma heap_run_trans L1 s1 L2 s2 L3 s3 : heap_run L1 s1 L2 s2 -> heap_run L2 s2 L3 s3 -> heap_run L1 s1 L3 s3.
Proof. intros H. induction 1; [done|by apply RunRegs|by eapply RunNull|by eapply RunGot]. Qed.
Lemma heap_run_sub L s L' s' : heap_run L s L' s' -> L ⊆ L'.
Proof. induction 1; [done..|]. etrans; [done|by apply insert_subseteq]. Qed.
Lemma run_daif L s d : heap_run L s L (set_mach (set_daif d (mach s)) s).
Proof. apply RunRegs; [constructor|]. exists d, (linear_map_base (mach s)), (l0_table_pa (mach s)). by destruct (mach s). Qed.

Lemma wp_kmalloc L size flags s : heap_ok L s -> 0 < size <= SZ_4M -> wp (kmalloc size flags) (kmalloc_post L flags size s) s.
Proof. intros Hok Hs. eapply wp_mono; [by apply (wp_kmalloc_grew L)|]. by intros r s' [H _ _ _ _ _ _]. Qed.

(** C11: [kmalloc] always returns, with the heap lock released, the interrupt mask and the
    registers as before and no byte of a live object changed.  A size of 0 or above 4 MiB gives
    NULL and changes nothing.  For any other size the result is NULL exactly when the heap is exhausted for it: up
    to 8 KiB, no slab of the smallest cache that fits has a free object, and all slots for slabs are taken or
    the page allocator has no block for another slab; above, all descriptors of large allocations are
    taken or there is no block of the smallest fitting order.  Then the live objects are as before.  Otherwise
    the result is an 8-byte-aligned object of at least that size that was not live, and nothing else becomes live. *)
Theorem kmalloc_correct L size flags s : heap_ok L s -> 0 <= size ->
  exists r s', kmalloc size flags s = Done (r, s') /\
    (size = 0 \/ SZ_4M < size -> r = 0 /\ s' = s) /\
    (0 < size <= SZ_4M ->
      heap_kept L s s' /\ (r = 0 <-> exhausted s flags size) /\
      (r = 0 -> heap_ok L s') /\
      (r <> 0 -> r mod 8 = 0 /\ exists z, size <= z /\ L !! r = None /\ heap_ok (<[r := z]> L) s')).
Proof.
  intros Hok Hs. destruct (decide (0 < size <= SZ_4M)) as [Hr|Hr].
  - destruct (wp_done _ _ _ (wp_kmalloc_grew L size flags s Hok Hr)) as (r & s' & Hrun & [[Hk Hp] _ _ _ Hroom _ _]).
    exists r, s'. split; [exact Hrun|]. split; [lia|]. intros _. split; [exact Hk|].
    destruct Hp as [(-> & Hok' & Hex)|(H0 & H8 & Hz)]; (split; [|split]); try done. split; [done|by intros Hex; destruct (Hroom H0)].
  - exists 0, s. split; [|split; [done|lia]]. unfold kmalloc.
    destruct (Z.eqb_spec size 0) as [->|]; [reflexivity|].
    assert (size >? SZ_4M = true) as -> by lia. reflexivity.
Qed.

(** ** Freeing *)

Lemma set_mach_id s : set_mach (mach s) s = s.
Proof. by destruct s. Qed.

Lemma heap_kept_freed F L s s1 va z : slab_inv F L s -> L !! va = Some z -> heap_freed (locked s) s1 va ->
  heap_kept (delete va L) s (unlocked (daif (mach s)) s1).
Proof.
  intros Hi Hva Hf. split.
  - exact (unlocked_regs _ _ (hf_regs _ _ _ Hf)).
  - intros o y k Ho Hk. apply (hf_ram _ _ _ Hf). change (base (locked s)) with (base s).
    apply lookup_delete_Some in Ho as [Hne Ho].
    destruct (live_obj_block _ _ _ _ _ Hi Hva) as [Hz _].
    destruct (live_objs_disjoint _ _ _ _ _ _ _ Hi Hva Ho Hne); lia.
Qed.

(** The page allocator after a call that freed the object at [va]. *)
Definition pages_after (s s' : slab) (va : Z) : Prop :=
  heap_pmm s' = heap_pmm s \/ exists p o, live (heap_pmm s) p o /\ released (heap_pmm s) p o (heap_pmm s') /\
    base s + frame_addr p <= va < base s + frame_addr (p + 2 ^ o).

Record kfree_post (L : gmap Z Z) (s : slab) (va : Z) (s' : slab) : Prop := {
  kf_kept : heap_kept (delete va L) s s';
  kf_ok : heap_ok (delete va L) s';
  kf_pages : pages_after s s' va;
  kf_ram : forall a, a <> va - base s -> ram_at (mach s') a = ram_at (mach s) a;
}.

Lemma wp_kfree L va z s : heap_ok L s -> L !! va = Some z ->
  wp (kfree va) (fun _ s' => kfree_post L s va s') s.
Proof.
  intros (F & Hi & Hb & Hl) Hva. destruct (live_obj_block _ _ _ _ _ Hi Hva) as (Hz & p & h & Hlv & H1 & _).
  destruct (live_page_ok _ _ _ (si_pmm _ _ _ Hi) Hlv) as (Hp & _ & _).
  assert (Hfa : 0 < frame_addr p) by (unfold page_ok, frame_addr, PHYS_MEM_START in *; rewrite PAGE_SIZE_eq; lia).
  destruct (si_base _ _ _ Hi) as (Hb0 & _ & _).
  unfold kfree. rewrite (proj2 (Z.eqb_neq va 0)) by lia.
  wp_step. apply wp_on_mach. unfold va_in_linear_map. wp_step. rewrite set_mach_id. change (slab_linear_map_base (mach s)) with (base s).
  rewrite (proj2 (Z.leb_le (base s) va)) by lia. cbn [negb].
  wp_step. apply wp_slab_lock; [exact Hl|]. 
  assert (Hi1 : slab_inv F L (locked s)) by (by apply slab_inv_with_lock).
  assert (Hfin : forall F' s1, slab_inv F' (delete va L) s1 -> busy F' s1 -> heap_freed (locked s) s1 va ->
    wp (on_slab_lock (spin_unlock_irqrestore (daif (mach s))))
      (fun _ s' => kfree_post L s va s') s1).
  { intros F' s1 Hi2 Hb2 Hf. apply wp_slab_unlock. split; [by eapply heap_kept_freed| | |exact (hf_ram _ _ _ Hf)].
    - eapply unlocked_ok; [exact Hl|apply (hf_lock _ _ _ Hf)|exact Hi2|exact Hb2].
    - exact (hf_pmm _ _ _ Hf). }
  apply (si_live _ _ _ Hi1) in Hva as [i Hu Hobj Hn ->|i Hu -> ->].
  - wp_step. eapply wp_large_find_none; [exact Hi1| |].
    { intros j Hj E. apply (obj_not_large _ _ _ i j Hi1 Hu Hj). rewrite <- E in Hobj. exact Hobj. }
    wp_step. eapply wp_slab_free_obj; [exact Hi1|exact Hb|exact Hu|exact Hobj|exact Hn|exact Hfin].
  - wp_step. eapply wp_large_find_found; [exact Hi1|exact Hu|].
    wp_step. eapply wp_large_free; [exact Hi1|exact Hu|]. intros s1 Hi2 Hsm Hf.
    apply (Hfin F); [exact Hi2|by eapply busy_same|exact Hf].
Qed.

(** C12: [kfree] of a live object always returns, with the lock, the interrupt mask and the registers as
    before: exactly that object is no longer live, no byte of another live object changed, and the
    page allocator either did not change or got back one block, the one that held the object.
    NULL and addresses below the linear map change nothing. *)
Theorem kfree_correct L va s : heap_ok L s ->
  (va = 0 \/ va < slab_linear_map_base (mach s) -> kfree va s = Done (tt, s)) /\
  (forall z, L !! va = Some z -> exists s', kfree va s = Done (tt, s') /\
     heap_kept (delete va L) s s' /\ heap_ok (delete va L) s' /\ pages_after s s' va).
Proof.
  intros Hok. split.
  - intros Hva. unfold kfree. destruct (Z.eqb_spec va 0); [reflexivity|]. destruct Hva as [Hva|Hva]; [done|].
    assert (E : on_mach (va_in_linear_map va) s = Done (false, s)).
    { cbn. rewrite (proj2 (Z.leb_gt _ _)) by exact Hva. by destruct s. }
    unfold mbind, M_bind in *. rewrite E. reflexivity.
  - intros z Hz. destruct (wp_done _ _ _ (wp_kfree L va z s Hok Hz)) as ([] & s' & Hrun & [H1 H2 H3 _]). by exists s'.
Qed.

Lemma heap_ok_regs L h m : heap_ok L h -> other_regs (mach h) m -> heap_ok L (set_mach m h).
Proof.
  intros (F & Hi & Hb & Hl) (d & lin & l0 & ->). exists F. split; [|by split]. destruct Hi as [H1 H2 H3 H4 H5 H6 H7 H8 H9 H10].
  split; [exact H1|exact H2|exact H3| | |exact H6|exact H7|exact H8|exact H9|].
  - intros i Hu. destruct (H4 i Hu) as [Hr Hok]. split; [exact Hr|]. destruct Hok. split; assumption.
  - intros i Hu. destruct (H5 i Hu) as [Hr Hok]. split; [exact Hr|]. destruct Hok. split; assumption.
  - intros o z. rewrite H10. split; (intros [i ? ? ? ?|i ? ? ?]; [by eapply (LiveSmall _ _ _ _ i)|by eapply (LiveLarge _ _ _ _ i)]).
Qed.
(** The interrupt mask of the CPU does not matter to the heap. *)
Lemma heap_ok_daif L d h : heap_ok L h -> heap_ok L (set_mach (set_daif d (mach h)) h).
Proof.
  intros (F & Hi & Hb & Hl). exists F. split; [exact (slab_inv_with_lock F L (slab_lock h) d h Hi)|]. split; [exact Hb|exact Hl].
Qed.
Lemma heap_kept_daif L h h' : heap_kept L h h' -> daif (mach h') = daif (mach h).
Proof. intros [Hr _]. by rewrite Hr. Qed.

(** ** The objects and the pages of the heap *)

(** Objects have a size and are not at NULL. *)
Lemma heap_live_pos L s o z : heap_ok L s -> L !! o = Some z -> 0 < z /\ 0 < o.
Proof.
  intros (F & Hi & _ & _) Ho. destruct (live_obj_block _ _ _ _ _ Hi Ho) as (Hz & p & h & Hl & H1 & _).
  destruct (live_page_ok _ _ _ (si_pmm _ _ _ Hi) Hl) as (Hp & _ & _). destruct (si_base _ _ _ Hi) as (Hb & _).
  split; [exact Hz|]. unfold page_ok, frame_addr, base, PHYS_MEM_START in *. rewrite PAGE_SIZE_eq in *. lia.
Qed.

(** The live objects of the heap never overlap, and each lies in the part of the linear map that
    covers RAM. *)
Theorem heap_objects_disjoint L s o z : heap_ok L s -> L !! o = Some z ->
  0 < z /\ slab_linear_map_base (mach s) + PHYS_MEM_START <= o /\
  o + z <= slab_linear_map_base (mach s) + PHYS_MEM_END + 1 /\
  forall o' z', L !! o' = Some z' -> o <> o' -> o + z <= o' \/ o' + z' <= o.
Proof.
  intros (F & Hi & _ & _) Ho. destruct (live_obj_block _ _ _ _ _ Hi Ho) as (Hz & p & h & Hl & H1 & H2).
  destruct (live_page_ok _ _ _ (si_pmm _ _ _ Hi) Hl) as (Hp & Ht & _). unfold base in *.
  split; [exact Hz|]. unfold page_ok, frame_addr, PHYS_MEM_START, PHYS_MEM_END in *. rewrite TOTAL_PAGES_eq, PAGE_SIZE_eq in *.
  split; [lia|]. split; [lia|]. intros o' z' Ho' Hne. by eapply live_objs_disjoint.
Qed.

Lemma busy_obj F L s i : slab_inv F L s -> busy F s -> used s i ->
  exists o, is_obj (sp_va (sp_at s i)) (slot_cache s i) o /\ o ∉ F i.
Proof.
  intros Hi Hb Hu. pose proof (Hb i Hu) as Hlen. destruct (si_slots _ _ _ Hi i Hu) as [_ Hok].
  destruct (so_cache _ _ _ Hok) as [Hc _].
  set (all := all_objs (sp_va (sp_at s i)) (slot_cache s i) (Z.to_nat (cache_cap (slot_cache s i)))).
  destruct (decide (Forall (fun o => o ∈ F i) all)) as [Hsub|Hsub].
  - exfalso. assert (Hs : all ⊆+ F i) by (apply NoDup_submseteq; [by apply all_objs_nodup|intros x Hx; rewrite Forall_forall in Hsub; by apply Hsub]).
    apply submseteq_length in Hs. unfold all in Hs. rewrite all_objs_length in Hs. lia.
  - apply not_Forall_Exists, Exists_exists in Hsub as (o & Ho & Hn); [|intros x; apply _]. exists o. split; [|exact Hn].
    apply all_objs_elem in Ho as (k & Hk & ->). exists k. split; [lia|reflexivity].
Qed.

Lemma empty_heap_slots F s : slab_inv F ∅ s -> busy F s -> (forall i, ~ used s i) /\ (forall i, ~ lused s i).
Proof.
  intros Hi Hb. assert (Hno : forall o z, ~ live_obj s F o z).
  { intros o z Hl. apply (si_live _ _ _ Hi) in Hl. discriminate Hl. }
  split; intros i Hu.
  - destruct (busy_obj _ _ _ i Hi Hb Hu) as (o & Ho & Hn). apply (Hno o (cache_size (slot_cache s i))).
    by eapply (LiveSmall _ _ _ _ i).
  - apply (Hno (la_va (la_at s i)) (PAGE_SIZE * 2 ^ la_order (la_at s i))). by eapply (LiveLarge _ _ _ _ i).
Qed.

(** A heap without live objects holds no pages: no slab and no large allocation is in use, so
    freeing every object gives all memory back to the page allocator. *)
Theorem heap_drained s : heap_ok ∅ s ->
  (forall i, sp_used (sp_at s i) = false) /\ (forall i, la_used (la_at s i) = false).
Proof.
  intros (F & Hi & Hb & _). destruct (empty_heap_slots F s Hi Hb) as [Hu Hl].
  split; intros i; apply not_true_is_false; [apply Hu|apply Hl].
Qed.

(** ** Initialisation *)

Lemma slab_sizes_at c : cache_ok c -> nth (Z.to_nat c) slab_sizes 0 = cache_size c.
Proof. intros H. each_cache H. Qed.

Lemma wp_slab_init s : buddy_inv (heap_pmm s) -> base_ok (base s) -> lock_free (slab_lock s) ->
  wp slab_init (fun _ s' => heap_ok ∅ s' /\ mach s' = mach s) s.
Proof.
  intros Hi Hb Hl. unfold slab_init. wp_step. wp_step.
  eapply wp_mono; [apply (wp_for_n (fun k s' =>
    slab_pages s' = ∅ /\ large_allocs s' = ∅ /\ slab_lock s' = slab_lock s /\ mach s' = mach s /\
    forall c, 0 <= c < k -> cache_at s' c = SlabCache (cache_size c) None))|].
  - repeat (split; [reflexivity|]). lia.
  - intros k s' Hk (Hp & Hla & Hlk & Hm & Hc). assert (Hok : cache_ok k) by (unfold cache_ok, SLAB_CACHE_COUNT in *; lia).
    apply wp_write_cache; [exact Hok|]. split; [exact Hp|]. split; [exact Hla|]. split; [exact Hlk|]. split; [exact Hm|].
    intros c Hck. rewrite cache_at_write. case_decide as E; [subst c; by rewrite slab_sizes_at|apply Hc; lia].
  - intros [] s' (Hp & Hla & Hlk & Hm & Hc). split; [|exact Hm]. exists (fun _ => []).
    assert (Hnu : forall i, ~ used s' i) by (intros i; unfold used, sp_at; by rewrite Hp).
    assert (Hnl : forall i, ~ lused s' i) by (intros i; unfold lused, la_at; by rewrite Hla).
    assert (Hca : forall c, cache_ok c -> cache_at s' c = SlabCache (cache_size c) None).
    { intros c Hc'. apply Hc. unfold cache_ok, SLAB_CACHE_COUNT in *. lia. }
    split; [|split; [intros i Hu; by destruct (Hnu i)|by rewrite Hlk]].
    unfold heap_pmm, base in *. split; unfold heap_pmm, base; rewrite ?Hm.
    + exact Hi.
    + exact Hb.
    + intros c Hc'. by rewrite Hca.
    + intros i Hu. by destruct (Hnu i).
    + intros i Hu. by destruct (Hnl i).
    + intros c Hc'. exists []. rewrite Hca by exact Hc'. split; [reflexivity|]. split; [constructor|].
      intros i. split; [by intros ?%not_elem_of_nil|]. intros [Hu _]. by destruct (Hnu i).
    + intros i j Hu. by destruct (Hnu i).
    + intros i j Hu. by destruct (Hnl i).
    + intros i j Hu. by destruct (Hnu i).
    + intros o z. rewrite lookup_empty. split; [done|]. intros [i Hu|i Hu]; [by destruct (Hnu i)|by destruct (Hnl i)].
Qed.

(** [slab_init] on an initialised page allocator gives an empty heap that satisfies the
    invariant and leaves the machine alone. *)
Theorem slab_init_correct s : buddy_inv (heap_pmm s) -> base_ok (base s) -> lock_free (slab_lock s) ->
  exists s', slab_init s = Done (tt, s') /\ heap_ok ∅ s' /\ mach s' = mach s.
Proof.
  intros Hi Hb Hl. destruct (wp_done _ _ _ (wp_slab_init s Hi Hb Hl)) as ([] & s' & Hrun & Hp). by exists s'.
Qed.

(** ** The theorems at a booted heap *)

Definition sample_heap (pm : pmm) : slab := Slab ∅ ∅ ∅ SPIN_LOCK_UNLOCKED (sample_machine pm).

Lemma sample_heap_start : exists s, buddy_inv (heap_pmm s) /\ base_ok (base s) /\ lock_free (slab_lock s) /\
  initialised 1024 (heap_pmm s).
Proof.
  destruct booted as [pm Hpm]. exists (sample_heap pm). split; [apply (in_inv _ _ Hpm)|].
  split; [vm_compute; repeat split|]. split; [reflexivity|exact Hpm].
Qed.

Lemma sample_heap_ok : exists s, heap_ok ∅ s /\ initialised 1024 (heap_pmm s).
Proof.
  destruct sample_heap_start as (s & Hi & Hb & Hl & Hpm).
  destruct (wp_done _ _ _ (wp_slab_init s Hi Hb Hl)) as (u & s' & _ & Hok & Hm).
  exists s'. split; [exact Hok|]. unfold heap_pmm in *. by rewrite Hm.
Qed.

(** An initialised page allocator whose image leaves a page has a free page. *)
Lemma initialised_free K pm : initialised K pm -> 0 <= K < TOTAL_PAGES -> ~ forall o, 0 <= o <= MAX_ORDER -> no_candidate pm false o.
Proof.
  intros [[Hi _] [Hz _] Hblk _ _] HK Hno.
  destruct (geom_cover _ _ _ (binv_geom _ _ Hi) K) as (p & o & HE & _); [lia|].
  destruct HE as [HE|[f Hb]]; [by apply not_elem_of_nil in HE|].
  pose proof (block_range _ _ _ _ Hi Hb) as [Ho _]. destruct (Hblk _ _ _ Hb) as [-> _].
  destruct (Hno o Ho) as [Hn|[E _]]; [by apply (Hn p)|discriminate E].
Qed.
Lemma initialised_candidate pm : initialised 1024 pm -> ~ forall o, 0 <= o <= MAX_ORDER -> no_candidate pm false o.
Proof. intros Hin. eapply initialised_free; [exact Hin|]. rewrite TOTAL_PAGES_eq. lia. Qed.

(** An empty heap over such an allocator has room for an object. *)
Lemma sample_room s : heap_ok ∅ s -> initialised 1024 (heap_pmm s) -> ~ exhausted s GFP_KERNEL 24.
Proof.
  intros (F & Hi & Hb & _) Hpm. pose proof (empty_heap_slots F s Hi Hb) as Hd.
  intros [c _ Hfit _ [Hall|Hno]|o Hgt _ _]; [| |unfold SZ_8K in Hgt; lia].
  - apply (proj1 Hd 0), Hall. unfold MAX_SLAB_PAGES. lia.
  - apply (initialised_candidate _ Hpm). intros o Ho. apply Hno.
    rewrite (fit_order_unique 24 (cache_order c) 0); [done|lia|by apply fit_cache_order|unfold fit_order; rewrite PAGE_SIZE_eq; lia].
Qed.

(** A heap with one live object. *)
Lemma sample_object : exists L s o z, heap_ok L s /\ L !! o = Some z.
Proof.
  destruct sample_heap_ok as (s & Hok & Hpm).
  destruct (wp_done _ _ _ (wp_kmalloc ∅ 24 GFP_KERNEL s Hok ltac:(unfold SZ_4M; lia))) as (r & s' & _ & _ & Hr).
  destruct Hr as [(_ & _ & Hex)|(Hr & _ & z & _ & _ & Hok')]; [by destruct (sample_room s Hok Hpm)|].
  exists (<[r := z]> ∅), s', r, z. split; [exact Hok'|apply lookup_insert_eq].
Qed.

Lemma kmalloc_correct_witness : exists s, heap_ok ∅ s /\ 0 <= 24 /\
  exists r s', kmalloc 24 GFP_KERNEL s = Done (r, s') /\ r <> 0.
Proof.
  destruct sample_heap_ok as (s & Hok & Hpm). exists s. split; [exact Hok|]. split; [lia|].
  destruct (kmalloc_correct ∅ 24 GFP_KERNEL s Hok ltac:(lia)) as (r & s' & Hrun & _ & Hr). exists r, s'. split; [exact Hrun|].
  destruct Hr as (_ & Hnull & _); [unfold SZ_4M; lia|]. intros H0. by apply (sample_room s Hok Hpm), Hnull.
Defined.

Lemma kfree_correct_witness : exists L s o z, heap_ok L s /\ L !! o = Some z /\
  exists s', kfree o s = Done (tt, s') /\ heap_ok (delete o L) s'.
Proof.
  destruct sample_object as (L & s & o & z & Hok & Hz). exists L, s, o, z. split; [exact Hok|]. split; [exact Hz|].
  destruct (kfree_correct L o s Hok) as [_ H]. destruct (H z Hz) as (s' & Hrun & _ & Hok' & _). exists s'. split; assumption.
Defined.

Lemma heap_objects_disjoint_witness : exists L s o z, heap_ok L s /\ L !! o = Some z /\ 0 < z.
Proof.
  destruct sample_object as (L & s & o & z & Hok & Hz). exists L, s, o, z. split; [exact Hok|]. split; [exact Hz|].
  apply (heap_objects_disjoint L s o z Hok Hz).
Defined.

Lemma heap_drained_witness : exists s, heap_ok ∅ s /\ sp_used (sp_at s 7) = false.
Proof.
  destruct sample_heap_ok as (s & Hok & _). exists s. split; [exact Hok|]. apply (heap_drained s Hok).
Defined.

Lemma slab_init_correct_witness : exists s, buddy_inv (heap_pmm s) /\ base_ok (base s) /\ lock_free (slab_lock s) /\
  exists s', slab_init s = Done (tt, s') /\ heap_ok ∅ s'.
Proof.
  destruct sample_heap_start as (s & Hi & Hb & Hl & _). exists s. split; [exact Hi|]. split; [exact Hb|]. split; [exact Hl|].
  destruct (slab_init_correct s Hi Hb Hl) as (s' & Hrun & Hok & _). exists s'. split; assumption.
Defined.
