(* ===== verification/SlabSample.v ===== *)
(** Heaps with room for more objects, for the examples of the parts that keep several objects on the heap. *)
From S2P Require Import Prelude ListHead Pmm PmmTheory PmmOps PmmInit PmmProps Sync Machine MmuProps Slab SlabTheory SlabOps SlabFree SlabProps.

(** A heap in which no request of up to a page can fail. *)
Record room (s : slab) : Prop := {
  rm_slot : exists j, 0 <= j < MAX_SLAB_PAGES /\ ~ used s j;
  rm_large : exists j, 0 <= j < MAX_LARGE_ALLOCS /\ ~ lused s j;
  rm_pages : ~ forall o, 0 <= o <= MAX_ORDER -> no_candidate (heap_pmm s) false o;
}.

Definition kmalloc_got (L : gmap Z Z) (size : Z) (s : slab) (r : Z) (s' : slab) : Prop :=
  0 < r /\ daif (mach s') = daif (mach s) /\ kmalloc_grew L GFP_KERNEL size s r s' /\
  exists z, size <= z /\ L !! r = None /\ heap_ok (<[r := z]> L) s'.

Lemma wp_kmalloc_room L size s : heap_ok L s -> room s -> 0 < size <= 4096 -> wp (kmalloc size GFP_KERNEL) (kmalloc_got L size s) s.
Proof.
  intros Hok [(i & Hi & Hni) (j & Hj & Hnj) Hp] Hs.
  eapply wp_mono; [apply (wp_kmalloc_grew L size GFP_KERNEL s Hok); unfold SZ_4M; lia|]. intros r s' Hgrew. pose proof Hgrew as [[Hkept Hr] _ _ _ _ _ _].
  destruct Hr as [(_ & _ & Hex)|(_ & _ & z & Hz & HLn & Hok')].
  - exfalso. assert (Hord : fit_order size 0) by (unfold fit_order; rewrite PAGE_SIZE_eq; lia).
    destruct Hex as [c _ Hfit _ [H|H]|o Hgt _ _]; [by apply Hni, H| |unfold SZ_8K in Hgt; lia]. apply Hp. intros o Ho. apply H.
    rewrite (fit_order_unique size (cache_order c) 0); [done|lia|apply fit_cache_order; [lia|done]|done].
  - split; [eapply heap_live_pos; [exact Hok'|apply lookup_insert_eq]|]. split; [by eapply heap_kept_daif|]. split; [exact Hgrew|].
    by exists z.
Qed.

(** All frames outside [ps], blocks of at most 1024 frames, are in free blocks. *)
Record spare (ps : list Z) (pm : pmm) : Prop := {
  sp_ok : buddy_inv pm;
  sp_first : first_pfn pm = 1024;
  sp_cover z : 1024 <= z < TOTAL_PAGES -> (forall p, p ∈ ps -> ~ (p <= z < p + 1024)) ->
    exists q k, block_at pm q = Some (true, k) /\ q <= z < q + 2 ^ k;
}.

Lemma spare_start pm : initialised 1024 pm -> spare [] pm.
Proof.
  intros Hin. pose proof (proj1 (in_inv _ _ Hin)) as Hi. pose proof (proj1 (in_zone _ _ Hin)) as Hz. split; [exact Hi|exact Hz|].
  intros z Hzr _. destruct (geom_cover _ _ _ (binv_geom _ _ Hi) z) as (q & k & HE & Hq); [lia|].
  destruct HE as [HE|[f Hb]]; [by apply not_elem_of_nil in HE|]. destruct (in_blocks _ _ Hin _ _ _ Hb) as [-> _]. by exists q, k.
Qed.

Lemma spare_allocated ps pm o dma p pm' : spare ps pm -> allocated pm o dma p pm' -> spare (p :: ps) pm'.
Proof.
  intros [Hi Hf Hcov] Hal. destruct (al_from _ _ _ _ _ Hal) as (h & Hoh & Hbp & Hframe).
  destruct (block_range _ _ _ _ Hi Hbp) as [Hh _]. cbn [snd] in Hh. pose proof (pow2_mono h 10 ltac:(lia) ltac:(unfold MAX_ORDER in *; lia)).
  split; [apply (al_inv _ _ _ _ _ Hal)|unfold first_pfn in *; by rewrite (proj1 (al_zone _ _ _ _ _ Hal))|].
  intros z Hzr Hz. destruct (Hcov z Hzr) as (q & k & Hbq & Hqz); [intros x Hx; apply Hz; by right|]. exists q, k. split; [|exact Hqz].
  specialize (Hz p ltac:(left)). assert (Hne : q <> p) by (intros ->; rewrite Hbp in Hbq; injection Hbq as <-; lia).
  destruct (block_range _ _ _ _ Hi Hbq) as [Hk _]. cbn [snd] in Hk. pose proof (pow2_pos k ltac:(lia)). pose proof (pow2_pos h ltac:(lia)).
  unfold block_at. rewrite Hframe; [exact Hbq|]. intros Hin'. pose proof (geom_disj _ _ _ (binv_geom _ _ Hi) p h q k) as Hd.
  enough (p + 2 ^ h <= q) by lia. apply Hd; [by right; eexists|by right; eexists|lia].
Qed.
Lemma spare_grew ps pm pm' : spare ps pm -> pmm_grew pm pm' -> exists ps', (length ps' <= S (length ps))%nat /\ spare ps' pm'.
Proof.
  intros Hsp Hgrew. pose proof (pmm_grew_inv _ _ Hgrew (sp_ok _ _ Hsp)) as Hi'. pose proof Hsp as [Hi Hf Hcov].
  destruct Hgrew as [|e|o dma p s' Hal]; [exists ps; split; [lia|by split]|exists ps; split; [lia|by split]|].
  exists (p :: ps). split; [done|by eapply spare_allocated].
Qed.

(** Fewer blocks than spots, and no block covers two: a spot is left. *)
Lemma spot_left (hit : Z -> Z -> Prop) ps l : (forall p z, Decision (hit p z)) -> NoDup l -> (length ps < length l)%nat ->
  (forall p z z', z ∈ l -> z' ∈ l -> hit p z -> hit p z' -> z = z') -> exists z, z ∈ l /\ forall p, p ∈ ps -> ~ hit p z.
Proof.
  intros Hdec. revert l. induction ps as [|p ps IH]; intros l Hnd Hlen Hinj.
  { destruct l as [|z l]; [cbn in Hlen; lia|]. exists z. split; [by left|]. by intros p ?%not_elem_of_nil. }
  cbn in Hlen. destruct (Exists_dec (hit p) l) as [(z & Hz & Hp)%Exists_exists|Hn].
  - apply elem_of_Permutation in Hz as [l' HP]. rewrite HP in Hnd, Hlen. apply NoDup_cons in Hnd as [Hzl Hnd].
    destruct (IH l') as (z' & Hz' & Hno); [done|cbn in Hlen; lia| |].
    { intros q x y Hx Hy. apply Hinj; rewrite HP; by right. }
    exists z'. split; [rewrite HP; by right|]. intros q [->|Hq]%elem_of_cons; [|by apply Hno]. intros Hp'.
    assert (z = z') as -> by (apply (Hinj p); try done; rewrite HP; [left|by right]). done.
  - destruct (IH l) as (z & Hz & Hno); [done|lia|done|]. exists z. split; [done|]. intros q [->|Hq]%elem_of_cons; [|by apply Hno].
    intros Hp. apply Hn, Exists_exists. by exists z.
Qed.

Lemma spare_candidate ps pm : spare ps pm -> (length ps <= 5)%nat -> ~ forall o, 0 <= o <= MAX_ORDER -> no_candidate pm false o.
Proof.
  intros [Hi Hf Hcov] Hlen Hno.
  destruct (spot_left (fun p z => p <= z < p + 1024) ps [1024; 3072; 5120; 7168; 9216; 11264]) as (z & Hz & Hps);
    [apply _|apply (bool_decide_unpack _); reflexivity|cbn; lia| |].
  { intros p z z'. rewrite !elem_of_cons, !elem_of_nil. lia. }
  destruct (Hcov z) as (q & k & Hbq & _); [rewrite TOTAL_PAGES_eq; rewrite !elem_of_cons, !elem_of_nil in Hz; lia|exact Hps|].
  destruct (block_range _ _ _ _ Hi Hbq) as [Hk _]. cbn [snd] in Hk.
  destruct (Hno k ltac:(lia)) as [Hn|[E _]]; [|discriminate E]. by apply (Hn q).
Qed.

(** A page from such an allocator. *)
Lemma spare_page ps pm : spare ps pm -> (length ps <= 5)%nat ->
  exists n pm', allocated pm 0 false n pm' /\ spare (n :: ps) pm'.
Proof.
  intros Hsp Hlen.
  assert (Hwp : wp (alloc_phys_pages 0 GFP_KERNEL) (fun _ pm' => exists n, allocated pm 0 false n pm') pm).
  { eapply wp_alloc_phys_pages; [apply Hsp|unfold MAX_ORDER; lia|intros n pm' Hal _; by exists n|].
    intros Hno. by destruct (spare_candidate _ _ Hsp Hlen). }
  apply wp_done in Hwp as (_ & pm' & _ & n & Hal). exists n, pm'. split; [done|by eapply spare_allocated].
Qed.

(** Two slabs have no object in common, two large allocations no address. *)
Lemma slot_obj_inj F L s i j o : slab_inv F L s -> used s i -> used s j -> is_obj (sp_va (sp_at s i)) (slot_cache s i) o ->
  is_obj (sp_va (sp_at s j)) (slot_cache s j) o -> i = j.
Proof.
  intros Hi Hui Huj Ho Ho'. destruct (decide (slot_pfn s i = slot_pfn s j)) as [E|E]; [by eapply si_slots_ne|exfalso].
  pose proof (slot_range _ _ _ _ _ Hi Hui Ho). pose proof (slot_range _ _ _ _ _ Hi Huj Ho').
  destruct (si_slots _ _ _ Hi i Hui) as [_ Hok], (si_slots _ _ _ Hi j Huj) as [_ Hok'].
  destruct (block_ends _ _ _ _ _ (si_pmm _ _ _ Hi) (so_live _ _ _ Hok) (so_live _ _ _ Hok') E); lia.
Qed.
Lemma large_va_inj F L s i j : slab_inv F L s -> lused s i -> lused s j -> la_va (la_at s i) = la_va (la_at s j) -> i = j.
Proof.
  intros Hi Hui Huj E. destruct (si_larges _ _ _ Hi i Hui) as [_ Hok], (si_larges _ _ _ Hi j Huj) as [_ Hok'].
  rewrite (lo_va _ _ Hok), (lo_va _ _ Hok') in E. unfold frame_addr in E. rewrite PAGE_SIZE_eq in E. apply (si_larges_ne _ _ _ Hi i j Hui Huj). lia.
Qed.

(** A table in which not all entries are used has an unused one. *)
Lemma unused_entry (f : Z -> bool) n : ~ (forall j, 0 <= j < Z.of_nat n -> f j = true) -> exists j, 0 <= j < Z.of_nat n /\ f j <> true.
Proof.
  intros H. destruct (decide (Exists (fun j => f j <> true) (seqZ 0 (Z.of_nat n)))) as [(j & Hj & Hf)%Exists_exists|Hno].
  - apply elem_of_seqZ in Hj. exists j. split; [lia|exact Hf].
  - exfalso. apply H. intros j Hj. destruct (f j) eqn:E; [done|]. exfalso. apply Hno, Exists_exists. exists j. split; [apply elem_of_seqZ; lia|congruence].
Qed.

Lemma few_objects F L s : slab_inv F L s -> busy F s -> (size L < 16)%nat ->
  (exists j, 0 <= j < MAX_SLAB_PAGES /\ ~ used s j) /\ (exists j, 0 <= j < MAX_LARGE_ALLOCS /\ ~ lused s j).
Proof.
  intros Hi Hb Hsz. split.
  - destruct (unused_entry (fun j => sp_used (sp_at s j)) 16) as (j & Hj & Hu); [|exists j; split; [unfold MAX_SLAB_PAGES; lia|exact Hu]].
    intros Hall. enough (16 <= size L)%nat by lia.
    apply (pigeons (fun j o => used s j /\ is_obj (sp_va (sp_at s j)) (slot_cache s j) o /\ o ∉ F j)).
    + intros j Hj. destruct (busy_obj _ _ _ j Hi Hb (Hall j Hj)) as (o & Ho & Hn). exists o. split; [exact (Hall j Hj)|by split].
    + intros j o (Hu & Ho & Hn). eexists. apply (si_live _ _ _ Hi). by eapply (LiveSmall _ _ _ _ j).
    + intros i j o (Hu & Ho & _) (Hu' & Ho' & _). by eapply slot_obj_inj.
  - destruct (unused_entry (fun j => la_used (la_at s j)) 16) as (j & Hj & Hu); [|exists j; split; [unfold MAX_LARGE_ALLOCS; lia|exact Hu]].
    intros Hall. enough (16 <= size L)%nat by lia. apply (pigeons (fun j o => lused s j /\ la_va (la_at s j) = o)).
    + intros j Hj. eexists. split; [exact (Hall j Hj)|reflexivity].
    + intros j o [Hu <-]. eexists. apply (si_live _ _ _ Hi). by eapply (LiveLarge _ _ _ _ j).
    + intros i j o [Hu <-] [Hu' E]. eapply large_va_inj; eauto.
Qed.

(** With entries left for both kinds of allocation, a heap that refuses a small object has no page left to take. *)
Lemma exhausted_pages L sz s : heap_ok L s -> (size L < 16)%nat -> 0 < sz <= 4096 -> exhausted s GFP_KERNEL sz ->
  free_pages (heap_pmm s) = 0.
Proof.
  intros (F & Hi & Hb & _) Hsz Hs Hex. destruct (few_objects F L s Hi Hb Hsz) as [(i & Hir & Hni) _].
  assert (Hord : fit_order sz 0) by (unfold fit_order; rewrite PAGE_SIZE_eq; lia).
  destruct Hex as [c _ Hfit _ [H|H]|o Hgt _ _]; [by destruct Hni; apply H| |unfold SZ_8K in Hgt; lia].
  apply no_free_pages; [apply (si_pmm _ _ _ Hi)|]. intros o Ho. apply H.
  rewrite (fit_order_unique sz (cache_order c) 0); [lia|lia|apply fit_cache_order; [lia|done]|done].
Qed.

(** ** Heaps with several objects *)

Record roomy (n : nat) (L : gmap Z Z) (s : slab) : Prop := {
  ry_ok : heap_ok L s;
  ry_size : (size L <= n)%nat;
  ry_spare : exists ps, (length ps <= n)%nat /\ spare ps (heap_pmm s);
}.
Lemma roomy_room n L s : roomy n L s -> (n <= 2)%nat -> room s.
Proof.
  intros [(F & Hi & Hb & _) Hsz (ps & Hlen & Hsp)] Hn. destruct (few_objects F L s Hi Hb ltac:(lia)) as [Hu Hl].
  split; [exact Hu|exact Hl|]. eapply spare_candidate; [exact Hsp|lia].
Qed.
Lemma roomy_booted : exists pm s, initialised 1024 pm /\ mach s = sample_machine pm /\ roomy 0 ∅ s.
Proof.
  destruct booted as [pm Hpm].
  destruct (wp_done _ _ _ (wp_slab_init (sample_heap pm) (proj1 (in_inv _ _ Hpm)) ltac:(vm_compute; repeat split) ltac:(reflexivity))) as (u & s & _ & Hok & Hm).
  exists pm, s. split; [exact Hpm|]. split; [exact Hm|]. split; [exact Hok|by rewrite map_size_empty|]. exists []. split; [done|].
  unfold heap_pmm. rewrite Hm. by apply spare_start.
Qed.
Lemma roomy_start : exists s, roomy 0 ∅ s.
Proof. destruct roomy_booted as (pm & s & _ & _ & Hs). by exists s. Qed.
Lemma roomy_next n L s size : roomy n L s -> (n <= 2)%nat -> 0 < size <= 4096 ->
  exists r z s', 0 < r /\ L !! r = None /\ roomy (S n) (<[r := z]> L) s' /\ heap_run L s (<[r := z]> L) s'.
Proof.
  intros Hr Hn Hs. destruct (wp_done _ _ _ (wp_kmalloc_room L size s (ry_ok _ _ _ Hr) (roomy_room _ _ _ Hr Hn) Hs))
    as (r & s' & _ & Hr0 & _ & Hgrew & z & _ & HLr & Hok).
  exists r, z, s'. split; [exact Hr0|]. split; [exact HLr|]. destruct (ry_spare _ _ _ Hr) as (ps & Hlen & Hsp).
  destruct (spare_grew _ _ _ Hsp (kg_pmm _ _ _ _ _ _ Hgrew)) as (ps' & Hlen' & Hsp').
  split; [|eapply RunGot; [constructor|exact Hgrew|lia|exact HLr|exact Hok]].
  split; [exact Hok|rewrite map_size_insert_None by done; pose proof (ry_size _ _ _ Hr); lia|]. exists ps'. split; [lia|exact Hsp'].
Qed.

(** A heap with three live objects. *)
Lemma sample_objects_run : exists pm s0 L s o p q, initialised 1024 pm /\ mach s0 = sample_machine pm /\ heap_ok ∅ s0 /\ heap_run ∅ s0 L s /\
  heap_ok L s /\ NoDup [o; p; q] /\ forall x, x ∈ [o; p; q] -> 0 < x /\ is_Some (L !! x).
Proof.
  destruct roomy_booted as (pm & s & Hpm & Hm & Hs). destruct (roomy_next 0 ∅ s 32 Hs ltac:(lia) ltac:(lia)) as (o & zo & s1 & Ho & _ & Hs1 & R1).
  destruct (roomy_next _ _ s1 104 Hs1 ltac:(lia) ltac:(lia)) as (p & zp & s2 & Hp & HLp & Hs2 & R2).
  destruct (roomy_next _ _ s2 104 Hs2 ltac:(lia) ltac:(lia)) as (q & zq & s3 & Hq & HLq & Hs3 & R3).
  assert (Hop : p <> o) by (intros ->; by rewrite lookup_insert_eq in HLp).
  assert (Hqp : q <> p) by (intros ->; by rewrite lookup_insert_eq in HLq).
  assert (Hqo : q <> o) by (intros ->; by rewrite lookup_insert_ne, lookup_insert_eq in HLq by done).
  exists pm, s, (<[q := zq]> (<[p := zp]> (<[o := zo]> ∅))), s3, o, p, q. split; [exact Hpm|]. split; [exact Hm|].
  split; [apply (ry_ok _ _ _ Hs)|]. split; [exact (heap_run_trans _ _ _ _ _ _ R1 (heap_run_trans _ _ _ _ _ _ R2 R3))|].
  split; [apply (ry_ok _ _ _ Hs3)|]. split.
  - repeat (apply NoDup_cons; split; [set_solver|]). constructor.
  - intros x Hx. assert (x = o \/ x = p \/ x = q) as [-> | [-> | ->]] by set_solver; (split; [assumption|]).
    + rewrite !lookup_insert_ne, lookup_insert_eq by congruence. by eexists.
    + rewrite lookup_insert_ne, lookup_insert_eq by congruence. by eexists.
    + rewrite lookup_insert_eq. by eexists.
Qed.
Lemma sample_objects : exists L s o p q, heap_ok L s /\ NoDup [o; p; q] /\ forall x, x ∈ [o; p; q] -> 0 < x /\ is_Some (L !! x).
Proof. destruct sample_objects_run as (pm & s0 & L & s & o & p & q & _ & _ & _ & _ & H). by exists L, s, o, p, q. Qed.
