(* ===== verification/Memory.v ===== *)
(** The kernel heap and the page tables in one machine: [kernel/slab.c] and [kernel/mmu.c] on one page allocator.

    Both take pages from the same allocator and write to the same memory. *)
From S2P Require Import Prelude ListHead Pmm PmmTheory PmmOps PmmInit PmmProps Sync Machine Mmu MmuTheory MmuProps UserPages Slab SlabTheory SlabOps SlabFree SlabProps.

(** ** Frames and blocks *)

(** The object [o] lies in the block [p] of order [h]. *)
Definition in_block_of (s : slab) (p h o : Z) : Prop := base s + frame_addr p <= o < base s + frame_addr (p + 2 ^ h).

(** No table of the tree lies in a block that holds a live object. *)
Definition apart D (L : gmap Z Z) (s : slab) root : Prop :=
  forall o z p h g, L !! o = Some z -> live (heap_pmm s) p h -> in_block_of s p h o -> p <= g < p + 2 ^ h -> not_table D (mach s) root g.

Record memory_ok D (L : gmap Z Z) (s : slab) root : Prop := {
  me_heap : heap_ok L s;
  me_tree : pt_inv D (mach s) root;
  me_apart : apart D L s root;
}.

Lemma heap_pmm_inv L s : heap_ok L s -> buddy_inv (heap_pmm s).
Proof. intros (F & Hi & _). apply (si_pmm _ _ _ Hi). Qed.

(** Two live blocks with an address in common are one. *)
Lemma live_same_block pm p h q k a : buddy_inv pm -> live pm p h -> live pm q k ->
  frame_addr p <= a < frame_addr (p + 2 ^ h) -> frame_addr q <= a < frame_addr (q + 2 ^ k) -> p = q /\ h = k.
Proof.
  intros Hi Hp Hq Ha Ha'. destruct (decide (p = q)) as [->|Hne]; [split; [done|]; unfold live in *; congruence|].
  destruct (block_ends _ _ _ _ _ Hi Hp Hq Hne); lia.
Qed.
(** A word of a held frame is not in a free block. *)
Lemma held_not_free pm g a : buddy_inv pm -> held pm g -> frame_addr g <= a < frame_addr (g + 1) -> ~ in_free pm a.
Proof.
  intros Hi Hg Ha (p & h & Hb & Hp). rewrite !frame_addr_add in *. destruct (block_range _ _ _ _ Hi Hb) as (Hh & _ & Hk & _). cbn [snd] in *.
  pose proof (pow2_pos h ltac:(lia)) as Hpow. unfold frame_addr, PHYS_MEM_START in *. rewrite PAGE_SIZE_eq in *.
  destruct Hg as [Hg|(x & o & Hl & Hx)]; [lia|].
  destruct (binv_disjoint _ _ Hi _ _ _ _ _ _ g Hb Hl); lia.
Qed.
Lemma entry_place g i : idx_ok i -> frame_addr g <= frame_addr g + 8 * i < frame_addr (g + 1).
Proof. unfold idx_ok, PTRS_PER_PTE. rewrite frame_addr_add, PAGE_SIZE_eq. lia. Qed.

Lemma grew_stays pm pm' g : buddy_inv pm -> pmm_grew pm pm' -> held pm g -> stays pm pm' g.
Proof.
  intros Hi Hgrew Hh. destruct Hgrew as [|e|o dma p pm' Hal]; [by apply stays_refl|by split|].
  assert (Hl : forall q k, live pm q k -> live pm' q k) by (intros q k Hq; apply (al_live _ _ _ _ _ Hal); by left).
  split; [|apply Hl|].
  - destruct Hh as [Hg|(x & k & Hx & Hg)]; [left|right; exists x, k; split; [by apply Hl|done]].
    by rewrite (first_pfn_eq _ _ (proj1 (al_zone _ _ _ _ _ Hal))).
  - apply (al_ref _ _ _ _ _ Hal). intros ->. destruct (al_from _ _ _ _ _ Hal) as (h & _ & Hb & _). by eapply free_not_held.
Qed.
Lemma block_released_stays pm p o pm' g : buddy_inv pm -> live pm p o -> released pm p o pm' -> ~ (p <= g < p + 2 ^ o) -> held pm g -> stays pm pm' g.
Proof.
  intros Hi Hp Hrel Hg Hh. destruct (live_page_ok _ _ _ Hi Hp) as (_ & _ & Ho). pose proof (pow2_pos o ltac:(lia)).
  split; [| |apply (rl_ref _ _ _ _ Hrel)].
  - destruct Hh as [Hf|(x & k & Hx & Hgx)]; [left; by rewrite (first_pfn_eq _ _ (proj1 (rl_zone _ _ _ _ Hrel)))|].
    right. exists x, k. split; [|done]. apply (rl_live _ _ _ _ Hrel). split; [done|]. intros ->.
    assert (k = o) as -> by (unfold live in *; congruence). done.
  - intros k Hk. apply (rl_live _ _ _ _ Hrel). split; [done|]. intros ->. assert (k = o) as -> by (unfold live in *; congruence). lia.
Qed.
(** A frame inside a live block stays live there as long as the frame stays. *)
Lemma stays_live pm pm' p h : buddy_inv pm -> live pm p h -> stays pm pm' p -> live pm' p h.
Proof. intros Hi Hl Hs. by apply (st_live _ _ _ Hs). Qed.

Lemma kept_regs L s s' : heap_kept L s s' -> same_regs (mach s) (mach s').
Proof. intros [E _]. unfold same_regs. rewrite E. by destruct (mach s). Qed.
Lemma kept_base L s s' : heap_kept L s s' -> base s' = base s.
Proof. intros [E _]. unfold base. by rewrite E. Qed.

(** ** Allocating an object *)

Section kmalloc.
Context (D : Z -> bool) (L : gmap Z Z) (flags size : Z) (s : slab) (r : Z) (s' : slab) (root : Z).
Hypothesis ok : memory_ok D L s root.
Hypothesis done_ : kmalloc_grew L flags size s r s'.

Let inv := me_tree _ _ _ _ ok.
Let pm_inv : buddy_inv (heap_pmm s) := heap_pmm_inv _ _ (me_heap _ _ _ _ ok).

Lemma kmalloc_keep g : held (heap_pmm s) g -> ~ False ->
  stays (heap_pmm s) (heap_pmm s') g /\ forall i, idx_ok i -> entry (mach s') (frame_addr g) i = entry (mach s) (frame_addr g) i.
Proof using ok done_.
  intros Hg _. split; [by eapply grew_stays; [|apply (kg_pmm _ _ _ _ _ _ done_)|]|]. intros i Hi. apply (kg_ram _ _ _ _ _ _ done_).
  eapply held_not_free; [exact pm_inv|exact Hg|by apply entry_place].
Qed.
Lemma kmalloc_pmm_inv : buddy_inv (heap_pmm s').
Proof using ok done_. eapply pmm_grew_inv; [apply (kg_pmm _ _ _ _ _ _ done_)|exact pm_inv]. Qed.
Lemma kmalloc_grow : grow D (mach s) (mach s') root.
Proof using ok done_.
  eapply (quiet_grow D _ _ _ (fun _ => False) inv kmalloc_pmm_inv kmalloc_keep); [done| |by intros ? ? []].
  by eapply kept_regs, (kg_post _ _ _ _ _ _ done_).
Qed.
Lemma kmalloc_not_table g : not_table D (mach s') root g <-> not_table D (mach s) root g.
Proof using ok done_. by apply (quiet_not_table D _ _ _ (fun _ => False) inv kmalloc_keep). Qed.
Lemma kmalloc_base : base s' = base s.
Proof using done_. eapply kept_base, (kg_post _ _ _ _ _ _ done_). Qed.
Lemma kmalloc_live p h : live (heap_pmm s) p h -> live (heap_pmm s') p h.
Proof using done_. by apply pmm_grew_live, (kg_pmm _ _ _ _ _ _ done_). Qed.

(** The block of an address that was in a live block before. *)
Lemma kmalloc_old_block p h q k o g : live (heap_pmm s') p h -> in_block_of s' p h o -> live (heap_pmm s) q k -> in_block_of s q k o ->
  p <= g < p + 2 ^ h -> q <= g < q + 2 ^ k.
Proof using ok done_.
  intros Hp Ho Hq Ho'. unfold in_block_of in *. rewrite kmalloc_base in *.
  destruct (live_same_block _ p h q k (o - base s) kmalloc_pmm_inv Hp (kmalloc_live _ _ Hq)) as [E1 E2]; [lia|lia|]. by rewrite <- E1, <- E2.
Qed.

Lemma kmalloc_apart_old : apart D L s' root.
Proof using ok done_.
  intros o z p h g HL Hp Ho Hg. pose proof (me_heap _ _ _ _ ok) as Hheap. destruct Hheap as (F & Hi & _).
  destruct (live_obj_block _ _ _ _ _ Hi HL) as (Hz & q & k & Hq & H1 & H2). apply kmalloc_not_table.
  assert (Hin : in_block_of s q k o) by (unfold in_block_of; lia).
  exact (me_apart _ _ _ _ ok o z q k g HL Hq Hin (kmalloc_old_block p h q k o g Hp Ho Hq Hin Hg)).
Qed.

Lemma kmalloc_apart_new p h g : r <> 0 -> live (heap_pmm s') p h -> in_block_of s' p h r -> p <= g < p + 2 ^ h -> not_table D (mach s') root g.
Proof using ok done_.
  intros H0 Hp Hr Hg. apply kmalloc_not_table. destruct (kg_home _ _ _ _ _ _ done_ H0) as [Hfree|(q & k & o & z & Hq & HL & Ho & Hrq)].
  2:{ exact (me_apart _ _ _ _ ok o z q k g HL Hq Ho (kmalloc_old_block p h q k r g Hp Hr Hq Hrq Hg)). }
  intros path Hok Hw. destruct (pt_tab _ _ _ inv path _ Hok Hw) as (g' & _ & E & Hh & _). apply frame_addr_inj in E as <-.
  destruct (live_page_ok _ _ _ kmalloc_pmm_inv Hp) as (_ & _ & Hh').
  unfold in_block_of in Hr. rewrite kmalloc_base in Hr.
  destruct Hh as [Hlow|(x & o & Hx & Hgx)].
  - destruct (block_range _ _ _ _ kmalloc_pmm_inv Hp) as (_ & _ & Hf & _). cbn in Hf.
    assert (first_pfn (heap_pmm s') = first_pfn (heap_pmm s)).
    { destruct (kg_pmm _ _ _ _ _ _ done_) as [|e|o' dma p' pm' Hal]; [done|done|]. apply first_pfn_eq, (al_zone _ _ _ _ _ Hal). }
    change (m_pmm (mach s)) with (heap_pmm s) in Hlow. lia.
  - assert (Hgg : frame_addr x <= frame_addr g < frame_addr (x + 2 ^ o)) by (unfold frame_addr; rewrite PAGE_SIZE_eq; lia).
    assert (Hgp : frame_addr p <= frame_addr g < frame_addr (p + 2 ^ h)) by (unfold frame_addr; rewrite PAGE_SIZE_eq; lia).
    destruct (live_same_block _ x o p h (frame_addr g) kmalloc_pmm_inv (kmalloc_live _ _ Hx) Hp Hgg Hgp) as [E1 E2]. rewrite <- E1, <- E2 in Hr.
    revert Hfree. eapply live_not_free; [exact pm_inv|exact Hx|]. lia.
Qed.
End kmalloc.

Lemma kmalloc_memory D L flags size s r s' root z : memory_ok D L s root -> kmalloc_grew L flags size s r s' ->
  r <> 0 -> heap_ok (<[r := z]> L) s' -> memory_ok D (<[r := z]> L) s' root.
Proof.
  intros Hok Hg H0 Hh. split; [exact Hh|apply (kmalloc_grow _ _ _ _ _ _ _ _ Hok Hg)|].
  intros o y p h g [[<- <-]|[_ HL]]%lookup_insert_Some Hp Ho Hr.
  - by eapply (kmalloc_apart_new D L flags size s).
  - by eapply (kmalloc_apart_old D L flags size s).
Qed.

Lemma kmalloc_failed D L flags size s r s' root : memory_ok D L s root -> kmalloc_grew L flags size s r s' ->
  heap_ok L s' -> memory_ok D L s' root.
Proof.
  intros Hok Hg Hh. split; [exact Hh|apply (kmalloc_grow _ _ _ _ _ _ _ _ Hok Hg)|by eapply kmalloc_apart_old].
Qed.

(** ** Freeing an object *)

Section kfree.
Context (D : Z -> bool) (L : gmap Z Z) (s : slab) (va z : Z) (s' : slab) (root : Z).
Hypothesis ok : memory_ok D L s root.
Hypothesis at_va : L !! va = Some z.
Hypothesis freed : kfree_post L s va s'.

(** The block the object lies in. *)
Lemma kfree_block : exists p h, live (heap_pmm s) p h /\ in_block_of s p h va /\ va + z <= base s + frame_addr (p + 2 ^ h) /\
  forall g, p <= g < p + 2 ^ h -> not_table D (mach s) root g.
Proof using ok at_va.
  destruct (me_heap _ _ _ _ ok) as (F & Hi & _). destruct (live_obj_block _ _ _ _ _ Hi at_va) as (Hz & p & h & Hp & H1 & H2).
  assert (Hin : in_block_of s p h va) by (unfold in_block_of; lia). exists p, h. split_and!; try done.
  intros g Hg. by eapply (me_apart _ _ _ _ ok va z p h).
Qed.

Lemma kfree_quiet : exists p h, live (heap_pmm s) p h /\ in_block_of s p h va /\ (forall g, p <= g < p + 2 ^ h -> not_table D (mach s) root g) /\
  buddy_inv (heap_pmm s') /\ (forall q k, live (heap_pmm s') q k -> live (heap_pmm s) q k) /\
  forall g, held (heap_pmm s) g -> ~ (p <= g < p + 2 ^ h) ->
    stays (heap_pmm s) (heap_pmm s') g /\ forall i, idx_ok i -> entry (mach s') (frame_addr g) i = entry (mach s) (frame_addr g) i.
Proof using ok at_va freed.
  destruct kfree_block as (p & h & Hp & Hin & _ & Hnt). exists p, h. split; [exact Hp|]. split; [exact Hin|]. split; [exact Hnt|].
  pose proof (heap_pmm_inv _ _ (me_heap _ _ _ _ ok)) as Hi. split; [eapply heap_pmm_inv, (kf_ok _ _ _ _ freed)|].
  assert (Hpages : heap_pmm s' = heap_pmm s \/ released (heap_pmm s) p h (heap_pmm s')).
  { destruct (kf_pages _ _ _ _ freed) as [E|(q & k & Hq & Hrel)]; [by left|right].
    destruct Hrel as [Hrel Hva]. unfold in_block_of in *.
    destruct (live_same_block _ q k p h (va - base s) Hi Hq Hp) as [E1 E2]; [lia|lia|]. by rewrite <- E1, <- E2. }
  split.
  - intros q k Hq. destruct Hpages as [E|Hrel]; [by rewrite E in Hq|]. by apply (proj1 (rl_live _ _ _ _ Hrel q k)).
  - intros g Hg Hn. split.
    + destruct Hpages as [E|Hrel]; [rewrite E; by apply stays_refl|by eapply block_released_stays].
    + intros i Hx. apply (kf_ram _ _ _ _ freed). unfold in_block_of in Hin. pose proof (entry_place g i Hx) as Hplace.
      intros E. apply Hn. rewrite frame_addr_add in *. unfold frame_addr in *. rewrite PAGE_SIZE_eq in *. lia.
Qed.

Lemma kfree_memory : memory_ok D (delete va L) s' root.
Proof using ok at_va freed.
  destruct kfree_quiet as (p & h & Hp & Hin & Hnt & Hi' & Hback & Hkeep).
  pose proof (kf_ok _ _ _ _ freed) as Hok'. split; [exact Hok'| |].
  - apply (quiet_inv D _ _ _ (fun g => p <= g < p + 2 ^ h) (me_tree _ _ _ _ ok)); done.
  - intros o y q k g [_ HL]%lookup_delete_Some Hq Ho Hg.
    apply (quiet_not_table D _ _ _ (fun g => p <= g < p + 2 ^ h) (me_tree _ _ _ _ ok) Hkeep Hnt).
    unfold in_block_of in Ho. rewrite (kept_base _ _ _ (kf_kept _ _ _ _ freed)) in Ho.
    exact (me_apart _ _ _ _ ok o y q k g HL (Hback q k Hq) Ho Hg).
Qed.
Lemma kfree_mapping x : D (L0_INDEX x) = true -> mapping (mach s') root x = mapping (mach s) root x.
Proof using ok at_va freed.
  destruct kfree_quiet as (p & h & _ & _ & Hnt & _ & _ & Hkeep).
  by apply (quiet_mapping D _ _ _ (fun g => p <= g < p + 2 ^ h) (me_tree _ _ _ _ ok)).
Qed.
End kfree.

(** ** Changes of the page tables *)

(** An aligned address of a block is an entry of one of its frames. *)
Lemma word_entry a p h : frame_addr p <= a < frame_addr (p + 2 ^ h) -> a mod 8 = 0 ->
  exists g i, p <= g < p + 2 ^ h /\ idx_ok i /\ a = frame_addr g + 8 * i.
Proof.
  unfold frame_addr, PHYS_MEM_START, idx_ok, PTRS_PER_PTE. rewrite PAGE_SIZE_eq. intros Ha Hm.
  exists ((a - 0x40000000) / 4096), ((a - 0x40000000) mod 4096 / 8). split_and!; lia.
Qed.

Section tables.
Context (D : Z -> bool) (L : gmap Z Z) (s : slab) (m : machine) (root : Z).
Hypothesis ok : memory_ok D L s root.
Hypothesis tree : pt_inv D m root.
Hypothesis frame : pt_frame D (mach s) m root.

Lemma tables_base : slab_linear_map_base m = base s.
Proof using frame. by apply same_regs_base, frame. Qed.

(** The frames of a block with a live object. *)
Lemma tables_block o z p h g : L !! o = Some z -> live (heap_pmm s) p h -> in_block_of s p h o -> p <= g < p + 2 ^ h ->
  stays (heap_pmm s) (m_pmm m) g /\ not_table D m root g /\ forall i, idx_ok i -> entry m (frame_addr g) i = entry (mach s) (frame_addr g) i.
Proof using ok frame.
  intros HL Hp Ho Hg. apply (fr_rest _ _ _ _ frame); [right; by exists p, h|]. by eapply (me_apart _ _ _ _ ok o z p h).
Qed.
Lemma tables_live o z p h : L !! o = Some z -> live (heap_pmm s) p h -> in_block_of s p h o -> live (m_pmm m) p h.
Proof using ok frame.
  intros HL Hp Ho. destruct (live_page_ok _ _ _ (heap_pmm_inv _ _ (me_heap _ _ _ _ ok)) Hp) as (_ & _ & Hh).
  pose proof (pow2_pos h ltac:(lia)). by apply (st_live _ _ _ (proj1 (tables_block o z p h p HL Hp Ho ltac:(lia)))).
Qed.
Lemma tables_word o z p h a : L !! o = Some z -> live (heap_pmm s) p h -> in_block_of s p h o ->
  frame_addr p <= a < frame_addr (p + 2 ^ h) -> a mod 8 = 0 -> ram_at m a = ram_at (mach s) a.
Proof using ok frame.
  intros HL Hp Ho Ha Hm. destruct (word_entry a p h Ha Hm) as (g & i & Hg & Hi & ->).
  by apply (tables_block o z p h g HL Hp Ho Hg).
Qed.
(** The words of a live object. *)
Lemma tables_object o z k : L !! o = Some z -> 0 <= k < z -> (o + k) mod 8 = 0 -> ram_at m (o + k - base s) = ram_at (mach s) (o + k - base s).
Proof using ok frame.
  intros HL Hk Hm. destruct (me_heap _ _ _ _ ok) as (F & Hi & _). destruct (live_obj_block _ _ _ _ _ Hi HL) as (_ & p & h & Hp & H1 & H2).
  eapply (tables_word o z p h); [exact HL|exact Hp|unfold in_block_of; lia|lia|].
  destruct (si_base _ _ _ Hi) as (_ & Hb & _). lia.
Qed.

Lemma tables_slab_inv F : slab_inv F L s -> busy F s -> slab_inv F L (set_mach m s).
Proof using ok tree frame.
  intros Hi Hb. pose proof tables_base as Hbase.
  assert (Hbase' : base (set_mach m s) = base s) by exact Hbase.
  assert (Hslot : forall i, used s i -> exists o, L !! o = Some (cache_size (slot_cache s i)) /\ live (heap_pmm s) (slot_pfn s i) (cache_order (slot_cache s i)) /\
    in_block_of s (slot_pfn s i) (cache_order (slot_cache s i)) o).
  { intros i Hu. destruct (slot_has_live _ _ _ _ Hi Hu (Hb i Hu)) as (o & Ho & HL). exists o. split; [exact HL|].
    destruct (si_slots _ _ _ Hi i Hu) as [_ Hok]. split; [apply (so_live _ _ _ Hok)|by eapply slot_range]. }
  pose proof Hi as [H1 H2 H3 H4 H5 H6 H7 H8 H9 H10].
  split; rewrite ?Hbase'; [apply (pt_pmm _ _ _ tree)|exact H2|exact H3| | |exact H6|exact H7|exact H8|exact H9|].
  - intros i Hu. destruct (H4 i Hu) as [Hr Hok]. split; [exact Hr|]. destruct (Hslot i Hu) as (x & HL & Hp & Hx).
    eapply slot_ok_frame; [exact Hok|reflexivity|exact Hbase| |by eapply tables_live].
    intros o Ho. unfold word. rewrite Hbase'. destruct (so_fl _ _ _ Hok) as [_ Hobj]. specialize (Hobj o Ho).
    pose proof (obj_aligned _ _ _ _ _ Hi Hu Hobj) as H8'. destruct H2 as (_ & Hb4 & _).
    eapply (tables_word x); [exact HL|exact Hp|exact Hx| |lia]. pose proof (slot_range _ _ _ _ _ Hi Hu Hobj). lia.
  - intros i Hu. destruct (H5 i Hu) as [Hr Hok]. split; [exact Hr|].
    eapply large_ok_frame; [exact Hok|reflexivity|exact Hbase|].
    assert (HL : L !! la_va (la_at s i) = Some (PAGE_SIZE * 2 ^ la_order (la_at s i))) by (apply H10; by eapply (LiveLarge _ _ _ _ i)).
    eapply tables_live; [exact HL|apply (lo_live _ _ Hok)|]. unfold in_block_of. rewrite (lo_va _ _ Hok), frame_addr_add, PAGE_SIZE_eq.
    destruct (live_page_ok _ _ _ H1 (lo_live _ _ Hok)) as (_ & _ & Ho). pose proof (pow2_pos (la_order (la_at s i)) ltac:(lia)). lia.
  - intros o z. rewrite H10. symmetry. by apply live_obj_frame.
Qed.

Lemma tables_memory : memory_ok D L (set_mach m s) root.
Proof using ok tree frame.
  pose proof (me_heap _ _ _ _ ok) as Hheap. destruct Hheap as (F & Hi & Hb & Hl). split; [|exact tree|].
  - exists F. split; [by apply tables_slab_inv|]. by split.
  - intros o z p h g HL Hp Ho Hg. destruct (live_obj_block _ _ _ _ _ Hi HL) as (Hz & q & k & Hq & H1 & H2).
    assert (Hin : in_block_of s q k o) by (unfold in_block_of; lia).
    destruct (live_same_block _ p h q k (o - base s) (pt_pmm _ _ _ tree) Hp (tables_live o z q k HL Hq Hin)) as [E1 E2].
    + unfold in_block_of in Ho. change (base (set_mach m s)) with (slab_linear_map_base m) in Ho. rewrite tables_base in Ho. lia.
    + unfold in_block_of in Hin. lia.
    + rewrite E1, E2 in Hg. by apply (tables_block o z q k g HL Hq Hin Hg).
Qed.
End tables.

(** ** Stores to an object *)

(** Free objects and live objects have no address in common. *)
Lemma free_obj_apart F L s i x o z k : slab_inv F L s -> used s i -> x ∈ F i -> L !! o = Some z -> 0 <= k < z -> x <> o + k.
Proof.
  intros Hi Hu Hx HL Hk ->. destruct (si_slots _ _ _ Hi i Hu) as [_ Hok]. destruct (so_fl _ _ _ Hok) as [_ Hobj].
  specialize (Hobj _ Hx). pose proof (slot_range _ _ _ _ _ Hi Hu Hobj) as Hrange.
  destruct (live_obj_block _ _ _ _ _ Hi HL) as (_ & p & h & Hp & H1 & H2).
  destruct (live_same_block _ (slot_pfn s i) (cache_order (slot_cache s i)) p h (o + k - base s) (si_pmm _ _ _ Hi) (so_live _ _ _ Hok) Hp) as [E1 E2];
    [lia|lia|].
  apply (si_live _ _ _ Hi) in HL as [j Hv Ho Hn ->|j Hv -> ->].
  - destruct (si_slots _ _ _ Hi j Hv) as [_ Hokj]. pose proof (slot_range _ _ _ _ _ Hi Hv Ho) as Hrange'.
    destruct (so_cache _ _ _ Hokj) as [Hc _]. pose proof (cache_size_pos _ Hc).
    destruct (live_same_block _ (slot_pfn s j) (cache_order (slot_cache s j)) p h (o - base s) (si_pmm _ _ _ Hi) (so_live _ _ _ Hokj) Hp) as [E3 _];
      [lia|lia|].
    assert (i = j) as <- by (apply (si_slots_ne _ _ _ Hi); congruence).
    destruct (same_slot_disjoint (sp_va (sp_at s i)) (slot_cache s i) (o + k) o); [lia|done|done| |lia|lia]. intros E. by rewrite E in Hx.
  - destruct (si_larges _ _ _ Hi j Hv) as [_ Hokj]. rewrite (lo_va _ _ Hokj) in *.
    destruct (live_page_ok _ _ _ (si_pmm _ _ _ Hi) (lo_live _ _ Hokj)) as (_ & _ & Hh). pose proof (pow2_pos (la_order (la_at s j)) ltac:(lia)).
    destruct (live_same_block _ (large_pfn s j) (la_order (la_at s j)) p h (frame_addr (large_pfn s j)) (si_pmm _ _ _ Hi) (lo_live _ _ Hokj) Hp) as [E3 _].
    + unfold frame_addr. rewrite PAGE_SIZE_eq. lia.
    + rewrite !frame_addr_add in *. rewrite PAGE_SIZE_eq in *. lia.
    + apply (si_mixed_ne _ _ _ Hi i j Hu Hv). congruence.
Qed.

(** The machine after a store to the address [a] of the linear map. *)
Definition stored (s : slab) (a v : Z) : machine := set_ram (<[a - base s := v]> (m_ram (mach s))) (mach s).

Section store.
Context (D : Z -> bool) (L : gmap Z Z) (s : slab) (root o z k v : Z).
Hypothesis ok : memory_ok D L s root.
Hypothesis at_o : L !! o = Some z.
Hypothesis inside : 0 <= k < z.

Lemma stored_at b : ram_at (stored s (o + k) v) b = if decide (b = o + k - base s) then v else ram_at (mach s) b.
Proof using. unfold ram_at, stored. cbn. rewrite lookup_insert. repeat case_decide; subst; done. Qed.

Lemma store_heap : heap_ok L (set_mach (stored s (o + k) v) s).
Proof using ok at_o inside.
  destruct (me_heap _ _ _ _ ok) as (F & Hi & Hb & Hl). exists F. split; [|by split].
  pose proof Hi as [H1 H2 H3 H4 H5 H6 H7 H8 H9 H10].
  split; [exact H1|exact H2|exact H3| | |exact H6|exact H7|exact H8|exact H9|].
  - intros i Hu. destruct (H4 i Hu) as [Hr Hok]. split; [exact Hr|].
    eapply slot_ok_frame; [exact Hok|reflexivity|reflexivity| |apply (so_live _ _ _ Hok)].
    intros x Hx. unfold word. change (mach (set_mach (stored s (o + k) v) s)) with (stored s (o + k) v). rewrite stored_at.
    rewrite decide_False; [reflexivity|]. change (base (set_mach (stored s (o + k) v) s)) with (base s).
    pose proof (free_obj_apart F L s i x o z k Hi Hu Hx at_o inside). lia.
  - intros i Hu. destruct (H5 i Hu) as [Hr Hok]. split; [exact Hr|]. destruct Hok. split; assumption.
  - intros x y. rewrite H10. symmetry. by apply live_obj_frame.
Qed.

Lemma store_keep : exists p h, live (heap_pmm s) p h /\ in_block_of s p h o /\ o + z <= base s + frame_addr (p + 2 ^ h) /\
  (forall g, p <= g < p + 2 ^ h -> not_table D (mach s) root g) /\
  forall g, held (heap_pmm s) g -> ~ (p <= g < p + 2 ^ h) -> stays (heap_pmm s) (heap_pmm s) g /\
    forall i, idx_ok i -> entry (stored s (o + k) v) (frame_addr g) i = entry (mach s) (frame_addr g) i.
Proof using ok at_o inside.
  destruct (kfree_block D L s o z root ok at_o) as (p & h & Hp & Hin & Hend & Hnt). exists p, h. split_and!; try done.
  intros g Hg Hn. split; [by apply stays_refl|]. intros i Hx. unfold entry. rewrite stored_at. rewrite decide_False; [done|].
  intros E. apply Hn. unfold in_block_of in Hin. pose proof (entry_place g i Hx) as Hplace. rewrite E in Hplace.
  rewrite !frame_addr_add in *. unfold frame_addr in *. rewrite PAGE_SIZE_eq in *. lia.
Qed.

Lemma store_memory : memory_ok D L (set_mach (stored s (o + k) v) s) root.
Proof using ok at_o inside.
  destruct store_keep as (p & h & Hp & Hin & _ & Hnt & Hkeep). pose proof (me_tree _ _ _ _ ok) as Hi. split.
  - apply store_heap.
  - apply (quiet_inv D (mach s) (stored s (o + k) v) root (fun g => p <= g < p + 2 ^ h)); [done|apply (pt_pmm _ _ _ Hi)|done|done].
  - intros x y q j g HL Hq Hx Hg.
    apply (quiet_not_table D (mach s) (stored s (o + k) v) root (fun g => p <= g < p + 2 ^ h) Hi Hkeep Hnt). by apply (me_apart _ _ _ _ ok x y q j).
Qed.
Lemma store_mapping va : D (L0_INDEX va) = true -> mapping (stored s (o + k) v) root va = mapping (mach s) root va.
Proof using ok at_o inside.
  destruct store_keep as (p & h & _ & _ & _ & Hnt & Hkeep).
  by apply (quiet_mapping D (mach s) _ root (fun g => p <= g < p + 2 ^ h) (me_tree _ _ _ _ ok)).
Qed.
End store.

(** The address of a word of an object, as the processor translates it. *)
Lemma object_addr F L s o z k : slab_inv F L s -> L !! o = Some z -> 0 <= k < z -> (o + k) mod 8 = 0 -> ram_ok (o + k - base s) = true.
Proof.
  intros Hi HL Hk Hm. destruct (live_obj_block _ _ _ _ _ Hi HL) as (_ & p & h & Hp & H1 & H2). destruct (si_base _ _ _ Hi) as (_ & Hb & _).
  destruct (live_page_ok _ _ _ (si_pmm _ _ _ Hi) Hp) as (Hok & Ht & Hh). rewrite frame_addr_add in H2.
  unfold ram_ok, page_ok, frame_addr, PHYS_MEM_START, PHYS_MEM_END in *. rewrite TOTAL_PAGES_eq, PAGE_SIZE_eq in *. lia.
Qed.

(** ** Several allocations *)

(** The linear map and the roots of the trees are the same. *)
Record same_roots (m m' : machine) : Prop := {
  sr_base : slab_linear_map_base m' = slab_linear_map_base m;
  sr_l0 : slab_l0_table_pa m' = slab_l0_table_pa m;
  sr_ttbr0 : ttbr0_el1 m' = ttbr0_el1 m;
  sr_ttbr1 : ttbr1_el1 m' = ttbr1_el1 m;
}.
Lemma same_roots_trans m1 m2 m3 : same_roots m1 m2 -> same_roots m2 m3 -> same_roots m1 m3.
Proof. intros [] []. split; congruence. Qed.
Lemma regs_roots m m' : same_regs m m' -> same_roots m m'.
Proof. by intros ->. Qed.
Lemma other_roots m m' : other_regs m m' -> same_roots m m'.
Proof. by intros (d & lin & l0 & ->). Qed.

Section other_regs.
Context (D : Z -> bool) (L : gmap Z Z) (s : slab) (m : machine) (root : Z).
Hypothesis ok : memory_ok D L s root.
Hypothesis regs : other_regs (mach s) m.

Lemma regs_keep g : held (heap_pmm s) g -> ~ False -> stays (heap_pmm s) (m_pmm m) g /\
  forall i, idx_ok i -> entry m (frame_addr g) i = entry (mach s) (frame_addr g) i.
Proof using regs. intros Hg _. destruct regs as (d & lin & l0 & ->). split; [by apply stays_refl|done]. Qed.
Lemma regs_memory : memory_ok D L (set_mach m s) root.
Proof using ok regs.
  pose proof (me_tree _ _ _ _ ok) as Ht. split; [by apply heap_ok_regs; [apply ok|]|..].
  - apply (quiet_inv D (mach s) m root (fun _ => False) Ht); [|exact regs_keep|done].
    destruct regs as (d & lin & l0 & ->). apply (pt_pmm _ _ _ Ht).
  - intros o z p h g HL Hp Ho Hg. apply (quiet_not_table D (mach s) m root (fun _ => False) Ht regs_keep); [done|].
    eapply (me_apart _ _ _ _ ok o z p h); [exact HL| | |exact Hg]; destruct regs as (d & lin & l0 & ->); [exact Hp|exact Ho].
Qed.
Lemma regs_mapping va : D (L0_INDEX va) = true -> mapping m root va = mapping (mach s) root va.
Proof using ok regs. apply (quiet_mapping D (mach s) m root (fun _ => False) (me_tree _ _ _ _ ok) regs_keep). done. Qed.
End other_regs.

Lemma heap_run_memory D L s L' s' root : heap_run L s L' s' -> memory_ok D L s root ->
  memory_ok D L' s' root /\ same_roots (mach s) (mach s') /\
  forall va, D (L0_INDEX va) = true -> mapping (mach s') root va = mapping (mach s) root va.
Proof.
  intros Hrun Hok. induction Hrun as [|L1 s1 m _ IH Hr|L1 s1 flags size s2 _ IH Hg Hh|L1 s1 flags size r z s2 _ IH Hg H0 _ Hh].
  - split; [exact Hok|]. split; [by split|done].
  - destruct IH as (Hok1 & Hr1 & Hm). split; [by apply regs_memory|].
    split; [eapply same_roots_trans; [exact Hr1|by apply other_roots]|]. intros va HD. rewrite <- Hm by done. by apply (regs_mapping D L1 s1).
  - destruct IH as (Hok1 & Hr & Hm). pose proof (kmalloc_grow _ _ _ _ _ _ _ _ Hok1 Hg) as Hgrow. split; [by eapply kmalloc_failed|].
    split; [by eapply same_roots_trans, regs_roots, (fr_regs _ _ _ _ (gr_frame _ _ _ _ Hgrow))|].
    intros va HD. by rewrite (grow_mapping D _ _ _ _ Hgrow HD), Hm.
  - destruct IH as (Hok1 & Hr & Hm). pose proof (kmalloc_grow _ _ _ _ _ _ _ _ Hok1 Hg) as Hgrow. split; [by eapply kmalloc_memory|].
    split; [by eapply same_roots_trans, regs_roots, (fr_regs _ _ _ _ (gr_frame _ _ _ _ Hgrow))|].
    intros va HD. by rewrite (grow_mapping D _ _ _ _ Hgrow HD), Hm.
Qed.
