(* ===== verification/MemoryProps.v ===== *)
(** The kernel's memory as its clients see it: objects that keep their contents and a map of pages.

    The abstract memory knows no page allocator, no slabs and no tables.  Every client program that uses it as it
    may be used gets from [kernel/slab.c] and [kernel/mmu.c], working on the same pages, results the abstract memory
    allows. *)
From S2P Require Import Prelude ListHead Pmm PmmTheory PmmOps PmmInit PmmProps Sync Machine Mmu MmuTheory MmuProps UserPages Slab SlabTheory SlabOps SlabFree SlabProps SlabSample Memory.

(** ** The calls *)

Inductive mem_call : Type :=
| CallKmalloc (size flags : Z)
| CallKfree (va : Z)
| CallLoad (va : Z)
| CallStore (va v : Z)
| CallMap (va pa prot : Z)
| CallUnmap (va : Z)
| CallTranslate (va : Z).

Definition exec (c : mem_call) : M slab Z :=
  match c with
  | CallKmalloc size flags => kmalloc size flags
  | CallKfree va => _ ← kfree va; mret 0
  | CallLoad va => on_mach (ld64 va)
  | CallStore va v => _ ← on_mach (st64 va v); mret 0
  | CallMap va pa prot => on_mach (map_page va pa prot)
  | CallUnmap va => _ ← on_mach (unmap_page va); mret 0
  | CallTranslate va => on_mach (get_phys_from_va va)
  end.

(** A client: calls whose arguments depend on earlier results. *)
Inductive client : Type :=
| Finish (v : Z)
| Call (c : mem_call) (k : Z -> client).
Fixpoint exec_client (p : client) : M slab Z :=
  match p with Finish v => mret v | Call c k => r ← exec c; exec_client (k r) end.

(** ** The abstract memory *)

Record kspace := KSpace { objects : gmap Z Z; words : Z -> Z; pages : Z -> option Z }.

(** [a] is the address of a word of an object. *)
Definition word_of (L : gmap Z Z) (a : Z) : Prop := exists o z k, L !! o = Some z /\ 0 <= k < z /\ a = o + k /\ a mod 8 = 0.

Inductive spec_step (t : kspace) : mem_call -> Z -> kspace -> Prop :=
| SpecKmalloc size flags r z w : r <> 0 -> r mod 8 = 0 -> 0 < size <= z ->
    (forall o y, objects t !! o = Some y -> o + y <= r \/ r + z <= o) -> (forall a, word_of (objects t) a -> w a = words t a) ->
    spec_step t (CallKmalloc size flags) r (KSpace (<[r := z]> (objects t)) w (pages t))
| SpecNoMemory size flags : spec_step t (CallKmalloc size flags) 0 t
| SpecKfree va w : is_Some (objects t !! va) -> (forall a, word_of (delete va (objects t)) a -> w a = words t a) ->
    spec_step t (CallKfree va) 0 (KSpace (delete va (objects t)) w (pages t))
| SpecKfreeNull : spec_step t (CallKfree 0) 0 t
| SpecLoad va : spec_step t (CallLoad va) (words t va) t
| SpecStore va v w : w va = v -> (forall a, word_of (objects t) a -> a <> va -> w a = words t a) ->
    spec_step t (CallStore va v) 0 (KSpace (objects t) w (pages t))
| SpecMap va pa prot g : (forall x, g x = if decide (same_page x va) then Some (Z.lor prot (Z.land pa ARM64_PTE_ADDR_MASK)) else pages t x) ->
    spec_step t (CallMap va pa prot) 0 (KSpace (objects t) (words t) g)
| SpecNoTable va pa prot : spec_step t (CallMap va pa prot) (-1) t
| SpecUnmap va g : (forall x, g x = if decide (same_page x va) then None else pages t x) ->
    spec_step t (CallUnmap va) 0 (KSpace (objects t) (words t) g)
| SpecTranslate va : spec_step t (CallTranslate va) (match pages t va with Some e => pte_to_phys e | None => 0 end) t.

(** What a client may do: free live objects or NULL, touch words of live objects, map valid entries at kernel addresses. *)
Definition permitted (D : Z -> bool) (t : kspace) (c : mem_call) : Prop :=
  match c with
  | CallKmalloc size _ => 0 <= size
  | CallKfree va => va = 0 \/ is_Some (objects t !! va)
  | CallLoad va | CallStore va _ => word_of (objects t) va
  | CallMap va pa prot => is_user_addr va = false /\ D (L0_INDEX va) = true /\ pte_present (Z.lor prot (Z.land pa ARM64_PTE_ADDR_MASK)) = true
  | CallUnmap va | CallTranslate va => is_user_addr va = false /\ D (L0_INDEX va) = true
  end.
Fixpoint permitted_client D (t : kspace) (p : client) : Prop :=
  match p with
  | Finish _ => True
  | Call c k => permitted D t c /\ forall r t', spec_step t c r t' -> permitted_client D t' (k r)
  end.

Inductive spec_run : kspace -> client -> Z -> kspace -> Prop :=
| SpecFinish t v : spec_run t (Finish v) v t
| SpecCall t c k r t' v t'' : spec_step t c r t' -> spec_run t' (k r) v t'' -> spec_run t (Call c k) v t''.

(** ** The machine represents it *)

Record represents D (s : slab) (t : kspace) : Prop := {
  rp_memory : memory_ok D (objects t) s (ttbr1_el1 (mach s));
  rp_words : forall a, word_of (objects t) a -> ram_at (mach s) (a - base s) = words t a;
  rp_pages : forall va, D (L0_INDEX va) = true -> mapping (mach s) (ttbr1_el1 (mach s)) va = pages t va;
}.

(** ** One call *)

Definition simulated D (t : kspace) (c : mem_call) (r : Z) (s' : slab) : Prop := exists t', spec_step t c r t' /\ represents D s' t'.

Section calls.
Context (D : Z -> bool) (s : slab) (t : kspace).
Hypothesis rep : represents D s t.

Let ok : memory_ok D (objects t) s (ttbr1_el1 (mach s)) := rp_memory _ _ _ rep.

Lemma root_kept m : same_regs (mach s) m -> ttbr1_el1 m = ttbr1_el1 (mach s).
Proof using. by intros ->. Qed.

(** A state whose words are read off memory. *)
Lemma rep_heap L s' : memory_ok D L s' (ttbr1_el1 (mach s)) -> same_regs (mach s) (mach s') ->
  (forall va, D (L0_INDEX va) = true -> mapping (mach s') (ttbr1_el1 (mach s)) va = mapping (mach s) (ttbr1_el1 (mach s)) va) ->
  represents D s' (KSpace L (fun a => ram_at (mach s') (a - base s')) (pages t)).
Proof using rep.
  intros Hok Hr Hm. split; cbn; rewrite ?(root_kept _ Hr); [exact Hok|done|]. intros va HD. rewrite Hm by done. by apply (rp_pages _ _ _ rep).
Qed.

Lemma sim_kmalloc size flags : 0 <= size -> wp (kmalloc size flags) (simulated D t (CallKmalloc size flags)) s.
Proof using ok rep.
  intros Hs. destruct (decide (0 < size <= SZ_4M)) as [Hsz|Hsz].
  2:{ assert (E : kmalloc size flags = mret 0).
      { unfold kmalloc. destruct (Z.eqb_spec size 0) as [->|]; [done|]. by replace (size >? SZ_4M) with true by lia. }
      rewrite E. apply wp_ret. exists t. split; [constructor|done]. }
  eapply wp_mono; [apply (wp_kmalloc_grew (objects t)); [apply ok|exact Hsz]|]. intros r s' Hg.
  pose proof (kmalloc_grow _ _ _ _ _ _ _ _ ok Hg) as Htree. pose proof (fr_regs _ _ _ _ (gr_frame _ _ _ _ Htree)) as Hregs.
  assert (Hm : forall va, D (L0_INDEX va) = true -> mapping (mach s') (ttbr1_el1 (mach s)) va = mapping (mach s) (ttbr1_el1 (mach s)) va).
  { intros va HD. by apply (grow_mapping D). }
  destruct (kg_post _ _ _ _ _ _ Hg) as [Hkept Hr]. pose proof (kept_base _ _ _ Hkept) as Hb.
  assert (Hw : forall a, word_of (objects t) a -> ram_at (mach s') (a - base s') = words t a).
  { intros a (o & z & k & HL & Hk & -> & H8). rewrite Hb, (hk_bytes _ _ _ Hkept o z k HL Hk).
    apply (rp_words _ _ _ rep). by exists o, z, k. }
  destruct Hr as [(-> & Hok' & _)|(H0 & H8 & z & Hz & HLn & Hok')].
  - exists t. split; [constructor|]. split; rewrite ?(root_kept _ Hregs).
    + by eapply kmalloc_failed.
    + exact Hw.
    + intros va HD. rewrite Hm by done. by apply (rp_pages _ _ _ rep).
  - eexists. split; [|eapply rep_heap; [by eapply kmalloc_memory|exact Hregs|exact Hm]].
    apply SpecKmalloc; [done|done|lia| |exact Hw]. intros o y Ho. destruct Hok' as (F & Hi' & _).
    apply (live_objs_disjoint F (<[r := z]> (objects t)) s'); [exact Hi'| |apply lookup_insert_eq|].
    + rewrite lookup_insert_ne; [done|]. intros ->. congruence.
    + intros ->. congruence.
Qed.

Lemma sim_kfree va : va = 0 \/ is_Some (objects t !! va) -> wp (kfree va) (fun _ => simulated D t (CallKfree va) 0) s.
Proof using ok rep.
  intros Hva. destruct (decide (va = 0)) as [->|H0].
  { apply (wp_ret tt). exists t. split; [constructor|done]. }
  destruct Hva as [|[z Hz]]; [done|]. eapply wp_mono; [apply (wp_kfree (objects t) va z); [apply ok|exact Hz]|]. intros [] s' Hp.
  pose proof (kf_kept _ _ _ _ Hp) as Hkept. pose proof (kept_base _ _ _ Hkept) as Hb.
  eexists. split; [|eapply rep_heap; [by eapply (kfree_memory D (objects t) s va z)|by eapply kept_regs|]].
  - apply SpecKfree; [by exists z|]. intros a (o & y & k & HL & Hk & -> & H8).
    rewrite Hb, (hk_bytes _ _ _ Hkept o y k HL Hk). apply (rp_words _ _ _ rep).
    apply lookup_delete_Some in HL as [_ HL]. by exists o, y, k.
  - intros x HD. by eapply (kfree_mapping D (objects t) s va z).
Qed.

Lemma word_va a : word_of (objects t) a -> ram_ok (a - base s) = true /\ base_ok (base s).
Proof using ok rep.
  intros (o & z & k & HL & Hk & -> & H8). pose proof (me_heap _ _ _ _ ok) as Hh. destruct Hh as (F & Hi & _).
  split; [by eapply object_addr|apply (si_base _ _ _ Hi)].
Qed.

Lemma sim_load va : word_of (objects t) va -> wp (on_mach (ld64 va)) (simulated D t (CallLoad va)) s.
Proof using ok rep.
  intros Hw. destruct (word_va va Hw) as [Hram Hb]. apply wp_on_mach.
  replace va with (base s + (va - base s)) at 1 by lia. apply wp_ld64_va; [exact Hb|reflexivity|exact Hram|].
  rewrite (rp_words _ _ _ rep va Hw), set_mach_id. exists t. split; [constructor|done].
Qed.

Lemma sim_store va v : word_of (objects t) va -> wp (on_mach (st64 va v)) (fun _ => simulated D t (CallStore va v) 0) s.
Proof using ok rep.
  intros Hw. destruct (word_va va Hw) as [Hram Hb]. apply wp_on_mach.
  replace va with (base s + (va - base s)) at 1 by lia. apply wp_st64_va; [exact Hb|reflexivity|exact Hram|].
  change (set_ram (<[va - base s := v]> (m_ram (mach s))) (mach s)) with (stored s va v).
  destruct Hw as (o & z & k & HL & Hk & -> & H8).
  eexists. split; [|eapply (rep_heap (objects t)); [by eapply (store_memory D (objects t) s _ o z)|done|]].
  - apply SpecStore.
    + change (ram_at (stored s (o + k) v) (o + k - base s) = v). by rewrite stored_at, decide_True.
    + intros a Ha Hne. change (ram_at (stored s (o + k) v) (a - base s) = words t a).
      rewrite stored_at, decide_False by lia. by apply (rp_words _ _ _ rep).
  - intros x HD. by eapply (store_mapping D (objects t) s _ o z).
Qed.

(** A change of the tables leaves the objects and their words alone. *)
Lemma rep_tables m g : pt_inv D m (ttbr1_el1 (mach s)) -> pt_frame D (mach s) m (ttbr1_el1 (mach s)) ->
  (forall va, D (L0_INDEX va) = true -> mapping m (ttbr1_el1 (mach s)) va = g va) ->
  represents D (set_mach m s) (KSpace (objects t) (words t) g).
Proof using ok rep.
  intros Hi Hf Hg. pose proof (tables_base D s m _ Hf) as Hb.
  split; cbn; rewrite ?(root_kept _ (fr_regs _ _ _ _ Hf)); [by apply (tables_memory D)| |done].
  intros a Ha. change (base (set_mach m s)) with (slab_linear_map_base m). rewrite Hb.
  pose proof Ha as (o & z & k & HL & Hk & -> & H8). rewrite (tables_object D (objects t) s m _ ok Hf o z k HL Hk H8).
  by apply (rp_words _ _ _ rep).
Qed.

Lemma kernel_root va : is_user_addr va = false -> root_of (mach s) va = ttbr1_el1 (mach s).
Proof using. unfold root_of. by intros ->. Qed.

Lemma sim_map va pa prot : permitted D t (CallMap va pa prot) -> wp (on_mach (map_page va pa prot)) (simulated D t (CallMap va pa prot)) s.
Proof using ok rep.
  intros (Hk & HD & He). pose proof (kernel_root va Hk) as Hroot. apply wp_on_mach.
  apply (wp_map_one_page D); rewrite ?Hroot; [apply ok|exact HD| |].
  - intros m Hg _. exists (KSpace (objects t) (words t) (pages t)). split; [destruct t; constructor|].
    apply rep_tables; [apply Hg|apply Hg|]. intros x Hx. rewrite (grow_mapping D _ _ _ _ Hg Hx). by apply (rp_pages _ _ _ rep).
  - intros m Hi Hf Hm _. eexists (KSpace (objects t) (words t) _). split; [by apply SpecMap|].
    apply rep_tables; [exact Hi|exact Hf|]. intros x Hx. rewrite Hm by done. cbv zeta. rewrite He, <- (rp_pages _ _ _ rep x Hx). reflexivity.
Qed.

Lemma sim_unmap va : permitted D t (CallUnmap va) -> wp (on_mach (unmap_page va)) (fun _ => simulated D t (CallUnmap va) 0) s.
Proof using ok rep.
  intros (Hk & HD). pose proof (kernel_root va Hk) as Hroot. apply wp_on_mach.
  apply (wp_unmap_one_page D); rewrite ?Hroot; [apply ok|exact HD|]. intros m [Hi Hm Hf _].
  eexists (KSpace (objects t) (words t) _). split; [by apply SpecUnmap|].
  apply rep_tables; [exact Hi|exact Hf|]. intros x Hx. rewrite Hm by done. rewrite <- (rp_pages _ _ _ rep x Hx). reflexivity.
Qed.

Lemma sim_translate va : permitted D t (CallTranslate va) -> wp (on_mach (get_phys_from_va va)) (simulated D t (CallTranslate va)) s.
Proof using ok rep.
  intros (Hk & HD). pose proof (kernel_root va Hk) as Hroot. apply wp_on_mach.
  apply (wp_get_phys_from_va D); rewrite ?Hroot; [apply ok|exact HD|].
  rewrite (rp_pages _ _ _ rep va HD), set_mach_id. exists t. split; [constructor|done].
Qed.

Lemma wp_exec c : permitted D t c -> wp (exec c) (simulated D t c) s.
Proof using ok rep.
  intros Hp. destruct c; cbn [exec]; cbn in Hp.
  - by apply sim_kmalloc.
  - wp_step. eapply wp_mono; [by apply sim_kfree|]. intros [] s' Hs. by apply wp_ret.
  - by apply sim_load.
  - wp_step. eapply wp_mono; [by apply sim_store|]. intros [] s' Hs. by apply wp_ret.
  - by apply sim_map.
  - wp_step. eapply wp_mono; [by apply sim_unmap|]. intros [] s' Hs. by apply wp_ret.
  - by apply sim_translate.
Qed.
End calls.

(** ** Whole clients *)

(** C13: the heap of [kernel/slab.c] and the page tables of [kernel/mmu.c], working on one page allocator and one
    memory, refine the abstract memory in which objects keep their contents and addresses map to what they were
    mapped to.  A client of any length that frees only live objects (or NULL), touches only words of live objects and
    maps valid entries at kernel addresses runs to its end, and what it sees and leaves is a run of the abstract
    memory: [kmalloc] hands out objects apart from all live ones, no allocation, release or change of the tables
    touches the contents of another object or the mapping of another page, and every load, translation and release
    finds what was last put there. *)
Theorem memory_refinement D p s t : represents D s t -> permitted_client D t p ->
  exists v s', exec_client p s = Done (v, s') /\ exists t', spec_run t p v t' /\ represents D s' t'.
Proof.
  intros Hr Hp. apply (wp_done _ (fun v s' => exists t', spec_run t p v t' /\ represents D s' t')).
  revert s t Hr Hp. induction p as [v|c k IH]; intros s t Hr Hp; cbn [exec_client].
  - apply wp_ret. exists t. split; [constructor|done].
  - destruct Hp as [Hc Hk]. wp_step. eapply wp_mono; [by apply (wp_exec D s t Hr)|]. intros r s' (t' & Hs & Hr').
    eapply wp_mono; [by apply (IH r s' t' Hr'), Hk|]. intros v s'' (t'' & Hrun & Hr''). exists t''. split; [by econstructor|done].
Qed.

(** ** A client of a booted kernel *)

(** A kernel with one object, as the abstract memory and as the machine. *)
Lemma sample_kspace : exists s t a z, represents (fun _ => true) s t /\ objects t = {[a := z]} /\ 64 <= z /\ a mod 8 = 0 /\ 0 < a.
Proof.
  destruct booted as [pm Hpm]. set (s0 := sample_heap pm).
  assert (Hinit : wp slab_init (fun _ s => heap_ok ∅ s /\ mach s = mach s0) s0).
  { apply wp_slab_init; [apply (in_inv _ _ Hpm)|vm_compute; repeat split|reflexivity]. }
  destruct (wp_done _ _ _ Hinit) as (u & s & Hrun & Hok & Hm).
  assert (Hi : pt_inv (fun _ => true) (sample_machine pm) (frame_addr 5)) by (apply sample_pt_inv; [done|lia]).
  assert (Hrep : represents (fun _ => true) s (KSpace ∅ (fun _ => 0) (fun _ => None))).
  { split; cbn; rewrite Hm.
    - split; [exact Hok|by rewrite Hm|by intros ????? Hl%lookup_empty_Some].
    - by intros a (o & z & k & Hl%lookup_empty_Some & _).
    - intros va _. unfold mapping, leaf, table_path. cbn [walk]. unfold entry, ram_at. cbn. by rewrite lookup_empty. }
  assert (Hroom : room s).
  { apply (roomy_room 0 ∅); [|lia]. split; [exact Hok|done|]. exists []. unfold heap_pmm. rewrite Hm. by split; [|apply spare_start]. }
  destruct (wp_done _ _ _ (wp_exec _ _ _ Hrep (CallKmalloc 64 GFP_KERNEL) ltac:(done))) as (r & s' & Hrun' & t' & Hstep & Hrep').
  pose proof (wp_kmalloc_room ∅ 64 s Hok Hroom ltac:(lia)) as Hgot. unfold wp in Hgot. cbn [exec] in Hrun'. rewrite Hrun' in Hgot.
  destruct Hgot as (Hr & _). inversion Hstep; subst; [|lia]. eexists s', _, r, z. split; [exact Hrep'|]. split_and!; try done; lia.
Qed.

(** Stores a word, maps a page, reads the word back and frees the object. *)
Definition sample_client (a : Z) : client :=
  Call (CallStore a 7) (fun _ => Call (CallMap sample_va 0x40500000 PAGE_KERNEL_RW) (fun _ =>
  Call (CallLoad a) (fun v => Call (CallKfree a) (fun _ => Finish v)))).

Lemma sample_permitted t a z : objects t = {[a := z]} -> 64 <= z -> a mod 8 = 0 -> permitted_client (fun _ => true) t (sample_client a).
Proof.
  intros Ht Hz Ha. assert (Hw : word_of {[a := z]} a).
  { exists a, z, 0. rewrite lookup_singleton_eq. repeat split; lia. }
  cbn [sample_client permitted_client permitted]. rewrite Ht. split; [exact Hw|]. intros r1 t1 Hs1. inversion Hs1; subst.
  split; [done|]. intros r2 t2 Hs2. inversion Hs2; subst; cbn; rewrite Ht; (split; [exact Hw|]); intros r3 t3 Hs3; inversion Hs3; subst; cbn;
    rewrite ?Ht; (split; [right; rewrite lookup_singleton_eq; by eexists|done]).
Qed.
Lemma sample_result t a v t' : spec_run t (sample_client a) v t' -> v = 7.
Proof.
  intros Hr. inversion_clear Hr as [|???? t1 ?? Hs1 Hr1]. inversion Hs1; subst.
  inversion_clear Hr1 as [|???? t2 ?? Hs2 Hr2]. inversion_clear Hr2 as [|???? t3 ?? Hs3 Hr3]. inversion_clear Hr3 as [|???? t4 ?? Hs4 Hr4].
  inversion Hr4; subst. inversion Hs2; subst; inversion Hs3; by subst.
Qed.

Lemma memory_refinement_witness : exists s t a, represents (fun _ => true) s t /\ permitted_client (fun _ => true) t (sample_client a) /\
  exists s', exec_client (sample_client a) s = Done (7, s').
Proof.
  destruct sample_kspace as (s & t & a & z & Hr & Ht & Hz & Ha & H0). exists s, t, a. split; [exact Hr|].
  pose proof (sample_permitted t a z Ht Hz Ha) as Hp. split; [exact Hp|].
  destruct (memory_refinement (fun _ => true) (sample_client a) s t Hr Hp) as (v & s' & Hrun & t' & Hspec & _).
  exists s'. rewrite Hrun. rewrite (sample_result t a v t' Hspec). reflexivity.
Defined.
