(* ===== verification/PageSample.v ===== *)
(** Concrete states for the examples of the files on process memory: a tree with a user page, and an allocator with room. *)
From S2P Require Import Prelude ListHead Pmm PmmTheory PmmOps PmmInit PmmProps Machine Mmu MmuTheory MmuProps UserPages SlabSample Slab.

(** ** A process with a page *)

Definition everywhere : Z -> bool := fun _ => true.

(** A tree with a table at the path [p], its entries all absent, and an allocator with room left. *)
Record table_at (s : machine) root (p ps : list Z) : Prop := {
  ta_inv : pt_inv everywhere s root;
  ta_spare : spare ps (m_pmm s);
  ta_none : forall va, mapping s root va = None;
  ta_table : exists f, page_ok f /\ walk s root p = Some (frame_addr f) /\ forall i, idx_ok i -> entry s (frame_addr f) i = 0;
}.

Lemma table_below s root p ps i : table_at s root p ps -> path_ok everywhere (p ++ [i]) -> (length ps <= 5)%nat ->
  exists s' n, table_at s' root (p ++ [i]) (n :: ps) /\ same_regs s s'.
Proof.
  intros [Hi Hsp Hno (f & Hf & Hw & Hz)] Hok Hlen. destruct (spare_page _ _ Hsp Hlen) as (n & pm & Hal & Hsp').
  destruct (allocated_fresh _ _ _ _ (pt_pmm _ _ _ Hi) Hal) as (Hnh & Hnl & Hnok).
  assert (Hfresh : exists s1, fresh_table s s1 n /\ m_pmm s1 = pm).
  { assert (Hwp : wp (zero_mem (add64 (slab_linear_map_base (set_pmm pm s)) (frame_addr n)) PAGE_SIZE)
      (fun _ s1 => fresh_table s s1 n /\ m_pmm s1 = pm) (set_pmm pm s)).
    { apply wp_zero_page; [done|]. intros s1 Hr Hp Hz1 Ho.
      pose proof (own_written _ _ _ _ (own_allocated _ _ _ _ (pt_pmm _ _ _ Hi) Hal) Hr Hp Ho) as [O1 O2 O3 O4 O5].
      split; [|done]. split; [done|done|by destruct O3 as (?&?&?&?)|intros g Hg; apply (O4 g Hg)| | |done|done].
      - intros g o. rewrite Hp. intros Hg. apply (al_live _ _ _ _ _ Hal). by left.
      - intros g Hg. rewrite Hp. by apply (al_ref _ _ _ _ _ Hal). }
    apply wp_done in Hwp as (_ & s1 & _ & H). by exists s1. }
  destruct Hfresh as (s1 & Hfresh & <-). destruct (link_idx _ _ _ Hok) as [Hidx _].
  destruct (link_grow everywhere s s1 root p f i n Hi Hok Hw Hf (ltac:(by rewrite Hz)) Hfresh) as [Hg Hwn].
  eexists _, n. split; [split|apply (gr_frame _ _ _ _ Hg)].
  - apply Hg.
  - exact Hsp'.
  - intros va. by rewrite (grow_mapping everywhere _ _ _ _ Hg).
  - exists n. split_and!; [done|exact Hwn|]. intros j Hj. rewrite entry_set_entry by done.
    rewrite decide_False by (intros [E _]; symmetry in E; by apply (link_f_ne _ _ _ _ _ _ _ _ Hi Hok Hw Hfresh)). by apply (ft_zero _ _ _ Hfresh).
Qed.

(** A page of a process mapped at [va], with room in the allocator. *)
Lemma sample_page va prot : is_user_addr va = true -> prot_ok prot -> exists s f e ps, (length ps = 4)%nat /\ spare ps (m_pmm s) /\
  pt_inv everywhere s (root_of s va) /\ user_page everywhere s (root_of s va) f /\
  mapping s (root_of s va) va = Some e /\ pte_to_phys e = frame_addr f /\
  forall va', ~ same_page va' va -> mapping s (root_of s va) va' = None.
Proof.
  intros Hva Hprot. destruct booted as [pm Hpm]. set (s0 := sample_machine pm). set (root := frame_addr 6).
  assert (Hroot : forall s, same_regs s0 s -> root_of s va = root).
  { intros s Hs. rewrite (same_regs_root _ _ _ Hs). unfold root_of. by rewrite Hva. }
  assert (H0 : table_at s0 root [] []).
  { split; [apply (sample_pt_inv pm 6 Hpm); lia|by apply spare_start| |].
    { intros va'. unfold mapping, leaf, table_path. cbn [walk]. unfold entry, ram_at. cbn. by rewrite lookup_empty. }
    exists 6. split; [by unfold page_ok|]. split; [done|].
    intros i _. unfold entry, ram_at. cbn. by rewrite lookup_empty. }
  pose proof (table_path_ok everywhere va eq_refl) as Hok3.
  pose proof (path_ok_prefix _ [L0_INDEX va; L1_INDEX va] [L2_INDEX va] Hok3) as Hok2.
  pose proof (path_ok_prefix _ [L0_INDEX va] [L1_INDEX va] Hok2) as Hok1.
  destruct (table_below s0 root [] [] (L0_INDEX va) H0 Hok1) as (s1 & n1 & H1 & R1); [cbn; lia|].
  destruct (table_below s1 root _ _ (L1_INDEX va) H1 Hok2) as (s2 & n2 & H2 & R2); [cbn; lia|].
  destruct (table_below s2 root _ _ (L2_INDEX va) H2 Hok3) as (s3 & n3 & [Hi Hsp Hno (f3 & Hf3 & Hw & Hz)] & R3); [cbn; lia|].
  destruct (spare_page _ _ Hsp) as (n & pm' & Hal & Hsp'); [cbn; lia|].
  pose proof (own_allocated _ _ _ _ (pt_pmm _ _ _ Hi) Hal) as Hown. set (s4 := set_pmm pm' s3) in *.
  pose proof (own_grow _ _ _ _ _ Hi Hown) as Hg. pose proof (gr_walk _ _ _ _ Hg _ _ Hok3 Hw) as Hw4.
  destruct (set_leaf everywhere s4 root _ f3 (L3_INDEX va) (Z.lor prot (frame_addr n)) (gr_inv _ _ _ _ Hg) Hok3 eq_refl (l3_ok va) Hw4)
    as (Hi5 & Hf5 & _ & Hl5). set (s5 := set_entry _ _ _ s4) in *.
  destruct (op_new _ _ _ Hown) as (_ & Hl & Hok & Hrc). destruct (page_entry prot n Hprot Hok) as [Hv Hphys].
  assert (Hr : root_of s5 va = root).
  { apply Hroot. do 3 (eapply same_regs_trans; [eassumption|]). by destruct s3. }
  exists s5, n, (Z.lor prot (frame_addr n)), [n; n3; n2; n1]. rewrite Hr. split_and!; try done.
  - apply (user_page_frame _ _ _ _ _ Hf5). split_and!; [done|done|by apply (own_not_table _ _ _ _ _ Hi Hown)|lia..].
  - unfold mapping. rewrite Hl5 by (done || apply l3_ok). rewrite decide_True by done. by rewrite Hv.
  - intros va' Hne. unfold mapping. rewrite Hl5 by (done || apply l3_ok || by apply table_path_ok).
    rewrite decide_False by exact Hne. rewrite <- (Hno va'). by apply (grow_mapping everywhere).
Qed.
