(* ===== verification/Rbtree.v ===== *)
(** Red-black trees with parent pointers and a sentinel ([kernel/ds/rbtree.c],
    [include/ds/rbtree.h]).

    Nodes live in a store indexed by their address, and the operations follow and update the
    pointers as the code does; following a pointer to a node that does not exist is undefined.
    The section is parametrised by where the client keeps the nodes and the tree, by its
    comparison callback, and by the allocation of the sentinel.  Every loop walks a path of the
    tree, so the number of nodes bounds its rounds; a pointer structure with a cycle exhausts
    the bound and is reported as [NoFuel]. *)
From S2P Require Import Prelude.

Inductive rb_color : Set := RB_RED | RB_BLACK.

#[export] Instance rb_color_eq_dec : EqDecision rb_color.
Proof. solve_decision. Defined.

(** [NULL] is 0. *)
Record rb_node := RbNode { rb_parent : Z; rb_left : Z; rb_right : Z; rb_col : rb_color }.
Record rb_tree := RbTree { rb_root : Z; rb_nil : Z }.

Definition is_red (c : rb_color) : bool := bool_decide (c = RB_RED).

Section rbtree.
Context {S : Type} (nodes : S -> gmap Z rb_node) (set_nodes : gmap Z rb_node -> S -> S).
Context (tree : S -> rb_tree) (set_tree : rb_tree -> S -> S).
Context (compare : Z -> Z -> M S Z).

Definition node (p : Z) : M S rb_node := ns ← gets nodes; of_option (ns !! p).
Definition put_node (p : Z) (f : rb_node -> rb_node) : M S unit :=
  n ← node p; modify (fun s => set_nodes (<[p := f n]> (nodes s)) s).

Definition get_parent p : M S Z := n ← node p; mret (rb_parent n).
Definition get_left p : M S Z := n ← node p; mret (rb_left n).
Definition get_right p : M S Z := n ← node p; mret (rb_right n).
Definition get_color p : M S rb_color := n ← node p; mret (rb_col n).
Definition set_parent p v := put_node p (fun n => RbNode v (rb_left n) (rb_right n) (rb_col n)).
Definition set_left p v := put_node p (fun n => RbNode (rb_parent n) v (rb_right n) (rb_col n)).
Definition set_right p v := put_node p (fun n => RbNode (rb_parent n) (rb_left n) v (rb_col n)).
Definition set_color p c := put_node p (fun n => RbNode (rb_parent n) (rb_left n) (rb_right n) c).

Definition RB_NIL : M S Z := gets (fun s => rb_nil (tree s)).
Definition get_root : M S Z := gets (fun s => rb_root (tree s)).
Definition set_root (r : Z) : M S unit := modify (fun s => set_tree (RbTree r (rb_nil (tree s))) s).

(** The bound on the rounds of a loop. *)
Definition with_fuel {A} (k : nat -> M S A) : M S A := n ← gets (fun s => size (nodes s)); k (Datatypes.S n).

Definition rb_node_init (p : Z) : M S unit :=
  modify (fun s => set_nodes (<[p := RbNode 0 0 0 RB_RED]> (nodes s)) s).

(** [alloc] is [kmalloc(sizeof(rb_node_t), GFP_KERNEL)]; its result is not tested. *)
Definition rb_tree_init (alloc : M S Z) : M S unit :=
  nil ← alloc;
  _ ← guard_ub (negb (nil =? 0));
  _ ← modify (fun s => set_nodes (<[nil := RbNode nil nil nil RB_BLACK]> (nodes s)) s);
  modify (set_tree (RbTree nil nil)).

(** ** Minimum, maximum, neighbours *)

Definition rb_tree_min (nil : M S Z) (subtree : Z) : M S Z :=
  with_fuel (fun fuel => loop fuel (fun t =>
    l ← get_left t; n ← nil;
    if negb (l =? n) then mret (inl l) else mret (inr t)) subtree).

Definition rb_tree_max (nil : M S Z) (subtree : Z) : M S Z :=
  with_fuel (fun fuel => loop fuel (fun t =>
    r ← get_right t; n ← nil;
    if negb (r =? n) then mret (inl r) else mret (inr t)) subtree).

(** [container_of(nil_node, rb_tree_t, nil)] overlays an [rb_tree_t] whose [nil] field is the first
    word of [*nil_node], so [RB_NIL(tree)] reads [nil_node->parent]. *)
Definition find_nil (p : Z) : M S Z :=
  first ← get_parent p;
  with_fuel (fun fuel => loop fuel (fun n =>
    q ← get_parent n;
    if negb (q =? n) then mret (inl q) else mret (inr n)) first).

(** The climb shared by [rb_tree_next] and [rb_tree_prev]. *)
Definition climb (child : Z -> M S Z) (nil : M S Z) (p : Z) : M S Z :=
  q ← get_parent p;
  with_fuel (fun fuel => loop fuel (fun st : Z * Z =>
    let '(p, q) := st in
    n ← nil;
    if q =? n then mret (inr q) else
    c ← child q;
    if p =? c then q' ← get_parent q; mret (inl (q, q')) else mret (inr q)) (p, q)).

Definition rb_tree_next (p : Z) : M S Z :=
  nil_node ← find_nil p;
  let nil := get_parent nil_node in
  r ← get_right p; n ← nil;
  if negb (r =? n) then rb_tree_min nil r else climb get_right nil p.

Definition rb_tree_prev (p : Z) : M S Z :=
  nil_node ← find_nil p;
  let nil := get_parent nil_node in
  l ← get_left p; n ← nil;
  if negb (l =? n) then rb_tree_max nil l else climb get_left nil p.

(** ** Search *)

Definition rb_tree_search (key_node : Z) : M S (option Z) :=
  root ← get_root;
  with_fuel (fun fuel => loop fuel (fun cur =>
    nil ← RB_NIL;
    if cur =? nil then mret (inr None) else
    cmp ← compare key_node cur;
    if cmp =? 0 then mret (inr (Some cur))
    else if cmp <? 0 then l ← get_left cur; mret (inl l)
    else r ← get_right cur; mret (inl r)) root).

(** ** Rotations *)

(** [parent->left = new] or [parent->right = new], whichever held [old]; the root if there is no
    parent. *)
Definition replace_child (old new : Z) : M S unit :=
  p ← get_parent old;
  nil ← RB_NIL;
  if p =? nil then set_root new else
  l ← get_left p;
  if old =? l then set_left p new else set_right p new.

Definition rb_left_rotate (x : Z) : M S unit :=
  y ← get_right x;
  yl ← get_left y;
  _ ← set_right x yl;
  yl ← get_left y;
  nil ← RB_NIL;
  _ ← (if negb (yl =? nil) then set_parent yl x else mret tt);
  xp ← get_parent x;
  _ ← set_parent y xp;
  _ ← replace_child x y;
  _ ← set_left y x;
  set_parent x y.

Definition rb_right_rotate (y : Z) : M S unit :=
  x ← get_left y;
  xr ← get_right x;
  _ ← set_left y xr;
  xr ← get_right x;
  nil ← RB_NIL;
  _ ← (if negb (xr =? nil) then set_parent xr y else mret tt);
  yp ← get_parent y;
  _ ← set_parent x yp;
  _ ← replace_child y x;
  _ ← set_right x y;
  set_parent y x.

(** ** Insertion *)

(** One side of the fix-up: [near] is the side the parent of [z] hangs on. *)
Definition insert_case (near far : Z -> M S Z) (rot_near rot_far : Z -> M S unit) (z : Z) : M S Z :=
  zp ← get_parent z;
  zpp ← get_parent zp;
  y ← far zpp;
  yc ← get_color y;
  if is_red yc then
    _ ← set_color zp RB_BLACK;
    _ ← set_color y RB_BLACK;
    zp ← get_parent z;
    zpp ← get_parent zp;
    _ ← set_color zpp RB_RED;
    zp ← get_parent z;
    get_parent zp
  else
    f ← far zp;
    z ← (if z =? f then _ ← rot_near zp; mret zp else mret z);
    zp ← get_parent z;
    _ ← set_color zp RB_BLACK;
    zpp ← get_parent zp;
    _ ← set_color zpp RB_RED;
    _ ← rot_far zpp;
    mret z.

Definition rb_insert_fixup (z : Z) : M S unit :=
  _ ← with_fuel (fun fuel => loop fuel (fun z =>
    zp ← get_parent z;
    c ← get_color zp;
    if is_red c then
      zpp ← get_parent zp;
      l ← get_left zpp;
      z' ← (if zp =? l then insert_case get_left get_right rb_left_rotate rb_right_rotate z
            else insert_case get_right get_left rb_right_rotate rb_left_rotate z);
      mret (inl z')
    else mret (inr tt)) z);
  root ← get_root;
  set_color root RB_BLACK.

Definition rb_tree_insert (z : Z) : M S unit :=
  nil ← RB_NIL;
  root ← get_root;
  y ← with_fuel (fun fuel => loop fuel (fun st : Z * Z =>
    let '(y, x) := st in
    nil ← RB_NIL;
    if x =? nil then mret (inr y) else
    cmp ← compare z x;
    if cmp <? 0 then l ← get_left x; mret (inl (x, l))
    else r ← get_right x; mret (inl (x, r))) (nil, root));
  _ ← set_parent z y;
  _ ← (if y =? nil then set_root z else
       cmp ← compare z y;
       if cmp <? 0 then set_left y z else set_right y z);
  _ ← set_left z nil;
  _ ← set_right z nil;
  _ ← set_color z RB_RED;
  rb_insert_fixup z.

(** ** Deletion *)

Definition rb_transplant (u v : Z) : M S unit :=
  _ ← replace_child u v;
  up ← get_parent u;
  set_parent v up.

(** One side of the fix-up: [x] hangs on the [near] side of its parent. *)
Definition delete_case (near far : Z -> M S Z) (rot_near rot_far : Z -> M S unit) (x : Z) : M S Z :=
  xp ← get_parent x;
  w ← far xp;
  wc ← get_color w;
  w ← (if is_red wc then
         _ ← set_color w RB_BLACK;
         _ ← set_color xp RB_RED;
         _ ← rot_near xp;
         xp ← get_parent x;
         far xp
       else mret w);
  wn ← near w;
  wnc ← get_color wn;
  wf ← far w;
  wfc ← get_color wf;
  if negb (is_red wnc) && negb (is_red wfc) then
    _ ← set_color w RB_RED;
    get_parent x
  else
    w ← (if negb (is_red wfc) then
           _ ← set_color wn RB_BLACK;
           _ ← set_color w RB_RED;
           _ ← rot_far w;
           xp ← get_parent x;
           far xp
         else mret w);
    xp ← get_parent x;
    c ← get_color xp;
    _ ← set_color w c;
    _ ← set_color xp RB_BLACK;
    wf ← far w;
    _ ← set_color wf RB_BLACK;
    _ ← rot_near xp;
    get_root.

Definition rb_delete_fixup (x : Z) : M S unit :=
  x ← with_fuel (fun fuel => loop fuel (fun x =>
    root ← get_root;
    c ← get_color x;
    if negb (x =? root) && negb (is_red c) then
      xp ← get_parent x;
      l ← get_left xp;
      x' ← (if x =? l then delete_case get_left get_right rb_left_rotate rb_right_rotate x
            else delete_case get_right get_left rb_right_rotate rb_left_rotate x);
      mret (inl x')
    else mret (inr x)) x);
  set_color x RB_BLACK.

Definition rb_tree_delete (z : Z) : M S unit :=
  zc ← get_color z;
  nil ← RB_NIL;
  zl ← get_left z;
  zr ← get_right z;
  r ← (if zl =? nil then
         _ ← rb_transplant z zr;
         mret (zr, zc)
       else if zr =? nil then
         _ ← rb_transplant z zl;
         mret (zl, zc)
       else
         y ← rb_tree_min RB_NIL zr;
         yc ← get_color y;
         x ← get_right y;
         yp ← get_parent y;
         _ ← (if yp =? z then set_parent x y
              else
                _ ← rb_transplant y x;
                zr ← get_right z;
                _ ← set_right y zr;
                set_parent zr y);
         _ ← rb_transplant z y;
         zl ← get_left z;
         _ ← set_left y zl;
         _ ← set_parent zl y;
         c ← get_color z;
         _ ← set_color y c;
         mret (x, yc));
  let '(x, y_original_color) := r in
  if negb (is_red y_original_color) then rb_delete_fixup x else mret tt.

(** ** In-order traversal *)

Fixpoint inorder (fuel : nat) (visit : Z -> M S unit) (p : Z) : M S unit :=
  match fuel with
  | O => diverge
  | Datatypes.S fuel' =>
      nil ← RB_NIL;
      if negb (p =? nil) then
        l ← get_left p;
        _ ← inorder fuel' visit l;
        _ ← visit p;
        r ← get_right p;
        inorder fuel' visit r
      else mret tt
  end.

Definition rb_tree_inorder (visit : Z -> M S unit) : M S unit :=
  root ← get_root;
  with_fuel (fun fuel => inorder (Datatypes.S fuel) visit root).
End rbtree.
