(* ===== verification/RbTheory.v ===== *)
(** The red-black trees of [kernel/ds/rbtree.c]: what a pointer structure represents, and the
    red-black rules.

    A tree is seen through a focus: the subtree [t] the code works on and the path [k] from it to the root.
    [zip] says that the store holds both.  Moving the focus costs nothing, so that a step of the
    code is a lemma about the focus: the colour of its node changes, or it is rotated. *)
From stdpp Require Import sorting.
From S2P Require Import Prelude Rbtree.
Open Scope Z_scope.

(** ** Trees and paths *)

Inductive tree : Set := Leaf | Node (l : tree) (a : Z) (c : rb_color) (r : tree).

(** The two sides, so that mirrored code has one proof. *)
Inductive side : Set := L | R.
#[export] Instance side_eq_dec : EqDecision side.
Proof. solve_decision. Defined.
Definition flip (sd : side) : side := match sd with L => R | R => L end.

(** A node from its child on the side [sd], itself and its other child. *)
Definition node_of (sd : side) (n : tree) (a : Z) (c : rb_color) (f : tree) : tree :=
  match sd with L => Node n a c f | R => Node f a c n end.
Lemma node_of_flip sd n a c f : node_of (flip sd) f a c n = node_of sd n a c f.
Proof. by destruct sd. Qed.

(** One step of a path: the side the focus hangs on, the parent with its colour, the sibling. *)
Record step := Step { s_side : side; s_addr : Z; s_col : rb_color; s_sib : tree }.
Notation path := (list step).

Fixpoint addrs (t : tree) : list Z := match t with Leaf => [] | Node l a _ r => addrs l ++ a :: addrs r end.
Fixpoint kaddrs (k : path) : list Z := match k with [] => [] | f :: k => s_addr f :: addrs (s_sib f) ++ kaddrs k end.
Fixpoint fill (k : path) (t : tree) : tree :=
  match k with [] => t | f :: k => fill k (node_of (s_side f) t (s_addr f) (s_col f) (s_sib f)) end.
Definition col (t : tree) : rb_color := match t with Leaf => RB_BLACK | Node _ _ c _ => c end.

Lemma addrs_node_of sd n a c f : addrs (node_of sd n a c f) ≡ₚ a :: addrs n ++ addrs f.
Proof. destruct sd; cbn; [by rewrite <- Permutation_middle|]. rewrite <- Permutation_middle. constructor. apply Permutation_app_comm. Qed.
Lemma fill_app k k' t : fill (k ++ k') t = fill k' (fill k t).
Proof. revert t. induction k as [|f k IH]; intros t; [done|]. cbn. apply IH. Qed.
Lemma fill_perm k t : addrs (fill k t) ≡ₚ kaddrs k ++ addrs t.
Proof.
  revert t. induction k as [|[sd a c sib] k IH]; intros t; [done|]. cbn. rewrite IH, addrs_node_of. cbn.
  rewrite <- Permutation_middle. constructor. rewrite (Permutation_app_comm (addrs t)). rewrite !app_assoc.
  f_equiv. apply Permutation_app_comm.
Qed.

(** The nodes left and right of the focus, in order. *)
Fixpoint before (k : path) : list Z :=
  match k with [] => [] | Step L _ _ _ :: k => before k | Step R a _ sib :: k => before k ++ addrs sib ++ [a] end.
Fixpoint after (k : path) : list Z :=
  match k with [] => [] | Step L a _ sib :: k => a :: addrs sib ++ after k | Step R _ _ _ :: k => after k end.
Lemma fill_order k t : addrs (fill k t) = before k ++ addrs t ++ after k.
Proof.
  revert t. induction k as [|[[] a c sib] k IH]; intros t; cbn; [by rewrite app_nil_r| |]; rewrite IH; cbn;
    by rewrite <- !app_assoc.
Qed.

Lemma before_app k k' : before (k ++ k') = before k' ++ before k.
Proof. induction k as [|[[] a c sib] k IH]; cbn; [by rewrite app_nil_r|done|]. by rewrite IH, <- app_assoc. Qed.
Lemma after_app k k' : after (k ++ k') = after k ++ after k'.
Proof. induction k as [|[[] a c sib] k IH]; cbn; [done| |done]. by rewrite IH, <- app_assoc. Qed.
(** A node of a tree, with the path to it. *)
Lemma fill_elem t a : a ∈ addrs t -> exists k l c r, t = fill k (Node l a c r).
Proof.
  induction t as [|l IHl x c r IHr]; cbn; [set_solver|]. intros [Hin|[->|Hin]%elem_of_cons]%elem_of_app.
  - destruct (IHl Hin) as (k & l' & c' & r' & ->). exists (k ++ [Step L x c r]), l', c', r'. by rewrite fill_app.
  - by exists [], l, c, r.
  - destruct (IHr Hin) as (k & l' & c' & r' & ->). exists (k ++ [Step R x c l]), l', c', r'. by rewrite fill_app.
Qed.

(** ** The store *)

(** The two variables of a client: its nodes and its tree. *)
Class RbStore {S : Type} (nodes : S -> gmap Z rb_node) (set_nodes : gmap Z rb_node -> S -> S)
    (tree_of : S -> rb_tree) (set_tree : rb_tree -> S -> S) := {
  rs_nodes m s : nodes (set_nodes m s) = m;
  rs_nodes_tree t s : nodes (set_tree t s) = nodes s;
  rs_tree t s : tree_of (set_tree t s) = t;
  rs_tree_nodes m s : tree_of (set_nodes m s) = tree_of s;
  rs_set_nodes m m' s : set_nodes m (set_nodes m' s) = set_nodes m s;
  rs_set_tree t t' s : set_tree t (set_tree t' s) = set_tree t s;
  rs_comm m t s : set_nodes m (set_tree t s) = set_tree t (set_nodes m s);
  rs_id s : set_tree (tree_of s) (set_nodes (nodes s) s) = s;
}.

Section store.
Context {S : Type} {nodes : S -> gmap Z rb_node} {set_nodes : gmap Z rb_node -> S -> S}.
Context {tree_of : S -> rb_tree} {set_tree : rb_tree -> S -> S} {Hst : RbStore nodes set_nodes tree_of set_tree}.
(** The client's state apart from the nodes and the root; the sentinel. *)
Context (s0 : S) (nil : Z).
Implicit Types (m : gmap Z rb_node) (r p : Z) (t : tree) (k : path).

Definition St m r : S := set_tree (RbTree r nil) (set_nodes m s0).
Lemma nodes_St m r : nodes (St m r) = m.
Proof. unfold St. by rewrite rs_nodes_tree, rs_nodes. Qed.
Lemma tree_St m r : tree_of (St m r) = RbTree r nil.
Proof. unfold St. by rewrite rs_tree. Qed.
Lemma set_nodes_St m m' r : set_nodes m (St m' r) = St m r.
Proof. unfold St. by rewrite rs_comm, rs_set_nodes. Qed.
Lemma set_tree_St m r r' : set_tree (RbTree r nil) (St m r') = St m r.
Proof. unfold St. by rewrite rs_set_tree. Qed.

Lemma wp_node p n (Q : rb_node -> S -> Prop) m r : m !! p = Some n -> Q n (St m r) -> wp (node nodes p) Q (St m r).
Proof. intros Hp HQ. unfold node. apply wp_bind, wp_gets. rewrite nodes_St. by eapply wp_of_option. Qed.
Lemma wp_put_node p f n (Q : unit -> S -> Prop) m r : m !! p = Some n -> Q tt (St (<[p := f n]> m) r) ->
  wp (put_node nodes set_nodes p f) Q (St m r).
Proof.
  intros Hp HQ. unfold put_node. apply wp_bind. eapply wp_node; [exact Hp|]. apply wp_modify.
  by rewrite nodes_St, set_nodes_St.
Qed.
Lemma wp_RB_NIL (Q : Z -> S -> Prop) m r : Q nil (St m r) -> wp (RB_NIL tree_of) Q (St m r).
Proof. intros HQ. apply wp_gets. by rewrite tree_St. Qed.
Lemma wp_get_root (Q : Z -> S -> Prop) m r : Q r (St m r) -> wp (get_root tree_of) Q (St m r).
Proof. intros HQ. apply wp_gets. by rewrite tree_St. Qed.
Lemma wp_set_root r' (Q : unit -> S -> Prop) m r : Q tt (St m r') -> wp (set_root tree_of set_tree r') Q (St m r).
Proof. intros HQ. apply wp_modify. rewrite tree_St. cbn. by rewrite set_tree_St. Qed.
Lemma wp_with_fuel {A} (f : nat -> M S A) (Q : A -> S -> Prop) m r : wp (f (Datatypes.S (size m))) Q (St m r) ->
  wp (with_fuel nodes f) Q (St m r).
Proof. intros HQ. apply wp_bind, wp_gets. by rewrite nodes_St. Qed.

Definition get_child (sd : side) : Z -> M S Z := match sd with L => get_left nodes | R => get_right nodes end.
Definition put_child (sd : side) : Z -> Z -> M S unit :=
  match sd with L => set_left nodes set_nodes | R => set_right nodes set_nodes end.
Definition rotate (sd : side) : Z -> M S unit :=
  match sd with L => rb_left_rotate nodes set_nodes tree_of set_tree | R => rb_right_rotate nodes set_nodes tree_of set_tree end.

(** A node by its children on the side [sd] and on the other. *)
Definition mk (sd : side) (p n f : Z) (c : rb_color) : rb_node := match sd with L => RbNode p n f c | R => RbNode p f n c end.

Lemma wp_get_parent p n (Q : Z -> S -> Prop) m r : m !! p = Some n -> Q (rb_parent n) (St m r) -> wp (get_parent nodes p) Q (St m r).
Proof. intros Hp HQ. apply wp_bind. by eapply wp_node. Qed.
Lemma wp_get_color p n (Q : rb_color -> S -> Prop) m r : m !! p = Some n -> Q (rb_col n) (St m r) -> wp (get_color nodes p) Q (St m r).
Proof. intros Hp HQ. apply wp_bind. by eapply wp_node. Qed.
Lemma wp_get_near sd p pa a b c (Q : Z -> S -> Prop) m r : m !! p = Some (mk sd pa a b c) -> Q a (St m r) -> wp (get_child sd p) Q (St m r).
Proof. intros Hp HQ. destruct sd; apply wp_bind; (eapply wp_node; [exact Hp|exact HQ]). Qed.
Lemma wp_get_far sd p pa a b c (Q : Z -> S -> Prop) m r : m !! p = Some (mk sd pa a b c) -> Q b (St m r) -> wp (get_child (flip sd) p) Q (St m r).
Proof. intros Hp HQ. destruct sd; apply wp_bind; (eapply wp_node; [exact Hp|exact HQ]). Qed.
Lemma wp_put_near sd x p pa a b c (Q : unit -> S -> Prop) m r : m !! p = Some (mk sd pa a b c) ->
  Q tt (St (<[p := mk sd pa x b c]> m) r) -> wp (put_child sd p x) Q (St m r).
Proof. intros Hp HQ. destruct sd; (eapply wp_put_node; [exact Hp|exact HQ]). Qed.
Lemma wp_put_far sd x p pa a b c (Q : unit -> S -> Prop) m r : m !! p = Some (mk sd pa a b c) ->
  Q tt (St (<[p := mk sd pa a x c]> m) r) -> wp (put_child (flip sd) p x) Q (St m r).
Proof. intros Hp HQ. destruct sd; (eapply wp_put_node; [exact Hp|exact HQ]). Qed.
Lemma wp_set_parent sd x p pa a b c (Q : unit -> S -> Prop) m r : m !! p = Some (mk sd pa a b c) ->
  Q tt (St (<[p := mk sd x a b c]> m) r) -> wp (set_parent nodes set_nodes p x) Q (St m r).
Proof. intros Hp HQ. destruct sd; (eapply wp_put_node; [exact Hp|exact HQ]). Qed.
Lemma wp_set_color sd x p pa a b c (Q : unit -> S -> Prop) m r : m !! p = Some (mk sd pa a b c) ->
  Q tt (St (<[p := mk sd pa a b x]> m) r) -> wp (set_color nodes set_nodes p x) Q (St m r).
Proof. intros Hp HQ. destruct sd; (eapply wp_put_node; [exact Hp|exact HQ]). Qed.

(** ** Representation *)

Definition ptr t : Z := match t with Leaf => nil | Node _ a _ _ => a end.
Definition kptr k : Z := match k with [] => nil | f :: _ => s_addr f end.

Fixpoint repr m p t : Prop :=
  match t with
  | Leaf => True
  | Node l a c r => a <> nil /\ m !! a = Some (RbNode p (ptr l) (ptr r) c) /\ repr m a l /\ repr m a r
  end.
(** The path [k] from the pointer [h] up to the root [r]. *)
Fixpoint reprk m r h k : Prop :=
  match k with
  | [] => r = h
  | f :: k => s_addr f <> nil /\ m !! s_addr f = Some (mk (s_side f) (kptr k) h (ptr (s_sib f)) (s_col f)) /\
      repr m (s_addr f) (s_sib f) /\ reprk m r (s_addr f) k
  end.

Lemma repr_node_of m p sd n a c f : repr m p (node_of sd n a c f) <->
  a <> nil /\ m !! a = Some (mk sd p (ptr n) (ptr f) c) /\ repr m a n /\ repr m a f.
Proof. destruct sd; cbn; tauto. Qed.
Lemma ptr_node_of sd n a c f : ptr (node_of sd n a c f) = a.
Proof. by destruct sd. Qed.
Lemma col_node_of sd n a c f : col (node_of sd n a c f) = c.
Proof. by destruct sd. Qed.
Lemma repr_ext m m' p t : (forall q, q ∈ addrs t -> m' !! q = m !! q) -> repr m p t -> repr m' p t.
Proof.
  revert p. induction t as [|l IHl a c r IHr]; intros p Hm; [done|]. cbn in *. intros (Ha & Hn & Hl & Hr).
  rewrite Hm by set_solver. split_and!; [done|done|apply IHl; [set_solver|done]|apply IHr; [set_solver|done]].
Qed.
Lemma reprk_ext m m' r h k : (forall q, q ∈ kaddrs k -> m' !! q = m !! q) -> reprk m r h k -> reprk m' r h k.
Proof.
  revert h. induction k as [|[sd a c sib] k IH]; intros h Hm; [done|]. cbn in *. intros (Ha & Hn & Hs & Hk).
  rewrite Hm by set_solver. split_and!; [done|done|eapply repr_ext; [|done]; set_solver|apply IH; [set_solver|done]].
Qed.
Lemma repr_nil m p t : repr m p t -> nil ∉ addrs t.
Proof. revert p. induction t as [|l IHl a c r IHr]; cbn; intros p Ht; [set_solver|]. destruct Ht as (Ha & _ & Hl%IHl & Hr%IHr). set_solver. Qed.
Lemma reprk_nil m r h k : reprk m r h k -> nil ∉ kaddrs k.
Proof.
  revert h. induction k as [|[sd a c sib] k IH]; cbn; intros h Hk; [set_solver|].
  destruct Hk as (Ha & _ & Hs%repr_nil & Hk%IH). set_solver.
Qed.
Lemma ptr_cases m p t : repr m p t -> t = Leaf /\ ptr t = nil \/ ptr t <> nil /\ ptr t ∈ addrs t.
Proof. destruct t as [|l a c r]; [by left|]. intros (Ha & _). right. split; [done|]. set_solver. Qed.

(** The nodes of other trees and of no tree. *)
Context (others : gmap Z rb_node).
Record zip (np : Z) m r k t : Prop := {
  z_tree : repr m (kptr k) t;
  z_path : reprk m r (ptr t) k;
  z_nodup : NoDup (kaddrs k ++ addrs t);
  z_nil : m !! nil = Some (RbNode np nil nil RB_BLACK);
  z_others : forall p, p <> nil -> p ∉ kaddrs k ++ addrs t -> m !! p = others !! p;
}.

Lemma step_perm sd n a c f k : kaddrs (Step sd a c f :: k) ++ addrs n ≡ₚ kaddrs k ++ addrs (node_of sd n a c f).
Proof.
  cbn. rewrite addrs_node_of, <- (Permutation_middle (kaddrs k)). constructor.
  rewrite (Permutation_app_comm (addrs f)), <- !app_assoc. f_equiv. apply Permutation_app_comm.
Qed.
Lemma zip_down np m r k sd n a c f : zip np m r k (node_of sd n a c f) <-> zip np m r (Step sd a c f :: k) n.
Proof.
  pose proof (step_perm sd n a c f k) as Hp. split; intros [Ht Hk Hnd Hn Ho].
  - rewrite repr_node_of in Ht. rewrite ptr_node_of in Hk. rewrite <- Hp in Hnd. destruct Ht as (Ha & Hm & Hn' & Hf).
    split; [exact Hn'|by split_and!|exact Hnd|exact Hn|]. intros q Hq Hq'. apply Ho; [done|]. by rewrite <- Hp.
  - cbn in Hk. destruct Hk as (Ha & Hm & Hs & Hk). rewrite Hp in Hnd.
    split; [rewrite repr_node_of; by split_and!|by rewrite ptr_node_of|exact Hnd|exact Hn|]. intros q Hq Hq'. apply Ho; [done|]. by rewrite Hp.
Qed.
Lemma zip_down' np m r k sd n a c f : zip np m r k (node_of sd n a c f) <-> zip np m r (Step (flip sd) a c n :: k) f.
Proof. by rewrite <- node_of_flip, zip_down. Qed.

(** Into the near and the far subtree, and back. *)
Lemma zip_in np m r k sd n a c f : zip np m r k (node_of sd n a c f) -> zip np m r (Step sd a c f :: k) n.
Proof. apply zip_down. Qed.
Lemma zip_in_far np m r k sd n a c f : zip np m r k (node_of sd n a c f) -> zip np m r (Step (flip sd) a c n :: k) f.
Proof. apply zip_down'. Qed.
Lemma zip_out np m r k sd n a c f : zip np m r (Step sd a c f :: k) n -> zip np m r k (node_of sd n a c f).
Proof. apply zip_down. Qed.
Lemma zip_out_far np m r k sd n a c f : zip np m r (Step (flip sd) a c n :: k) f -> zip np m r k (node_of sd n a c f).
Proof. apply zip_down'. Qed.

(** Back to the root. *)
Lemma zip_up np m r k t : zip np m r k t -> zip np m r [] (fill k t).
Proof. revert t. induction k as [|[sd a c sib] k IH]; intros t Hz; [exact Hz|]. apply IH. by apply zip_out. Qed.

(** Down a whole path. *)
Lemma zip_fill np m r k k' t : zip np m r k' (fill k t) -> zip np m r (k ++ k') t.
Proof.
  revert t. induction k as [|[sd a c sib] k IH]; intros t Hz; [exact Hz|]. cbn in Hz |- *. apply IH in Hz. by apply zip_in.
Qed.
Lemma zip_unfill np m r k k' t : zip np m r (k ++ k') t -> zip np m r k' (fill k t).
Proof.
  revert t. induction k as [|[sd a c sib] k IH]; intros t Hz; [exact Hz|]. cbn in Hz |- *. apply IH. by apply zip_out.
Qed.

(** A change at the focus: the nodes of the focus are the same, and the parent's pointer follows. *)
Definition relink k h m : gmap Z rb_node :=
  match k with [] => m | f :: k => <[s_addr f := mk (s_side f) (kptr k) h (ptr (s_sib f)) (s_col f)]> m end.
Definition newroot k h r : Z := match k with [] => h | _ => r end.

Lemma relink_other k h m q : q ∉ kaddrs k -> relink k h m !! q = m !! q.
Proof. destruct k as [|f k]; [done|]. cbn. intros Hq. apply lookup_insert_ne. set_solver. Qed.
Lemma reprk_relink k h h' m r : NoDup (kaddrs k) -> reprk m r h k -> reprk (relink k h' m) (newroot k h' r) h' k.
Proof.
  destruct k as [|f k]; [done|]. cbn. rewrite NoDup_cons, NoDup_app. intros [Hf _] (Ha & _ & Hs & Hk).
  split; [done|]. split; [apply lookup_insert_eq|]. split.
  - eapply repr_ext; [|exact Hs]. intros q Hq. apply lookup_insert_ne. set_solver.
  - eapply reprk_ext; [|exact Hk]. intros q Hq. apply lookup_insert_ne. set_solver.
Qed.

Lemma zip_change np m m' r k t t' : zip np m r k t -> addrs t' ≡ₚ addrs t -> repr m' (kptr k) t' ->
  (forall q, q ∉ addrs t -> m' !! q = relink k (ptr t') m !! q) -> zip np m' (newroot k (ptr t') r) k t'.
Proof.
  intros [Ht Hk Hnd Hn Ho] Hp Ht' Hm. pose proof Hnd as (Hnk & Hd & _)%NoDup_app.
  pose proof (repr_nil _ _ _ Ht). pose proof (reprk_nil _ _ _ _ Hk). split.
  - exact Ht'.
  - eapply reprk_ext; [|eapply reprk_relink; [exact Hnk|exact Hk]]. intros q Hq. apply Hm. by apply Hd.
  - by rewrite Hp.
  - rewrite Hm, relink_other by done. done.
  - intros q Hq Hq'. rewrite Hp in Hq'. rewrite Hm, relink_other by set_solver. by apply Ho.
Qed.

(** The same when the focus keeps its top node. *)
Lemma zip_keep np m m' r k t t' : zip np m r k t -> addrs t' ≡ₚ addrs t -> ptr t' = ptr t -> repr m' (kptr k) t' ->
  (forall q, q ∉ addrs t -> m' !! q = m !! q) -> zip np m' r k t'.
Proof.
  intros Hz Hp Hpt Ht' Hm. pose proof (z_path _ _ _ _ _ Hz) as Hk.
  assert (Hr : newroot k (ptr t') r = r) by (rewrite Hpt; by destruct k).
  rewrite <- Hr. eapply zip_change; [exact Hz|done|done|]. intros q Hq. rewrite Hm by done.
  destruct k as [|f k]; [done|]. cbn in *. rewrite Hpt. destruct Hk as (_ & Hk & _).
  destruct (decide (q = s_addr f)) as [->|]; [by rewrite lookup_insert_eq|by rewrite lookup_insert_ne].
Qed.

Lemma zip_node np m r k sd n a c f : zip np m r k (node_of sd n a c f) ->
  a <> nil /\ m !! a = Some (mk sd (kptr k) (ptr n) (ptr f) c) /\ a ∉ kaddrs k /\ a ∉ addrs n /\ a ∉ addrs f /\
  (forall q, q ∈ addrs n -> q ∉ addrs f /\ q ∉ kaddrs k) /\ (forall q, q ∈ addrs f -> q ∉ kaddrs k) /\
  NoDup (addrs n) /\ NoDup (addrs f) /\ repr m a n /\ repr m a f.
Proof.
  intros [Ht Hk Hnd _ _]. rewrite repr_node_of in Ht. destruct Ht as (Ha & Hm & Hn & Hf).
  rewrite addrs_node_of in Hnd. apply NoDup_app in Hnd as (_ & Hd & Hnd). apply NoDup_cons in Hnd as [Ha' Hnd].
  apply NoDup_app in Hnd as (Hndn & Hd' & Hndf). split_and!; try done; set_solver.
Qed.

(** The nodes of the tree and the sentinel are in the store, so that its size bounds every path. *)
Lemma repr_dom m p t q : repr m p t -> q ∈ addrs t -> is_Some (m !! q).
Proof.
  revert p. induction t as [|l IHl a c r IHr]; intros p; cbn; [set_solver|]. intros (_ & Ha & Hl & Hr) Hq.
  apply elem_of_app in Hq as [Hq|[->|Hq]%elem_of_cons]; [by eapply IHl|by eexists|by eapply IHr].
Qed.
Lemma reprk_dom m r h k q : reprk m r h k -> q ∈ kaddrs k -> is_Some (m !! q).
Proof.
  revert h. induction k as [|f k IH]; intros h; cbn; [set_solver|]. intros (_ & Ha & Hs & Hk) Hq.
  apply elem_of_cons in Hq as [->|[Hq|Hq]%elem_of_app]; [by eexists|by eapply repr_dom|by eapply IH].
Qed.
Lemma zip_size np m r k t : zip np m r k t -> (length (kaddrs k ++ addrs t) < size m)%nat.
Proof.
  intros [Ht Hk Hnd Hn _]. rewrite <- size_dom.
  assert (Hnd' : NoDup (nil :: kaddrs k ++ addrs t)).
  { constructor; [|done]. rewrite elem_of_app. intros [Hi|Hi]; [by eapply reprk_nil|by eapply repr_nil]. }
  apply (size_list_to_set (C := gset Z)) in Hnd'. cbn [length] in Hnd'.
  assert (Hsub : (list_to_set (nil :: kaddrs k ++ addrs t) : gset Z) ⊆ dom m).
  { intros q Hq. apply elem_of_list_to_set in Hq. apply elem_of_dom.
    apply elem_of_cons in Hq as [->|[Hq|Hq]%elem_of_app]; [by eexists|by eapply reprk_dom|by eapply repr_dom]. }
  apply subseteq_size in Hsub. lia.
Qed.
Lemma path_length k : (length k <= length (kaddrs k))%nat.
Proof. induction k as [|f k IH]; cbn; [done|]. rewrite length_app. lia. Qed.

(** The colour of the node at the focus. *)
Lemma wp_zip_set_color np m r k sd n a c f c' (Q : unit -> S -> Prop) : zip np m r k (node_of sd n a c f) ->
  (forall m', zip np m' r k (node_of sd n a c' f) -> Q tt (St m' r)) ->
  wp (set_color nodes set_nodes a c') Q (St m r).
Proof.
  intros Hz HQ. pose proof (zip_node _ _ _ _ _ _ _ _ _ Hz) as (Ha & Hm & Hak & Han & Haf & _ & _ & _ & _ & Hn & Hf).
  eapply wp_set_color; [exact Hm|]. apply HQ. eapply zip_keep; [exact Hz| | | |].
  - by rewrite !addrs_node_of.
  - by rewrite !ptr_node_of.
  - rewrite repr_node_of. rewrite lookup_insert_eq. split_and!; [done|done| |];
      (eapply repr_ext; [|eassumption]); intros q Hq; apply lookup_insert_ne; congruence.
  - intros q Hq. rewrite addrs_node_of in Hq. apply lookup_insert_ne. set_solver.
Qed.

(** The colour read at a focus, which may be the sentinel. *)
Lemma zip_top np m r k t : zip np m r k t -> exists n, m !! ptr t = Some n /\ rb_col n = col t /\
  (t <> Leaf -> rb_parent n = kptr k).
Proof.
  intros [Ht _ _ Hn _]. destruct t as [|l a c r']; [by eexists|]. destruct Ht as (_ & Hm & _). by eexists.
Qed.
Lemma wp_zip_get_color np m r k t (Q : rb_color -> S -> Prop) : zip np m r k t -> Q (col t) (St m r) ->
  wp (get_color nodes (ptr t)) Q (St m r).
Proof. intros (n & Hm & <- & _)%zip_top HQ. eapply wp_get_color; [exact Hm|exact HQ]. Qed.
Lemma wp_zip_get_parent np m r k sd n a c f (Q : Z -> S -> Prop) : zip np m r k (node_of sd n a c f) -> Q (kptr k) (St m r) ->
  wp (get_parent nodes a) Q (St m r).
Proof. intros (_ & Hm & _)%zip_node HQ. eapply wp_get_parent; [exact Hm|]. by destruct sd. Qed.
Lemma wp_zip_get_near np m r k sd n a c f (Q : Z -> S -> Prop) : zip np m r k (node_of sd n a c f) -> Q (ptr n) (St m r) ->
  wp (get_child sd a) Q (St m r).
Proof. intros (_ & Hm & _)%zip_node HQ. eapply wp_get_near; [exact Hm|exact HQ]. Qed.
Lemma wp_zip_get_far np m r k sd n a c f (Q : Z -> S -> Prop) : zip np m r k (node_of sd n a c f) -> Q (ptr f) (St m r) ->
  wp (get_child (flip sd) a) Q (St m r).
Proof. intros (_ & Hm & _)%zip_node HQ. eapply wp_get_far; [exact Hm|exact HQ]. Qed.

(** The parent's pointer to its child [old], or the root. *)
Lemma wp_replace_child p old new n (Q : unit -> S -> Prop) m r k : m !! old = Some n -> rb_parent n = kptr k ->
  old <> nil -> old ∉ kaddrs k -> reprk m r old k -> p = old ->
  Q tt (St (relink k new m) (newroot k new r)) ->
  wp (replace_child nodes set_nodes tree_of set_tree p new) Q (St m r).
Proof.
  intros Hm Hp Ho Hk Hr -> HQ. unfold replace_child. apply wp_bind. eapply wp_get_parent; [exact Hm|]. rewrite Hp.
  apply wp_bind, wp_RB_NIL. destruct k as [|[sd a c sib] k]; cbn in *.
  - rewrite Z.eqb_refl. by apply wp_set_root.
  - destruct Hr as (Ha & Hma & Hs & _). rewrite (proj2 (Z.eqb_neq a nil)) by done. destruct sd; cbn in *.
    + apply wp_bind. eapply (wp_get_near L); [exact Hma|]. rewrite Z.eqb_refl. eapply (wp_put_near L); [exact Hma|exact HQ].
    + apply wp_bind. eapply (wp_get_far R); [exact Hma|].
      rewrite (proj2 (Z.eqb_neq old (ptr sib))) by (destruct (ptr_cases _ _ _ Hs) as [[_ ->]|[_ Hin]]; set_solver).
      eapply (wp_put_near R); [exact Hma|exact HQ].
Qed.

(** ** Rotation *)

Definition reparent t p m : gmap Z rb_node :=
  match t with Leaf => m | Node l a c r => <[a := RbNode p (ptr l) (ptr r) c]> m end.
Lemma reparent_other t p m q : q ∉ addrs t -> reparent t p m !! q = m !! q.
Proof. destruct t as [|l a c r]; [done|]. cbn. intros Hq. apply lookup_insert_ne. set_solver. Qed.
Lemma repr_reparent t p p' m : NoDup (addrs t) -> repr m p t -> repr (reparent t p' m) p' t.
Proof.
  destruct t as [|l a c r]; [done|]. cbn. intros (_ & Hd & Hnd)%NoDup_app (Ha & _ & Hl & Hr). apply NoDup_cons in Hnd as [Har _].
  assert (Hal : a ∉ addrs l) by (intros Hin; apply (Hd a Hin); left).
  split; [done|]. split; [apply lookup_insert_eq|]. split; (eapply repr_ext; [|eassumption]); intros q Hq; apply lookup_insert_ne; congruence.
Qed.
Lemma wp_reparent t p x (Q : unit -> S -> Prop) m r : repr m p t -> Q tt (St (reparent t x m) r) ->
  wp (if negb (ptr t =? nil) then set_parent nodes set_nodes (ptr t) x else mret tt) Q (St m r).
Proof.
  intros Ht HQ. destruct t as [|l a c r']; cbn in *; [by rewrite Z.eqb_refl|]. destruct Ht as (Ha & Hm & _).
  rewrite (proj2 (Z.eqb_neq a nil)) by done. eapply (wp_set_parent L); [exact Hm|exact HQ].
Qed.

Lemma rotate_unfold sd x : rotate sd x =
  (y ← get_child (flip sd) x;
   yl ← get_child sd y;
   _ ← put_child (flip sd) x yl;
   yl ← get_child sd y;
   nil ← RB_NIL tree_of;
   _ ← (if negb (yl =? nil) then set_parent nodes set_nodes yl x else mret tt);
   xp ← get_parent nodes x;
   _ ← set_parent nodes set_nodes y xp;
   _ ← replace_child nodes set_nodes tree_of set_tree x y;
   _ ← put_child sd y x;
   set_parent nodes set_nodes x y).
Proof. by destruct sd. Qed.

Lemma lookup_ne_chain m a (v : rb_node) q o : q <> a -> m !! q = o -> <[a := v]> m !! q = o.
Proof. intros Hq <-. by apply lookup_insert_ne. Qed.

(** Two neighbouring nodes and the subtrees below them. *)
Record two_nodes m r k sd a x cx b y cy c : Prop := {
  tn_x : m !! x = Some (mk sd (kptr k) (ptr a) y cx);
  tn_y : m !! y = Some (mk sd x (ptr b) (ptr c) cy);
  tn_nil : x <> nil /\ y <> nil /\ x <> y;
  tn_out_x : x ∉ addrs a /\ x ∉ addrs b /\ x ∉ addrs c /\ x ∉ kaddrs k;
  tn_out_y : y ∉ addrs a /\ y ∉ addrs b /\ y ∉ addrs c /\ y ∉ kaddrs k;
  tn_ab : forall q, q ∈ addrs a -> q ∉ addrs b /\ q ∉ kaddrs k;
  tn_bc : forall q, q ∈ addrs b -> q ∉ addrs c /\ q ∉ kaddrs k;
  tn_ck : forall q, q ∈ addrs c -> q ∉ kaddrs k;
  tn_b : NoDup (addrs b);
  tn_reprs : repr m x a /\ repr m y b /\ repr m y c;
  tn_path : reprk m r x k;
}.
Lemma zip_two np m r k sd a x cx b y cy c : zip np m r k (node_of sd a x cx (node_of sd b y cy c)) ->
  two_nodes m r k sd a x cx b y cy c.
Proof.
  intros Hz. pose proof (zip_node _ _ _ _ _ _ _ _ _ Hz) as (Hx & Hmx & Hxk & Hxa & Hxf & Haf & Hfk & _ & _ & Ha & _).
  pose proof (z_path _ _ _ _ _ Hz) as Hpath. rewrite zip_down' in Hz.
  pose proof (zip_node _ _ _ _ _ _ _ _ _ Hz) as (Hy & Hmy & Hyk & Hyb & Hyc & Hbc & Hck & Hndb & _ & Hb & Hc).
  rewrite ptr_node_of in Hmx, Hpath. cbn [kptr s_addr kaddrs s_sib] in *. rewrite addrs_node_of in Hxf.
  setoid_rewrite (addrs_node_of sd b y cy c) in Haf. clear Hz. split; try done; split_and?; try done; set_solver.
Qed.

(** The pointers after the rotation of [x] below [y]. *)
Definition rotated sd k a x cx b y cy c m : gmap Z rb_node :=
  <[x := mk sd y (ptr a) (ptr b) cx]> (<[y := mk sd (kptr k) x (ptr c) cy]>
    (relink k y (<[y := mk sd (kptr k) (ptr b) (ptr c) cy]> (reparent b x (<[x := mk sd (kptr k) (ptr a) (ptr b) cx]> m))))).

Lemma zip_rotated np m r k sd a x cx b y cy c : zip np m r k (node_of sd a x cx (node_of sd b y cy c)) ->
  zip np (rotated sd k a x cx b y cy c m) (newroot k y r) k (node_of sd (node_of sd a x cx b) y cy c).
Proof.
  intros Hz. destruct (zip_two _ _ _ _ _ _ _ _ _ _ _ _ Hz) as [Hmx Hmy (Hx & Hy & Hxy) Hox Hoy Hab Hbc Hck Hndb (Ha & Hb & Hc) _].
  replace (newroot k y r) with (newroot k (ptr (node_of sd (node_of sd a x cx b) y cy c)) r) by (by rewrite ptr_node_of).
  set (m2 := reparent b x (<[x := mk sd (kptr k) (ptr a) (ptr b) cx]> m)).
  assert (H2 : forall q, q ∉ x :: addrs b -> m2 !! q = m !! q).
  { intros q [Hq Hqb]%not_elem_of_cons. unfold m2. rewrite reparent_other by done. by apply lookup_insert_ne. }
  assert (Hout : forall q, q ∉ x :: y :: kaddrs k -> rotated sd k a x cx b y cy c m !! q = m2 !! q).
  { intros q [Hqx [Hqy Hqk]%not_elem_of_cons]%not_elem_of_cons. unfold rotated. fold m2. do 2 (apply lookup_ne_chain; [done|]).
    rewrite relink_other by done. by apply lookup_insert_ne. }
  eapply zip_change; [exact Hz| | |].
  - rewrite !addrs_node_of. cbn. rewrite <- (Permutation_middle (addrs a)), <- app_assoc. constructor.
  - rewrite !repr_node_of, ptr_node_of. split_and!; try done.
    + unfold rotated. rewrite lookup_insert_ne by done. apply lookup_insert_eq.
    + apply lookup_insert_eq.
    + eapply repr_ext; [|exact Ha]. intros q Hq. destruct (Hab q Hq). rewrite Hout, H2; [done| |]; rewrite ?not_elem_of_cons; split_and?; set_solver.
    + eapply (repr_ext m2); [intros q Hq; apply Hout; destruct (Hbc q Hq); rewrite !not_elem_of_cons; split_and!; set_solver|].
      eapply repr_reparent; [done|]. eapply repr_ext; [|exact Hb]. intros q Hq. apply lookup_insert_ne. set_solver.
    + eapply repr_ext; [|exact Hc]. intros q Hq. pose proof (Hck q Hq). rewrite Hout, H2; [done| |]; rewrite ?not_elem_of_cons; split_and?; set_solver.
  - intros q Hq. rewrite !addrs_node_of in Hq. apply not_elem_of_cons in Hq as [Hqx Hq]. apply not_elem_of_app in Hq as [Hqa Hq].
    apply not_elem_of_cons in Hq as [Hqy Hq]. apply not_elem_of_app in Hq as [Hqb Hqc]. rewrite ptr_node_of.
    unfold rotated. fold m2. do 2 (apply lookup_ne_chain; [done|]). assert (H3 : m2 !! q = m !! q) by (apply H2; by rewrite not_elem_of_cons).
    destruct k as [|f k]; cbn; [by rewrite lookup_insert_ne|].
    destruct (decide (q = s_addr f)) as [->|]; [by rewrite !lookup_insert_eq|by rewrite !lookup_insert_ne].
Qed.

Lemma wp_zip_rotate np m r k sd a x cx b y cy c (Q : unit -> S -> Prop) :
  zip np m r k (node_of sd a x cx (node_of sd b y cy c)) ->
  (forall m' r', zip np m' r' k (node_of sd (node_of sd a x cx b) y cy c) -> Q tt (St m' r')) ->
  wp (rotate sd x) Q (St m r).
Proof.
  intros Hz HQ. pose proof (HQ _ _ (zip_rotated _ _ _ _ _ _ _ _ _ _ _ _ Hz)) as HQ'. clear HQ. unfold rotated in HQ'.
  destruct (zip_two _ _ _ _ _ _ _ _ _ _ _ _ Hz) as [Hmx Hmy (Hx & Hy & Hxy) (_ & Hxb & _ & Hxk) (_ & Hyb & _ & Hyk) _ Hbc _ Hndb (_ & Hb & _) Hpath].
  clear Hz. set (m1 := <[x := mk sd (kptr k) (ptr a) (ptr b) cx]> m) in *. set (m2 := reparent b x m1) in *.
  set (m3 := <[y := mk sd (kptr k) (ptr b) (ptr c) cy]> m2) in *.
  assert (H1y : m1 !! y = Some (mk sd x (ptr b) (ptr c) cy)) by (by apply lookup_ne_chain).
  assert (H2x : m2 !! x = Some (mk sd (kptr k) (ptr a) (ptr b) cx)).
  { unfold m2. rewrite reparent_other by done. apply lookup_insert_eq. }
  assert (H2y : m2 !! y = Some (mk sd x (ptr b) (ptr c) cy)) by (unfold m2; by rewrite reparent_other).
  assert (H3x : m3 !! x = Some (mk sd (kptr k) (ptr a) (ptr b) cx)) by (by apply lookup_ne_chain).
  rewrite rotate_unfold.
  apply wp_bind. eapply (wp_get_far sd); [exact Hmx|]. apply wp_bind. eapply (wp_get_near sd); [exact Hmy|].
  apply wp_bind. eapply (wp_put_far sd); [exact Hmx|]. fold m1. apply wp_bind. eapply (wp_get_near sd); [exact H1y|].
  apply wp_bind, wp_RB_NIL. apply wp_bind. eapply (wp_reparent b y).
  { eapply repr_ext; [|exact Hb]. intros q Hq. apply lookup_insert_ne. congruence. }
  fold m2. apply wp_bind. eapply wp_get_parent; [exact H2x|]. replace (rb_parent (mk sd _ _ _ _)) with (kptr k) by (by destruct sd).
  apply wp_bind. eapply (wp_set_parent sd); [exact H2y|]. fold m3.
  apply wp_bind. eapply (wp_replace_child x x y); [exact H3x|by destruct sd|done|done| |done|].
  { eapply reprk_ext; [|exact Hpath]. intros q Hq. assert (q <> x /\ q <> y) as [] by (split; congruence).
    apply lookup_ne_chain; [done|]. unfold m2. rewrite reparent_other by (intros Hin; by destruct (Hbc q Hin)). by apply lookup_ne_chain. }
  apply wp_bind. eapply (wp_put_near sd); [|eapply (wp_set_parent sd); [|exact HQ']].
  - rewrite relink_other by done. apply lookup_insert_eq.
  - apply lookup_ne_chain; [done|]. by rewrite relink_other.
Qed.
End store.

Section outside.
Context {S : Type} {nodes : S -> gmap Z rb_node} {set_nodes : gmap Z rb_node -> S -> S}.
Context {tree_of : S -> rb_tree} {set_tree : rb_tree -> S -> S} {Hst : RbStore nodes set_nodes tree_of set_tree}.
(** A new node outside the tree. *)
Lemma zip_outside nil (others : gmap Z rb_node) np (m : gmap Z rb_node) r k t p n : zip nil others np m r k t -> p <> nil -> p ∉ kaddrs k ++ addrs t ->
  zip nil (<[p := n]> others) np (<[p := n]> m) r k t.
Proof.
  intros [Ht Hk Hnd Hn Ho] Hp Hpt. rewrite not_elem_of_app in Hpt. destruct Hpt as [Hpk Hpt]. split.
  - eapply repr_ext; [|exact Ht]. intros q Hq. apply lookup_insert_ne. congruence.
  - eapply reprk_ext; [|exact Hk]. intros q Hq. apply lookup_insert_ne. congruence.
  - exact Hnd.
  - by rewrite lookup_insert_ne.
  - intros q Hq Hq'. destruct (decide (q = p)) as [->|]; [by rewrite !lookup_insert_eq|]. rewrite !lookup_insert_ne by done. by apply Ho.
Qed.

End outside.


(** ** The red-black rules *)

(** [rbt t n]: no red node has a red child, and every path down meets [n] black nodes. *)
Inductive rbt : tree -> nat -> Prop :=
| RbtLeaf : rbt Leaf 0
| RbtRed l a r n : rbt l n -> rbt r n -> col l = RB_BLACK -> col r = RB_BLACK -> rbt (Node l a RB_RED r) n
| RbtBlack l a r n : rbt l n -> rbt r n -> rbt (Node l a RB_BLACK r) (S n).

(** The colour the focus sees above it; above the root it may only be black. *)
Definition kcol (k : path) : rb_color := match k with [] => RB_RED | f :: _ => s_col f end.

(** [path_ok k n]: the tree around the focus follows the rules if a tree of black height [n] is put there,
    with a black root where [kcol k] is red. *)
Inductive path_ok : path -> nat -> Prop :=
| PathRoot n : path_ok [] n
| PathBlack sd a sib k n : rbt sib n -> path_ok k (S n) -> path_ok (Step sd a RB_BLACK sib :: k) n
| PathRed sd a sib k n : rbt sib n -> col sib = RB_BLACK -> kcol k = RB_BLACK -> path_ok k n -> path_ok (Step sd a RB_RED sib :: k) n.

Lemma rbt_red sd x a y n : rbt (node_of sd x a RB_RED y) n <-> rbt x n /\ rbt y n /\ col x = RB_BLACK /\ col y = RB_BLACK.
Proof. split; [destruct sd; inversion 1; by split_and!|]. intros (? & ? & ? & ?). destruct sd; by constructor. Qed.
Lemma rbt_black sd x a y n : rbt (node_of sd x a RB_BLACK y) (S n) <-> rbt x n /\ rbt y n.
Proof. split; [destruct sd; inversion 1; by split_and!|]. intros (? & ?). destruct sd; by constructor. Qed.
Lemma rbt_black_inv sd x a y n : rbt (node_of sd x a RB_BLACK y) n -> exists h, n = S h /\ rbt x h /\ rbt y h.
Proof. destruct sd; inversion 1; subst; eauto. Qed.

(** A tree that follows the rules, with a black root. *)
Definition rb_ok (t : tree) : Prop := (exists n, rbt t n) /\ col t = RB_BLACK.

Lemma rbt_fill k t n : rbt t n -> path_ok k n -> (col t = RB_RED -> kcol k = RB_BLACK) -> rb_ok (fill k t).
Proof.
  intros Ht Hk. revert t Ht. induction Hk as [n|sd a sib k n Hs Hk IH|sd a sib k n Hs Hc Hkc Hk IH]; intros t Ht Hcol; cbn in *.
  - split; [by exists n|]. destruct (col t); [discriminate Hcol; done|done].
  - apply IH; [by apply rbt_black|]. rewrite col_node_of. done.
  - apply IH; [|by intros _]. apply rbt_red. split_and!; try done. destruct (col t); [discriminate Hcol; done|done].
Qed.

Lemma rbt_unfill k t : rb_ok (fill k t) -> exists n, rbt t n /\ path_ok k n /\ (col t = RB_RED -> kcol k = RB_BLACK).
Proof.
  revert t. induction k as [|[sd a c sib] k IH]; intros t; cbn; [|].
  - intros [[n Hn] Hc]. exists n. split_and!; [done|constructor|congruence].
  - intros (n & Hn & Hk & Hc)%IH. rewrite col_node_of in Hc. destruct c.
    + apply rbt_red in Hn as (Ht & Hs & Hct & Hcs). exists n. split_and!; [done|constructor; auto|congruence].
    + apply rbt_black_inv in Hn as (h & -> & Ht & Hs). exists h. split_and!; [done|by constructor|done].
Qed.

(** In-order sequences are equal up to the grouping of [++]. *)
Ltac in_order := cbn; repeat (rewrite <- app_assoc; cbn); reflexivity.

(** The rules do not depend on the names of the nodes. *)
Lemma path_ok_rename ks sd a b c sib k n : path_ok (ks ++ Step sd a c sib :: k) n -> path_ok (ks ++ Step sd b c sib :: k) n.
Proof.
  revert n. induction ks as [|f ks IH]; intros n Hk; cbn in *; [inversion Hk; subst; by constructor|].
  inversion Hk; subst; constructor; try done; try by apply IH. by destruct ks as [|[] ?].
Qed.

Definition blacken (t : tree) : tree := match t with Leaf => Leaf | Node l a _ r => Node l a RB_BLACK r end.
Lemma rbt_blacken t n : rbt t n -> col t = RB_RED -> rbt (blacken t) (S n).
Proof. intros Ht Hc. destruct Ht; try discriminate Hc. by constructor. Qed.

(** The in-order sequence does not depend on colours or rotations. *)
Lemma order_node_of sd x a c y : addrs (node_of sd x a c y) = match sd with L => addrs x ++ a :: addrs y | R => addrs y ++ a :: addrs x end.
Proof. by destruct sd. Qed.
Lemma order_fill k t t' : addrs t' = addrs t -> addrs (fill k t') = addrs (fill k t).
Proof. intros Ht. by rewrite !fill_order, Ht. Qed.
Lemma order_rotate sd a x cx b y cy c : addrs (node_of sd (node_of sd a x cx b) y cy c) = addrs (node_of sd a x cx (node_of sd b y cy c)).
Proof. destruct sd; in_order. Qed.
Lemma order_color sd x a c c' y : addrs (node_of sd x a c y) = addrs (node_of sd x a c' y).
Proof. by destruct sd. Qed.
Lemma node_as sd l a c r : exists n f, Node l a c r = node_of sd n a c f.
Proof. destruct sd; by eexists _, _. Qed.

(** A client's state holds the tree [T]; its other nodes are [others]. *)
Record rb_holds {S} (nodes : S -> gmap Z rb_node) (tree_of : S -> rb_tree) (nil : Z) (others : gmap Z rb_node) (T : tree) (s : S) : Prop := {
  rh_tree : tree_of s = RbTree (ptr nil T) nil;
  rh_zip : exists np, zip nil others np (nodes s) (ptr nil T) [] T;
}.

(** The order of a client's comparison, on the nodes it can compare. *)
Section order.
Context (lt : Z -> Z -> bool) (known : Z -> Prop).
Record strict_weak : Prop := {
  sw_asym a b : known a -> known b -> lt a b = true -> lt b a = false;
  sw_split a b c : known a -> known b -> known c -> lt a c = true -> lt a b = true \/ lt b c = true;
}.
Definition rb_sorted (xs : list Z) : Prop := StronglySorted (fun a b => lt b a = false) xs.

Lemma rb_sorted_pair a b l r : rb_sorted (l ++ r) -> a ∈ l -> b ∈ r -> lt b a = false.
Proof. intros (Hs & _)%StronglySorted_app Ha Hb. by apply Hs. Qed.
(** A new node between the nodes it is not below and the nodes it is below. *)
Lemma rb_sorted_insert z l r : rb_sorted (l ++ r) -> (forall a, a ∈ l -> lt z a = false) -> (forall b, b ∈ r -> lt b z = false) ->
  rb_sorted (l ++ z :: r).
Proof.
  intros (Hs & Hsl & Hsr)%StronglySorted_app Hl Hr. apply StronglySorted_app. split_and!; [|done|].
  - intros a b Ha [->|Hb]%elem_of_cons; [by apply Hl|by apply Hs].
  - apply StronglySorted_cons. split; [by apply Forall_forall|done].
Qed.
Lemma rb_sorted_delete z l r : rb_sorted (l ++ z :: r) -> rb_sorted (l ++ r).
Proof.
  intros (Hs & Hsl & Hsr)%StronglySorted_app. apply StronglySorted_cons in Hsr as [_ Hsr]. apply StronglySorted_app.
  split_and!; [|done|done]. intros a b Ha Hb. apply Hs; [done|by right].
Qed.
End order.
