(* ===== verification/RbInsert.v ===== *)
(** Insertion into a red-black tree ([rb_tree_insert] and [rb_insert_fixup] of [kernel/ds/rbtree.c]). *)
From stdpp Require Import sorting.
From S2P Require Import Prelude Rbtree RbTheory.
Open Scope Z_scope.

Section insert.
Context {S : Type} {nodes : S -> gmap Z rb_node} {set_nodes : gmap Z rb_node -> S -> S}.
Context {tree_of : S -> rb_tree} {set_tree : rb_tree -> S -> S} {Hst : RbStore nodes set_nodes tree_of set_tree}.
Context (s0 : S) (nil : Z) (others : gmap Z rb_node).
Implicit Types (m : gmap Z rb_node) (r p z : Z) (t : tree) (k : path).
Local Notation St := (@St S set_nodes set_tree s0 nil).
Local Notation zip := (zip nil others).
Local Notation get_child := (@get_child S nodes).
Local Notation rotate := (@rotate S nodes set_nodes tree_of set_tree).

(** The fix-up works on a red node that may hang below a red one. *)
Record fixing np m r k t z n xs : Prop := {
  fx_zip : zip np m r k t;
  fx_top : exists a b, t = Node a z RB_RED b;
  fx_rbt : rbt t n;
  fx_path : path_ok k n;
  fx_order : addrs (fill k t) = xs;
}.
(** The rounds it may still take: one for every second step up, none once the parent is black. *)
Definition fix_rounds k : nat := match k with Step _ _ RB_RED _ :: _ => length k | _ => 0 end.

(** The uncle is red: the colours change, and the conflict moves up. *)
Lemma wp_insert_recolor np m r k s1 s2 t z zp sib zpp u ul ur n xs (Q : Z -> S -> Prop) :
  fixing np m r (Step s1 zp RB_RED sib :: Step s2 zpp RB_BLACK (Node ul u RB_RED ur) :: k) t z n xs ->
  (forall m' t' n', fixing np m' r k t' zpp n' xs -> Q zpp (St m' r)) ->
  wp (_ ← set_color nodes set_nodes zp RB_BLACK;
      _ ← set_color nodes set_nodes u RB_BLACK;
      zp ← get_parent nodes z;
      zpp ← get_parent nodes zp;
      _ ← set_color nodes set_nodes zpp RB_RED;
      zp ← get_parent nodes z;
      get_parent nodes zp) Q (St m r).
Proof.
  intros [Hz (a & b & ->) Ht Hk Ho] HQ.
  assert (Hnew : rbt (node_of s2 (node_of s1 (Node a z RB_RED b) zp RB_BLACK sib) zpp RB_RED (Node ul u RB_BLACK ur)) (Datatypes.S n) /\
    path_ok k (Datatypes.S n)).
  { inversion Hk as [|? ? ? ? ? Hs Hk'|? ? ? ? ? Hs Hcs Hkc Hk']; subst. inversion Hk' as [|? ? ? ? ? Hu Hk2|]; subst.
    split; [|done]. apply (rbt_red L) in Hu as (Hul & Hur & _). apply rbt_red. rewrite col_node_of.
    split_and!; [by apply rbt_black|by apply (rbt_black L)|done|done]. }
  apply zip_out in Hz. apply wp_bind. eapply wp_zip_set_color; [exact Hz|]. clear Hz. intros m1 Hz. apply zip_out in Hz.
  apply wp_bind. eapply wp_zip_set_color with (sd := L); [exact (zip_in_far _ _ _ _ _ _ _ _ _ _ _ Hz)|]. clear Hz. intros m2 Hz.
  apply zip_out_far in Hz. pose proof (zip_in _ _ _ _ _ _ _ _ _ _ _ Hz) as Hzp. pose proof (zip_in _ _ _ _ _ _ _ _ _ _ _ Hzp) as Hzz.
  apply wp_bind. eapply wp_zip_get_parent with (sd := L); [exact Hzz|]. cbn [kptr s_addr].
  apply wp_bind. eapply wp_zip_get_parent; [exact Hzp|]. cbn [kptr s_addr].
  apply wp_bind. eapply wp_zip_set_color; [exact Hz|]. clear Hz Hzp Hzz. intros m3 Hz.
  pose proof (zip_in _ _ _ _ _ _ _ _ _ _ _ Hz) as Hzp. pose proof (zip_in _ _ _ _ _ _ _ _ _ _ _ Hzp) as Hzz.
  apply wp_bind. eapply wp_zip_get_parent with (sd := L); [exact Hzz|]. cbn [kptr s_addr].
  eapply wp_zip_get_parent; [exact Hzp|]. cbn [kptr s_addr].
  eapply HQ. split; [exact Hz|destruct s2; by eexists _, _|apply Hnew|apply Hnew|]. rewrite <- Ho. cbn. apply order_fill. by destruct s1, s2.
Qed.

(** The uncle is black and the red nodes are on one line: the rotation of the grandparent ends the conflict. *)
Lemma wp_insert_outer np m r k sd t z zp sib zpp unc n xs (Q : Z -> S -> Prop) :
  fixing np m r (Step sd zp RB_RED sib :: Step sd zpp RB_BLACK unc :: k) t z n xs -> col unc = RB_BLACK ->
  (forall m' r' k' t', fixing np m' r' k' t' z n xs -> fix_rounds k' = 0%nat -> Q z (St m' r')) ->
  wp (zp ← get_parent nodes z;
      _ ← set_color nodes set_nodes zp RB_BLACK;
      zpp ← get_parent nodes zp;
      _ ← set_color nodes set_nodes zpp RB_RED;
      _ ← rotate (flip sd) zpp;
      mret z) Q (St m r).
Proof.
  intros [Hz (a & b & ->) Ht Hk Ho] Hunc HQ.
  apply wp_bind. eapply wp_zip_get_parent with (sd := L); [exact Hz|]. cbn [kptr s_addr]. apply zip_out in Hz.
  apply wp_bind. eapply wp_zip_set_color; [exact Hz|]. clear Hz. intros m1 Hz.
  apply wp_bind. eapply wp_zip_get_parent; [exact Hz|]. cbn [kptr s_addr]. apply zip_out in Hz.
  apply wp_bind. eapply wp_zip_set_color; [exact Hz|]. clear Hz. intros m2 Hz.
  rewrite <- (node_of_flip sd _ zpp), <- (node_of_flip sd _ zp) in Hz.
  apply wp_bind. eapply wp_zip_rotate; [exact Hz|]. clear Hz. intros m3 r' Hz. apply wp_ret.
  rewrite !node_of_flip in Hz. apply zip_in in Hz. eapply (HQ m3 r' (Step sd zp RB_BLACK _ :: k)); [|reflexivity]. split; [exact Hz|by eexists _, _|exact Ht| |].
  - inversion Hk as [| |? ? ? ? ? Hs Hcs Hkc Hk']; subst. inversion Hk' as [|? ? ? ? ? Hu Hk2|]; subst.
    constructor; [apply rbt_red; by split_and!|done].
  - rewrite <- Ho. cbn. apply order_fill. destruct sd; in_order.
Qed.

(** A red node between its parent and grandparent is first rotated to the outside. *)
Lemma wp_insert_rotate np m r k s1 s2 t z zp sib zpp unc n xs (Q : Z -> S -> Prop) :
  fixing np m r (Step s1 zp RB_RED sib :: Step s2 zpp RB_BLACK unc :: k) t z n xs -> col unc = RB_BLACK ->
  (forall m' r' k' t' z', fixing np m' r' k' t' z' n xs -> fix_rounds k' = 0%nat -> Q z' (St m' r')) ->
  wp (f ← get_child (flip s2) zp;
      z ← (if z =? f then _ ← rotate s2 zp; mret zp else mret z);
      zp ← get_parent nodes z;
      _ ← set_color nodes set_nodes zp RB_BLACK;
      zpp ← get_parent nodes zp;
      _ ← set_color nodes set_nodes zpp RB_RED;
      _ ← rotate (flip s2) zpp;
      mret z) Q (St m r).
Proof.
  intros Hfx Hunc HQ. pose proof Hfx as [Hz (a & b & ->) Ht Hk Ho]. apply zip_out in Hz.
  pose proof (zip_node _ _ _ _ _ _ _ _ _ _ _ Hz) as (_ & _ & _ & _ & _ & Hd & _ & _ & _ & (Hz0 & _) & Hs).
  destruct (decide (s1 = s2)) as [->|Hne].
  - apply wp_bind. eapply wp_zip_get_far; [exact Hz|].
    assert (Hzs : z <> ptr nil sib). { destruct (ptr_cases _ _ _ _ Hs) as [[_ ->]|[_ Hin]]; [done|]. intros Hzs. destruct (Hd z) as [Hd1 _]; [cbn; set_solver|]. apply Hd1. by rewrite Hzs. }
    rewrite (proj2 (Z.eqb_neq _ _) Hzs). apply wp_bind, wp_ret. eapply wp_insert_outer; [exact Hfx|exact Hunc|].
    intros m' r' k' t' Hfx'. by eapply HQ.
  - assert (s1 = flip s2) as -> by (by destruct s1, s2). apply wp_bind. eapply wp_zip_get_near; [exact Hz|]. cbn [ptr].
    rewrite Z.eqb_refl. destruct (node_as s2 a z RB_RED b) as (x & y & Hxy). rewrite Hxy in *. rewrite node_of_flip in Hz.
    apply wp_bind, wp_bind. eapply wp_zip_rotate; [exact Hz|]. clear Hz. intros m1 r1 Hz. apply wp_ret. apply zip_in in Hz.
    inversion Hk as [| |? ? ? ? ? Hsib Hcs Hkc Hk']; subst. apply rbt_red in Ht as (Hx & Hy & Hcx & Hcy).
    eapply wp_insert_outer; [split; [exact Hz|by destruct s2; eexists _, _| | |reflexivity]|exact Hunc|].
    + apply rbt_red. by split_and!.
    + by constructor.
    + intros m' r' k' t' Hfx'. eapply HQ. destruct Hfx' as [H1 H2 H3 H4 H5]. split; try done. rewrite H5. cbn. apply order_fill.
      destruct s2; in_order.
Qed.

Local Notation insert_case_of s2 := (insert_case nodes set_nodes (get_child s2) (get_child (flip s2)) (rotate s2) (rotate (flip s2))).

Lemma wp_insert_case np m r k s1 s2 t z zp sib zpp unc n xs (Q : Z -> S -> Prop) :
  fixing np m r (Step s1 zp RB_RED sib :: Step s2 zpp RB_BLACK unc :: k) t z n xs ->
  (forall m' r' k' t' z' n', fixing np m' r' k' t' z' n' xs -> (fix_rounds k' < length k + 2)%nat -> Q z' (St m' r')) ->
  wp (insert_case_of s2 z) Q (St m r).
Proof.
  intros Hfx HQ. pose proof Hfx as [Hz (a & b & ->) _ _ _]. unfold insert_case.
  apply wp_bind. eapply wp_zip_get_parent with (sd := L); [exact Hz|]. cbn [kptr s_addr]. apply zip_out in Hz.
  apply wp_bind. eapply wp_zip_get_parent; [exact Hz|]. cbn [kptr s_addr]. apply zip_out in Hz.
  apply wp_bind. eapply wp_zip_get_far; [exact Hz|]. apply zip_in_far in Hz.
  apply wp_bind. eapply wp_zip_get_color; [exact Hz|].
  destruct unc as [|ul u [] ur]; cbn [col ptr]; unfold is_red; rewrite ?bool_decide_eq_true_2, ?bool_decide_eq_false_2 by done.
  - eapply wp_insert_rotate; [exact Hfx|done|]. intros m' r' k' t' z' Hfx' Hr. eapply HQ; [exact Hfx'|lia].
  - eapply wp_insert_recolor; [exact Hfx|]. intros m' t' n' Hfx'. eapply HQ; [exact Hfx'|]. destruct k as [|[? ? [] ?] k]; cbn; lia.
  - eapply wp_insert_rotate; [exact Hfx|done|]. intros m' r' k' t' z' Hfx' Hr. eapply HQ; [exact Hfx'|lia].
Qed.

Local Notation fix_body := (fun z =>
    zp ← get_parent nodes z;
    c ← get_color nodes zp;
    if is_red c then
      zpp ← get_parent nodes zp;
      l ← get_left nodes zpp;
      z' ← (if zp =? l then insert_case_of L z else insert_case_of R z);
      mret (inl z')
    else mret (inr tt)).

Lemma wp_insert_loop np xs (Q : unit -> S -> Prop) :
  (forall m r k t z n, fixing np m r k t z n xs -> (k <> [] -> kcol k = RB_BLACK) -> Q tt (St m r)) ->
  forall fuel m r k t z n, fixing np m r k t z n xs -> (fix_rounds k < fuel)%nat ->
  wp (loop fuel fix_body z) Q (St m r).
Proof.
  intros HQ. induction fuel as [|fuel IH]; intros m r k t z n Hfx Hf; [lia|]. cbn [loop]. apply wp_bind.
  pose proof Hfx as [Hz (a & b & ->) _ Hk _]. apply wp_bind. eapply wp_zip_get_parent with (sd := L); [exact Hz|].
  destruct k as [|[s1 zp c sib] k]; cbn [kptr s_addr].
  - apply wp_bind. eapply wp_get_color; [exact (z_nil _ _ _ _ _ _ _ Hz)|]. apply wp_ret, wp_ret. eapply HQ; [exact Hfx|done].
  - apply zip_out in Hz. rewrite <- (ptr_node_of nil s1 (Node a z RB_RED b) zp c sib).
    apply wp_bind. eapply wp_zip_get_color; [exact Hz|]. rewrite col_node_of, ptr_node_of.
    destruct c; [|apply wp_ret, wp_ret; eapply HQ; [exact Hfx|done]]. cbn [is_red bool_decide].
    assert (exists s2 zpp unc k', k = Step s2 zpp RB_BLACK unc :: k') as (s2 & zpp & unc & k' & ->).
    { inversion Hk as [| |? ? ? ? ? _ _ Hc _]; subst. destruct k as [|[s2 zpp c2 unc] k']; cbn in Hc; [discriminate|].
      subst c2. by eexists _, _, _, _. }
    unfold is_red. rewrite bool_decide_eq_true_2 by done.
    apply wp_bind. eapply wp_zip_get_parent; [exact Hz|]. cbn [kptr s_addr].
    pose proof (zip_node _ _ _ _ _ _ _ _ _ _ _ (zip_out _ _ _ _ _ _ _ _ _ _ _ Hz)) as (_ & Hm & _ & _ & _ & Hd & _ & _ & _ & Hr & Hu).
    rewrite ptr_node_of in Hm. cbn in Hf.
    assert (Hnext : forall m' r' k1 t' z' n', fixing np m' r' k1 t' z' n' xs -> (fix_rounds k1 < length k' + 2)%nat ->
      wp (mret (inl z') ≫= fun res : Z + unit => match res with inl a' => loop fuel fix_body a' | inr b' => mret b' end) Q (St m' r')).
    { intros m' r' k1 t' z' n' Hfx' Hlt. apply wp_bind, wp_ret. eapply IH; [exact Hfx'|lia]. }
    apply wp_bind. destruct s2.
    + eapply (wp_get_near s0 nil L); [exact Hm|]. rewrite Z.eqb_refl.
      apply wp_bind. eapply wp_insert_case; [exact Hfx|]. intros m' r' k1 t' z' n' Hfx' Hlt. apply wp_bind_inv. by eapply Hnext.
    + eapply (wp_get_far s0 nil R); [exact Hm|].
      assert (Hzu : zp <> ptr nil unc).
      { rewrite repr_node_of in Hr. destruct (ptr_cases _ _ _ _ Hu) as [[_ ->]|[_ Hin]]; [apply Hr|]. intros Hzu.
        destruct (Hd zp) as [Hd1 _]; [rewrite addrs_node_of; set_solver|]. apply Hd1. by rewrite Hzu. }
      rewrite (proj2 (Z.eqb_neq _ _) Hzu).
      apply wp_bind. eapply wp_insert_case; [exact Hfx|]. intros m' r' k1 t' z' n' Hfx' Hlt. apply wp_bind_inv. by eapply Hnext.
Qed.

Lemma wp_insert_fixup np m r k t z n xs (Q : unit -> S -> Prop) : fixing np m r k t z n xs ->
  (forall m' r' T, zip np m' r' [] T -> rb_ok T -> addrs T = xs -> Q tt (St m' r')) ->
  wp (rb_insert_fixup nodes set_nodes tree_of set_tree z) Q (St m r).
Proof.
  intros Hfx HQ. unfold rb_insert_fixup. apply wp_bind, wp_with_fuel. eapply wp_insert_loop; [|exact Hfx|].
  - clear -HQ Hst. intros m r k t z n [Hz (a & b & ->) Ht Hk <-] Hc. apply wp_bind, wp_get_root. apply zip_up in Hz.
    assert (Hr : r = ptr nil (fill k (Node a z RB_RED b))) by exact (z_path _ _ _ _ _ _ _ Hz).
    assert (Hok : k <> [] -> rb_ok (fill k (Node a z RB_RED b))) by (intros Hne; eapply rbt_fill; [exact Ht|exact Hk|auto]).
    destruct (fill k (Node a z RB_RED b)) as [|l x c rr] eqn:Hfill.
    { pose proof (fill_perm k (Node a z RB_RED b)) as Hp. rewrite Hfill in Hp. apply Permutation_nil in Hp.
      apply app_nil in Hp as [_ Hp]. cbn in Hp. apply app_nil in Hp as [_ Hp]. discriminate Hp. }
    cbn in Hr. subst r. eapply wp_zip_set_color with (sd := L); [exact Hz|]. intros m' Hz'. eapply HQ; [exact Hz'| |done].
    destruct k as [|f k].
    + cbn in Hfill. injection Hfill as <- <- <- <-. apply (rbt_red L) in Ht as (Hl & Hrr & _). split; [|done]. eexists. by apply (rbt_black L).
    + destruct Hok as [[N HN] Hcol]; [done|]. cbn in Hcol. subst c. split; [by exists N|done].
  - pose proof (zip_size _ _ _ _ _ _ _ (fx_zip _ _ _ _ _ _ _ _ Hfx)) as Hsz. rewrite length_app in Hsz. pose proof (path_length k).
    destruct k as [|[? ? [] ?] k]; cbn in *; lia.
Qed.

(** ** The descent *)

Context (compare : Z -> Z -> M S Z) (cmp : Z -> Z -> Z) (known : Z -> Prop).
Let lt (a b : Z) : bool := cmp a b <? 0.
(** The callback compares known nodes, changes nothing, and orders them. *)
Hypothesis compare_ok : forall a b m r (Q : Z -> S -> Prop), known a -> known b -> Q (cmp a b) (St m r) -> wp (compare a b) Q (St m r).
Hypothesis order_ok : strict_weak lt known.

Definition placed z k : Prop := (forall a, a ∈ before k -> lt z a = false) /\ (forall b, b ∈ after k -> lt z b = true).

Lemma placed_step z sd x c near far k : known z -> (forall a, a ∈ addrs (fill k (node_of sd near x c far)) -> known a) ->
  rb_sorted lt (addrs (fill k (node_of sd near x c far))) -> lt z x = (if sd then true else false) -> placed z k ->
  placed z (Step sd x c far :: k).
Proof.
  intros Hz Hkn Hs Hx [Hb Ha]. rewrite fill_order in Hs, Hkn. apply StronglySorted_app in Hs as (_ & _ & Hs).
  apply StronglySorted_app in Hs as (_ & Hs & _). rewrite order_node_of in *.
  assert (Hkx : known x) by (apply Hkn; destruct sd; set_solver).
  assert (Hkf : forall a, a ∈ addrs far -> known a) by (intros a Hin; apply Hkn; destruct sd; set_solver).
  destruct sd; apply StronglySorted_app in Hs as (Hs1 & _ & Hs2); split; cbn; try done.
  - intros b [->|[Hin|Hin]%elem_of_app]%elem_of_cons; [done| |by apply Ha].
    apply StronglySorted_cons in Hs2 as [Hs2 _]. rewrite Forall_forall in Hs2. specialize (Hs2 b Hin). cbn in Hs2.
    destruct (sw_split _ _ order_ok z b x) as [H|H]; auto. congruence.
  - intros a [Hin|[Hin|[->|Hin]%elem_of_cons]%elem_of_app]%elem_of_app; [by apply Hb| |done|set_solver].
    destruct (lt z a) eqn:E; [|done]. specialize (Hs1 a x Hin ltac:(left)). cbn in Hs1.
    destruct (sw_split _ _ order_ok z x a) as [H|H]; auto; congruence.
Qed.

Lemma wp_descend np z T (Q : Z -> S -> Prop) m r : known z -> (forall a, a ∈ addrs T -> known a) -> rb_sorted lt (addrs T) ->
  (forall k, zip np m r k Leaf -> fill k Leaf = T -> placed z k -> Q (kptr nil k) (St m r)) ->
  forall fuel k t, zip np m r k t -> fill k t = T -> placed z k -> (length (addrs t) < fuel)%nat ->
  wp (loop fuel (fun st : Z * Z =>
    let '(y, x) := st in
    nil ← RB_NIL tree_of;
    if x =? nil then mret (inr y) else
    c ← compare z x;
    if c <? 0 then l ← get_left nodes x; mret (inl (x, l))
    else r ← get_right nodes x; mret (inl (x, r))) (kptr nil k, ptr nil t)) Q (St m r).
Proof.
  intros Hz Hkn Hs HQ. induction fuel as [|fuel IH]; intros k t Hzip Hxs Hp Hf; [lia|]. cbn [loop]. apply wp_bind.
  apply wp_bind, wp_RB_NIL. destruct t as [|lt' x c rt]; cbn [ptr].
  - rewrite Z.eqb_refl. apply wp_ret, wp_ret. by apply HQ.
  - cbn in Hf. rewrite length_app in Hf. cbn in Hf.
    assert (Hx : known x) by (apply Hkn; rewrite <- Hxs, fill_perm; cbn; set_solver).
    pose proof (zip_node _ _ _ _ _ _ L _ _ _ _ Hzip) as (Hx0 & _).
    rewrite (proj2 (Z.eqb_neq x nil)) by done. apply wp_bind, compare_ok; [done|done|]. rewrite <- Hxs in Hkn, Hs. destruct (cmp z x <? 0) eqn:E.
    + apply wp_bind. eapply (wp_zip_get_near s0 nil others np m r k L); [exact Hzip|]. apply wp_ret.
      apply (IH (Step L x c rt :: k)); [by apply (zip_in nil others np m r k L)|exact Hxs| |lia]. by eapply (placed_step z L).
    + apply wp_bind. eapply (wp_zip_get_far s0 nil others np m r k L); [exact Hzip|]. apply wp_ret.
      apply (IH (Step R x c lt' :: k)); [by apply (zip_in_far nil others np m r k L)|exact Hxs| |lia]. by eapply (placed_step z R).
Qed.

(** ** The new leaf *)

Lemma wp_link_leaf np m r k z n0 (K : M S unit) (Q : unit -> S -> Prop) : zip np m r k Leaf -> z <> nil -> z ∉ kaddrs k -> m !! z = Some n0 ->
  known z -> (forall a, a ∈ kaddrs k -> known a) -> placed z k ->
  (forall m' r', zip np m' r' k (Node Leaf z RB_RED Leaf) -> wp K Q (St m' r')) ->
  wp (_ ← set_parent nodes set_nodes z (kptr nil k);
      _ ← (if kptr nil k =? nil then set_root tree_of set_tree z else
           c ← compare z (kptr nil k);
           if c <? 0 then set_left nodes set_nodes (kptr nil k) z else set_right nodes set_nodes (kptr nil k) z);
      _ ← set_left nodes set_nodes z nil;
      _ ← set_right nodes set_nodes z nil;
      _ ← set_color nodes set_nodes z RB_RED;
      K) Q (St m r).
Proof.
  intros [_ Hk Hnd Hn Ho] Hz Hzk Hm Hkz Hkn [Hb Ha] HQ. cbn in Hnd. rewrite app_nil_r in Hnd.
  set (m1 := <[z := RbNode (kptr nil k) (rb_left n0) (rb_right n0) (rb_col n0)]> m).
  assert (H1 : m1 !! z = Some (RbNode (kptr nil k) (rb_left n0) (rb_right n0) (rb_col n0))) by apply lookup_insert_eq.
  assert (Hk1 : reprk nil m1 r nil k) by (eapply reprk_ext; [|exact Hk]; intros q Hq; apply lookup_insert_ne; congruence).
  assert (Hend : forall n, rb_parent n = kptr nil k -> relink nil k z m1 !! z = Some n -> wp (_ ← set_left nodes set_nodes z nil;
      _ ← set_right nodes set_nodes z nil; _ ← set_color nodes set_nodes z RB_RED; K) Q (St (relink nil k z m1) (newroot k z r))).
  { intros n Hnp Hzn. apply wp_bind. eapply wp_put_node; [exact Hzn|]. apply wp_bind. eapply wp_put_node; [apply lookup_insert_eq|].
    apply wp_bind. eapply wp_put_node; [apply lookup_insert_eq|]. rewrite Hnp, !insert_insert_eq. cbn.
    assert (Hne : forall q, q <> z -> <[z := RbNode (kptr nil k) nil nil RB_RED]> (relink nil k z m1) !! q = relink nil k z m !! q).
    { intros q Hq. rewrite lookup_insert_ne by done. destruct k as [|f k']; cbn; [by apply lookup_insert_ne|].
      destruct (decide (q = s_addr f)) as [->|]; [by rewrite !lookup_insert_eq|]. rewrite !lookup_insert_ne by done. by apply lookup_insert_ne. }
    pose proof (reprk_nil _ _ _ _ _ Hk) as Hnk. apply HQ. split.
    - cbn. split_and!; [done|apply lookup_insert_eq|done|done].
    - cbn [ptr]. eapply reprk_ext; [|eapply reprk_relink; [exact Hnd|exact Hk]]. intros q Hq. apply Hne. congruence.
    - apply NoDup_app. split; [done|]. split; [|apply NoDup_singleton]. cbn. set_solver.
    - rewrite Hne by done. by rewrite relink_other.
    - cbn. intros q Hq Hq'. rewrite Hne by set_solver. rewrite relink_other by set_solver. apply Ho; [done|]. cbn. set_solver. }
  apply wp_bind. eapply wp_put_node; [exact Hm|]. fold m1. apply wp_bind. clearbody m1. destruct k as [|[sd y c sib] k].
  - cbn. rewrite Z.eqb_refl. apply wp_set_root. by eapply Hend; [|exact H1].
  - cbn [kptr s_addr] in *. destruct Hk1 as (Hy & Hmy & _). cbn in Hy. rewrite (proj2 (Z.eqb_neq y nil)) by done.
    apply wp_bind, compare_ok; [done|apply Hkn; cbn; left|]. cbn [kaddrs s_addr s_sib] in Hzk.
    assert (Hz' : relink nil (Step sd y c sib :: k) z m1 !! z = m1 !! z) by (by apply relink_other).
    rewrite H1 in Hz'. cbn [s_addr s_side s_sib s_col] in Hmy. destruct sd.
    + change (cmp z y <? 0) with (lt z y). rewrite (Ha y) by (cbn; left). eapply (wp_put_near s0 nil L); [exact Hmy|]. by eapply Hend; [|exact Hz'].
    + change (cmp z y <? 0) with (lt z y). rewrite (Hb y) by (cbn; set_solver). eapply (wp_put_near s0 nil R); [exact Hmy|]. by eapply Hend; [|exact Hz'].
Qed.

Lemma wp_rb_tree_insert np T z n0 m (Q : unit -> S -> Prop) : zip np m (ptr nil T) [] T -> rb_ok T -> rb_sorted lt (addrs T) ->
  (forall a, a ∈ addrs T -> known a) -> known z -> z <> nil -> z ∉ addrs T -> m !! z = Some n0 ->
  (forall m' r' T' xs ys, zip np m' r' [] T' -> rb_ok T' -> rb_sorted lt (addrs T') -> addrs T = xs ++ ys -> addrs T' = xs ++ z :: ys ->
     Q tt (St m' r')) ->
  wp (rb_tree_insert nodes set_nodes tree_of set_tree compare z) Q (St m (ptr nil T)).
Proof.
  intros Hz Hok Hs Hkn Hkz Hz0 HzT Hm HQ. unfold rb_tree_insert. apply wp_bind, wp_RB_NIL. apply wp_bind, wp_get_root.
  apply wp_bind, wp_with_fuel. apply (wp_descend np z T) with (k := []) (t := T); try done.
  2:{ by split; set_solver. }
  2:{ pose proof (zip_size _ _ _ _ _ _ _ Hz) as Hsz. cbn [kaddrs app] in Hsz. lia. }
  intros k Hzk HT Hp. assert (Hin : forall a, a ∈ kaddrs k -> a ∈ addrs T).
  { intros a Ha. rewrite <- HT, fill_perm. set_solver. }
  eapply wp_link_leaf; [exact Hzk|done|auto|exact Hm|done|auto|exact Hp|]. intros m' r' Hz'.
  assert (Hk : path_ok k 0).
  { rewrite <- HT in Hok. apply rbt_unfill in Hok as (n & Hn & Hk & _). by inversion Hn; subst. }
  eapply wp_insert_fixup; [split; [exact Hz'|by eexists _, _|by repeat constructor|exact Hk|reflexivity]|].
  intros m2 r2 T' Hz2 Hok2 Ho2. apply (f_equal addrs) in HT. rewrite fill_order in HT, Ho2. cbn in HT, Ho2. eapply (HQ _ _ T'); [exact Hz2|exact Hok2| |by symmetry|exact Ho2].
  rewrite Ho2. apply rb_sorted_insert; [by rewrite HT| |]; intros a Ha; [by apply Hp|].
  apply (sw_asym _ _ order_ok); [done|apply Hkn; rewrite <- HT; set_solver|by apply Hp].
Qed.
End insert.
