(* ===== verification/RbDelete.v ===== *)
(** Deletion from a red-black tree ([rb_tree_delete] and [rb_delete_fixup] of [kernel/ds/rbtree.c]). *)
From stdpp Require Import sorting.
From S2P Require Import Prelude Rbtree RbTheory.
Open Scope Z_scope.

Section delete.
Context {S : Type} {nodes : S -> gmap Z rb_node} {set_nodes : gmap Z rb_node -> S -> S}.
Context {tree_of : S -> rb_tree} {set_tree : rb_tree -> S -> S} {Hst : RbStore nodes set_nodes tree_of set_tree}.
Context (s0 : S) (nil : Z).
Implicit Types (m : gmap Z rb_node) (r p z : Z) (t : tree) (k : path).
Local Notation St := (@St S set_nodes set_tree s0 nil).
Local Notation get_child := (@get_child S nodes).
Local Notation rotate := (@rotate S nodes set_nodes tree_of set_tree).

(** ** The fix-up *)

Section fixup.
Context (others : gmap Z rb_node).
Local Notation zip := (zip nil others).

(** One black node is missing below the focus: painting a red focus black makes up for it. *)
Definition deficit t n : Prop := match col t with RB_RED => rbt (blacken t) (Datatypes.S n) | RB_BLACK => rbt t n end.

Record short np m r k t n xs : Prop := {
  sh_zip : zip np m r k t;
  sh_nil : t = Leaf -> np = kptr nil k;
  sh_rbt : deficit t n;
  sh_path : path_ok k (Datatypes.S n);
  sh_order : addrs (fill k t) = xs;
}.
(** The rounds of the loop that may be left. *)
Definition short_rounds k t : nat := match col t with RB_RED => 0 | RB_BLACK => length k end.

Lemma wp_short_parent np m r k t (Q : Z -> S -> Prop) : zip np m r k t -> (t = Leaf -> np = kptr nil k) ->
  Q (kptr nil k) (St m r) -> wp (get_parent nodes (ptr nil t)) Q (St m r).
Proof.
  intros Hz Hnp HQ. pose proof (zip_top _ _ _ _ _ _ _ Hz) as (n & Hm & _ & Hp). eapply wp_get_parent; [exact Hm|].
  destruct t as [|l a c rr]; [|by rewrite Hp].
  cbn in Hm. rewrite (z_nil _ _ _ _ _ _ _ Hz) in Hm. injection Hm as <-. cbn. by rewrite Hnp.
Qed.

(** The far nephew is red: recolour and rotate the parent; the tree follows the rules. *)
Lemma wp_delete_outer np m r k sd t xp cp wn w wf n xs (Q : Z -> S -> Prop) :
  zip np m r (Step sd xp cp (node_of sd wn w RB_BLACK wf) :: k) t -> (t = Leaf -> np = xp) -> rbt t n -> 
  path_ok (Step sd xp cp (node_of sd wn w RB_BLACK wf) :: k) (Datatypes.S n) -> col wf = RB_RED ->
  addrs (fill (Step sd xp cp (node_of sd wn w RB_BLACK wf) :: k) t) = xs ->
  (forall m' r' T n', short np m' r' [] T n' xs -> col T = RB_BLACK -> T <> Leaf -> r' = ptr nil T -> Q r' (St m' r')) ->
  wp (xp ← get_parent nodes (ptr nil t);
      c ← get_color nodes xp;
      _ ← set_color nodes set_nodes w c;
      _ ← set_color nodes set_nodes xp RB_BLACK;
      wf ← get_child (flip sd) w;
      _ ← set_color nodes set_nodes wf RB_BLACK;
      _ ← rotate sd xp;
      get_root tree_of) Q (St m r).
Proof.
  intros Hz Hnp Ht Hk Hwf Ho HQ.
  destruct wf as [|fl f fc fr]; [discriminate Hwf|]. cbn in Hwf. subst fc.
  apply wp_bind. eapply wp_short_parent; [exact Hz|done|]. cbn [kptr s_addr]. apply zip_out in Hz.
  apply wp_bind. rewrite <- (ptr_node_of nil sd t xp cp (node_of sd wn w RB_BLACK (Node fl f RB_RED fr))) at 1.
  eapply wp_zip_get_color; [exact Hz|]. rewrite col_node_of. apply zip_in_far in Hz.
  apply wp_bind. eapply wp_zip_set_color; [exact Hz|]. clear Hz. intros m1 Hz. apply zip_out_far in Hz.
  apply wp_bind. eapply wp_zip_set_color; [exact Hz|]. clear Hz. intros m2 Hz. apply zip_in_far in Hz.
  apply wp_bind. eapply wp_zip_get_far; [exact Hz|]. cbn [ptr]. apply zip_in_far in Hz.
  apply wp_bind. eapply wp_zip_set_color with (sd := L); [exact Hz|]. clear Hz. intros m3 Hz. apply zip_out_far, zip_out_far in Hz.
  apply wp_bind. eapply wp_zip_rotate; [exact Hz|]. clear Hz. intros m4 r' Hz. apply wp_get_root. apply zip_up in Hz.
  set (T := node_of sd (node_of sd t xp RB_BLACK wn) w cp (node_of L fl f RB_BLACK fr)) in *.
  assert (Hok : rb_ok (fill k T)).
  { inversion Hk as [|? ? ? ? ? Hw Hk'|? ? ? ? ? Hw _ Hkc Hk']; subst; apply rbt_black_inv in Hw as (h & [= <-] & Hwn & Hf); apply (rbt_red L) in Hf as (Hfl & Hfr & _).
    - eapply rbt_fill; [|exact Hk'|unfold T; rewrite col_node_of; done]. apply rbt_black. split; [by apply rbt_black|by apply (rbt_black L)].
    - eapply rbt_fill; [|exact Hk'|done]. apply rbt_red. rewrite col_node_of. split_and!; [by apply rbt_black|by apply (rbt_black L)|done|done]. }
  destruct Hok as [[N HN] Hcol].
  assert (Hord : addrs (fill k T) = xs).
  { rewrite <- Ho. cbn. apply order_fill. unfold T. destruct sd; in_order. }
  assert (Hne : fill k T <> Leaf).
  { intros E. pose proof (fill_perm k T) as Hp. rewrite E in Hp. unfold T in Hp. rewrite addrs_node_of in Hp. cbn in Hp.
    apply Permutation_nil, app_nil in Hp as [_ Hp]. discriminate Hp. }
  pose proof (z_path _ _ _ _ _ _ _ Hz) as Hr. cbn in Hr. eapply (HQ m4 r' (fill k T) N); [|done|done|exact Hr].
  split; [exact Hz|done|unfold deficit; by rewrite Hcol|constructor|exact Hord].
Qed.

Local Notation delete_outer_of sd x w := (
      xp ← get_parent nodes x;
      c ← get_color nodes xp;
      _ ← set_color nodes set_nodes w c;
      _ ← set_color nodes set_nodes xp RB_BLACK;
      wf ← get_child (flip sd) w;
      _ ← set_color nodes set_nodes wf RB_BLACK;
      _ ← rotate sd xp;
      get_root tree_of).
Local Notation delete_black_of sd x w := (
      wn ← get_child sd w;
      wnc ← get_color nodes wn;
      wf ← get_child (flip sd) w;
      wfc ← get_color nodes wf;
      if negb (is_red wnc) && negb (is_red wfc) then
        _ ← set_color nodes set_nodes w RB_RED;
        get_parent nodes x
      else
        w ← (if negb (is_red wfc) then
               _ ← set_color nodes set_nodes wn RB_BLACK;
               _ ← set_color nodes set_nodes w RB_RED;
               _ ← rotate (flip sd) w;
               xp ← get_parent nodes x;
               get_child (flip sd) xp
             else mret w);
        delete_outer_of sd x w).

(** What a round leaves: the whole tree in order, or one step up. *)
Definition round_post k cp xs (Q : Z -> S -> Prop) : Prop :=
  forall np m' r' k' t' n', short np m' r' k' t' n' xs -> short_rounds k' t' = 0%nat \/ cp = RB_BLACK /\ k' = k -> Q (ptr nil t') (St m' r').

(** The sibling is black and both nephews are: it turns red, and the parent is the new focus. *)
Lemma wp_delete_recolor np m r k sd t xp cp wn w wf n xs (Q : Z -> S -> Prop) :
  zip np m r (Step sd xp cp (node_of sd wn w RB_BLACK wf) :: k) t -> (t = Leaf -> np = xp) -> rbt t n -> col t = RB_BLACK ->
  path_ok (Step sd xp cp (node_of sd wn w RB_BLACK wf) :: k) (Datatypes.S n) -> col wn = RB_BLACK -> col wf = RB_BLACK ->
  addrs (fill (Step sd xp cp (node_of sd wn w RB_BLACK wf) :: k) t) = xs -> round_post k cp xs Q ->
  wp (_ ← set_color nodes set_nodes w RB_RED; get_parent nodes (ptr nil t)) Q (St m r).
Proof.
  intros Hz Hnp Ht Hct Hk Hcn Hcf Ho HQ. apply zip_out, zip_in_far in Hz.
  apply wp_bind. eapply wp_zip_set_color; [exact Hz|]. clear Hz. intros m1 Hz. apply zip_out_far in Hz.
  eapply wp_short_parent; [exact (zip_in _ _ _ _ _ _ _ _ _ _ _ Hz)|done|]. cbn [kptr s_addr].
  rewrite <- (ptr_node_of nil sd t xp cp (node_of sd wn w RB_RED wf)).
  assert (Hnew : exists n', deficit (node_of sd t xp cp (node_of sd wn w RB_RED wf)) n' /\ path_ok k (Datatypes.S n')).
  { unfold deficit. rewrite col_node_of.
    inversion Hk as [|? ? ? ? ? Hw Hk'|? ? ? ? ? Hw _ Hkc Hk']; subst; apply rbt_black_inv in Hw as (h & [= <-] & Hwn & Hwf).
    - exists (Datatypes.S n). split; [|done]. apply (rbt_black sd _ _ _ n). split; [done|]. by apply rbt_red.
    - exists n. split; [|done].
      assert (E : blacken (node_of sd t xp RB_RED (node_of sd wn w RB_RED wf)) = node_of sd t xp RB_BLACK (node_of sd wn w RB_RED wf)) by (by destruct sd).
      rewrite E. apply rbt_black. split; [done|]. by apply rbt_red. }
  destruct Hnew as (n' & Hd & Hk'). eapply HQ; [split; [exact Hz|by destruct sd|exact Hd|exact Hk'|]|].
  - rewrite <- Ho. cbn. apply order_fill. by destruct sd.
  - unfold short_rounds. rewrite col_node_of. destruct cp; [by left|by right].
Qed.

Lemma wp_delete_black np m r k sd t xp cp wn w wf n xs (Q : Z -> S -> Prop) :
  zip np m r (Step sd xp cp (node_of sd wn w RB_BLACK wf) :: k) t -> (t = Leaf -> np = xp) -> rbt t n -> col t = RB_BLACK ->
  path_ok (Step sd xp cp (node_of sd wn w RB_BLACK wf) :: k) (Datatypes.S n) ->
  addrs (fill (Step sd xp cp (node_of sd wn w RB_BLACK wf) :: k) t) = xs -> round_post k cp xs Q ->
  wp (delete_black_of sd (ptr nil t) w) Q (St m r).
Proof.
  intros Hz Hnp Ht Hct Hk Ho HQ. pose proof (zip_in_far _ _ _ _ _ _ _ _ _ _ _ (zip_out _ _ _ _ _ _ _ _ _ _ _ Hz)) as Hw.
  assert (Hend : forall np m' r' T n', short np m' r' [] T n' xs -> col T = RB_BLACK -> T <> Leaf -> r' = ptr nil T -> Q r' (St m' r')).
  { intros np' m' r' T n' Hs Hc _ ->. eapply HQ; [exact Hs|left]. unfold short_rounds. by rewrite Hc. }
  apply wp_bind. eapply wp_zip_get_near; [exact Hw|]. apply wp_bind. eapply wp_zip_get_color; [exact (zip_in _ _ _ _ _ _ _ _ _ _ _ Hw)|].
  apply wp_bind. eapply wp_zip_get_far; [exact Hw|]. apply wp_bind. eapply wp_zip_get_color; [exact (zip_in_far _ _ _ _ _ _ _ _ _ _ _ Hw)|].
  clear Hw. destruct (col wf) eqn:Hcf; unfold is_red; rewrite ?bool_decide_eq_true_2, ?bool_decide_eq_false_2 by done; cbn [negb].
  - rewrite andb_false_r. apply wp_bind, wp_ret. eapply wp_delete_outer; [exact Hz|done|exact Ht|exact Hk|exact Hcf|exact Ho|apply Hend].
  - destruct (col wn) eqn:Hcn; rewrite ?bool_decide_eq_true_2, ?bool_decide_eq_false_2 by done; cbn [negb andb].
    2:{ eapply wp_delete_recolor; eauto. }
    destruct wn as [|l x cx rr]; [discriminate Hcn|]. cbn in Hcn. subst cx. destruct (node_as sd l x RB_RED rr) as (a & b & Hab). rewrite Hab in *. clear Hab l rr.
    apply wp_bind. rewrite ptr_node_of. apply zip_out, zip_in_far, zip_in in Hz. apply wp_bind. eapply wp_zip_set_color; [exact Hz|].
    clear Hz. intros m1 Hz. apply zip_out in Hz. apply wp_bind. eapply wp_zip_set_color; [exact Hz|]. clear Hz. intros m2 Hz.
    rewrite <- (node_of_flip sd _ w), <- (node_of_flip sd _ x) in Hz. apply wp_bind. eapply wp_zip_rotate; [exact Hz|].
    clear Hz. intros m3 r3 Hz. rewrite !node_of_flip in Hz. apply zip_out_far in Hz.
    apply wp_bind. eapply wp_short_parent; [exact (zip_in _ _ _ _ _ _ _ _ _ _ _ Hz)|done|]. cbn [kptr s_addr].
    eapply wp_zip_get_far; [exact Hz|]. rewrite ptr_node_of. apply zip_in in Hz.
    eapply wp_delete_outer; [exact Hz|done|exact Ht| |by rewrite col_node_of| |apply Hend].
    + inversion Hk as [|? ? ? ? ? Hw Hk'|? ? ? ? ? Hw Hcw Hkc Hk']; subst; apply rbt_black_inv in Hw as (h & [= <-] & Hx & Hf);
        apply rbt_red in Hx as (Ha & Hb & _ & Hcb); constructor; rewrite ?col_node_of; try done; apply rbt_black; (split; [done|]); by apply rbt_red.
    + rewrite <- Ho. cbn. apply order_fill. destruct sd; in_order.
Qed.

Local Notation delete_case_of sd := (delete_case nodes set_nodes tree_of (get_child sd) (get_child (flip sd)) (rotate sd) (rotate (flip sd))).

(** The sibling of a short black focus is a node. *)
Lemma short_sibling np m r sd xp cp wt k t n xs : short np m r (Step sd xp cp wt :: k) t n xs -> col t = RB_BLACK ->
  rbt t n /\ exists wn w cw wf, wt = node_of sd wn w cw wf.
Proof.
  intros [_ _ Hd Hk _] Hc. unfold deficit in Hd. rewrite Hc in Hd. split; [exact Hd|].
  assert (Hw : rbt wt (Datatypes.S n)) by (by inversion Hk). destruct wt as [|l w cw rr]; [inversion Hw|].
  destruct (node_as sd l w cw rr) as (a & b & ->). by eexists _, _, _, _.
Qed.

Lemma wp_delete_case np m r sd xp cp wt k t n xs (Q : Z -> S -> Prop) :
  short np m r (Step sd xp cp wt :: k) t n xs -> col t = RB_BLACK ->
  (forall np m' r' k' t' n', short np m' r' k' t' n' xs -> (short_rounds k' t' < Datatypes.S (length k))%nat -> Q (ptr nil t') (St m' r')) ->
  wp (delete_case_of sd (ptr nil t)) Q (St m r).
Proof.
  intros Hsh Hc HQ. destruct (short_sibling _ _ _ _ _ _ _ _ _ _ _ Hsh Hc) as (Ht & wn & w & cw & wf & ->).
  destruct Hsh as [Hz Hnp _ Hk Ho]. cbn [kptr s_addr] in Hnp. unfold delete_case.
  apply wp_bind. eapply wp_short_parent; [exact Hz|done|]. cbn [kptr s_addr].
  apply wp_bind. eapply wp_zip_get_far; [exact (zip_out _ _ _ _ _ _ _ _ _ _ _ Hz)|].
  apply wp_bind. eapply wp_zip_get_color; [exact (zip_in_far _ _ _ _ _ _ _ _ _ _ _ (zip_out _ _ _ _ _ _ _ _ _ _ _ Hz))|].
  rewrite col_node_of, ptr_node_of. destruct cw; [change (is_red RB_RED) with true|change (is_red RB_BLACK) with false]; cbn iota.
  - assert (cp = RB_BLACK) as -> by (inversion Hk; subst; [done|by rewrite col_node_of in *]).
    inversion Hk as [|? ? ? ? ? Hw Hk'|]; subst. apply rbt_red in Hw as (Hwn & Hwf & Hcn & Hcf).
    apply zip_out, zip_in_far in Hz. apply wp_bind, wp_bind. eapply wp_zip_set_color; [exact Hz|]. clear Hz. intros m1 Hz. apply zip_out_far in Hz.
    apply wp_bind. eapply wp_zip_set_color; [exact Hz|]. clear Hz. intros m2 Hz.
    apply wp_bind. eapply wp_zip_rotate; [exact Hz|]. clear Hz. intros m3 r3 Hz. apply zip_in in Hz.
    apply wp_bind. eapply wp_short_parent; [exact (zip_in _ _ _ _ _ _ _ _ _ _ _ Hz)|done|]. cbn [kptr s_addr].
    eapply wp_zip_get_far; [exact Hz|]. apply zip_in in Hz.
    destruct wn as [|l w' cw' rr]; [inversion Hwn|]. cbn in Hcn. subst cw'. destruct (node_as sd l w' RB_BLACK rr) as (a & b & Hab). rewrite Hab in *. clear Hab l rr.
    rewrite ptr_node_of. eapply wp_delete_black; [exact Hz|done|exact Ht|exact Hc| | |
      intros np' m' r' k' t' n' Hsh' Hr; eapply HQ; [exact Hsh'|]; destruct Hr as [->|[? _]]; [lia|discriminate]].
    + constructor; [done|by rewrite col_node_of|done|by constructor].
    + cbn. apply order_fill. destruct sd; in_order.
  - apply wp_bind, wp_ret. eapply wp_delete_black; [exact Hz|done|exact Ht|exact Hc|exact Hk|exact Ho|].
    intros np' m' r' k' t' n' Hsh' Hr. eapply HQ; [exact Hsh'|]. destruct Hr as [->|[_ ->]]; [lia|].
    unfold short_rounds. destruct (col t'); lia.
Qed.

(** The root is not below a path. *)
Lemma root_in_path m r h k : reprk nil m r h k -> k <> [] -> r ∈ kaddrs k.
Proof.
  revert h. induction k as [|f k IH]; intros h Hk Hne; [done|]. cbn in *. destruct Hk as (_ & _ & _ & Hk).
  destruct k as [|f' k]; [cbn in Hk; subst r; left|]. right. apply elem_of_app. right. by eapply IH.
Qed.
Lemma focus_not_root np m r k t : zip np m r k t -> k <> [] -> ptr nil t <> r.
Proof.
  intros [Ht Hk Hnd _ _] Hne E. pose proof (root_in_path _ _ _ _ Hk Hne) as Hr. apply NoDup_app in Hnd as (_ & Hd & _).
  destruct (ptr_cases _ _ _ _ Ht) as [[_ Hp]|[_ Hp]]; [|apply (Hd r); congruence]. apply (reprk_nil _ _ _ _ _ Hk). congruence.
Qed.

Local Notation fix_body := (fun x =>
    root ← get_root tree_of;
    c ← get_color nodes x;
    if negb (x =? root) && negb (is_red c) then
      xp ← get_parent nodes x;
      l ← get_left nodes xp;
      x' ← (if x =? l then delete_case_of L x else delete_case_of R x);
      mret (inl x')
    else mret (inr x)).

Lemma wp_delete_loop xs (Q : Z -> S -> Prop) :
  (forall np m r k t n, short np m r k t n xs -> k = [] \/ col t = RB_RED -> Q (ptr nil t) (St m r)) ->
  forall fuel np m r k t n, short np m r k t n xs -> (short_rounds k t < fuel)%nat ->
  wp (loop fuel fix_body (ptr nil t)) Q (St m r).
Proof.
  intros HQ. induction fuel as [|fuel IH]; intros np m r k t n Hsh Hf; [lia|]. cbn [loop]. apply wp_bind.
  pose proof (sh_zip _ _ _ _ _ _ _ Hsh) as Hz. apply wp_bind, wp_get_root. apply wp_bind. eapply wp_zip_get_color; [exact Hz|].
  destruct k as [|[sd xp cp wt] k].
  { pose proof (z_path _ _ _ _ _ _ _ Hz) as Hr. cbn in Hr. subst r. rewrite Z.eqb_refl. apply wp_ret, wp_ret. eapply HQ; [exact Hsh|by left]. }
  rewrite (proj2 (Z.eqb_neq _ _)) by (by eapply focus_not_root). 
  destruct (col t) eqn:Hc; [apply wp_ret, wp_ret; eapply HQ; [exact Hsh|by right]|].
  change (is_red RB_BLACK) with false. cbn [negb andb].
  destruct (short_sibling _ _ _ _ _ _ _ _ _ _ _ Hsh Hc) as (_ & wn & w & cw & wf & Hwt).
  apply wp_bind. eapply wp_short_parent; [exact Hz|apply Hsh|]. cbn [kptr s_addr].
  pose proof (zip_node _ _ _ _ _ _ _ _ _ _ _ (zip_out _ _ _ _ _ _ _ _ _ _ _ Hz)) as (_ & Hm & _ & _ & _ & Hd & _ & _ & _ & Hr & Hw).
  assert (Hnext : forall np m' r' k' t' n', short np m' r' k' t' n' xs -> (short_rounds k' t' < Datatypes.S (length k))%nat ->
    wp (mret (inl (ptr nil t')) ≫= fun res : Z + Z => match res with inl a' => loop fuel fix_body a' | inr b' => mret b' end) Q (St m' r')).
  { intros np' m' r' k' t' n' Hsh' Hlt. apply wp_bind, wp_ret. eapply IH; [exact Hsh'|]. unfold short_rounds in Hf at 1. rewrite Hc in Hf. cbn in Hf. lia. }
  apply wp_bind. destruct sd.
  - eapply (wp_get_near s0 nil L); [exact Hm|]. rewrite Z.eqb_refl. apply wp_bind. eapply wp_delete_case; [exact Hsh|exact Hc|].
    intros. apply wp_bind_inv. by eapply Hnext.
  - eapply (wp_get_far s0 nil R); [exact Hm|].
    assert (Hne : ptr nil t <> ptr nil wt).
    { destruct (ptr_cases _ _ _ _ Hw) as [[-> _]|[Hw0 Hwin]]; [by destruct wn|].
      destruct (ptr_cases _ _ _ _ Hr) as [[_ ->]|[_ Hin]]; [done|]. intros E. destruct (Hd _ Hin) as [Hd1 _]. congruence. }
    rewrite (proj2 (Z.eqb_neq _ _) Hne). apply wp_bind. eapply wp_delete_case; [exact Hsh|exact Hc|].
    intros. apply wp_bind_inv. by eapply Hnext.
Qed.

Lemma wp_delete_fixup np m r k t n xs (Q : unit -> S -> Prop) : short np m r k t n xs ->
  (forall np m' r' T, zip np m' r' [] T -> rb_ok T -> addrs T = xs -> Q tt (St m' r')) ->
  wp (rb_delete_fixup nodes set_nodes tree_of set_tree (ptr nil t)) Q (St m r).
Proof.
  intros Hsh HQ. unfold rb_delete_fixup. apply wp_bind, wp_with_fuel. eapply wp_delete_loop; [|exact Hsh|].
  - clear -HQ Hst. intros np m r k t n [Hz Hnp Hd Hk <-] Hend. unfold deficit in Hd. destruct t as [|l a c rr].
    + destruct Hend as [->|Hc]; [|discriminate Hc]. cbn [ptr]. eapply wp_put_node; [exact (z_nil _ _ _ _ _ _ _ Hz)|]. cbn.
      rewrite (insert_id m nil) by exact (z_nil _ _ _ _ _ _ _ Hz). eapply HQ; [exact Hz|split; [by exists 0%nat; constructor|done]|done].
    + cbn [ptr]. eapply wp_zip_set_color with (sd := L); [exact Hz|]. intros m' Hz'. apply zip_up in Hz'. eapply HQ; [exact Hz'| |by apply order_fill].
      cbn [col] in *. destruct c; [by eapply rbt_fill|]. destruct Hend as [->|Hc]; [|discriminate Hc]. split; [by exists n|done].
  - pose proof (zip_size _ _ _ _ _ _ _ (sh_zip _ _ _ _ _ _ _ Hsh)) as Hsz. rewrite length_app in Hsz. pose proof (path_length k).
    unfold short_rounds. destruct (col t); lia.
Qed.
End fixup.

(** ** Taking a node out *)

Lemma zip_others oth oth' np m r k t : zip nil oth np m r k t -> (forall q, q <> nil -> q ∉ kaddrs k ++ addrs t -> oth' !! q = oth !! q) ->
  zip nil oth' np m r k t.
Proof. intros [Ht Hk Hnd Hn Ho] Heq. split; try done. intros q Hq Hq'. rewrite Heq by done. by apply Ho. Qed.

(** The parent pointer of a subtree's root, or of the sentinel. *)
Definition put_parent t p m : gmap Z rb_node :=
  match t with Leaf => <[nil := RbNode p nil nil RB_BLACK]> m | Node l a c r => <[a := RbNode p (ptr nil l) (ptr nil r) c]> m end.
Lemma wp_set_top_parent t q p np m r (Q : unit -> S -> Prop) : repr nil m q t -> m !! nil = Some (RbNode np nil nil RB_BLACK) ->
  Q tt (St (put_parent t p m) r) -> wp (set_parent nodes set_nodes (ptr nil t) p) Q (St m r).
Proof.
  intros Ht Hn HQ. destruct t as [|l a c rr]; cbn in *; [by eapply (wp_set_parent s0 nil L); [exact Hn|]|].
  destruct Ht as (_ & Ha & _). by eapply (wp_set_parent s0 nil L); [exact Ha|].
Qed.
Lemma put_parent_other t p m q : q <> nil -> q ∉ addrs t -> put_parent t p m !! q = m !! q.
Proof. intros Hq Hqt. destruct t as [|l a c r]; cbn in *; apply lookup_insert_ne; [congruence|set_solver]. Qed.
Lemma put_parent_nil t p np m q : repr nil m q t -> m !! nil = Some (RbNode np nil nil RB_BLACK) ->
  exists np', put_parent t p m !! nil = Some (RbNode np' nil nil RB_BLACK) /\ (t = Leaf -> np' = p).
Proof.
  intros Ht Hn. destruct t as [|l a c r]; cbn in *.
  - exists p. split; [apply lookup_insert_eq|done].
  - exists np. split; [|done]. destruct Ht as (Ha & _). by rewrite lookup_insert_ne.
Qed.
Lemma repr_put_parent t p p' m : NoDup (addrs t) -> repr nil m p t -> repr nil (put_parent t p' m) p' t.
Proof. intros Hnd Ht. destruct t as [|l a c r]; [done|]. exact (repr_reparent nil (Node l a c r) p p' m Hnd Ht). Qed.

(** A node with one subtree is replaced by it. *)
Lemma wp_zip_transplant oth np m r k sd z c t (Q : unit -> S -> Prop) : zip nil oth np m r k (node_of sd Leaf z c t) ->
  (forall np' m' r', zip nil (<[z := mk sd (kptr nil k) nil (ptr nil t) c]> oth) np' m' r' k t -> (t = Leaf -> np' = kptr nil k) -> Q tt (St m' r')) ->
  wp (rb_transplant nodes set_nodes tree_of set_tree z (ptr nil t)) Q (St m r).
Proof.
  intros Hz HQ. pose proof (zip_node _ _ _ _ _ _ _ _ _ _ _ Hz) as (Hz0 & Hm & Hzk & _ & Hzt & _ & Htk & _ & Hnd & _ & Ht).
  destruct Hz as [_ Hk Hnd' Hn Ho]. rewrite ptr_node_of in Hk. cbn [ptr] in Hm.
  pose proof (reprk_nil _ _ _ _ _ Hk) as Hnk. pose proof (repr_nil _ _ _ _ Ht) as Hnt. apply NoDup_app in Hnd' as (Hndk & _ & _).
  unfold rb_transplant. apply wp_bind. eapply (wp_replace_child s0 nil z z); [exact Hm|by destruct sd|done|done|exact Hk|done|].
  set (m1 := relink nil k (ptr nil t) m).
  assert (H1 : forall q, q ∉ kaddrs k -> m1 !! q = m !! q) by (intros q Hq; by apply relink_other).
  assert (H1n : m1 !! nil = Some (RbNode np nil nil RB_BLACK)) by (by rewrite H1).
  assert (Ht1 : repr nil m1 z t) by (eapply repr_ext; [|exact Ht]; intros q Hq; apply H1; auto).
  apply wp_bind. eapply wp_get_parent; [rewrite H1 by done; exact Hm|]. replace (rb_parent _) with (kptr nil k) by (by destruct sd).
  eapply (wp_set_top_parent t z _ np); [exact Ht1|exact H1n|].
  destruct (put_parent_nil t (kptr nil k) np m1 z Ht1 H1n) as (np' & Hnp' & Hleaf).
  eapply (HQ np'); [|exact Hleaf]. split.
  - by apply (repr_put_parent t z).
  - eapply reprk_ext; [|eapply reprk_relink; [exact Hndk|exact Hk]]. intros q Hq. apply put_parent_other; [congruence|]. intros Hqt. by apply (Htk q).
  - apply NoDup_app. split_and!; [done| |done]. intros q Hq Hqt. by apply (Htk q).
  - exact Hnp'.
  - intros q Hq [Hqk Hqt]%not_elem_of_app. rewrite put_parent_other, H1 by done. destruct (decide (q = z)) as [->|].
    + by rewrite lookup_insert_eq.
    + rewrite lookup_insert_ne by done. apply Ho; [done|]. rewrite addrs_node_of. set_solver.
Qed.

(** The leftmost node of a subtree. *)
Lemma wp_tree_min oth np m r k T (Q : Z -> S -> Prop) :
  (forall ks y cy ry, fill ks (Node Leaf y cy ry) = T -> Forall (fun f => s_side f = L) ks ->
     zip nil oth np m r (ks ++ k) (Node Leaf y cy ry) -> Q y (St m r)) ->
  zip nil oth np m r k T -> T <> Leaf -> wp (rb_tree_min nodes (RB_NIL tree_of) (ptr nil T)) Q (St m r).
Proof.
  intros HQ Hz Hne. unfold rb_tree_min. apply wp_with_fuel.
  assert (Hloop : forall fuel ks t, zip nil oth np m r (ks ++ k) t -> fill ks t = T -> Forall (fun f => s_side f = L) ks -> t <> Leaf ->
    (length (addrs t) < fuel)%nat ->
    wp (loop fuel (fun p => l ← get_left nodes p; n ← RB_NIL tree_of; if negb (l =? n) then mret (inl l) else mret (inr p)) (ptr nil t)) Q (St m r)).
  { induction fuel as [|fuel IH]; intros ks t Ht HT Hks Hnt Hf; [lia|]. cbn [loop]. destruct t as [|l y cy ry]; [done|]. clear Hnt. apply wp_bind.
    apply wp_bind. eapply (wp_zip_get_near s0 nil oth np m r (ks ++ k) L); [exact Ht|]. apply wp_bind, wp_RB_NIL.
    destruct (ptr_cases nil m y l) as [[-> _]|[Hl0 _]].
    { apply (zip_node nil oth np m r (ks ++ k) L l y cy ry Ht). }
    - rewrite Z.eqb_refl. apply wp_ret, wp_ret. by eapply HQ.
    - rewrite (proj2 (Z.eqb_neq _ _) Hl0). apply wp_ret. apply (IH (Step L y cy ry :: ks)).
      + by apply (zip_in nil oth np m r (ks ++ k) L).
      + exact HT.
      + by constructor.
      + intros ->. by apply Hl0.
      + cbn in Hf. rewrite length_app in Hf. cbn in Hf. lia. }
  apply (Hloop _ [] T); [exact Hz|done|done|done|].
  pose proof (zip_size _ _ _ _ _ _ _ Hz) as Hsz. rewrite length_app in Hsz. lia.
Qed.

(** ** The successor takes the place of a node *)

(** The successor [y] of [z] has been taken out below and holds what is left of [z]'s right subtree. *)
Record ready (oth : gmap Z rb_node) np m r k l z c y R : Prop := {
  rd_z : exists rz, m !! z = Some (RbNode (kptr nil k) (ptr nil l) rz c);
  rd_y : exists py ly cy, m !! y = Some (RbNode py ly (ptr nil R) cy);
  rd_l : repr nil m z l;
  rd_R : repr nil m y R;
  rd_path : reprk nil m r z k;
  rd_nodup : NoDup (z :: y :: addrs l ++ addrs R ++ kaddrs k);
  rd_nz : z <> nil /\ y <> nil;
  rd_nil : m !! nil = Some (RbNode np nil nil RB_BLACK);
  rd_others : forall q, q <> nil -> q ∉ z :: y :: addrs l ++ addrs R ++ kaddrs k -> m !! q = oth !! q;
}.

Lemma wp_take_place oth np m r k l z c y R (K : M S (Z * rb_color)) (Q : Z * rb_color -> S -> Prop) : ready oth np m r k l z c y R -> l <> Leaf ->
  (forall nz m' r', zip nil (<[z := nz]> oth) np m' r' k (Node l y c R) -> wp K Q (St m' r')) ->
  wp (_ ← rb_transplant nodes set_nodes tree_of set_tree z y;
      zl ← get_left nodes z;
      _ ← set_left nodes set_nodes y zl;
      _ ← set_parent nodes set_nodes zl y;
      c ← get_color nodes z;
      _ ← set_color nodes set_nodes y c;
      K) Q (St m r).
Proof.
  intros [(rz & Hz) (py & ly & cy & Hy) Hl HR Hk Hnd (Hz0 & Hy0) Hn Ho] Hne HQ.
  apply NoDup_cons in Hnd as [Hzo Hnd]. apply NoDup_cons in Hnd as [Hyo Hnd]. apply NoDup_app in Hnd as (Hndl & HlR & Hnd).
  apply NoDup_app in Hnd as (HndR & HRk & Hndk).
  apply not_elem_of_cons in Hzo as [Hzy Hzo]. apply not_elem_of_app in Hzo as [Hzl Hzo]. apply not_elem_of_app in Hzo as [HzR Hzk].
  apply not_elem_of_app in Hyo as [Hyl Hyo]. apply not_elem_of_app in Hyo as [HyR Hyk].
  pose proof (reprk_nil _ _ _ _ _ Hk) as Hnk. pose proof (repr_nil _ _ _ _ Hl) as Hnl. pose proof (repr_nil _ _ _ _ HR) as HnR.
  set (m1 := relink nil k y m). assert (H1 : forall q, q ∉ kaddrs k -> m1 !! q = m !! q) by (intros q Hq; by apply relink_other).
  set (fin := <[y := RbNode (kptr nil k) (ptr nil l) (ptr nil R) c]> (put_parent l y m1)).
  assert (Hlout : forall q, q <> y -> q <> nil -> q ∉ addrs l -> fin !! q = m1 !! q).
  { intros q Hqy Hq Hql. unfold fin. rewrite lookup_insert_ne by done. by apply put_parent_other. }
  assert (Hfin : zip nil (<[z := RbNode (kptr nil k) (ptr nil l) rz c]> oth) np fin (newroot k y r) k (Node l y c R)).
  { assert (Hl1 : repr nil m1 z l).
    { eapply repr_ext; [|exact Hl]. intros q Hq. apply H1. intros Hqk. apply (HlR q Hq). apply elem_of_app. by right. }
    split.
    - cbn. split_and!; [done|apply lookup_insert_eq| |].
      + eapply repr_ext; [|eapply (repr_put_parent l z y m1); [exact Hndl|exact Hl1]]. intros q Hq. apply lookup_insert_ne. congruence.
      + eapply repr_ext; [|exact HR]. intros q Hq. rewrite Hlout, H1; [done|by apply HRk|congruence|congruence|].
        intros Hql. apply (HlR q Hql). apply elem_of_app. by left.
    - cbn [ptr]. eapply reprk_ext; [|eapply reprk_relink; [exact Hndk|exact Hk]]. intros q Hq. rewrite Hlout; [done|congruence|congruence|].
      intros Hql. apply (HlR q Hql). apply elem_of_app. by right.
    - cbn. rewrite <- Permutation_middle, Permutation_app_comm. cbn. apply NoDup_cons. split.
      + rewrite !not_elem_of_app. split_and!; done.
      + rewrite <- app_assoc. apply NoDup_app. split; [done|]. split; [done|]. apply NoDup_app. split; [done|]. split; done.
    - destruct l as [|ll la lc lr]; [done|]. unfold fin. cbn. rewrite !lookup_insert_ne by (done || apply Hl). by rewrite H1.
    - cbn. intros q Hq Hq'. rewrite not_elem_of_app, not_elem_of_app, not_elem_of_cons in Hq'. destruct Hq' as (Hqk & Hql & Hqy & HqR).
      rewrite Hlout, H1 by done. destruct (decide (q = z)) as [->|Hqz]; [by rewrite lookup_insert_eq|]. rewrite lookup_insert_ne by done.
      apply Ho; [done|]. rewrite !not_elem_of_cons, !not_elem_of_app. by split_and!. }
  unfold rb_transplant. apply wp_bind, wp_bind. eapply (wp_replace_child s0 nil z z); [exact Hz|done|done|done|exact Hk|done|]. fold m1.
  apply wp_bind. eapply wp_get_parent; [by rewrite H1|]. cbn [rb_parent]. eapply (wp_set_parent s0 nil L); [by rewrite H1|].
  apply wp_bind. eapply (wp_get_near s0 nil L); [rewrite lookup_insert_ne by done; by rewrite H1|].
  apply wp_bind. eapply (wp_put_near s0 nil L); [apply lookup_insert_eq|]. rewrite insert_insert_eq.
  destruct l as [|ll la lc lr]; [done|]. destruct Hl as (Hla0 & Hla & _). assert (Hlay : la <> y) by set_solver. assert (Hlaz : la <> z) by set_solver.
  assert (Hlak : la ∉ kaddrs k) by (intros Hin; apply (HlR la); [cbn; set_solver|apply elem_of_app; by right]).
  cbn [ptr]. apply wp_bind. eapply (wp_set_parent s0 nil L); [rewrite lookup_insert_ne by done; by rewrite H1|].
  apply wp_bind. eapply wp_get_color; [rewrite !lookup_insert_ne by done; by rewrite H1|]. cbn [rb_col].
  apply wp_bind. eapply (wp_set_color s0 nil L); [rewrite lookup_insert_ne by done; apply lookup_insert_eq|].
  rewrite (insert_insert_ne _ la y) by done. rewrite insert_insert_eq. eapply HQ. exact Hfin.
Qed.

(** ** Deletion *)

(** The node [y] with at most one subtree [t] has been replaced by it. *)
Lemma wp_delete_finish oth np m r k t sd y cy h xs (Q : unit -> S -> Prop) : zip nil oth np m r k t -> (t = Leaf -> np = kptr nil k) ->
  rbt (node_of sd Leaf y cy t) h -> path_ok k h -> (cy = RB_RED -> kcol k = RB_BLACK) -> addrs (fill k t) = xs ->
  (forall np m' r' T, zip nil oth np m' r' [] T -> rb_ok T -> addrs T = xs -> Q tt (St m' r')) ->
  wp (if negb (is_red cy) then rb_delete_fixup nodes set_nodes tree_of set_tree (ptr nil t) else mret tt) Q (St m r).
Proof.
  intros Hz Hnp Ht Hk Hc Ho HQ. destruct cy; [change (is_red RB_RED) with true|change (is_red RB_BLACK) with false]; cbn [negb].
  - apply rbt_red in Ht as (_ & Ht & _ & Hct). apply wp_ret. eapply HQ; [exact (zip_up _ _ _ _ _ _ _ Hz)| |exact Ho].
    eapply rbt_fill; [exact Ht|exact Hk|]. congruence.
  - apply rbt_black_inv in Ht as (n & -> & _ & Ht). eapply (wp_delete_fixup oth np m r k t n xs); [|exact HQ]. split; try done.
    unfold deficit. destruct (col t) eqn:Hct; [by apply rbt_blacken|done].
Qed.

(** The successor taken out of the right subtree of [z], where it is the top node or deeper. *)
Lemma wp_successor_child oth np m r k l z c y cy ry (Q : unit -> S -> Prop) :
  zip nil oth np m r (Step R z c l :: k) (Node Leaf y cy ry) ->
  (forall np' m' r', ready oth np' m' r' k l z c y ry -> (ry = Leaf -> np' = y) -> Q tt (St m' r')) ->
  wp (set_parent nodes set_nodes (ptr nil ry) y) Q (St m r).
Proof.
  intros Hz HQ. pose proof (zip_node nil oth np m r _ L Leaf y cy ry Hz) as (Hy0 & Hmy & Hyk & _ & Hyr & _ & Hrk & _ & Hndr & _ & Hr).
  pose proof (z_nodup _ _ _ _ _ _ _ Hz) as Hnd. cbn in Hnd.
  pose proof (z_path _ _ _ _ _ _ _ Hz) as Hpath. cbn in Hpath. destruct Hpath as (Hz0 & Hmz & Hl & Hk).
  pose proof (z_nil _ _ _ _ _ _ _ Hz) as Hn. eapply (wp_set_top_parent ry y y np); [exact Hr|exact Hn|].
  destruct (put_parent_nil ry y np m y Hr Hn) as (np' & Hn' & Hleaf). eapply (HQ np'); [|exact Hleaf].
  assert (Hnd' : NoDup (z :: y :: addrs l ++ addrs ry ++ kaddrs k)).
  { assert (Hp : z :: y :: addrs l ++ addrs ry ++ kaddrs k ≡ₚ z :: (addrs l ++ kaddrs k) ++ y :: addrs ry).
    { constructor. rewrite <- Permutation_middle, <- app_assoc. constructor. f_equiv. apply Permutation_app_comm. }
    by rewrite Hp. }
  pose proof Hnd' as [Hzo [Hyo [_ [HlR [_ [HRk _]]%NoDup_app]]%NoDup_app]%NoDup_cons]%NoDup_cons.
  pose proof (repr_nil _ _ _ _ Hl) as Hnl. pose proof (reprk_nil _ _ _ _ _ Hk) as Hnk.
  assert (Hout : forall q, q <> nil -> q ∉ addrs ry -> put_parent ry y m !! q = m !! q) by (intros; by apply put_parent_other).
  split; try done.
  + eexists. rewrite Hout; [exact Hmz|done|set_solver].
  + eexists _, _, _. rewrite Hout; [exact Hmy|done|set_solver].
  + eapply repr_ext; [|exact Hl]. intros q Hq. apply Hout; [congruence|]. intros Hin. apply (HlR q Hq), elem_of_app. by left.
  + by apply (repr_put_parent ry y).
  + eapply reprk_ext; [|exact Hk]. intros q Hq. apply Hout; [congruence|]. intros Hin. by apply (HRk q Hin).
  + intros q Hq Hq'. rewrite Hout by (done || set_solver). apply (z_others _ _ _ _ _ _ _ Hz); [done|]. cbn. set_solver.
Qed.

Lemma wp_successor_deep oth np m r f ks k l z c y cy ry (Q : unit -> S -> Prop) :
  zip nil oth np m r ((f :: ks) ++ Step R z c l :: k) (Node Leaf y cy ry) ->
  (forall np' m' r', ready oth np' m' r' k l z c y (fill (f :: ks) ry) -> (ry = Leaf -> np' = s_addr f) -> Q tt (St m' r')) ->
  wp (_ ← rb_transplant nodes set_nodes tree_of set_tree y (ptr nil ry);
      zr ← get_right nodes z;
      _ ← set_right nodes set_nodes y zr;
      set_parent nodes set_nodes zr y) Q (St m r).
Proof.
  intros Hz HQ. pose proof (zip_node nil oth np m r _ L Leaf y cy ry Hz) as (Hy0 & Hmy & Hyk & _ & Hyr & _ & Hrk & _ & Hndr & _ & Hr).
  apply wp_bind. eapply (wp_zip_transplant oth np m r _ L); [exact Hz|]. clear Hz Hmy Hr. intros np' m' r' Hz Hleaf.
  assert (Hym : m' !! y = Some (mk L (kptr nil ((f :: ks) ++ Step R z c l :: k)) nil (ptr nil ry) cy)).
  { rewrite (z_others _ _ _ _ _ _ _ Hz); [apply lookup_insert_eq|done|]. rewrite not_elem_of_app. by split. }
  assert (Hy' : y ∉ kaddrs ((f :: ks) ++ Step R z c l :: k) ++ addrs ry) by (rewrite not_elem_of_app; by split).
  rewrite <- fill_perm, fill_app in Hy'. apply zip_unfill in Hz. set (T := fill (f :: ks) ry) in *.
  assert (HTne : T <> Leaf).
  { intros E. pose proof (fill_perm (f :: ks) ry) as Hp. fold T in Hp. rewrite E in Hp. apply Permutation_nil in Hp. discriminate Hp. }
  change (fill (Step R z c l :: k) T) with (fill k (Node l z c T)) in Hy'. rewrite fill_perm, not_elem_of_app in Hy'. destruct Hy' as [Hy1 Hy2].
  cbn in Hy2. apply not_elem_of_app in Hy2 as [Hyl [Hyz HyT]%not_elem_of_cons].
  apply (zip_out nil _ np' m' r' k R) in Hz. cbn [node_of] in Hz.
  pose proof (zip_node nil _ np' m' r' k L l z c T Hz) as (Hz0 & Hmz & Hzk & Hzl & HzT & HlT & HTk & Hndl & HndT & Hl & HT).
  pose proof (z_path _ _ _ _ _ _ _ Hz) as Hk. cbn [ptr] in Hk. pose proof (z_nil _ _ _ _ _ _ _ Hz) as Hn.
  apply wp_bind. eapply (wp_zip_get_far s0 nil _ np' m' r' k L); [exact Hz|].
  apply wp_bind. eapply (wp_put_far s0 nil L); [exact Hym|]. set (m1 := <[y := _]> m').
  assert (H1 : forall q, q <> y -> m1 !! q = m' !! q) by (intros q Hq; by apply lookup_insert_ne).
  assert (HT1 : repr nil m1 z T) by (eapply repr_ext; [|exact HT]; intros q Hq; apply H1; intros ->; by apply HyT).
  assert (Hn1 : m1 !! nil = Some (RbNode np' nil nil RB_BLACK)) by (by rewrite H1).
  eapply (wp_set_top_parent T z y np'); [exact HT1|exact Hn1|]. eapply (HQ np'); [|intros E; by rewrite (Hleaf E)].
  assert (Hout : forall q, q ∉ addrs T -> put_parent T y m1 !! q = m1 !! q).
  { intros q Hq. destruct T as [|tl ta tc tr]; [done|]. cbn in Hq |- *. apply lookup_insert_ne. set_solver. }
  pose proof (reprk_nil _ _ _ _ _ Hk) as Hnk. pose proof (repr_nil _ _ _ _ Hl) as Hnl. pose proof (repr_nil _ _ _ _ HT) as HnT.
  split.
  + eexists. rewrite Hout, H1 by done. exact Hmz.
  + eexists _, _, _. rewrite Hout by done. apply lookup_insert_eq.
  + eapply repr_ext; [|exact Hl]. intros q Hq. destruct (HlT q Hq) as [Hq1 _]. rewrite (Hout q Hq1). apply H1. intros ->. done.
  + by apply (repr_put_parent T z).
  + eapply reprk_ext; [|exact Hk]. intros q Hq. assert (q ∉ addrs T) as Hq1 by (intros Hin; by apply (HTk q Hin)). rewrite (Hout q Hq1). apply H1. intros ->. done.
  + rewrite !NoDup_cons, !not_elem_of_cons, !not_elem_of_app. split; [by split_and!|]. split; [by split_and!|].
    apply NoDup_app. split; [done|]. split; [|apply NoDup_app; split; [done|]; split; [done|]].
    * intros q Hq. rewrite not_elem_of_app. by apply HlT.
    * pose proof (z_nodup _ _ _ _ _ _ _ Hz) as Hnd. by apply NoDup_app in Hnd as (Hnd & _).
  + done.
  + by rewrite Hout.
  + intros q Hq Hq'. rewrite !not_elem_of_cons, !not_elem_of_app in Hq'. destruct Hq' as (Hqz & Hqy & Hql & HqT & Hqk).
    rewrite Hout, H1 by done. rewrite (z_others _ _ _ _ _ _ _ Hz); [by rewrite lookup_insert_ne|done|].
    cbn. rewrite !not_elem_of_app, not_elem_of_cons. by split_and!.
Qed.

Lemma wp_successor_out oth np m r ks k l z c y cy ry (Q : unit -> S -> Prop) :
  zip nil oth np m r (ks ++ Step R z c l :: k) (Node Leaf y cy ry) ->
  (forall np' m' r', ready oth np' m' r' k l z c y (fill ks ry) -> (ry = Leaf -> np' = kptr nil (ks ++ Step R y c l :: k)) -> Q tt (St m' r')) ->
  wp (if kptr nil (ks ++ Step R z c l :: k) =? z then set_parent nodes set_nodes (ptr nil ry) y
      else
        _ ← rb_transplant nodes set_nodes tree_of set_tree y (ptr nil ry);
        zr ← get_right nodes z;
        _ ← set_right nodes set_nodes y zr;
        set_parent nodes set_nodes zr y) Q (St m r).
Proof.
  intros Hz HQ. destruct ks as [|f ks].
  - cbn [app kptr s_addr]. rewrite Z.eqb_refl. by eapply wp_successor_child.
  - assert (Hne : kptr nil ((f :: ks) ++ Step R z c l :: k) <> z).
    { pose proof (z_nodup _ _ _ _ _ _ _ Hz) as Hnd. intros E. cbn in E. subst z. cbn in Hnd. apply NoDup_cons in Hnd as [Hnd _]. apply Hnd.
      clear. rewrite !elem_of_app. left. right. induction ks as [|g ks IH]; cbn; [left|]. right. apply elem_of_app. by right. }
    rewrite (proj2 (Z.eqb_neq _ _) Hne). by eapply wp_successor_deep.
Qed.

(** ** Deletion of the focus *)

Lemma wp_delete_at oth np m r k l z c rr (Q : unit -> S -> Prop) : zip nil oth np m r k (Node l z c rr) -> rb_ok (fill k (Node l z c rr)) ->
  (forall nz np' m' r' T, zip nil (<[z := nz]> oth) np' m' r' [] T -> rb_ok T -> addrs T = (before k ++ addrs l) ++ addrs rr ++ after k ->
     Q tt (St m' r')) ->
  wp (rb_tree_delete nodes set_nodes tree_of set_tree z) Q (St m r).
Proof.
  intros Hz Hok HQ. unfold rb_tree_delete.
  pose proof (zip_node nil oth np m r k L l z c rr Hz) as (Hz0 & Hmz & Hzk & Hzl & Hzr & Hlr & Hrk & Hndl & Hndr & Hl & Hr).
  pose proof (rbt_unfill _ _ Hok) as (h & Hh & Hkh & Hck). cbn [col] in Hck.
  apply wp_bind. eapply wp_get_color; [exact Hmz|]. cbn [rb_col mk].
  apply wp_bind, wp_RB_NIL. apply wp_bind. eapply (wp_get_near s0 nil L); [exact Hmz|]. apply wp_bind. eapply (wp_get_far s0 nil L); [exact Hmz|].
  destruct (ptr_cases _ _ _ _ Hl) as [[-> _]|[Hl0 _]].
  { cbn [ptr]. rewrite Z.eqb_refl. do 2 apply wp_bind. eapply (wp_zip_transplant oth np m r k L); [exact Hz|].
    intros np' m' r' Hz' Hleaf. apply wp_ret. eapply (wp_delete_finish _ np' m' r' k rr L z c h); [exact Hz'|exact Hleaf|exact Hh|exact Hkh|exact Hck|reflexivity|].
    intros np2 m2 r2 T HT HokT HoT. eapply HQ; [exact HT|exact HokT|]. rewrite HoT, fill_order. by rewrite app_nil_r. }
  rewrite (proj2 (Z.eqb_neq _ _) Hl0). destruct (ptr_cases _ _ _ _ Hr) as [[-> _]|[Hr0 _]].
  { cbn [ptr]. rewrite Z.eqb_refl. do 2 apply wp_bind. eapply (wp_zip_transplant oth np m r k R); [exact Hz|].
    intros np' m' r' Hz' Hleaf. apply wp_ret. eapply (wp_delete_finish _ np' m' r' k l R z c h); [exact Hz'|exact Hleaf|exact Hh|exact Hkh|exact Hck|reflexivity|].
    intros np2 m2 r2 T HT HokT HoT. eapply HQ; [exact HT|exact HokT|]. rewrite HoT, fill_order. cbn. by rewrite <- app_assoc. }
  rewrite (proj2 (Z.eqb_neq _ _) Hr0). apply wp_bind.
  apply wp_bind. eapply (wp_tree_min oth np m r (Step R z c l :: k) rr); [|by apply (zip_in_far nil oth np m r k L)|by intros ->].
  intros ks y cy ry HT Hks Hzy. pose proof (zip_node nil oth np m r _ L Leaf y cy ry Hzy) as (Hy0 & Hmy & _).
  apply wp_bind. eapply wp_get_color; [exact Hmy|]. apply wp_bind. eapply (wp_get_far s0 nil L); [exact Hmy|].
  apply wp_bind. eapply wp_get_parent; [exact Hmy|]. cbn [rb_col rb_parent mk].
  apply wp_bind. eapply wp_successor_out; [exact Hzy|]. clear Hzy. intros np1 m1 r1 Hrd Hleaf.
  eapply wp_take_place; [exact Hrd|by intros ->|]. intros nz m2 r2 Hz2. apply wp_ret.
  apply (zip_in_far nil _ np1 m2 r2 k L), zip_fill in Hz2. cbn [flip] in Hz2.
  assert (Hy : exists h', rbt (Node Leaf y cy ry) h' /\ path_ok (ks ++ Step R y c l :: k) h' /\
    (cy = RB_RED -> kcol (ks ++ Step R y c l :: k) = RB_BLACK)).
  { change (Node l z c rr) with (node_of R rr z c l) in Hok. rewrite <- HT in Hok.
    change (rb_ok (fill (Step R z c l :: k) (fill ks (Node Leaf y cy ry)))) in Hok. rewrite <- fill_app in Hok.
    apply rbt_unfill in Hok as (h' & Ht' & Hk' & Hc'). exists h'. split; [done|]. split; [by eapply path_ok_rename|].
    intros Hcy. rewrite <- (Hc' Hcy). by destruct ks. }
  destruct Hy as (h' & Ht' & Hk' & Hc').
  eapply (wp_delete_finish _ np1 m2 r2 _ ry L y cy h'); [exact Hz2|exact Hleaf|exact Ht'|exact Hk'|exact Hc'|reflexivity|].
  intros np2 m3 r3 T HzT HokT HoT. eapply HQ; [exact HzT|exact HokT|]. rewrite HoT, fill_order, before_app, after_app.
  assert (Hb : before ks = []). { clear -Hks. induction Hks as [|[sd a c sib] ks Hs _ IH]; [done|]. cbn in Hs. subst sd. exact IH. }
  assert (Hrr : addrs rr = y :: addrs ry ++ after ks) by (by rewrite <- HT, fill_order, Hb).
  rewrite Hrr, Hb. cbn. by rewrite app_nil_r, <- !app_assoc.
Qed.
End delete.
