(* ===== verification/RbProps.v ===== *)
(** What the red-black trees of [kernel/ds/rbtree.c] promise to a client that keeps its nodes and its
    tree in a state of its own ([RbStore]): insertion and deletion return, keep the nodes in order
    and the tree balanced, and touch no other part of the state. *)
From stdpp Require Import sorting.
From S2P Require Import Prelude Rbtree RbTheory RbInsert RbDelete.
Open Scope Z_scope.

Section props.
Context {S : Type} {nodes : S -> gmap Z rb_node} {set_nodes : gmap Z rb_node -> S -> S}.
Context {tree_of : S -> rb_tree} {set_tree : rb_tree -> S -> S} {Hst : RbStore nodes set_nodes tree_of set_tree}.
Implicit Types (s : S) (nil z : Z) (others : gmap Z rb_node) (T : tree).
Local Notation holds := (rb_holds nodes tree_of).

(** Only the nodes and the root may differ. *)
Definition tree_frame s s' : Prop := exists m r, s' = set_tree (RbTree r (rb_nil (tree_of s))) (set_nodes m s).

Lemma state_St s nil others T : holds nil others T s -> s = @St S set_nodes set_tree s nil (nodes s) (ptr nil T).
Proof. intros [Ht _]. unfold St. rewrite <- Ht. symmetry. apply rs_id. Qed.
Lemma holds_St s nil others T np m r : zip nil others np m r [] T -> holds nil others T (@St S set_nodes set_tree s nil m r).
Proof.
  intros Hz. assert (Hr : r = ptr nil T) by exact (z_path _ _ _ _ _ _ _ Hz). subst r. split; [apply tree_St|]. exists np. by rewrite nodes_St.
Qed.

(** The callback of the tree compares the nodes [known] by [cmp], whatever the tree looks like, and changes nothing. *)
Definition compares (compare : Z -> Z -> M S Z) (cmp : Z -> Z -> Z) (known : Z -> Prop) s : Prop :=
  forall a b m t, known a -> known b -> compare a b (set_tree t (set_nodes m s)) = Done (cmp a b, set_tree t (set_nodes m s)).

(** What the operations leave. *)
Definition inserted nil others T z (lt : Z -> Z -> bool) s s' : Prop := exists T' xs ys, tree_frame s s' /\ holds nil others T' s' /\
  rb_ok T' /\ rb_sorted lt (addrs T') /\ addrs T = xs ++ ys /\ addrs T' = xs ++ z :: ys.
Definition deleted nil others T z s s' : Prop := exists T' xs ys n, tree_frame s s' /\ holds nil (<[z := n]> others) T' s' /\
  rb_ok T' /\ addrs T = xs ++ z :: ys /\ addrs T' = xs ++ ys.

Section ordered.
Context (compare : Z -> Z -> M S Z) (cmp : Z -> Z -> Z) (known : Z -> Prop).
Let lt (a b : Z) : bool := cmp a b <? 0.

Lemma wp_rb_insert s nil others T z n : holds nil others T s -> rb_ok T -> compares compare cmp known s -> strict_weak lt known ->
  rb_sorted lt (addrs T) -> (forall a, a ∈ addrs T -> known a) -> known z -> z <> nil -> z ∉ addrs T -> nodes s !! z = Some n ->
  wp (rb_tree_insert nodes set_nodes tree_of set_tree compare z) (fun _ s' => inserted nil others T z lt s s') s.
Proof.
  intros Hh Hok Hcmp Hord Hs Hkn Hkz Hz HzT Hn. pose proof (state_St _ _ _ _ Hh) as Hs0. pose proof (rh_tree _ _ _ _ _ _ Hh) as Ht.
  destruct Hh as [_ [np Hzip]].
  assert (Hwp : wp (rb_tree_insert nodes set_nodes tree_of set_tree compare z) (fun _ s' => inserted nil others T z lt s s')
    (@St S set_nodes set_tree s nil (nodes s) (ptr nil T))).
  { eapply (wp_rb_tree_insert s nil others compare cmp known); try eassumption.
    - intros a b m r Q Ha Hb HQ. unfold wp, St. by rewrite Hcmp.
    - intros m' r' T' xs ys Hz' Hok' Hs' Hxs Hys. exists T', xs, ys. split; [by exists m', r'; rewrite Ht|].
      split; [by eapply holds_St|]. by split_and!. }
  by rewrite <- Hs0 in Hwp.
Qed.

(** A search returns, with a node of the tree that compares equal, or without one; it changes nothing. *)
Lemma wp_rb_search s nil others T key (Q : option Z -> S -> Prop) : holds nil others T s -> compares compare cmp known s ->
  (forall a, a ∈ addrs T -> known a) -> known key ->
  (forall a, a ∈ addrs T -> cmp key a = 0 -> Q (Some a) s) -> Q None s ->
  wp (rb_tree_search nodes tree_of compare key) Q s.
Proof.
  intros Hh Hcmp Hkn Hkey Hsome Hnone. pose proof (state_St _ _ _ _ Hh) as Hs0. destruct Hh as [_ [np Hz]].
  assert (Hloop : forall fuel k t, zip nil others np (nodes s) (ptr nil T) k t -> fill k t = T -> (length (addrs t) < fuel)%nat ->
    wp (loop fuel (fun cur =>
      nil ← RB_NIL tree_of;
      if cur =? nil then mret (inr None) else
      c ← compare key cur;
      if c =? 0 then mret (inr (Some cur))
      else if c <? 0 then l ← get_left nodes cur; mret (inl l)
      else r ← get_right nodes cur; mret (inl r)) (ptr nil t)) Q (@St S set_nodes set_tree s nil (nodes s) (ptr nil T))).
  { induction fuel as [|fuel IH]; intros k t Ht HT Hf; [lia|]. cbn [loop]. do 2 apply wp_bind. apply wp_RB_NIL.
    destruct t as [|l x c r]; [cbn [ptr]; rewrite Z.eqb_refl; do 2 apply wp_ret; by rewrite <- Hs0|].
    pose proof (zip_node _ _ _ _ _ _ L _ _ _ _ Ht) as (Hx0 & _). cbn [ptr]. rewrite (proj2 (Z.eqb_neq x nil)) by done.
    assert (Hin : x ∈ addrs T) by (rewrite <- HT, fill_perm; cbn; set_solver). cbn in Hf. rewrite length_app in Hf. cbn in Hf.
    apply wp_bind. unfold wp at 1, St. rewrite Hcmp by auto. fold (@St S set_nodes set_tree s nil (nodes s) (ptr nil T)).
    destruct (Z.eqb_spec (cmp key x) 0) as [E|E]; [do 2 apply wp_ret; rewrite <- Hs0; by apply Hsome|].
    destruct (cmp key x <? 0).
    - apply wp_bind. eapply (wp_zip_get_near s nil others np (nodes s) (ptr nil T) k L); [exact Ht|]. apply wp_ret.
      apply (IH (Step L x c r :: k)); [by apply (zip_in nil others np _ _ k L)|exact HT|lia].
    - apply wp_bind. eapply (wp_zip_get_far s nil others np (nodes s) (ptr nil T) k L); [exact Ht|]. apply wp_ret.
      apply (IH (Step R x c l :: k)); [by apply (zip_in_far nil others np _ _ k L)|exact HT|lia]. }
  assert (Hwp : wp (rb_tree_search nodes tree_of compare key) Q (@St S set_nodes set_tree s nil (nodes s) (ptr nil T))).
  { unfold rb_tree_search. apply wp_bind, wp_get_root, wp_with_fuel. apply (Hloop _ []); [exact Hz|done|].
    pose proof (zip_size _ _ _ _ _ _ _ Hz) as Hsz. cbn [kaddrs app] in Hsz. lia. }
  by rewrite <- Hs0 in Hwp.
Qed.
End ordered.

Lemma wp_rb_delete s nil others T z : holds nil others T s -> rb_ok T -> z ∈ addrs T ->
  wp (rb_tree_delete nodes set_nodes tree_of set_tree z) (fun _ s' => deleted nil others T z s s') s.
Proof.
  intros Hh Hok Hin. pose proof (state_St _ _ _ _ Hh) as Hs0. pose proof (rh_tree _ _ _ _ _ _ Hh) as Ht. destruct Hh as [_ [np Hzip]].
  destruct (fill_elem _ _ Hin) as (k & l & c & r & ->). pose proof (zip_fill _ _ _ _ _ _ _ _ Hzip) as Hz. rewrite app_nil_r in Hz.
  assert (Hwp : wp (rb_tree_delete nodes set_nodes tree_of set_tree z) (fun _ s' => deleted nil others (fill k (Node l z c r)) z s s')
    (@St S set_nodes set_tree s nil (nodes s) (ptr nil (fill k (Node l z c r))))).
  { eapply wp_delete_at; [exact Hz|exact Hok|]. intros n np' m' r' T' Hz' Hok' Ho.
    exists T', (before k ++ addrs l), (addrs r ++ after k), n. split; [by exists m', r'; rewrite Ht|]. split; [by eapply holds_St|].
    split_and!; try done. rewrite fill_order. cbn. by rewrite <- !app_assoc. }
  by rewrite <- Hs0 in Hwp.
Qed.

(** C14: [rb_tree_insert] of a node that is not in the tree returns; the new tree has the old nodes and the new
    one, in an order that is still sorted, and again no red node with a red child and as many black
    nodes on every path; the rest of the state is as before. *)
Theorem rb_tree_insert_correct compare cmp known s nil others T z n :
  holds nil others T s -> rb_ok T -> compares compare cmp known s -> strict_weak (fun a b => cmp a b <? 0) known ->
  rb_sorted (fun a b => cmp a b <? 0) (addrs T) -> (forall a, a ∈ addrs T -> known a) ->
  known z -> z <> nil -> z ∉ addrs T -> nodes s !! z = Some n ->
  exists s' T' xs ys, rb_tree_insert nodes set_nodes tree_of set_tree compare z s = Done (tt, s') /\ tree_frame s s' /\
    holds nil others T' s' /\ rb_ok T' /\ rb_sorted (fun a b => cmp a b <? 0) (addrs T') /\
    addrs T = xs ++ ys /\ addrs T' = xs ++ z :: ys.
Proof.
  intros Hh Hok Hcmp Hord Hs Hkn Hkz Hz HzT Hn.
  destruct (wp_done _ _ _ (wp_rb_insert _ _ _ _ _ _ _ _ _ Hh Hok Hcmp Hord Hs Hkn Hkz Hz HzT Hn)) as ([] & s' & Hrun & T' & xs & ys & Hp).
  by exists s', T', xs, ys.
Qed.

(** C15: [rb_tree_delete] of a node of the tree returns; the new tree has the other nodes, in the same order, and
    follows the red-black rules; the deleted node stays in the store, and the rest of the state is
    as before. *)
Theorem rb_tree_delete_correct s nil others T z :
  holds nil others T s -> rb_ok T -> z ∈ addrs T ->
  exists s' T' xs ys n, rb_tree_delete nodes set_nodes tree_of set_tree z s = Done (tt, s') /\ tree_frame s s' /\
    holds nil (<[z := n]> others) T' s' /\ rb_ok T' /\ addrs T = xs ++ z :: ys /\ addrs T' = xs ++ ys.
Proof.
  intros Hh Hok Hin. destruct (wp_done _ _ _ (wp_rb_delete _ _ _ _ _ Hh Hok Hin)) as ([] & s' & Hrun & T' & xs & ys & n & Hp).
  by exists s', T', xs, ys, n.
Qed.
End props.

(** ** The theorems at a sample tree *)

Definition pair_nodes (s : gmap Z rb_node * rb_tree) : gmap Z rb_node := s.1.
Definition pair_set_nodes (m : gmap Z rb_node) (s : gmap Z rb_node * rb_tree) : gmap Z rb_node * rb_tree := (m, s.2).
Definition pair_tree (s : gmap Z rb_node * rb_tree) : rb_tree := s.2.
Definition pair_set_tree (t : rb_tree) (s : gmap Z rb_node * rb_tree) : gmap Z rb_node * rb_tree := (s.1, t).
#[local] Instance pair_store : RbStore pair_nodes pair_set_nodes pair_tree pair_set_tree.
Proof. split; intros; try reflexivity. by destruct s. Qed.

(** Two nodes, ordered by their addresses, and a third one that is not in the tree; the sentinel is 1. *)
Definition sample_rb : tree := Node Leaf 10 RB_BLACK (Node Leaf 20 RB_RED Leaf).
Definition sample_store : gmap Z rb_node * rb_tree :=
  ({[1 := RbNode 0 1 1 RB_BLACK; 10 := RbNode 1 1 20 RB_BLACK; 20 := RbNode 10 1 1 RB_RED; 30 := RbNode 0 0 0 RB_RED]}, RbTree 10 1).
Definition sample_compare (a b : Z) : M (gmap Z rb_node * rb_tree) Z := mret (a - b).

Lemma sample_holds : rb_holds pair_nodes pair_tree 1 {[30 := RbNode 0 0 0 RB_RED]} sample_rb sample_store.
Proof.
  split; [reflexivity|]. exists 0. split.
  - cbn. repeat split; try discriminate.
  - reflexivity.
  - cbn. apply NoDup_cons. split; [rewrite list_elem_of_singleton; discriminate|apply NoDup_singleton].
  - reflexivity.
  - cbn. intros q Hq Hq'. unfold sample_store, pair_nodes. cbn. rewrite !lookup_insert_ne by set_solver. reflexivity.
Qed.
Lemma sample_rb_ok : rb_ok sample_rb.
Proof. split; [|reflexivity]. exists 1%nat. repeat constructor. Qed.

Lemma rb_tree_insert_correct_witness : exists s' T',
  rb_tree_insert pair_nodes pair_set_nodes pair_tree pair_set_tree sample_compare 30 sample_store = Done (tt, s') /\
  rb_holds pair_nodes pair_tree 1 {[30 := RbNode 0 0 0 RB_RED]} T' s' /\ length (addrs T') = 3%nat.
Proof.
  destruct (rb_tree_insert_correct sample_compare Z.sub (fun _ => True) sample_store 1 {[30 := RbNode 0 0 0 RB_RED]} sample_rb 30 (RbNode 0 0 0 RB_RED))
    as (s' & T' & xs & ys & Hrun & _ & Hh & _ & _ & E & E').
  - exact sample_holds.
  - exact sample_rb_ok.
  - intros a b m t _ _. reflexivity.
  - split; intros; lia.
  - cbn. apply StronglySorted_cons. split; [|apply StronglySorted_cons; split; constructor]. constructor; [reflexivity|constructor].
  - intros. exact I.
  - exact I.
  - discriminate.
  - cbn. set_solver.
  - reflexivity.
  - exists s', T'. split; [exact Hrun|]. split; [exact Hh|]. apply (f_equal length) in E. rewrite E', length_app in *. cbn in *. lia.
Defined.

Lemma rb_tree_delete_correct_witness : exists s' T' n,
  rb_tree_delete pair_nodes pair_set_nodes pair_tree pair_set_tree 10 sample_store = Done (tt, s') /\
  rb_holds pair_nodes pair_tree 1 (<[10 := n]> {[30 := RbNode 0 0 0 RB_RED]}) T' s' /\ length (addrs T') = 1%nat.
Proof.
  destruct (rb_tree_delete_correct sample_store 1 {[30 := RbNode 0 0 0 RB_RED]} sample_rb 10 sample_holds sample_rb_ok)
    as (s' & T' & xs & ys & n & Hrun & _ & Hh & _ & E & E'); [cbn; set_solver|].
  exists s', T', n. split; [exact Hrun|]. split; [exact Hh|]. apply (f_equal length) in E. rewrite E', length_app in *. cbn in *. lia.
Defined.
