(* ===== verification/Vmap.v ===== *)
(** The virtual-address allocator ([kernel/vmap.c], [include/vmap.h]).

    [va_mgr] keeps the free ranges both in a red-black tree ordered by size and in a list ordered
    by address, and the busy ranges in a second list.  A [struct vmap_area] is named by the
    address [kmalloc] returned for it; its fields live in a typed store from which [kfree]
    removes it, so a use after free is undefined.  Its embedded tree node has the area's name and
    its two embedded list nodes are [FreeNode] and [BusyNode]; the areas are 104 bytes long, the
    sentinel of the tree is a separate object of 32. *)
From S2P Require Import Prelude ListHead Pmm Sync Machine Slab Rbtree.

Definition VMALLOC_START : Z := 0xffff000000000000.
Definition VMALLOC_SIZE : Z := 0x1000000000.
Definition VMALLOC_END : Z := VMALLOC_START + VMALLOC_SIZE.
Definition VA_ALIGN_DEFAULT : Z := 0x1000.
Definition VA_FLAG_VMALLOC : Z := Z.shiftl 1 0.
Definition VA_FLAG_VMAP : Z := Z.shiftl 1 1.
Definition VA_FLAG_IOREMAP : Z := Z.shiftl 1 2.

(** The fields [pages] and [nr_pages] are never used. *)
Record vmap_area := VmapArea { va_start : Z; va_end : Z; va_flags : Z }.

Inductive vnode : Set :=
| FreeListHead
| BusyListHead
| FreeNode (va : Z)
| BusyNode (va : Z).

#[export] Instance vnode_eq_dec : EqDecision vnode.
Proof. solve_decision. Defined.
#[export] Instance vnode_countable : Countable vnode.
Proof.
  refine (inj_countable'
    (fun n => match n with FreeListHead => inl false | BusyListHead => inl true
              | FreeNode a => inr (false, a) | BusyNode a => inr (true, a) end)
    (fun x => match x with inl false => FreeListHead | inl true => BusyListHead
              | inr (false, a) => FreeNode a | inr (true, a) => BusyNode a end) _).
  by intros [].
Defined.

Record vmap := Vmap {
  vm_areas : gmap Z vmap_area;
  vm_links : links vnode;
  vm_nodes : gmap Z rb_node;
  free_tree : rb_tree;
  mgr_start : Z;
  mgr_end : Z;
  total_free : Z;
  nr_busy : Z;
  va_lock : arch_spinlock;
  vm_slab : slab;
}.

Definition set_areas x (s : vmap) : vmap :=
  Vmap x (vm_links s) (vm_nodes s) (free_tree s) (mgr_start s) (mgr_end s) (total_free s) (nr_busy s) (va_lock s) (vm_slab s).
Definition set_vlinks x (s : vmap) : vmap :=
  Vmap (vm_areas s) x (vm_nodes s) (free_tree s) (mgr_start s) (mgr_end s) (total_free s) (nr_busy s) (va_lock s) (vm_slab s).
Definition set_vnodes x (s : vmap) : vmap :=
  Vmap (vm_areas s) (vm_links s) x (free_tree s) (mgr_start s) (mgr_end s) (total_free s) (nr_busy s) (va_lock s) (vm_slab s).
Definition set_free_tree x (s : vmap) : vmap :=
  Vmap (vm_areas s) (vm_links s) (vm_nodes s) x (mgr_start s) (mgr_end s) (total_free s) (nr_busy s) (va_lock s) (vm_slab s).
Definition set_range a b (s : vmap) : vmap :=
  Vmap (vm_areas s) (vm_links s) (vm_nodes s) (free_tree s) a b (total_free s) (nr_busy s) (va_lock s) (vm_slab s).
Definition set_counts f b (s : vmap) : vmap :=
  Vmap (vm_areas s) (vm_links s) (vm_nodes s) (free_tree s) (mgr_start s) (mgr_end s) f b (va_lock s) (vm_slab s).
Definition set_va_lock l (s : vmap) : vmap :=
  Vmap (vm_areas s) (vm_links s) (vm_nodes s) (free_tree s) (mgr_start s) (mgr_end s) (total_free s) (nr_busy s) l (vm_slab s).
Definition set_vm_slab x (s : vmap) : vmap :=
  Vmap (vm_areas s) (vm_links s) (vm_nodes s) (free_tree s) (mgr_start s) (mgr_end s) (total_free s) (nr_busy s) (va_lock s) x.

Definition on_slab {A} (m : M slab A) : M vmap A := zoom vm_slab set_vm_slab m.
Definition on_vlinks {A} (m : M (links vnode) A) : M vmap A := zoom vm_links set_vlinks m.

(** The manager's lock together with the CPU's interrupt mask. *)
Definition on_va_lock {A} (m : M irq_lock A) : M vmap A :=
  zoom (fun s => IrqLock (va_lock s) (daif (mach (vm_slab s))))
       (fun il s => set_va_lock (il_lock il)
          (set_vm_slab (set_mach (set_daif (il_daif il) (mach (vm_slab s))) (vm_slab s)) s)) m.

(** ** Areas *)

Definition area (va : Z) : M vmap vmap_area := m ← gets vm_areas; of_option (m !! va).
Definition put_area (va : Z) (f : vmap_area -> vmap_area) : M vmap unit :=
  a ← area va; modify (fun s => set_areas (<[va := f a]> (vm_areas s)) s).
Definition set_start va x := put_area va (fun a => VmapArea x (va_end a) (va_flags a)).
Definition set_end va x := put_area va (fun a => VmapArea (va_start a) x (va_flags a)).
Definition set_flags va x := put_area va (fun a => VmapArea (va_start a) (va_end a) x).

(** [kmalloc(sizeof(struct vmap_area), GFP_KERNEL)]: a new area with arbitrary fields. *)
Definition kmalloc_area : M vmap Z :=
  p ← on_slab (kmalloc 104 GFP_KERNEL);
  if p =? 0 then mret 0 else
  _ ← modify (fun s => set_vnodes (<[p := RbNode 0 0 0 RB_RED]> (vm_nodes s))
                         (set_areas (<[p := VmapArea 0 0 0]> (vm_areas s)) s));
  mret p.

Definition kfree_area (p : Z) : M vmap unit :=
  _ ← modify (fun s => set_vnodes (delete p (vm_nodes s)) (set_areas (delete p (vm_areas s)) s));
  on_slab (kfree p).

Definition va_size (va : Z) : M vmap Z := a ← area va; mret (sub64 (va_end a) (va_start a)).

Definition va_compare_size (a b : Z) : M vmap Z :=
  size_a ← va_size a;
  size_b ← va_size b;
  if size_a <? size_b then mret (-1) else
  if size_a >? size_b then mret 1 else
  va_a ← area a;
  va_b ← area b;
  if va_start va_a <? va_start va_b then mret (-1) else
  if va_start va_a >? va_start va_b then mret 1 else mret 0.

(** The free tree: rbtree.c with the size order. *)
Definition tree_insert (va : Z) : M vmap unit :=
  rb_tree_insert vm_nodes set_vnodes free_tree set_free_tree va_compare_size va.
Definition tree_delete (va : Z) : M vmap unit :=
  rb_tree_delete vm_nodes set_vnodes free_tree set_free_tree va.
Definition tree_search (va : Z) : M vmap (option Z) :=
  rb_tree_search vm_nodes free_tree va_compare_size va.
Definition tree_init : M vmap unit :=
  rb_tree_init vm_nodes set_vnodes set_free_tree (on_slab (kmalloc 32 GFP_KERNEL)).

(** ** Lists *)

(** [container_of] on a list node: the head is not inside an area. *)
Definition area_of (n : vnode) : M vmap Z :=
  match n with FreeNode va | BusyNode va => mret va | _ => undef end.

(** [list_for_each_entry(va, head, member)] with a body that may [break] ([inr]); [inl] is the
    accumulated value when the list ends.  No list is longer than the number of areas. *)
Definition scan {A B} (head : vnode) (body : Z -> A -> M vmap (A + B)) (a : A) : M vmap (A + B) :=
  first ← on_vlinks (read_nxt head);
  n ← gets (fun s => size (vm_areas s));
  loop (S n) (fun st : vnode * A =>
    let '(pos, a) := st in
    if decide (pos = head) then mret (inr (inl a)) else
    va ← area_of pos;
    r ← body va a;
    match r with
    | inr b => mret (inr (inr b))
    | inl a' => next ← on_vlinks (read_nxt pos); mret (inl (next, a'))
    end) (first, a).

Definition va_insert_free (va : Z) : M vmap unit :=
  r ← scan FreeListHead (fun tmp (_ : unit) =>
        t ← area tmp;
        a ← area va;
        mret (if va_start t >? va_start a then inr (FreeNode tmp) else inl tt)) tt;
  let pos := match r with inl _ => FreeListHead | inr p => p end in
  _ ← on_vlinks (list_add_tail (FreeNode va) pos);
  tree_insert va.

Definition va_remove_free (va : Z) : M vmap unit :=
  _ ← tree_delete va;
  on_vlinks (list_del (FreeNode va)).

(** The local [target] of [va_find_best_fit] is an area on the stack, which has no heap address. *)
Definition STACK_TARGET : Z := -1.

Definition va_find_best_fit (size : Z) : M vmap (option Z) :=
  _ ← modify (fun s => set_areas (<[STACK_TARGET := VmapArea 0 size 0]> (vm_areas s)) s);
  result ← tree_search STACK_TARGET;
  _ ← modify (fun s => set_areas (delete STACK_TARGET (vm_areas s)) s);
  match result with
  | Some va => mret (Some va)
  | None =>
      r ← scan FreeListHead (fun va (best : option Z) =>
            sz ← va_size va;
            if size <=? sz then
              match best with
              | None => mret (inl (Some va))
              | Some b =>
                  bsz ← va_size b;
                  mret (inl (if sz <? bsz then Some va else best))
              end
            else mret (inl best : option Z + unit)) None;
      mret (match r with inl best => best | inr _ => None end)
  end.

Definition va_find_by_addr (addr : Z) : M vmap (option Z) :=
  r ← scan BusyListHead (fun va (_ : unit) =>
        a ← area va; mret (if va_start a =? addr then inr va else inl tt)) tt;
  mret (match r with inl _ => None | inr va => Some va end).

Definition va_find_prev_free (addr : Z) : M vmap (option Z) :=
  r ← scan FreeListHead (fun va prev =>
        a ← area va; mret (if va_end a <=? addr then inl (Some va) else inr prev)) None;
  mret (match r with inl prev | inr prev => prev end).

Definition va_find_next_free (addr : Z) : M vmap (option Z) :=
  r ← scan FreeListHead (fun va (_ : unit) =>
        a ← area va; mret (if va_start a >? addr then inr va else inl tt)) tt;
  mret (match r with inl _ => None | inr va => Some va end).

(** ** Interface *)

Definition va_manager_init : M vmap unit :=
  _ ← modify (set_range VMALLOC_START VMALLOC_END);
  _ ← tree_init;
  _ ← on_vlinks (INIT_LIST_HEAD FreeListHead);
  _ ← on_vlinks (INIT_LIST_HEAD BusyListHead);
  _ ← modify (set_va_lock SPIN_LOCK_UNLOCKED);
  _ ← modify (set_counts (sub64 VMALLOC_END VMALLOC_START) 0);
  init_area ← kmalloc_area;
  if init_area =? 0 then mret tt else
  _ ← set_start init_area VMALLOC_START;
  _ ← set_end init_area VMALLOC_END;
  _ ← set_flags init_area 0;
  va_insert_free init_area.

(** A free area for [start .. stop); dropped when there is no memory for it. *)
Definition insert_fragment (start stop : Z) (after : M vmap unit) : M vmap unit :=
  f ← kmalloc_area;
  if f =? 0 then mret tt else
  _ ← set_start f start;
  _ ← set_end f stop;
  _ ← set_flags f 0;
  _ ← after;
  va_insert_free f.

Definition va_alloc (size align flags : Z) : M vmap Z :=
  if size =? 0 then mret 0 else
  let align := if align <? VA_ALIGN_DEFAULT then VA_ALIGN_DEFAULT else align in
  let size := Z.land (sub64 (add64 size VA_ALIGN_DEFAULT) 1) (not64 (VA_ALIGN_DEFAULT - 1)) in
  irq_flags ← on_va_lock spin_lock_irqsave;
  found ← va_find_best_fit size;
  match found with
  | None => _ ← on_va_lock (spin_unlock_irqrestore irq_flags); mret 0
  | Some va =>
      _ ← va_remove_free va;
      a ← area va;
      let aligned_start := Z.land (sub64 (add64 (va_start a) align) 1) (not64 (sub64 align 1)) in
      let waste := sub64 aligned_start (va_start a) in
      _ ← (if waste >? 0 then
             _ ← insert_fragment (va_start a) aligned_start (mret tt);
             set_start va aligned_start
           else mret tt);
      va_sz ← va_size va;
      _ ← (if va_sz >? add64 size VA_ALIGN_DEFAULT then
             a ← area va;
             insert_fragment (add64 (va_start a) size) (va_end a) (set_end va (add64 (va_start a) size))
           else mret tt);
      _ ← set_flags va flags;
      _ ← on_vlinks (list_add (BusyNode va) BusyListHead);
      sz ← va_size va;
      _ ← modify (fun s => set_counts (sub64 (total_free s) sz) (add64 (nr_busy s) 1) s);
      _ ← on_va_lock (spin_unlock_irqrestore irq_flags);
      a ← area va;
      mret (va_start a)
  end.

(** What [va_free] does once the area [p] is off the busy list. *)
Definition give_back (irq_flags p : Z) : M vmap unit :=
  a ← area p;
  prev ← va_find_prev_free (va_start a);
  to_insert ← match prev with
    | None => mret p
    | Some q => pa ← area q; a ← area p;
        if va_end pa =? va_start a then _ ← va_remove_free q; a ← area p; _ ← set_end q (va_end a); _ ← kfree_area p; mret q else mret p
    end;
  t ← area to_insert;
  next ← va_find_next_free (va_end t);
  _ ← match next with
    | None => mret tt
    | Some n => t ← area to_insert; na ← area n;
        if va_end t =? va_start na then _ ← va_remove_free n; na ← area n; _ ← set_end to_insert (va_end na); kfree_area n else mret tt
    end;
  (* [p] may have been freed above *)
  sz ← va_size p;
  _ ← modify (fun s => set_counts (add64 (total_free s) sz) (nr_busy s) s);
  _ ← va_insert_free to_insert;
  on_va_lock (spin_unlock_irqrestore irq_flags).

Definition va_free (addr : Z) : M vmap unit :=
  if addr =? 0 then mret tt else
  irq_flags ← on_va_lock spin_lock_irqsave;
  found ← va_find_by_addr addr;
  match found with
  | None => on_va_lock (spin_unlock_irqrestore irq_flags)
  | Some va =>
      _ ← on_vlinks (list_del (BusyNode va));
      _ ← modify (fun s => set_counts (total_free s) (sub64 (nr_busy s) 1) s);
      give_back irq_flags va
  end.
