(* ===== verification/VmapTheory.v ===== *)
(** The parts of the virtual-address allocator ([kernel/vmap.c]): the size order of the free tree, the walks
    over the lists, and the free areas as a list and a tree at once. *)
From stdpp Require Import sorting.
From S2P Require Import Prelude ListHead Pmm Sync Machine Slab SlabTheory SlabOps SlabFree SlabProps Rbtree RbTheory RbProps Vmap.
Open Scope Z_scope.

#[export] Instance vmap_store : RbStore vm_nodes set_vnodes free_tree set_free_tree.
Proof. split; intros; try reflexivity. by destruct s. Qed.

Implicit Types (s : vmap) (A : gmap Z vmap_area) (fs bs : list Z).

(** ** The size order *)

Definition area_size A p : Z := match A !! p with Some a => sub64 (va_end a) (va_start a) | None => 0 end.
Definition area_start A p : Z := from_option va_start 0 (A !! p).
Definition size_cmp A (p q : Z) : Z :=
  if area_size A p <? area_size A q then -1 else if area_size A p >? area_size A q then 1 else
  if area_start A p <? area_start A q then -1 else if area_start A p >? area_start A q then 1 else 0.
Definition size_lt A (p q : Z) : bool := size_cmp A p q <? 0.

Lemma size_lt_spec A p q : size_lt A p q = true <->
  area_size A p < area_size A q \/ area_size A p = area_size A q /\ area_start A p < area_start A q.
Proof. unfold size_lt, size_cmp. repeat case_match; lia. Qed.
Lemma size_order A known : strict_weak (size_lt A) known.
Proof.
  split.
  - intros p q _ _ H. destruct (size_lt A q p) eqn:E; [|done]. apply size_lt_spec in H, E. lia.
  - intros p q r _ _ _ H. destruct (size_lt A p q) eqn:E; [by left|right]. apply size_lt_spec in H.
    destruct (size_lt A q r) eqn:E'; [done|]. apply not_true_iff_false in E, E'. rewrite size_lt_spec in E, E'. lia.
Qed.
(** The order only looks at the areas it compares. *)
Lemma rb_sorted_ext A A' xs : (forall p, p ∈ xs -> A' !! p = A !! p) -> rb_sorted (size_lt A) xs -> rb_sorted (size_lt A') xs.
Proof.
  unfold rb_sorted. induction xs as [|x xs IH]; intros Heq Hs; [constructor|]. apply StronglySorted_cons in Hs as [Hx Hs].
  apply StronglySorted_cons. split; [|apply IH; [|done]; intros p Hp; apply Heq; by right].
  rewrite Forall_forall in *. intros y Hy. specialize (Hx y Hy). cbn in *. revert Hx.
  unfold size_lt, size_cmp, area_size, area_start. rewrite (Heq x) by left. by rewrite (Heq y) by (by right).
Qed.

(** ** Walks *)

Lemma wp_area p a (Q : vmap_area -> vmap -> Prop) s : vm_areas s !! p = Some a -> Q a s -> wp (area p) Q s.
Proof. intros Ha HQ. unfold area. do 2 wp_step. by eapply wp_of_option. Qed.
Lemma wp_put_area p f a (Q : unit -> vmap -> Prop) s : vm_areas s !! p = Some a -> Q tt (set_areas (<[p := f a]> (vm_areas s)) s) ->
  wp (put_area p f) Q s.
Proof. intros Ha HQ. unfold put_area. wp_step. eapply wp_area; [exact Ha|]. by wp_step. Qed.
Lemma wp_va_size p a (Q : Z -> vmap -> Prop) s : vm_areas s !! p = Some a -> Q (area_size (vm_areas s) p) s -> wp (va_size p) Q s.
Proof. intros Ha HQ. unfold va_size. wp_step. eapply wp_area; [exact Ha|]. wp_step. unfold area_size in HQ. by rewrite Ha in HQ. Qed.

Lemma wp_compare_size p q a b (Q : Z -> vmap -> Prop) s : vm_areas s !! p = Some a -> vm_areas s !! q = Some b ->
  Q (size_cmp (vm_areas s) p q) s -> wp (va_compare_size p q) Q s.
Proof.
  intros Ha Hb HQ. unfold va_compare_size. wp_step. eapply wp_va_size; [exact Ha|]. wp_step. eapply wp_va_size; [exact Hb|].
  unfold size_cmp in HQ. destruct (area_size _ p <? _); [by wp_step|]. destruct (area_size _ p >? _); [by wp_step|].
  wp_step. eapply wp_area; [exact Ha|]. wp_step. eapply wp_area; [exact Hb|]. unfold area_start in HQ. rewrite Ha, Hb in HQ. cbn in HQ.
  destruct (va_start a <? va_start b); [by wp_step|]. destruct (va_start a >? va_start b); by wp_step.
Qed.
Lemma size_compares s : compares (set_nodes := set_vnodes) (set_tree := set_free_tree) va_compare_size (size_cmp (vm_areas s))
  (fun p => is_Some (vm_areas s !! p)) s.
Proof. intros p q m t [a Ha] [b Hb]. apply wp_exact. by eapply wp_compare_size. Qed.

(** The walk of [list_for_each_entry] with a body that changes nothing; [I] is what holds of the accumulated value. *)
Section walk.
Context {X B : Type}.
Fixpoint walk (f : Z -> X -> X + B) (ps : list Z) (x : X) : X + B :=
  match ps with [] => inl x | p :: ps => match f p x with inl x' => walk f ps x' | inr b => inr b end end.

Context (node : Z -> vnode) (head : vnode) (body : Z -> X -> M vmap (X + B)) (f : Z -> X -> X + B) (I : X -> Prop).
Hypothesis node_area : forall p, area_of (node p) = mret p.
Hypothesis node_head : forall p, node p <> head.

Lemma wp_walk_loop (Q : X + B -> vmap -> Prop) s fuel a ps x : chain (vm_links s) a (node <$> ps) head ->
  I x -> (forall p x x', p ∈ ps -> I x -> f p x = inl x' -> I x') ->
  (forall p x K, p ∈ ps -> I x -> K (f p x) s -> wp (body p x) K s) -> Q (walk f ps x) s -> (length ps < fuel)%nat ->
  wp (loop fuel (fun st : vnode * X =>
    let '(pos, a) := st in
    if decide (pos = head) then mret (inr (inl a)) else
    va ← area_of pos;
    r ← body va a;
    match r with
    | inr b => mret (inr (inr b))
    | inl a' => next ← on_vlinks (read_nxt pos); mret (inl (next, a'))
    end) (first_of head (node <$> ps), x)) Q s.
Proof.
  revert a ps x. induction fuel as [|fuel IH]; intros a ps x Hc HI Hpres Hbody HQ Hf; [lia|]. cbn [loop]. wp_step. destruct ps as [|p ps].
  - cbn. rewrite decide_True by done. do 2 wp_step. exact HQ.
  - unfold first_of. cbn. rewrite decide_False by apply node_head.
    rewrite node_area. do 2 wp_step. wp_step. apply Hbody; [left|exact HI|]. cbn in HQ. destruct (f p x) as [x'|b] eqn:Efp; [|do 2 wp_step; exact HQ].
    wp_step. unfold on_vlinks. wp_step. unfold read_nxt. do 2 wp_step. destruct Hc as [_ Hc].
    assert (Hn : nxt (vm_links s) !! node p = Some (first_of head (node <$> ps))).
    { destruct ps as [|q ps]; [apply Hc|]. by destruct Hc as [[Hn _] _]. }
    eapply wp_of_option; [exact Hn|]. replace (set_vlinks (vm_links s) s) with s by (by destruct s). wp_step.
    eapply IH; [exact Hc|eapply Hpres; [left|exact HI|exact Efp]|intros q y y' Hq; apply Hpres; by right|intros q y K Hq; apply Hbody; by right|exact HQ|]. cbn in Hf. lia.
Qed.

Lemma wp_scan ps x (Q : X + B -> vmap -> Prop) s : dll (vm_links s) head (node <$> ps) -> (length ps <= size (vm_areas s))%nat ->
  I x -> (forall p x x', p ∈ ps -> I x -> f p x = inl x' -> I x') ->
  (forall p x K, p ∈ ps -> I x -> K (f p x) s -> wp (body p x) K s) -> Q (walk f ps x) s -> wp (scan head body x) Q s.
Proof.
  intros Hd Hsz HI Hpres Hbody HQ. unfold scan. wp_step. unfold on_vlinks at 1. wp_step.
  eapply wp_read_nxt; [exact Hd|]. replace (set_vlinks (vm_links s) s) with s by (by destruct s). do 2 wp_step.
  destruct Hd as [Hc _]. eapply wp_walk_loop; [exact Hc|exact HI|exact Hpres|exact Hbody|exact HQ|]. lia.
Qed.
End walk.

(** ** The areas of the allocator *)

Record area_ok (a : vmap_area) : Prop := {
  ar_range : VMALLOC_START <= va_start a /\ va_start a < va_end a /\ va_end a <= VMALLOC_END;
  ar_align : va_start a mod 4096 = 0 /\ va_end a mod 4096 = 0;
}.
Definition area_end A p : Z := from_option va_end 0 (A !! p).
Definition apart A p q : Prop := area_end A p <= area_start A q \/ area_end A q <= area_start A p.

(** The free areas [fs], as the list and as the tree [T]. *)
Record free_ok nil others fs T s : Prop := {
  fo_list : dll (vm_links s) FreeListHead (FreeNode <$> fs);
  fo_tree : rb_holds vm_nodes free_tree nil others T s;
  fo_rb : rb_ok T;
  fo_sorted : rb_sorted (size_lt (vm_areas s)) (addrs T);
  fo_same : addrs T ≡ₚ fs;
}.

(** The free, the busy and the loose areas, as objects of the heap with live objects [L]. *)
Record areas_ok (L : gmap Z Z) fs bs ws s : Prop := {
  ao_free : exists nil others T, free_ok nil others fs T s /\ is_Some (L !! nil) /\ nil ∉ fs ++ bs ++ ws;
  ao_busy : dll (vm_links s) BusyListHead (BusyNode <$> bs);
  ao_objs p : p ∈ fs ++ bs ++ ws -> is_Some (L !! p) /\ is_Some (vm_nodes s !! p) /\ exists a, vm_areas s !! p = Some a /\ area_ok a;
  ao_nodup : NoDup (fs ++ bs ++ ws);
  ao_order : StronglySorted (fun p q => area_start (vm_areas s) p <= area_start (vm_areas s) q) fs;
  ao_apart p q : p ∈ fs ++ bs ++ ws -> q ∈ fs ++ bs ++ ws -> p <> q -> apart (vm_areas s) p q;
}.
(** What the bookkeeping of free areas does not touch. *)
Definition rest_of s := (mgr_start s, mgr_end s, total_free s, nr_busy s, va_lock s, vm_slab s).

Lemma areas_length L fs bs ws s : areas_ok L fs bs ws s -> (length fs <= size (vm_areas s))%nat /\ (length bs <= size (vm_areas s))%nat.
Proof.
  intros Ha. pose proof (nodup_size (vm_areas s) _ (ao_nodup _ _ _ _ _ Ha)) as Hsz. rewrite !length_app in Hsz.
  enough (forall p, p ∈ fs ++ bs ++ ws -> is_Some (vm_areas s !! p)) by (specialize (Hsz H); lia).
  intros p Hp. destruct (ao_objs _ _ _ _ _ Ha p Hp) as (_ & _ & a & E & _). by exists a.
Qed.

(** A permutation of the busy and loose areas that keeps the busy list. *)
Lemma areas_at L fs bs ws s p : areas_ok L fs bs ws s -> p ∈ fs ++ bs ++ ws -> exists a, vm_areas s !! p = Some a /\ area_ok a.
Proof. intros Ha Hp. by destruct (ao_objs _ _ _ _ _ Ha p Hp) as (_ & _ & Hx). Qed.

Lemma holds_nodes nil others T s q : rb_holds vm_nodes free_tree nil others T s -> q <> nil ->
  (q ∈ addrs T -> is_Some (vm_nodes s !! q)) /\ (q ∉ addrs T -> vm_nodes s !! q = others !! q).
Proof.
  intros [_ [np Hz]] Hq. split; [intros Hin; eapply repr_dom; [apply (z_tree _ _ _ _ _ _ _ Hz)|exact Hin]|].
  intros Hin. by apply (z_others _ _ _ _ _ _ _ Hz).
Qed.

(** The busy list does not share nodes with the free list. *)
Lemma busy_frame lk lk' ps bs : (forall n, n ∉ FreeListHead :: (FreeNode <$> ps) -> nxt lk' !! n = nxt lk !! n /\ prv lk' !! n = prv lk !! n) ->
  dll lk BusyListHead (BusyNode <$> bs) -> dll lk' BusyListHead (BusyNode <$> bs).
Proof.
  intros Hf. apply dll_frame. intros n Hn. apply Hf. intros Hin. apply elem_of_cons in Hn as [->|Hn].
  - apply elem_of_cons in Hin as [|Hin]; [done|]. apply list_elem_of_fmap in Hin as (? & ? & _). done.
  - apply list_elem_of_fmap in Hn as (p & -> & _). apply elem_of_cons in Hin as [|Hin]; [done|]. apply list_elem_of_fmap in Hin as (? & ? & _). done.
Qed.

(** ** Out of the free list and tree *)

Lemma wp_va_remove_free L l p r bs ws (Q : unit -> vmap -> Prop) s : areas_ok L (l ++ p :: r) bs ws s ->
  (forall s', areas_ok L (l ++ r) bs (p :: ws) s' -> vm_areas s' = vm_areas s -> rest_of s' = rest_of s -> Q tt s') ->
  wp (va_remove_free p) Q s.
Proof.
  intros [(nil & oth & T & [Hl Ht Hrb Hs Hsame] & HLn & Hnil) Hb Hobj Hnd Ho Hap] HQ. unfold va_remove_free, tree_delete. wp_step.
  assert (Hperm : (l ++ p :: r) ++ bs ++ ws ≡ₚ (l ++ r) ++ bs ++ p :: ws).
  { rewrite <- (Permutation_middle bs), <- (Permutation_middle (l ++ r)), <- (Permutation_middle l). reflexivity. }
  assert (HpT : p ∈ addrs T) by (rewrite Hsame; set_solver).
  eapply wp_mono; [exact (wp_rb_delete s nil oth T p Ht Hrb HpT)|].
  intros [] s1 (T' & xs & ys & n & (m & root & ->) & Ht' & Hrb' & Exs & Eys).
  unfold on_vlinks. wp_step. rewrite fmap_app in Hl. cbn [fmap list_fmap] in Hl.
  eapply wp_list_del; [exact Hl|]. intros lk Hl' Hframe. rewrite <- fmap_app in Hl'. apply HQ; [|reflexivity|reflexivity].
  assert (Hin : forall q, q ∈ (l ++ r) ++ bs ++ p :: ws -> q ∈ (l ++ p :: r) ++ bs ++ ws) by (intros q; by rewrite Hperm).
  assert (Hnil' : nil ∉ (l ++ r) ++ bs ++ p :: ws) by (by rewrite <- Hperm).
  split.
  - exists nil, (<[p := n]> oth), T'. split; [|split; [exact HLn|exact Hnil']]. split.
    + exact Hl'.
    + destruct Ht' as [H1 H2]. split; [exact H1|exact H2].
    + exact Hrb'.
    + rewrite Eys. rewrite Exs in Hs. by apply rb_sorted_delete in Hs.
    + rewrite Eys. rewrite Exs in Hsame. exact (Permutation_app_inv _ _ _ _ p Hsame).
  - apply (busy_frame (vm_links s) _ (l ++ p :: r)); [|exact Hb]. intros q Hq. apply Hframe. rewrite fmap_app in Hq. exact Hq.
  - intros q Hq. destruct (Hobj q (Hin q Hq)) as (HL & Hn & Ha). split; [exact HL|]. split; [|exact Ha].
    assert (Hq0 : q <> nil) by (intros ->; by apply Hnil').
    change (is_Some (vm_nodes (set_free_tree (RbTree root (rb_nil (free_tree s))) (set_vnodes m s)) !! q)).
    destruct (holds_nodes _ _ _ _ q Ht' Hq0) as [H1 H2]. destruct (decide (q ∈ addrs T')) as [Hi|Hi]; [by apply H1|].
    rewrite H2 by exact Hi. destruct (decide (q = p)) as [->|Hqp]; [rewrite lookup_insert_eq; by eexists|]. rewrite lookup_insert_ne by done.
    destruct (holds_nodes _ _ _ _ q Ht Hq0) as [_ H3]. rewrite <- H3; [exact Hn|]. rewrite Exs, Eys in *. set_solver.
  - by rewrite <- Hperm.
  - apply StronglySorted_app in Ho as (H1 & H2 & H3). apply StronglySorted_cons in H3 as [_ H3]. apply StronglySorted_app.
    split_and!; [|exact H2|exact H3]. intros a b Hain Hbin. apply H1; [exact Hain|by right].
  - intros a b Hain Hbin. apply Hap; by apply Hin.
Qed.

(** ** Into the free list and tree *)

(** A walk that stops at the first element with a property. *)
Lemma walk_first {B} (g : Z -> bool) (mk : Z -> B) ps : exists l r, ps = l ++ r /\ (forall q, q ∈ l -> g q = false) /\
  walk (fun q (_ : unit) => if g q then inr (mk q) else inl tt) ps tt = match r with [] => inl tt | q :: _ => inr (mk q) end /\
  match r with [] => True | q :: _ => g q = true end.
Proof.
  induction ps as [|q ps (l & r & -> & Hl & Hw & Hr)]; [by exists [], []; split_and!; [|set_solver|..]|].
  destruct (g q) eqn:E; [exists [], (q :: l ++ r)|exists (q :: l), r]; cbn; rewrite E; split_and!; try done; [set_solver|].
  intros q' [->|Hq]%elem_of_cons; [exact E|by apply Hl].
Qed.

Definition place_of (r : list Z) : vnode := match r with [] => FreeListHead | q :: _ => FreeNode q end.
Lemma wp_list_place p l r (Q : unit -> links vnode -> Prop) lk : dll lk FreeListHead (FreeNode <$> l ++ r) -> p ∉ l ++ r ->
  (forall lk', dll lk' FreeListHead (FreeNode <$> l ++ p :: r) ->
    (forall n, n ∉ FreeListHead :: (FreeNode <$> p :: l ++ r) -> nxt lk' !! n = nxt lk !! n /\ prv lk' !! n = prv lk !! n) -> Q tt lk') ->
  wp (list_add_tail (FreeNode p) (place_of r)) Q lk.
Proof.
  intros Hd Hp HQ.
  assert (Hnode : FreeNode p ∉ FreeListHead :: (FreeNode <$> l ++ r)).
  { intros [|Hin]%elem_of_cons; [done|]. apply list_elem_of_fmap in Hin as (q & [= ->] & Hq). done. }
  destruct r as [|q r]; cbn [place_of].
  - rewrite app_nil_r in *. eapply wp_list_add_tail; [exact Hd|exact Hnode|]. intros lk' Hd' Hf. apply HQ.
    + rewrite fmap_app. exact Hd'.
    + intros n Hn. apply Hf. intros Hin. apply Hn. cbn [fmap list_fmap]. set_solver.
  - rewrite fmap_app in Hd, Hnode. eapply wp_list_insert_before; [exact Hd|exact Hnode|]. intros lk' Hd' Hf. apply HQ.
    + rewrite fmap_app. exact Hd'.
    + intros n Hn. apply Hf. intros Hin. apply Hn. cbn [fmap list_fmap]. rewrite fmap_app. cbn [fmap list_fmap] in *. set_solver.
Qed.

Lemma wp_va_insert_free L fs bs p ws (Q : unit -> vmap -> Prop) s : areas_ok L fs bs (p :: ws) s ->
  (forall l r s', fs = l ++ r -> areas_ok L (l ++ p :: r) bs ws s' -> vm_areas s' = vm_areas s -> rest_of s' = rest_of s -> Q tt s') ->
  wp (va_insert_free p) Q s.
Proof.
  intros Hok HQ. pose proof (areas_length _ _ _ _ _ Hok) as [Hlen _]. destruct Hok as [(nil & oth & T & [Hl Ht Hrb Hs Hsame] & HLn & Hnil) Hb Hobj Hnd Ho Hap].
  set (A := vm_areas s) in *. destruct (Hobj p) as (HLp & [n Hn] & a & Hpa & Hpok); [set_solver|].
  unfold va_insert_free. wp_step.
  apply (wp_scan FreeNode FreeListHead _ (fun q (_ : unit) => if area_start A q >? area_start A p then inr (FreeNode q) else inl tt) (fun _ => True))
    with (ps := fs); [done|done|exact Hl|exact Hlen|done|done| |].
  { intros q [] K Hq _ HK. destruct (Hobj q) as (_ & _ & b & Hqb & _); [set_solver|]. wp_step. eapply wp_area; [exact Hqb|].
    wp_step. eapply wp_area; [exact Hpa|]. wp_step. unfold area_start in HK. by rewrite Hqb, Hpa in HK. }
  destruct (walk_first (fun q => area_start A q >? area_start A p) FreeNode fs) as (l & r & -> & Hlt & -> & Hge).
  assert (Hplace : match (match r with [] => inl tt | q :: _ => inr (FreeNode q) end : unit + vnode) with inl _ => FreeListHead | inr x => x end = place_of r)
    by (by destruct r). rewrite Hplace. clear Hplace.
  assert (Hperm : (l ++ r) ++ bs ++ p :: ws ≡ₚ (l ++ p :: r) ++ bs ++ ws).
  { rewrite <- (Permutation_middle bs), <- (Permutation_middle (l ++ r)), <- (Permutation_middle l). reflexivity. }
  assert (Hpf : p ∉ l ++ r).
  { rewrite <- (Permutation_middle bs), <- (Permutation_middle (l ++ r)) in Hnd. apply NoDup_cons in Hnd as [Hnd _]. set_solver. }
  assert (Hin : forall q, q ∈ (l ++ p :: r) ++ bs ++ ws -> q ∈ (l ++ r) ++ bs ++ p :: ws) by (intros q; by rewrite Hperm).
  assert (Hnil' : nil ∉ (l ++ p :: r) ++ bs ++ ws) by (by rewrite <- Hperm).
  assert (Hpn : p <> nil) by (intros ->; apply Hnil'; set_solver).
  wp_step. unfold on_vlinks. wp_step. eapply wp_list_place; [exact Hl|exact Hpf|]. intros lk Hl' Hframe.
  set (s1 := set_vlinks lk s).
  assert (HpT : p ∉ addrs T) by (by rewrite Hsame).
  assert (Hkn : forall q, q ∈ addrs T -> is_Some (vm_areas s1 !! q)).
  { intros q Hq. rewrite Hsame in Hq. destruct (Hobj q) as (_ & _ & b & Hb' & _); [set_solver|]. by exists b. }
  eapply wp_mono.
  { eapply (wp_rb_insert va_compare_size (size_cmp A) (fun q => is_Some (vm_areas s1 !! q)) s1 nil oth T p n).
    - destruct Ht as [H1 H2]. split; [exact H1|exact H2].
    - exact Hrb.
    - exact (size_compares s1).
    - apply size_order.
    - exact Hs.
    - exact Hkn.
    - by exists a.
    - exact Hpn.
    - exact HpT.
    - exact Hn. }
  intros [] s2 (T' & xs & ys & (m & root & ->) & Ht' & Hrb' & Hs' & Exs & Eys).
  eapply (HQ l r); [reflexivity| |reflexivity|reflexivity]. split.
  - exists nil, oth, T'. split; [|split; [exact HLn|exact Hnil']]. split; [exact Hl'|exact Ht'|exact Hrb'|exact Hs'|].
    rewrite Eys, <- !Permutation_middle, <- Exs, Hsame. reflexivity.
  - apply (busy_frame (vm_links s) _ (p :: l ++ r)); [exact Hframe|exact Hb].
  - intros q Hq. destruct (Hobj q (Hin q Hq)) as (HL & Hnq & Ha). split; [exact HL|]. split; [|exact Ha].
    assert (Hq0 : q <> nil) by (intros ->; by apply Hnil').
    change (is_Some (vm_nodes (set_free_tree (RbTree root (rb_nil (free_tree s1))) (set_vnodes m s1)) !! q)).
    destruct (holds_nodes _ _ _ _ q Ht' Hq0) as [H1 H2]. destruct (decide (q ∈ addrs T')) as [Hi|Hi]; [by apply H1|].
    rewrite H2 by exact Hi. destruct (holds_nodes _ _ _ _ q Ht Hq0) as [_ H3]. rewrite <- H3; [exact Hnq|].
    rewrite Exs, Eys in *. set_solver.
  - by rewrite <- Hperm.
  - apply StronglySorted_app in Ho as (H1 & H2 & H3). apply StronglySorted_app. split_and!; [|exact H2|].
    + intros x y Hx [->|Hy]%elem_of_cons; [specialize (Hlt x Hx); unfold A in Hlt; cbn in *; lia|by apply H1].
    + apply StronglySorted_cons. split; [|exact H3]. destruct r as [|q r]; [constructor|].
      apply StronglySorted_cons in H3 as [H3 _]. rewrite Forall_forall in H3. apply Forall_forall.
      unfold A in *. intros y [->|Hy]%elem_of_cons; [cbn in *; lia|]. specialize (H3 y Hy). cbn in *. lia.
  - intros x y Hx Hy. apply Hap; by apply Hin.
Qed.
