(* ===== verification/VmapProps.v ===== *)
(** What the virtual-address allocator of [kernel/vmap.c] promises. *)
From stdpp Require Import sorting.
From S2P Require Import Prelude ListHead Pmm Sync Machine Slab SlabTheory SlabOps SlabFree SlabProps Rbtree RbTheory RbDelete RbProps Vmap VmapTheory.
Open Scope Z_scope.
Implicit Types (s : vmap) (A : gmap Z vmap_area) (fs bs : list Z).

(** The allocator at rest: the free areas [fs] in address order, the busy areas [bs] with the last one first. *)
Record vmap_ok (L : gmap Z Z) fs bs s : Prop := {
  vo_heap : heap_ok L (vm_slab s);
  vo_lock : lock_free (va_lock s);
  vo_areas : areas_ok L fs bs [] s;
  vo_stack : vm_areas s !! STACK_TARGET = None;
  vo_free : total_free s = u64 (foldr Z.add 0 (map (area_size (vm_areas s)) fs));
  vo_busy : nr_busy s = u64 (Z.of_nat (length bs));
}.

(** ** The best fit *)

Definition best_step A size (p : Z) (best : option Z) : option Z + unit :=
  if size <=? area_size A p then
    match best with
    | None => inl (Some p)
    | Some b => inl (if area_size A p <? area_size A b then Some p else best)
    end
  else inl best.

Lemma walk_best A size ps best : exists r, walk (best_step A size) ps best = inl r /\
  (r = best \/ exists p, r = Some p /\ p ∈ ps /\ size <= area_size A p) /\
  (forall q, q ∈ ps -> size <= area_size A q -> exists p, r = Some p /\ area_size A p <= area_size A q) /\
  (forall b, best = Some b -> exists p, r = Some p /\ area_size A p <= area_size A b).
Proof.
  revert best. induction ps as [|p ps IH]; intros best; cbn.
  { exists best. split_and!; [done|by left|set_solver|]. intros b ->. by exists b. }
  assert (Hstep : exists b', best_step A size p best = inl b' /\ (b' = best \/ b' = Some p /\ size <= area_size A p) /\
    (size <= area_size A p -> exists q, b' = Some q /\ area_size A q <= area_size A p) /\
    (forall b, best = Some b -> exists q, b' = Some q /\ area_size A q <= area_size A b)).
  { unfold best_step. destruct (Z.leb_spec size (area_size A p)); [|exists best; split_and!; [done|by left|lia|]; intros b ->; by exists b].
    destruct best as [b|]; [|exists (Some p); split_and!; [done|by right|by exists p|done]].
    destruct (Z.ltb_spec (area_size A p) (area_size A b)).
    - exists (Some p). split_and!; [done|by right|by exists p|]. intros ? [= <-]. exists p. split; [done|lia].
    - exists (Some b). split_and!; [done|by left|by exists b|]. intros ? [= <-]. by exists b. }
  destruct Hstep as (b' & -> & Hb' & Hp & Hbest). destruct (IH b') as (r & -> & Hr & Hall & Hkeep). exists r. split; [done|]. split_and!.
  - destruct Hr as [->|(q & -> & Hq & Hs)]; [|right; exists q; set_solver]. destruct Hb' as [->|[-> Hs]]; [by left|]. right. exists p. set_solver.
  - intros q [->|Hq]%elem_of_cons Hs; [|by apply Hall]. destruct (Hp Hs) as (x & Ex & Hx). destruct (Hkeep _ Ex) as (y & -> & Hy). exists y. split; [done|lia].
  - intros b Eb. destruct (Hbest _ Eb) as (x & Ex & Hx). destruct (Hkeep _ Ex) as (y & -> & Hy). exists y. split; [done|lia].
Qed.

(** The search of the tree never finds anything, because the target starts at 0; the walk decides. *)
Lemma wp_va_find_best_fit L fs bs size (Q : option Z -> vmap -> Prop) s : areas_ok L fs bs [] s -> vm_areas s !! STACK_TARGET = None ->
  (forall r, match r with
             | Some p => p ∈ fs /\ size <= area_size (vm_areas s) p
             | None => forall q, q ∈ fs -> area_size (vm_areas s) q < size
             end -> (forall p q, r = Some p -> q ∈ fs -> size <= area_size (vm_areas s) q -> area_size (vm_areas s) p <= area_size (vm_areas s) q) ->
     Q r s) ->
  wp (va_find_best_fit size) Q s.
Proof.
  intros Hok Hst HQ. pose proof (areas_length _ _ _ _ _ Hok) as [Hlen _].
  pose proof (ao_free _ _ _ _ _ Hok) as (nil & oth & T & [Hl Ht _ _ Hsame] & _ & _).
  unfold va_find_best_fit. do 2 wp_step. set (A1 := <[STACK_TARGET := VmapArea 0 size 0]> (vm_areas s)). set (s1 := set_areas A1 s).
  assert (Hne : forall p, p ∈ fs -> p <> STACK_TARGET) by (intros p Hp ->; destruct (areas_at _ _ _ _ _ STACK_TARGET Hok) as (a & Ha & _); [set_solver|congruence]).
  assert (Hat : forall p, p ∈ fs -> exists a, A1 !! p = Some a /\ vm_areas s !! p = Some a /\ area_ok a).
  { intros p Hp. destruct (areas_at _ _ _ _ _ p Hok) as (a & Ha & Hao); [set_solver|]. exists a. unfold A1. rewrite lookup_insert_ne; [done|].
    symmetry. by apply Hne. }
  assert (Hback : set_areas (delete STACK_TARGET A1) s1 = s).
  { unfold A1. rewrite delete_insert_id by done. by destruct s. }
  wp_step. unfold tree_search.
  assert (Hend : forall r : option Z, r = None -> wp (_ ← modify (fun s => set_areas (delete STACK_TARGET (vm_areas s)) s);
    match r with
    | Some va => mret (Some va)
    | None =>
        r ← scan FreeListHead (fun va (best : option Z) =>
              sz ← va_size va;
              if size <=? sz then
                match best with
                | None => mret (inl (Some va))
                | Some b =>
                    bsz ← va_size b;
                    mret (inl (if sz <? bsz then Some va else best))
                end
              else mret (inl best : option Z + unit)) None;
        mret (match r with inl best => best | inr _ => None end)
    end) Q s1).
  { intros r ->. do 2 wp_step. change (vm_areas s1) with A1. rewrite Hback. wp_step.
    apply (wp_scan FreeNode FreeListHead _ (best_step (vm_areas s) size) (fun b => match b with Some p => p ∈ fs | None => True end))
      with (ps := fs); [done|done|exact Hl|exact Hlen|done| | |].
    - intros p x x' Hp Hx. unfold best_step. destruct (size <=? _); [|by intros [= <-]]. destruct x as [b|]; [|by intros [= <-]].
      destruct (area_size _ p <? _); by intros [= <-].
    - intros p x K Hp Hx HK. destruct (Hat p Hp) as (a & _ & Ha & _). wp_step. eapply wp_va_size; [exact Ha|]. unfold best_step in HK.
      destruct (size <=? area_size (vm_areas s) p); [|by wp_step]. destruct x as [b|]; [|by wp_step].
      destruct (Hat b Hx) as (c & _ & Hc & _). wp_step. eapply wp_va_size; [exact Hc|]. by wp_step.
    - destruct (walk_best (vm_areas s) size fs None) as (r & -> & Hr & Hall & _). wp_step. apply HQ.
      + destruct r as [p|].
        * destruct Hr as [|(q & [= <-] & Hq)]; [done|exact Hq].
        * intros q Hq. destruct (Z.ltb_spec (area_size (vm_areas s) q) size) as [|Hle]; [done|]. by destruct (Hall q Hq Hle) as (? & ? & _).
      + intros p q -> Hq Hs. by destruct (Hall q Hq Hs) as (? & [= <-] & ?). }
  eapply (wp_rb_search va_compare_size (size_cmp A1) (fun p => is_Some (A1 !! p)) s1 nil oth T STACK_TARGET).
  - destruct Ht as [H1 H2]. split; [exact H1|exact H2].
  - exact (size_compares s1).
  - intros p Hp. rewrite Hsame in Hp. destruct (Hat p Hp) as (a & Ha & _). by exists a.
  - unfold A1. rewrite lookup_insert_eq. by eexists.
  - intros p Hp. rewrite Hsame in Hp. destruct (Hat p Hp) as (a & Ha & _ & Hao). unfold size_cmp, area_start.
    assert (Hst0 : A1 !! STACK_TARGET = Some (VmapArea 0 size 0)) by apply lookup_insert_eq. rewrite Hst0, Ha. cbn.
    pose proof (ar_range _ Hao) as (Hr & _). unfold VMALLOC_START in Hr.
    repeat case_match; lia.
  - exact (Hend None eq_refl).
Qed.

(** ** A new area *)

Lemma wp_kmalloc_area L (Q : Z -> vmap -> Prop) s : heap_ok L (vm_slab s) ->
  (forall h, heap_ok L h -> daif (mach h) = daif (mach (vm_slab s)) -> exhausted (vm_slab s) GFP_KERNEL 104 ->
     kmalloc_grew L GFP_KERNEL 104 (vm_slab s) 0 h -> Q 0 (set_vm_slab h s)) ->
  (forall f z h, 0 < f -> L !! f = None -> heap_ok (<[f := z]> L) h -> daif (mach h) = daif (mach (vm_slab s)) ->
     kmalloc_grew L GFP_KERNEL 104 (vm_slab s) f h ->
     Q f (set_vnodes (<[f := RbNode 0 0 0 RB_RED]> (vm_nodes s)) (set_areas (<[f := VmapArea 0 0 0]> (vm_areas s)) (set_vm_slab h s)))) ->
  wp kmalloc_area Q s.
Proof.
  intros Hh HQ0 HQ. unfold kmalloc_area, on_slab. do 2 wp_step.
  eapply wp_mono; [apply (wp_kmalloc_grew L 104 GFP_KERNEL); [exact Hh|unfold SZ_4M; lia]|].
  intros r h Hgrew. pose proof (kg_post _ _ _ _ _ _ Hgrew) as [Hkept Hr]. pose proof (heap_kept_daif _ _ _ Hkept) as Hd.
  destruct Hr as [(-> & Hh' & Hex)|(H0 & _ & z & Hz & HLn & Hh')].
  - rewrite Z.eqb_refl. wp_step. by apply HQ0.
  - rewrite (proj2 (Z.eqb_neq r 0)) by exact H0. do 3 wp_step. eapply HQ; [|exact HLn|exact Hh'|exact Hd|exact Hgrew].
    eapply heap_live_pos; [exact Hh'|apply lookup_insert_eq].
Qed.

Lemma order_ext A A' fs : (forall p, p ∈ fs -> A' !! p = A !! p) -> StronglySorted (fun p q => area_start A p <= area_start A q) fs ->
  StronglySorted (fun p q => area_start A' p <= area_start A' q) fs.
Proof.
  induction fs as [|p fs IH]; intros Heq Hs; [constructor|]. apply StronglySorted_cons in Hs as [Hp Hs]. apply StronglySorted_cons.
  split; [|apply IH; [intros q Hq; apply Heq; by right|exact Hs]]. rewrite Forall_forall in *. intros q Hq. specialize (Hp q Hq).
  cbn in *. unfold area_start. rewrite (Heq p) by left. rewrite (Heq q) by (by right). exact Hp.
Qed.

(** The area [p] is cut in two: it keeps the front, the new object [f] gets the rest. *)
Lemma areas_cut L fs bs p a f z n mid fl s : areas_ok L fs bs [p] s -> vm_areas s !! p = Some a -> L !! f = None ->
  va_start a < mid < va_end a -> mid mod 4096 = 0 ->
  areas_ok (<[f := z]> L) fs bs [f; p]
    (set_vnodes (<[f := n]> (vm_nodes s)) (set_areas (<[p := VmapArea (va_start a) mid (va_flags a)]> (<[f := VmapArea mid (va_end a) fl]> (vm_areas s))) s)).
Proof.
  intros [(nil & oth & T & [Hl Ht Hrb Hs Hsame] & HLn & Hnil) Hb Hobj Hnd Ho Hap] Ha HLf Hmid Hal.
  set (A' := <[p := _]> (<[f := _]> (vm_areas s))).
  assert (Hfn : f <> nil) by (intros ->; destruct HLn; congruence).
  assert (Hf : f ∉ fs ++ bs ++ [p]) by (intros Hin; destruct (Hobj f Hin) as ([? ?] & _); congruence).
  assert (Hpf : p <> f) by (intros ->; apply Hf; set_solver).
  assert (Hpo : p ∉ fs ++ bs).
  { rewrite app_assoc in Hnd. apply NoDup_app in Hnd as (_ & Hnd & _). intros Hin. apply (Hnd p Hin). set_solver. }
  assert (Hold : forall q, q ∈ fs ++ bs -> A' !! q = vm_areas s !! q /\ q <> f).
  { intros q Hq. assert (q <> f) by (intros ->; apply Hf; set_solver). split; [|done]. unfold A'. rewrite !lookup_insert_ne; [done|congruence|].
    intros ->. by apply Hpo. }
  assert (Hpa : A' !! p = Some (VmapArea (va_start a) mid (va_flags a))) by apply lookup_insert_eq.
  assert (Hfa : A' !! f = Some (VmapArea mid (va_end a) fl)) by (unfold A'; rewrite lookup_insert_ne by done; apply lookup_insert_eq).
  assert (Hpok : area_ok a) by (destruct (Hobj p) as (_ & _ & b & E & Hb'); [set_solver|]; congruence).
  assert (Hperm : forall q, q ∈ fs ++ bs ++ [f; p] -> q = f \/ q = p \/ q ∈ fs ++ bs) by set_solver.
  destruct Hpok as [Hpr Hpal]. split.
  - exists nil, (<[f := n]> oth), T. split; [|split; [rewrite lookup_insert_ne by done; exact HLn|set_solver]]. split; [exact Hl| |exact Hrb| |exact Hsame].
    + destruct Ht as [H1 [np Hz]]. split; [exact H1|]. exists np. apply zip_outside; [exact Hz|exact Hfn|]. cbn [kaddrs app]. rewrite Hsame. set_solver.
    + eapply rb_sorted_ext; [|exact Hs]. intros q Hq. rewrite Hsame in Hq. apply (Hold q). set_solver.
  - exact Hb.
  - intros q Hq. destruct (Hperm q Hq) as [->|[->|Hq']].
    + split; [rewrite lookup_insert_eq; by eexists|]. split; [cbn; rewrite lookup_insert_eq; by eexists|]. eexists. split; [exact Hfa|].
      split; cbn; [lia|split; [exact Hal|apply Hpal]].
    + destruct (Hobj p) as (H1 & H2 & _); [set_solver|]. split; [rewrite lookup_insert_ne by congruence; exact H1|]. split; [cbn; rewrite lookup_insert_ne by congruence; exact H2|].
      eexists. split; [exact Hpa|]. split; cbn; [lia|split; [apply Hpal|exact Hal]].
    + destruct (Hold q Hq') as [E Hqf]. destruct (Hobj q) as (H1 & H2 & b & H3 & H4); [set_solver|]. split; [rewrite lookup_insert_ne by congruence; exact H1|].
      split; [cbn; rewrite lookup_insert_ne by congruence; exact H2|]. exists b. split; [|exact H4]. change (A' !! q = Some b). by rewrite E.
  - rewrite app_assoc in *. rewrite <- Permutation_middle. by constructor.
  - eapply order_ext; [|exact Ho]. intros q Hq. apply (Hold q). set_solver.
  - change (vm_areas _) with A'.
    assert (Hs' : forall q, q ∈ fs ++ bs -> apart A' f q /\ apart A' p q).
    { intros q Hq. destruct (Hold q Hq) as [E _]. assert (Hpq : p <> q) by (intros ->; by apply Hpo).
      pose proof (Hap p q ltac:(set_solver) ltac:(set_solver) Hpq) as Hapq.
      destruct (Hobj q) as (_ & _ & b & H3 & [Hbr _]); [set_solver|]. unfold apart, area_start, area_end in *.
      rewrite Hfa, Hpa, E, H3. rewrite Ha, H3 in Hapq. cbn in *. lia. }
    assert (Hfp : apart A' f p) by (unfold apart, area_start, area_end; rewrite Hfa, Hpa; cbn; lia).
    assert (Hsym : forall x y, apart A' x y -> apart A' y x) by (unfold apart; intros x y [?|?]; [by right|by left]).
    intros x y Hx Hy Hxy. destruct (Hperm x Hx) as [->|[->|Hx']], (Hperm y Hy) as [->|[->|Hy']]; try done; try (by apply Hs'); try (by apply Hsym, Hs'); try (by apply Hsym).
    destruct (Hold x Hx') as [Ex _], (Hold y Hy') as [Ey _]. pose proof (Hap x y ltac:(set_solver) ltac:(set_solver) Hxy) as H.
    unfold apart, area_start, area_end in *. by rewrite Ex, Ey.
Qed.
