(* ===== verification/VmapInit.v ===== *)
(** [va_manager_init] ([kernel/vmap.c]), and the allocator at concrete states. *)
From stdpp Require Import sorting.
From S2P Require Import Prelude ListHead Pmm PmmTheory Sync Machine Slab SlabTheory SlabOps SlabFree SlabProps SlabSample Rbtree RbTheory RbProps Vmap VmapTheory VmapProps.
Open Scope Z_scope.
Implicit Types (s : vmap) (A : gmap Z vmap_area) (fs bs : list Z).

(** Empty lists, a tree that is only its sentinel. *)
Record fresh nil s : Prop := {
  fr_free : dll (vm_links s) FreeListHead [];
  fr_busy : dll (vm_links s) BusyListHead [];
  fr_tree : free_tree s = RbTree nil nil;
  fr_nil : vm_nodes s !! nil = Some (RbNode nil nil nil RB_BLACK);
}.

(** Areas that are in no list yet. *)
Lemma areas_loose L nil ws s : fresh nil s -> is_Some (L !! nil) -> nil ∉ ws -> NoDup ws ->
  (forall p, p ∈ ws -> is_Some (L !! p) /\ is_Some (vm_nodes s !! p) /\ exists a, vm_areas s !! p = Some a /\ area_ok a) ->
  (forall p q, p ∈ ws -> q ∈ ws -> p <> q -> apart (vm_areas s) p q) -> areas_ok L [] [] ws s.
Proof.
  intros [Hf Hb Ht Hn] HL Hnil Hnd Hobj Hap. split; [|exact Hb|exact Hobj|exact Hnd|constructor|exact Hap].
  exists nil, (vm_nodes s), Leaf. split; [|by split]. split; [exact Hf| |by split; [exists 0%nat; constructor|]|constructor|done].
  split; [exact Ht|]. exists nil. split; [done|done|constructor|exact Hn|done].
Qed.

Definition whole : vmap_area := VmapArea VMALLOC_START VMALLOC_END 0.
Lemma whole_ok : area_ok whole.
Proof. by vm_compute. Qed.

(** What initialisation leaves: everything is one free area, or, when the heap has no room for the object
    that describes it after it gave one for the sentinel of the tree, no area at all. *)
Definition initial (L : gmap Z Z) s s' : Prop :=
  mgr_start s' = VMALLOC_START /\ mgr_end s' = VMALLOC_END /\ total_free s' = VMALLOC_SIZE /\
  daif (mach (vm_slab s')) = daif (mach (vm_slab s)) /\
  exists nil z, L !! nil = None /\
    ((exists p y, vmap_ok (<[p := y]> (<[nil := z]> L)) [p] [] s' /\ vm_areas s' = <[p := whole]> (vm_areas s) /\
        heap_run L (vm_slab s) (<[p := y]> (<[nil := z]> L)) (vm_slab s')) \/
     (heap_ok (<[nil := z]> L) (vm_slab s') /\ areas_ok (<[nil := z]> L) [] [] [] s' /\ vm_areas s' = vm_areas s /\
        heap_run L (vm_slab s) (<[nil := z]> L) (vm_slab s') /\ exhausted (vm_slab s') GFP_KERNEL 104 /\
        free_pages (heap_pmm (vm_slab s)) - 1 <= free_pages (heap_pmm (vm_slab s')))).

Lemma wp_va_manager_init L s : heap_ok L (vm_slab s) -> room (vm_slab s) -> vm_areas s !! STACK_TARGET = None ->
  wp va_manager_init (fun _ s' => initial L s s') s.
Proof.
  intros Hh Hroom Hst. unfold va_manager_init. do 2 wp_step. wp_step. unfold tree_init, rb_tree_init, on_slab. do 2 wp_step.
  eapply wp_mono; [apply (wp_kmalloc_room L 32 _ Hh Hroom); lia|]. intros nil h (Hnil & Hd & Hgrew & z & _ & HLn & Hh').
  assert (Hrun : heap_run L (vm_slab s) (<[nil := z]> L) h) by (eapply RunGot; [constructor|exact Hgrew|lia|exact HLn|exact Hh']).
  wp_step. wp_step; [apply negb_true_iff, Z.eqb_neq; lia|]. do 3 wp_step. cbv beta.
  wp_step. unfold on_vlinks at 1. wp_step. apply wp_INIT_LIST_HEAD. intros lk1 Hf1 _.
  wp_step. unfold on_vlinks at 1. wp_step. apply wp_INIT_LIST_HEAD. intros lk2 Hb2 Hframe. do 2 wp_step. cbv beta. do 2 wp_step. cbv beta.
  match goal with |- wp _ _ ?x => set (s1 := x) end.
  assert (Hf2 : dll (vm_links s1) FreeListHead []).
  { eapply dll_frame; [|exact Hf1]. intros n ->%list_elem_of_singleton. by apply Hframe. }
  assert (Hfr : forall p, p <> nil -> fresh nil (set_vnodes (<[p := RbNode 0 0 0 RB_RED]> (vm_nodes s1)) s1)).
  { intros p Hp. split; [exact Hf2|exact Hb2|reflexivity|]. cbn. rewrite lookup_insert_ne by done. apply lookup_insert_eq. }
  wp_step. eapply (wp_kmalloc_area (<[nil := z]> L)); [exact Hh'| |].
  { intros h2 Hh2 Hd2 _ Hgrew2. rewrite Z.eqb_refl. wp_step. split; [done|]. split; [done|]. split; [done|]. split; [cbn; rewrite Hd2; exact Hd|].
    exists nil, z. split; [exact HLn|]. right. split; [exact Hh2|].
    split; [|split_and!; [done|by eapply RunNull|by apply (kg_still _ _ _ _ _ _ Hgrew2)|]]; cycle 1.
    { pose proof (kg_cost _ _ _ _ _ _ Hgrew 0 ltac:(unfold fit_order; rewrite PAGE_SIZE_eq; lia)) as Hc1.
      pose proof (kg_cost _ _ _ _ _ _ Hgrew2 0 ltac:(unfold fit_order; rewrite PAGE_SIZE_eq; lia)) as Hc2.
      rewrite (proj2 (Z.eqb_neq nil 0)) in Hc1 by lia. cbn -[free_pages] in Hc1, Hc2 |- *. lia. }
    apply (areas_loose _ nil); [|rewrite lookup_insert_eq; by eexists|by apply not_elem_of_nil|constructor|by intros ? ?%not_elem_of_nil|by intros ? ? ?%not_elem_of_nil].
    split; [exact Hf2|exact Hb2|reflexivity|apply lookup_insert_eq]. }
  intros p y h2 Hp HLp Hh2 Hd2 Hgrew2. rewrite (proj2 (Z.eqb_neq p 0)) by lia.
  assert (Hpn : p <> nil) by (intros ->; by rewrite lookup_insert_eq in HLp).
  wp_step. eapply wp_put_area; [apply lookup_insert_eq|]. cbn -[wp].
  wp_step. eapply wp_put_area; [apply lookup_insert_eq|]. cbn -[wp].
  wp_step. eapply wp_put_area; [apply lookup_insert_eq|]. cbn -[wp]. rewrite !insert_insert_eq. fold whole.
  match goal with |- wp _ _ ?x => set (s2 := x) end.
  assert (Ha2 : areas_ok (<[p := y]> (<[nil := z]> L)) [] [] [p] s2).
  { eapply (areas_loose _ nil); [|rewrite lookup_insert_ne by done; rewrite lookup_insert_eq; by eexists|by rewrite list_elem_of_singleton|apply NoDup_singleton| |].
    - destruct (Hfr p Hpn) as [H1 H2 H3 H4]. by split.
    - intros x ->%list_elem_of_singleton. split; [rewrite lookup_insert_eq; by eexists|]. split; [eexists; apply lookup_insert_eq|].
      exists whole. split; [apply lookup_insert_eq|exact whole_ok].
    - intros x x' ->%list_elem_of_singleton ->%list_elem_of_singleton. done. }
  eapply wp_va_insert_free; [exact Ha2|]. intros l r s' Hlr Ha' EA Erest. symmetry in Hlr. apply app_nil in Hlr as [-> ->].
  injection Erest as E1 E2 E3 E4 E5 E6.
  split; [exact E1|]. split; [exact E2|]. split; [exact E3|]. split; [rewrite E6; cbn; rewrite Hd2; exact Hd|].
  exists nil, z. split; [exact HLn|]. left. exists p, y.
  split; [|split; [exact EA|rewrite E6; eapply RunGot; [exact Hrun|exact Hgrew2|lia|exact HLp|exact Hh2]]]. split.
  - rewrite E6. exact Hh2.
  - rewrite E5. reflexivity.
  - exact Ha'.
  - rewrite EA. cbn. rewrite lookup_insert_ne by (intros ->; done). exact Hst.
  - rewrite E3, EA. change (vm_areas s2) with (<[p := whole]> (vm_areas s)). cbn [map foldr]. unfold area_size. rewrite lookup_insert_eq. reflexivity.
  - rewrite E4. reflexivity.
Qed.

(** On a heap with room, va_manager_init returns with the whole range described as one free area and nothing busy, in the state
    the other operations need, or with no area at all: then the heap, which gave an object for the sentinel of the tree and
    took at most one page for it, refuses the object for the area. *)
Theorem va_manager_init_correct L s : heap_ok L (vm_slab s) -> room (vm_slab s) -> vm_areas s !! STACK_TARGET = None ->
  exists s', va_manager_init s = Done (tt, s') /\ initial L s s'.
Proof.
  intros Hh Hr Hst. destruct (wp_done _ _ _ (wp_va_manager_init L s Hh Hr Hst)) as ([] & s' & Hrun & Hs'). by exists s'.
Qed.

(** ** Concrete states *)

Definition sample_links : links vnode :=
  Links {[FreeListHead := FreeListHead; BusyListHead := BusyListHead]} {[FreeListHead := FreeListHead; BusyListHead := BusyListHead]}.
Definition sample_vmap (h : slab) (nil total : Z) (n : Z) (A : gmap Z vmap_area) : vmap :=
  Vmap A sample_links (<[nil := RbNode nil nil nil RB_BLACK]> ((fun _ => RbNode 0 0 0 RB_RED) <$> A)) (RbTree nil nil)
    VMALLOC_START VMALLOC_END total n SPIN_LOCK_UNLOCKED h.

Lemma sample_fresh h nil total n A : fresh nil (sample_vmap h nil total n A).
Proof.
  split; [| |reflexivity|apply lookup_insert_eq]; (split; [split; reflexivity|apply NoDup_singleton]).
Qed.

Lemma sample_loose L h nil total n A ws : is_Some (L !! nil) -> nil ∉ ws -> NoDup ws ->
  (forall p, p ∈ ws -> is_Some (L !! p) /\ exists a, A !! p = Some a /\ area_ok a) ->
  (forall p q, p ∈ ws -> q ∈ ws -> p <> q -> apart A p q) -> areas_ok L [] [] ws (sample_vmap h nil total n A).
Proof.
  intros HL Hnil Hnd Hobj Hap. apply (areas_loose _ nil); [apply sample_fresh|exact HL|exact Hnil|exact Hnd| |exact Hap].
  intros p Hp. destruct (Hobj p Hp) as (H1 & a & Ha & Hok). split; [exact H1|]. split; [|by exists a].
  exists (RbNode 0 0 0 RB_RED). cbn. rewrite lookup_insert_ne by (intros ->; done). by rewrite lookup_fmap, Ha.
Qed.

(** One free area with everything. *)
Lemma whole_over L h o p : heap_ok L h -> p <> o -> 0 < p -> is_Some (L !! o) -> is_Some (L !! p) ->
  exists s, vmap_ok L [p] [] s /\ vm_areas s = {[p := whole]} /\ vm_slab s = h.
Proof.
  intros Hok Hop Hpos Ho Hp.
  assert (Ha : areas_ok L [] [] [p] (sample_vmap h o VMALLOC_SIZE 0 {[p := whole]})).
  { apply sample_loose; [exact Ho|by rewrite list_elem_of_singleton|apply NoDup_singleton| |].
    - intros x ->%list_elem_of_singleton. split; [exact Hp|]. exists whole. split; [apply lookup_singleton_eq|exact whole_ok].
    - intros x y ->%list_elem_of_singleton ->%list_elem_of_singleton. done. }
  assert (Hwp : wp (va_insert_free p) (fun _ s' => vmap_ok L [p] [] s' /\ vm_areas s' = {[p := whole]} /\ vm_slab s' = h) (sample_vmap h o VMALLOC_SIZE 0 {[p := whole]})).
  { eapply wp_va_insert_free; [exact Ha|]. intros l r s' Hlr Ha' EA Erest. symmetry in Hlr. apply app_nil in Hlr as [-> ->].
    injection Erest as E1 E2 E3 E4 E5 E6. split; [|by split]. split; [rewrite E6; exact Hok|by rewrite E5|exact Ha'| | |by rewrite E4].
    - rewrite EA. cbn. rewrite lookup_singleton_ne; [done|]. unfold STACK_TARGET. lia.
    - rewrite E3, EA. cbn [map foldr]. unfold area_size. cbn [vm_areas sample_vmap]. by rewrite lookup_singleton_eq. }
  destruct (wp_done _ _ _ Hwp) as ([] & s' & _ & H). by exists s'.
Qed.
Lemma sample_whole : exists L s p, vmap_ok L [p] [] s /\ vm_areas s = {[p := whole]}.
Proof.
  destruct sample_objects as (L & h & o & p & q & Hok & Hnd & Hobj).
  assert (Hop : p <> o) by (intros ->; apply NoDup_cons in Hnd as [Hnd _]; set_solver).
  destruct (whole_over L h o p Hok Hop) as (s & Hv & HA & _); [apply Hobj; set_solver..|]. by exists L, s, p.
Qed.

Lemma va_manager_init_correct_witness : exists s : vmap, heap_ok ∅ (vm_slab s) /\ exists s', va_manager_init s = Done (tt, s') /\ mgr_end s' = VMALLOC_END.
Proof.
  destruct roomy_start as (h & Hr). set (s := sample_vmap h 0 0 0 ∅). exists s. split; [exact (ry_ok _ _ _ Hr)|].
  destruct (va_manager_init_correct ∅ s (ry_ok _ _ _ Hr) (roomy_room _ _ _ Hr ltac:(lia)) ltac:(reflexivity)) as (s' & Hrun & _ & Hend & _).
  by exists s'.
Defined.
