(* ===== verification/VmapAlloc.v ===== *)
(** [va_alloc] ([kernel/vmap.c]): what it hands out and what it leaves. *)
From stdpp Require Import sorting.
From S2P Require Import Prelude ListHead Pmm Sync Machine Slab SlabTheory SlabOps SlabFree SlabProps Rbtree RbTheory RbDelete RbProps Vmap VmapTheory VmapProps VmapInit.
Open Scope Z_scope.
Implicit Types (s : vmap) (A : gmap Z vmap_area) (fs bs : list Z).

(** The areas do not depend on the heap and the counters. *)
Lemma areas_ext L fs bs ws s s' : vm_areas s' = vm_areas s -> vm_links s' = vm_links s -> vm_nodes s' = vm_nodes s -> free_tree s' = free_tree s ->
  areas_ok L fs bs ws s -> areas_ok L fs bs ws s'.
Proof.
  destruct s, s'. cbn. intros -> -> -> -> [(nil & oth & T & [Hl [Ht [np Hz]] Hrb Hs Hsame] & HLn) Hb Hobj Hnd Ho Hap]. split; try assumption.
  exists nil, oth, T. split; [|exact HLn]. split; try assumption. split; [exact Ht|]. exists np. exact Hz.
Qed.

(** ** Sizes *)

Lemma area_ok_size A p a : A !! p = Some a -> area_ok a -> area_size A p = va_end a - va_start a.
Proof.
  intros Ha [Hr _]. unfold area_size. rewrite Ha. apply sub64_small. unfold VMALLOC_END, VMALLOC_SIZE, VMALLOC_START in *. lia.
Qed.

Definition free_total A fs : Z := foldr Z.add 0 (map (area_size A) fs).
Lemma free_total_perm A fs fs' : fs ≡ₚ fs' -> free_total A fs = free_total A fs'.
Proof. unfold free_total. induction 1; cbn in *; lia. Qed.
Lemma free_total_ext A A' fs : (forall p, p ∈ fs -> A' !! p = A !! p) -> free_total A' fs = free_total A fs.
Proof.
  unfold free_total. induction fs as [|p fs IH]; intros H; [done|]. cbn. unfold area_size at 1. rewrite (H p) by left.
  rewrite IH; [done|]. intros q Hq. apply H. by right.
Qed.

(** What stays outside the areas, the heap apart. *)
Definition book_of s := (mgr_start s, mgr_end s, total_free s, nr_busy s, va_lock s, daif (mach (vm_slab s))).

(** ** The rest of an area *)

Lemma wp_insert_fragment L fs bs p a mid (Q : unit -> vmap -> Prop) s :
  areas_ok L fs bs [p] s -> heap_ok L (vm_slab s) -> vm_areas s !! p = Some a -> va_start a < mid < va_end a -> mid mod 4096 = 0 ->
  (forall h, heap_ok L h -> daif (mach h) = daif (mach (vm_slab s)) -> exhausted (vm_slab s) GFP_KERNEL 104 ->
     heap_run L (vm_slab s) L h -> Q tt (set_vm_slab h s)) ->
  (forall f z l r s', fs = l ++ r -> L !! f = None -> areas_ok (<[f := z]> L) (l ++ f :: r) bs [p] s' -> heap_ok (<[f := z]> L) (vm_slab s') ->
     vm_areas s' = <[p := VmapArea (va_start a) mid (va_flags a)]> (<[f := VmapArea mid (va_end a) 0]> (vm_areas s)) ->
     book_of s' = book_of s -> heap_run L (vm_slab s) (<[f := z]> L) (vm_slab s') -> Q tt s') ->
  wp (insert_fragment mid (va_end a) (set_end p mid)) Q s.
Proof.
  intros Ha Hh Hpa Hmid Hal HQ0 HQ. unfold insert_fragment. wp_step. eapply wp_kmalloc_area; [exact Hh| |].
  { intros h Hh' Hd Hex Hg. rewrite Z.eqb_refl. wp_step. apply HQ0; [done..|]. eapply RunNull; [constructor|exact Hg|exact Hh']. }
  intros f z h Hf HLf Hh' Hd Hg. rewrite (proj2 (Z.eqb_neq f 0)) by lia.
  assert (Hfp : f <> p) by (intros ->; destruct (ao_objs _ _ _ _ _ Ha p) as ([? ?] & _); [set_solver|congruence]).
  wp_step. eapply wp_put_area; [apply lookup_insert_eq|]. cbn -[wp].
  wp_step. eapply wp_put_area; [apply lookup_insert_eq|]. cbn -[wp].
  wp_step. eapply wp_put_area; [apply lookup_insert_eq|]. cbn -[wp].
  wp_step. eapply wp_put_area; [cbn; rewrite !lookup_insert_ne by done; exact Hpa|]. cbn -[wp].
  pose proof (areas_cut L fs bs p a f z (RbNode 0 0 0 RB_RED) mid 0 s Ha Hpa HLf Hmid Hal) as Hcut.
  assert (HA : forall x y w : vmap_area, <[f := w]> (<[f := y]> (<[f := x]> (<[f := VmapArea 0 0 0]> (vm_areas s)))) = <[f := w]> (vm_areas s))
    by (intros; by rewrite !insert_insert_eq).
  eapply wp_va_insert_free.
  - eapply areas_ext; [..|exact Hcut]; [|reflexivity..]. cbn. by rewrite HA.
  - intros l r s' -> Hs' HA' Hrest. injection Hrest as E1 E2 E3 E4 E5 E6. cbn in *.
    eapply (HQ f z l r); [reflexivity|exact HLf|exact Hs'|by rewrite E6|by rewrite HA', HA| |rewrite E6; eapply RunGot; [constructor|exact Hg|lia|exact HLf|exact Hh']]. unfold book_of. rewrite E1, E2, E3, E4, E5, E6. by rewrite <- Hd.
Qed.

(** ** What an allocation takes *)

(** [p] leaves the free areas, all of it or its first [n] bytes; the rest becomes the free area [f].  All of it goes
    when the rest would be at most one page or there is no memory for [f]. *)
Inductive taken (L : gmap Z Z) fs s (p n flags : Z) : gmap Z Z -> list Z -> vmap -> Prop :=
| TakeAll l r s' : fs = l ++ p :: r ->
    area_size (vm_areas s) p <= n + 4096 \/ exhausted (vm_slab s) GFP_KERNEL 104 ->
    vm_areas s' = <[p := VmapArea (area_start (vm_areas s) p) (area_end (vm_areas s) p) flags]> (vm_areas s) ->
    taken L fs s p n flags L (l ++ r) s'
| TakeFront l r l' r' f z s' : fs = l ++ p :: r -> l' ++ r' = l ++ r -> L !! f = None ->
    n + 4096 < area_size (vm_areas s) p ->
    vm_areas s' = <[p := VmapArea (area_start (vm_areas s) p) (area_start (vm_areas s) p + n) flags]>
      (<[f := VmapArea (area_start (vm_areas s) p + n) (area_end (vm_areas s) p) 0]> (vm_areas s)) ->
    taken L fs s p n flags (<[f := z]> L) (l' ++ f :: r') s'.

(** Rounding up to pages. *)
Definition pages_up (size : Z) : Z := (size + 4095) / 4096 * 4096.
Lemma round_size size : 0 < size <= 2 ^ 64 - 4096 ->
  Z.land (sub64 (add64 size VA_ALIGN_DEFAULT) 1) (not64 (VA_ALIGN_DEFAULT - 1)) = pages_up size.
Proof.
  intros Hs. unfold VA_ALIGN_DEFAULT, pages_up. change (0x1000 - 1) with (2 ^ 12 - 1).
  assert (E : sub64 (add64 size 0x1000) 1 = size + 4095) by (unfold sub64, add64, u64; lia).
  rewrite E, land_not_mask by (unfold is_u64; lia). change (2 ^ 12) with 4096. lia.
Qed.
Lemma aligned_start a : area_ok a -> Z.land (sub64 (add64 (va_start a) 4096) 1) (not64 (sub64 4096 1)) = va_start a.
Proof.
  intros [Hr [Hal _]]. change (sub64 4096 1) with (2 ^ 12 - 1). unfold VMALLOC_START, VMALLOC_END, VMALLOC_SIZE, VMALLOC_START in Hr.
  assert (E : sub64 (add64 (va_start a) 4096) 1 = va_start a + 4095) by (unfold sub64, add64, u64; lia).
  rewrite E, land_not_mask by (unfold is_u64; lia). change (2 ^ 12) with 4096. lia.
Qed.

(** ** A loose area becomes busy *)

Lemma areas_flags L fs bs p a s : areas_ok L fs bs [p] s -> vm_areas s !! p = Some a -> forall flags,
  areas_ok L fs bs [p] (set_areas (<[p := VmapArea (va_start a) (va_end a) flags]> (vm_areas s)) s).
Proof.
  intros [(nil & oth & T & [Hl [Ht [np Hz]] Hrb Hs Hsame] & HLn & Hnil) Hb Hobj Hnd Ho Hap] Ha flags. set (A' := <[p := _]> (vm_areas s)).
  assert (Hpf : p ∉ fs) by (apply NoDup_app in Hnd as (_ & Hnd & _); intros Hin; apply (Hnd p Hin); set_solver).
  assert (Hfs : forall q, q ∈ fs -> A' !! q = vm_areas s !! q) by (intros q Hq; unfold A'; rewrite lookup_insert_ne; [done|]; intros ->; done).
  assert (Hse : forall q, area_start A' q = area_start (vm_areas s) q /\ area_end A' q = area_end (vm_areas s) q).
  { intros q. unfold area_start, area_end, A'. destruct (decide (q = p)) as [->|]; [by rewrite lookup_insert_eq, Ha|by rewrite lookup_insert_ne]. }
  split; [|exact Hb| |exact Hnd| |].
  - exists nil, oth, T. split; [|by split]. split; [exact Hl|split; [exact Ht|by exists np]|exact Hrb| |exact Hsame].
    eapply rb_sorted_ext; [|exact Hs]. intros q Hq. apply Hfs. by rewrite <- Hsame.
  - intros q Hq. destruct (Hobj q Hq) as (H1 & H2 & b & H3 & H4). split; [exact H1|]. split; [exact H2|]. cbn. fold A'. unfold A'.
    destruct (decide (q = p)) as [->|]; [|rewrite lookup_insert_ne by done; by exists b]. rewrite lookup_insert_eq. eexists. split; [done|].
    rewrite Ha in H3. injection H3 as <-. destruct H4 as [H4 H5]. by split.
  - by eapply order_ext.
  - intros x y Hx Hy Hxy. specialize (Hap x y Hx Hy Hxy). unfold apart in *. cbn. fold A'.
    destruct (Hse x) as [-> ->], (Hse y) as [-> ->]. exact Hap.
Qed.

Lemma wp_make_busy L fs bs p (Q : unit -> vmap -> Prop) s : areas_ok L fs bs [p] s ->
  (forall lk, areas_ok L fs (p :: bs) [] (set_vlinks lk s) -> Q tt (set_vlinks lk s)) ->
  wp (on_vlinks (list_add (BusyNode p) BusyListHead)) Q s.
Proof.
  intros [(nil & oth & T & [Hl [Ht [np Hz]] Hrb Hs Hsame] & HLn & Hnil) Hb Hobj Hnd Ho Hap] HQ. unfold on_vlinks. wp_step.
  assert (Hperm : fs ++ bs ++ [p] ≡ₚ fs ++ (p :: bs) ++ []) by (by rewrite app_nil_r, <- Permutation_cons_append).
  assert (Hin : forall q, q ∈ fs ++ (p :: bs) ++ [] -> q ∈ fs ++ bs ++ [p]) by (intros q; by rewrite Hperm).
  eapply wp_list_add; [exact Hb| |].
  { assert (Hpb : p ∉ bs) by (apply NoDup_app in Hnd as (_ & _ & Hnd); apply NoDup_app in Hnd as (_ & Hnd & _); intros Hq; apply (Hnd p Hq); set_solver).
    intros [|Hq]%elem_of_cons; [done|]. apply list_elem_of_fmap in Hq as (q & [= ->] & Hq). done. }
  intros lk Hb' Hframe. apply HQ. split.
  - exists nil, oth, T. split; [|split; [exact HLn|by rewrite <- Hperm]]. split; [|split; [exact Ht|by exists np]|exact Hrb|exact Hs|exact Hsame].
    eapply dll_frame; [|exact Hl]. intros q Hq. apply Hframe. intros Hin'.
    apply elem_of_cons in Hq as [->|(x & -> & _)%list_elem_of_fmap]; repeat (apply elem_of_cons in Hin' as [?|Hin']; [done|]);
      by apply list_elem_of_fmap in Hin' as (? & ? & _).
  - exact Hb'.
  - intros q Hq. by apply Hobj, Hin.
  - by rewrite <- Hperm.
  - exact Ho.
  - intros x y Hx Hy. apply Hap; by apply Hin.
Qed.

Lemma taken_flags L fs s p n fl L' fs' s1 flags s2 : taken L fs s p n fl L' fs' s1 ->
  (forall a, vm_areas s1 !! p = Some a -> vm_areas s2 = <[p := VmapArea (va_start a) (va_end a) flags]> (vm_areas s1)) ->
  taken L fs s p n flags L' fs' s2.
Proof.
  intros [l r s' -> Hwhy HA|l r l' r' f z s' -> Hlr HLf Hn HA] H.
  - eapply (TakeAll _ _ _ _ _ _ l r); [done|exact Hwhy|]. rewrite (H _ ltac:(rewrite HA; apply lookup_insert_eq)), HA. by rewrite insert_insert_eq.
  - eapply (TakeFront _ _ _ _ _ _ l r); [done|exact Hlr|exact HLf|exact Hn|]. rewrite (H _ ltac:(rewrite HA; apply lookup_insert_eq)), HA. by rewrite insert_insert_eq.
Qed.
Lemma taken_from L fs s p n fl L' fs' s1 s0 : vm_areas s = vm_areas s0 ->
  (forall o, exhausted (vm_slab s) GFP_KERNEL o -> exhausted (vm_slab s0) GFP_KERNEL o) -> taken L fs s p n fl L' fs' s1 -> taken L fs s0 p n fl L' fs' s1.
Proof.
  intros EA Eh [l r s' -> Hwhy HA|l r l' r' f z s' -> Hlr HLf Hn HA]; rewrite EA in *.
  - eapply TakeAll; [done| |exact HA]. destruct Hwhy as [|Hex]; [by left|right]. by apply Eh.
  - eapply TakeFront; eauto.
Qed.

(** The area keeps its first [n] bytes when the rest is worth a new free area. *)
Lemma wp_carve {X} L l r bs p a n (K : M vmap X) (Q : X -> vmap -> Prop) s : areas_ok L (l ++ r) bs [p] s -> heap_ok L (vm_slab s) -> vm_areas s !! p = Some a ->
  n mod 4096 = 0 -> 0 < n <= va_end a - va_start a ->
  (forall L' fs' s', areas_ok L' fs' bs [p] s' -> heap_ok L' (vm_slab s') -> book_of s' = book_of s ->
     taken L (l ++ p :: r) s p n (va_flags a) L' fs' s' -> heap_run L (vm_slab s) L' (vm_slab s') -> wp K Q s') ->
  wp (va_sz ← va_size p;
      _ ← (if va_sz >? add64 n VA_ALIGN_DEFAULT then
        a ← area p; insert_fragment (add64 (va_start a) n) (va_end a) (set_end p (add64 (va_start a) n))
      else mret tt); K) Q s.
Proof.
  intros Ha Hh Hpa Hal Hn HQ. destruct (areas_at _ _ _ _ _ p Ha) as (b & Hb & Hbok); [set_solver|]. rewrite Hpa in Hb. injection Hb as <-.
  pose proof (area_ok_size _ _ _ Hpa Hbok) as Hsize. destruct Hbok as [Hr [Hsal _]]. unfold VMALLOC_START, VMALLOC_END, VMALLOC_SIZE, VMALLOC_START in Hr.
  assert (Hst : area_start (vm_areas s) p = va_start a /\ area_end (vm_areas s) p = va_end a) by (unfold area_start, area_end; by rewrite Hpa).
  destruct Hst as [Hst Hen].
  wp_step. eapply wp_va_size; [exact Hpa|]. rewrite Hsize, add64_small by (unfold VA_ALIGN_DEFAULT; lia). wp_step.
  assert (Hsame : vm_areas s = <[p := VmapArea (va_start a) (va_end a) (va_flags a)]> (vm_areas s)) by (rewrite insert_id; [done|]; by destruct a).
  destruct (Z.gtb_spec (va_end a - va_start a) (n + VA_ALIGN_DEFAULT)) as [Hbig|Hsmall]; unfold VA_ALIGN_DEFAULT in *.
  - wp_step. eapply wp_area; [exact Hpa|]. rewrite !add64_small by lia.
    eapply wp_insert_fragment; [exact Ha|exact Hh|exact Hpa|lia|lia| |].
    + intros h Hh' Hd Hex Hrun. eapply HQ; [|exact Hh'| | |exact Hrun].
      * eapply areas_ext; [..|exact Ha]; reflexivity.
      * unfold book_of. cbn. by rewrite Hd.
      * eapply TakeAll; [done|by right|by rewrite Hst, Hen].
    + intros f z l' r' s' Hlr HLf Ha' Hh' HA Hbook Hrun. eapply HQ; [exact Ha'|exact Hh'|exact Hbook| |exact Hrun].
      eapply TakeFront; [done|by symmetry|exact HLf|rewrite Hsize; lia|by rewrite Hst, Hen].
  - wp_step. eapply HQ; [exact Ha|exact Hh|done| |constructor]. eapply TakeAll; [done|left; rewrite Hsize; lia|by rewrite Hst, Hen].
Qed.

(** The taken area and the free areas that stay, in what the allocator knows of them. *)
Lemma taken_kept L fs bs s p n fl L' fs' bs' s' : areas_ok L fs bs [] s -> areas_ok L' fs' bs' [] s' -> p ∈ fs -> taken L fs s p n fl L' fs' s' ->
  0 < n <= area_size (vm_areas s) p ->
  exists e, vm_areas s' !! p = Some (VmapArea (area_start (vm_areas s) p) e fl) /\ area_start (vm_areas s) p + n <= e /\
    free_total (vm_areas s) fs = free_total (vm_areas s') fs' + area_size (vm_areas s') p.
Proof.
  intros Ha Ha' Hp Ht Hn. destruct (areas_at _ _ _ _ _ p Ha) as (a & Hpa & Hok); [set_solver|]. pose proof (area_ok_size _ _ _ Hpa Hok) as Hsize.
  destruct Hok as [Hr _]. unfold VMALLOC_START, VMALLOC_END, VMALLOC_SIZE, VMALLOC_START in Hr.
  assert (Hse : area_start (vm_areas s) p = va_start a /\ area_end (vm_areas s) p = va_end a) by (unfold area_start, area_end; by rewrite Hpa).
  pose proof (ao_nodup _ _ _ _ _ Ha) as Hnd. apply NoDup_app in Hnd as (Hnd & _ & _).
  pose proof (ao_nodup _ _ _ _ _ Ha') as Hnd'. apply NoDup_app in Hnd' as (Hnd' & _ & _).
  destruct Hse as [Hs He], Ht as [l r s' -> Hwhy HA|l r l' r' f z s' -> Hlr HLf Hbig HA]; rewrite Hs, ?He in *.
  all: assert (Hplr : p ∉ l ++ r) by (rewrite <- Permutation_middle in Hnd; by apply NoDup_cons in Hnd as [? _]).
  all: rewrite (free_total_perm _ (l ++ p :: r) (p :: l ++ r)) by (by rewrite Permutation_middle).
  - assert (Hp' : vm_areas s' !! p = Some (VmapArea (va_start a) (va_end a) fl)) by (rewrite HA; apply lookup_insert_eq).
    exists (va_end a). split; [exact Hp'|]. split; [lia|]. rewrite (free_total_ext (vm_areas s) (vm_areas s') (l ++ r)).
    + unfold free_total at 1. cbn [map foldr]. fold (free_total (vm_areas s) (l ++ r)).
      replace (area_size (vm_areas s') p) with (area_size (vm_areas s) p); [lia|]. unfold area_size. by rewrite Hpa, Hp'.
    + intros q Hq. rewrite HA, lookup_insert_ne; [done|]. by intros ->.
  - assert (Hfp : p <> f) by (intros ->; destruct (ao_objs _ _ _ _ _ Ha f) as ([? ?] & _); [set_solver|congruence]).
    assert (Hflr : f ∉ l ++ r) by (rewrite <- Permutation_middle, Hlr in Hnd'; by apply NoDup_cons in Hnd' as [? _]).
    assert (Hp' : vm_areas s' !! p = Some (VmapArea (va_start a) (va_start a + n) fl)) by (rewrite HA; apply lookup_insert_eq).
    assert (Hf' : vm_areas s' !! f = Some (VmapArea (va_start a + n) (va_end a) 0)) by (rewrite HA, lookup_insert_ne by done; apply lookup_insert_eq).
    exists (va_start a + n). split; [exact Hp'|]. split; [lia|].
    rewrite (free_total_perm _ (l' ++ f :: r') (f :: l' ++ r')), Hlr by (by rewrite Permutation_middle).
    unfold free_total. cbn [map foldr]. fold (free_total (vm_areas s) (l ++ r)) (free_total (vm_areas s') (l ++ r)).
    rewrite (free_total_ext (vm_areas s) (vm_areas s') (l ++ r)).
    + rewrite Hsize. unfold area_size. rewrite Hp', Hf'. cbn. rewrite !sub64_small by lia. lia.
    + intros q Hq. rewrite HA, !lookup_insert_ne; [done|by intros ->|by intros ->].
Qed.

Lemma taken_stack L fs s p n fl L' fs' s' : taken L fs s p n fl L' fs' s' -> heap_ok L' (vm_slab s') -> is_Some (vm_areas s !! p) ->
  vm_areas s !! STACK_TARGET = None -> vm_areas s' !! STACK_TARGET = None.
Proof.
  intros Ht Hh [a Hp] Hst. assert (p <> STACK_TARGET) by congruence.
  destruct Ht as [l r s' -> _ ->|l r l' r' f z s' -> _ _ _ ->]; rewrite lookup_insert_ne by done; [done|].
  rewrite lookup_insert_ne; [done|]. intros ->. pose proof (heap_live_pos _ _ STACK_TARGET z Hh (lookup_insert_eq _ _ _)) as [_ Hneg]. done.
Qed.

(** ** Locking *)

Definition va_locked s : vmap :=
  set_va_lock (ArchSpinlock (u32 (lock_next (va_lock s) + 1)) (lock_owner (va_lock s)))
    (set_vm_slab (set_mach (set_daif (Z.lor (daif (mach (vm_slab s))) DAIF_I) (mach (vm_slab s))) (vm_slab s)) s).
Definition va_unlocked flags s : vmap :=
  set_va_lock (ArchSpinlock (lock_next (va_lock s)) (u32 (lock_owner (va_lock s) + 1)))
    (set_vm_slab (set_mach (set_daif flags (mach (vm_slab s))) (vm_slab s)) s).
Lemma wp_va_lock (Q : Z -> vmap -> Prop) s : lock_free (va_lock s) -> Q (daif (mach (vm_slab s))) (va_locked s) -> wp (on_va_lock spin_lock_irqsave) Q s.
Proof. intros Hf HQ. unfold on_va_lock. wp_step. by apply wp_spin_lock_irqsave. Qed.
Lemma wp_va_unlock flags (Q : unit -> vmap -> Prop) s : Q tt (va_unlocked flags s) -> wp (on_va_lock (spin_unlock_irqrestore flags)) Q s.
Proof. intros HQ. unfold on_va_lock. wp_step. by apply wp_spin_unlock_irqrestore. Qed.

(** ** The allocation *)

(** What the state looks like between the locks: the areas, and the counters of the state [s] before. *)
Lemma vmap_ok_unlocked L fs bs s0 s f : heap_ok L (vm_slab s) -> areas_ok L fs bs [] s -> vm_areas s !! STACK_TARGET = None ->
  lock_free (va_lock s0) -> va_lock s = va_lock (va_locked s0) -> total_free s = u64 (free_total (vm_areas s) fs) ->
  nr_busy s = u64 (Z.of_nat (length bs)) -> vmap_ok L fs bs (va_unlocked f s).
Proof.
  intros Hh Ha Hst Hlf Hl Ht Hn. split; [by apply heap_ok_daif| |eapply areas_ext; [..|exact Ha]; reflexivity|exact Hst|exact Ht|exact Hn].
  cbn. rewrite Hl. exact (spin_unlock_free _ Hlf).
Qed.

Lemma wp_va_commit {X} L fs bs p a flags (K : M vmap X) (Q : X -> vmap -> Prop) s : areas_ok L fs bs [p] s -> heap_ok L (vm_slab s) -> vm_areas s !! p = Some a ->
  (forall s', areas_ok L fs (p :: bs) [] s' -> vm_slab s' = vm_slab s -> va_lock s' = va_lock s -> mgr_start s' = mgr_start s -> mgr_end s' = mgr_end s ->
     vm_areas s' = <[p := VmapArea (va_start a) (va_end a) flags]> (vm_areas s) ->
     total_free s' = sub64 (total_free s) (area_size (vm_areas s') p) -> nr_busy s' = add64 (nr_busy s) 1 -> wp K Q s') ->
  wp (_ ← set_flags p flags;
      _ ← on_vlinks (list_add (BusyNode p) BusyListHead);
      sz ← va_size p;
      _ ← modify (fun s => set_counts (sub64 (total_free s) sz) (add64 (nr_busy s) 1) s); K) Q s.
Proof.
  intros Ha Hh Hpa HQ. wp_step. eapply wp_put_area; [exact Hpa|]. wp_step.
  eapply wp_make_busy; [exact (areas_flags _ _ _ _ _ _ Ha Hpa flags)|]. intros lk Ha'. wp_step.
  eapply wp_va_size; [apply lookup_insert_eq|]. do 2 wp_step. apply HQ; try reflexivity. eapply areas_ext; [..|exact Ha']; reflexivity.
Qed.

(** The outcomes of an allocation: nothing, or the start of a smallest free area that is large enough. *)
Inductive va_alloc_post (L : gmap Z Z) fs bs (size flags : Z) s : Z -> vmap -> Prop :=
| AllocNothing s' : size = 0 \/ (forall q, q ∈ fs -> area_size (vm_areas s) q < pages_up size) ->
    vm_areas s' = vm_areas s -> vmap_ok L fs bs s' -> heap_run L (vm_slab s) L (vm_slab s') -> va_alloc_post L fs bs size flags s 0 s'
| AllocArea p r e L' fs' s' : size <> 0 -> p ∈ fs -> r = area_start (vm_areas s) p -> r mod 4096 = 0 -> VMALLOC_START <= r ->
    (forall q, q ∈ fs -> pages_up size <= area_size (vm_areas s) q -> area_size (vm_areas s) p <= area_size (vm_areas s) q) ->
    taken L fs s p (pages_up size) flags L' fs' s' ->
    vm_areas s' !! p = Some (VmapArea r e flags) -> r + pages_up size <= e <= VMALLOC_END ->
    vmap_ok L' fs' (p :: bs) s' -> heap_run L (vm_slab s) L' (vm_slab s') -> va_alloc_post L fs bs size flags s r s'.

Lemma wp_va_alloc L fs bs size align flags s : vmap_ok L fs bs s -> 0 <= size <= 2 ^ 64 - 4096 -> align <= 4096 ->
  wp (va_alloc size align flags) (fun r s' => va_alloc_post L fs bs size flags s r s' /\
    (mgr_start s', mgr_end s', daif (mach (vm_slab s'))) = (mgr_start s, mgr_end s, daif (mach (vm_slab s)))) s.
Proof.
  intros Hv Hsize Halign. pose proof (vo_areas _ _ _ _ Hv) as Ha. pose proof (vo_lock _ _ _ _ Hv) as Hlf. unfold va_alloc.
  destruct (Z.eqb_spec size 0) as [->|Hs0]; [wp_step; split; [apply AllocNothing; [by left|done|exact Hv|constructor]|done]|].
  assert (Halign' : (if align <? VA_ALIGN_DEFAULT then VA_ALIGN_DEFAULT else align) = 4096)
    by (unfold VA_ALIGN_DEFAULT; destruct (Z.ltb_spec align 0x1000); lia).
  rewrite Halign', round_size by lia. cbv zeta. assert (Hn : 0 < pages_up size /\ pages_up size mod 4096 = 0) by (unfold pages_up; lia).
  set (n := pages_up size) in *. wp_step. apply wp_va_lock; [exact Hlf|]. wp_step.
  assert (Ha1 : areas_ok L fs bs [] (va_locked s)) by (eapply areas_ext; [..|exact Ha]; reflexivity).
  apply (wp_va_find_best_fit _ _ _ _ _ _ Ha1 (vo_stack _ _ _ _ Hv)). change (vm_areas (va_locked s)) with (vm_areas s).
  intros [p|] Hr Hbest.
  2:{ wp_step. apply wp_va_unlock. wp_step. split; [|done]. apply AllocNothing; [by right|done| |].
      2:{ exact (heap_run_trans _ _ _ _ _ _ (run_daif L (vm_slab s) _) (run_daif L _ _)). }
      apply (vmap_ok_unlocked L fs bs s); [exact (heap_ok_daif _ _ _ (vo_heap _ _ _ _ Hv))|exact Ha1|apply (vo_stack _ _ _ _ Hv)|exact Hlf|done|
        apply (vo_free _ _ _ _ Hv)|apply (vo_busy _ _ _ _ Hv)]. }
  destruct Hr as [Hp Hfit]. pose proof Hp as (l & r & Hlr)%list_elem_of_split.
  destruct (areas_at _ _ _ _ _ p Ha) as (a & Hpa & Hok); [set_solver|]. rewrite Hlr in Ha1.
  wp_step. eapply wp_va_remove_free; [exact Ha1|]. intros s2 Ha2 EA2 Erest2. injection Erest2 as E1 E2 E3 E4 E5 E6.
  wp_step. eapply wp_area; [rewrite EA2; exact Hpa|]. rewrite (aligned_start _ Hok). replace (sub64 (va_start a) (va_start a)) with 0 by (unfold sub64; by rewrite Z.sub_diag).
  change (0 >? 0) with false. do 2 wp_step. cbv iota.
  assert (Hh2 : heap_ok L (vm_slab s2)) by (rewrite E6; exact (heap_ok_daif _ _ _ (vo_heap _ _ _ _ Hv))).
  eapply wp_carve; [exact Ha2|exact Hh2|rewrite EA2; exact Hpa|apply Hn|rewrite <- (area_ok_size _ _ _ Hpa Hok); lia|].
  intros L' fs' s3 Ha3 Hh3 Hbook3 Ht3 Hrun3. injection Hbook3 as F1 F2 F3 F4 F5 F6.
  assert (Hpa3 : exists b, vm_areas s3 !! p = Some b) by (destruct (areas_at _ _ _ _ _ p Ha3) as (b & ? & _); [set_solver|by exists b]).
  destruct Hpa3 as [b Hpa3].
  eapply wp_va_commit; [exact Ha3|exact Hh3|exact Hpa3|]. intros s4 Ha4 G1 G2 G3 G4 GA G5 G6.
  wp_step. apply wp_va_unlock.
  rewrite <- Hlr in Ht3. assert (Ht4 : taken L fs s p n flags L' fs' s4).
  { eapply taken_from; [exact EA2| |eapply taken_flags; [exact Ht3|]].
    - intros o Ho. revert Ho. rewrite E6. intros [c X1 X2 X3 X4|x X1 X2 X3]; [by apply (NoSmall _ _ _ c)|by apply (NoLarge _ _ _ x)].
    - intros b' Hb'. rewrite Hpa3 in Hb'. injection Hb' as <-. exact GA. }
  destruct (taken_kept L fs bs s p n flags L' fs' (p :: bs) s4 Ha Ha4 Hp Ht4 ltac:(lia)) as (e & Hp4 & He & Htot).
  wp_step. eapply wp_area; [exact Hp4|]. wp_step. cbn [va_start].
  destruct (ao_objs _ _ _ _ _ Ha4 p) as (_ & _ & b4 & Hb4 & [Hr4 [Hal4 _]]); [set_solver|]. rewrite Hp4 in Hb4. injection Hb4 as <-. cbn [va_start va_end] in *.
  split; [|cbn; congruence]. eapply (AllocArea _ _ _ _ _ _ p _ e L' fs'); [exact Hs0|exact Hp|done|exact Hal4|apply Hr4|intros q Hq Hqn; by eapply Hbest| |exact Hp4|lia| |].
  { eapply taken_flags; [exact Ht4|]. intros b' Hb'. rewrite Hp4 in Hb'. injection Hb' as <-. symmetry. apply insert_id. exact Hp4. }
  { apply (vmap_ok_unlocked L' fs' (p :: bs) s); [by rewrite G1|exact Ha4| |exact Hlf|by rewrite G2, F5, E5| |].
  - eapply taken_stack; [exact Ht4|by rewrite G1|by exists a|apply (vo_stack _ _ _ _ Hv)].
  - rewrite G5, F3, E3. change (total_free (va_locked s)) with (total_free s). rewrite (vo_free _ _ _ _ Hv). fold (free_total (vm_areas s) fs).
    rewrite Htot. unfold sub64, u64. lia.
  - rewrite G6, F4, E4. change (nr_busy (va_locked s)) with (nr_busy s). rewrite (vo_busy _ _ _ _ Hv). cbn [length]. unfold add64, u64. lia. }
  rewrite E6 in Hrun3. unfold va_unlocked. cbn [vm_slab set_va_lock set_vm_slab]. rewrite G1.
  exact (heap_run_trans _ _ _ _ _ _ (run_daif L (vm_slab s) _) (heap_run_trans _ _ _ _ _ _ Hrun3 (run_daif L' _ _))).
Qed.

(** C16: For every size up to 2^64 - 4096 and every alignment up to a page, va_alloc returns.  The answer is 0 with no area
    changed exactly when the size is 0 or no free area holds the size rounded up to pages; otherwise it is the page-aligned start of a
    smallest free area that does, which becomes busy with at least that many bytes: all of it, or its front and the rest a
    new free area.  The free areas stay in both structures, all areas stay disjoint, the counters exact and the lock free. *)
Theorem va_alloc_correct L fs bs size align flags s : vmap_ok L fs bs s -> 0 <= size <= 2 ^ 64 - 4096 -> align <= 4096 ->
  exists r s', va_alloc size align flags s = Done (r, s') /\ va_alloc_post L fs bs size flags s r s' /\
    (mgr_start s', mgr_end s', daif (mach (vm_slab s'))) = (mgr_start s, mgr_end s, daif (mach (vm_slab s))).
Proof. intros Hv Hs Hal. by apply wp_done, wp_va_alloc. Qed.

Lemma va_alloc_correct_witness : exists L s p, vmap_ok L [p] [] s /\ 0 <= 5000 <= 2 ^ 64 - 4096 /\ 1 <= 4096 /\
  exists s', va_alloc 5000 1 VA_FLAG_VMALLOC s = Done (VMALLOC_START, s').
Proof.
  destruct sample_whole as (L & s & p & Hv & HA). exists L, s, p. split; [exact Hv|]. split; [lia|]. split; [lia|].
  destruct (va_alloc_correct L [p] [] 5000 1 VA_FLAG_VMALLOC s Hv ltac:(lia) ltac:(lia)) as (r & s' & Hrun & Hpost & _). exists s'. rewrite Hrun.
  destruct Hpost as [s' Hno|q r e L' fs' s' _ Hq -> _].
  - exfalso. destruct Hno as [|Hno]; [lia|]. specialize (Hno p ltac:(left)). unfold area_size in Hno. rewrite HA, lookup_singleton_eq in Hno.
    vm_compute in Hno. discriminate Hno.
  - apply list_elem_of_singleton in Hq as ->. unfold area_start. by rewrite HA, lookup_singleton_eq.
Defined.
