(* ===== verification/VmapFree.v ===== *)
(** [va_free] ([kernel/vmap.c]): the areas it gives back, and the one it uses after freeing it. *)
From stdpp Require Import sorting.
From S2P Require Import Prelude ListHead Pmm Sync Machine Slab SlabTheory SlabOps SlabFree SlabProps SlabSample Rbtree RbTheory RbProps Vmap VmapTheory VmapProps VmapInit VmapAlloc.
Open Scope Z_scope.
Implicit Types (s : vmap) (A : gmap Z vmap_area) (fs bs : list Z).

(** ** The searches *)

(** The value [walk] ends with, whether it stopped early or not. *)
Definition ended {X} (r : X + X) : X := match r with inl x | inr x => x end.
Definition prev_step A addr (q : Z) (prev : option Z) : option Z + option Z := if area_end A q <=? addr then inl (Some q) else inr prev.
Definition prev_free A addr fs : option Z := ended (walk (prev_step A addr) fs None).

Lemma walk_prev A addr fs x : (exists q, ended (walk (prev_step A addr) fs x) = Some q /\ q ∈ fs /\ area_end A q <= addr) \/
  ended (walk (prev_step A addr) fs x) = x.
Proof.
  revert x. induction fs as [|q fs IH]; intros x; [by right|]. cbn. unfold prev_step at 1 3. destruct (Z.leb_spec (area_end A q) addr) as [Hle|]; [|by right].
  destruct (IH (Some q)) as [(y & E & Hy & Hend)|E]; left; [exists y|exists q]; (split; [exact E|]); (split; [set_solver|assumption]).
Qed.

(** The free area that ends at [addr] is found. *)
Lemma prev_adjacent A addr l q r : (forall x, x ∈ l -> area_end A x <= addr) -> area_end A q = addr -> (forall x, x ∈ r -> addr < area_end A x) ->
  prev_free A addr (l ++ q :: r) = Some q.
Proof.
  intros Hl Hq Hr. unfold prev_free. enough (forall x, ended (walk (prev_step A addr) (l ++ q :: r) x) = Some q) by done.
  induction l as [|y l IH]; intros x; cbn; unfold prev_step at 1.
  - rewrite Hq, Z.leb_refl. destruct r as [|z r]; [done|]. cbn. unfold prev_step at 1.
    destruct (Z.leb_spec (area_end A z) addr) as [Hle|]; [|done]. specialize (Hr z ltac:(left)). lia.
  - destruct (Z.leb_spec (area_end A y) addr) as [|Hgt]; [apply IH; intros z Hz; apply Hl; by right|]. specialize (Hl y ltac:(left)). lia.
Qed.

Section searches.
Context (fs : list Z) (s : vmap).
Hypothesis Hd : dll (vm_links s) FreeListHead (FreeNode <$> fs).
Hypothesis Hsz : (length fs <= size (vm_areas s))%nat.
Hypothesis Hat : forall p, p ∈ fs -> exists a, vm_areas s !! p = Some a.

Lemma wp_va_find_prev_free addr (Q : option Z -> vmap -> Prop) : Q (prev_free (vm_areas s) addr fs) s -> wp (va_find_prev_free addr) Q s.
Proof.
  intros HQ. unfold va_find_prev_free. wp_step.
  apply (wp_scan FreeNode FreeListHead _ (prev_step (vm_areas s) addr) (fun _ => True)) with (ps := fs); try done.
  intros p x K Hp _ HK. destruct (Hat p Hp) as [a Ha]. wp_step. eapply wp_area; [exact Ha|]. wp_step. unfold prev_step, area_end in HK. by rewrite Ha in HK.
Qed.

(** The search for the area behind looks past an adjacent one. *)
Lemma wp_va_find_next_free addr (Q : option Z -> vmap -> Prop) : (forall r, (forall q, r = Some q -> q ∈ fs /\ area_start (vm_areas s) q > addr) -> Q r s) ->
  wp (va_find_next_free addr) Q s.
Proof.
  intros HQ. unfold va_find_next_free. wp_step.
  apply (wp_scan FreeNode FreeListHead _ (fun q (_ : unit) => if area_start (vm_areas s) q >? addr then inr q else inl tt) (fun _ => True)) with (ps := fs); try done.
  - intros p x K Hp _ HK. destruct (Hat p Hp) as [a Ha]. wp_step. eapply wp_area; [exact Ha|]. wp_step. unfold area_start in HK. by rewrite Ha in HK.
  - destruct (walk_first (fun q => area_start (vm_areas s) q >? addr) (fun q : Z => q) fs) as (l & r & -> & _ & -> & Hg).
    destruct r as [|q r]; wp_step; apply HQ; [done|]. intros ? [= <-]. split; [set_solver|lia].
Qed.
End searches.

Lemma wp_va_find_by_addr L fs bs ws addr (Q : option Z -> vmap -> Prop) s : areas_ok L fs bs ws s ->
  ((forall p, p ∈ bs -> area_start (vm_areas s) p <> addr) -> Q None s) ->
  (forall l p r, bs = l ++ p :: r -> area_start (vm_areas s) p = addr -> Q (Some p) s) -> wp (va_find_by_addr addr) Q s.
Proof.
  intros Ha HQ0 HQ. pose proof (areas_length _ _ _ _ _ Ha) as [_ Hlen]. unfold va_find_by_addr. wp_step.
  apply (wp_scan BusyNode BusyListHead _ (fun q (_ : unit) => if area_start (vm_areas s) q =? addr then inr q else inl tt) (fun _ => True)) with (ps := bs);
    [done|done|apply (ao_busy _ _ _ _ _ Ha)|exact Hlen|done|done| |].
  - intros p x K Hp _ HK. destruct (areas_at _ _ _ _ _ p Ha) as (a & Hpa & _); [set_solver|]. wp_step. eapply wp_area; [exact Hpa|].
    wp_step. unfold area_start in HK. by rewrite Hpa in HK.
  - destruct (walk_first (fun q => area_start (vm_areas s) q =? addr) (fun q : Z => q) bs) as (l & r & E & Hl & -> & Hg).
    destruct r as [|q r]; wp_step; [apply HQ0|apply (HQ l q r); [exact E|lia]]. intros p Hp. rewrite E, app_nil_r in Hp. specialize (Hl p Hp). cbn in Hl. lia.
Qed.

(** ** A busy area becomes loose *)

Lemma wp_make_loose L fs l p r ws (Q : unit -> vmap -> Prop) s : areas_ok L fs (l ++ p :: r) ws s ->
  (forall lk, areas_ok L fs (l ++ r) (p :: ws) (set_vlinks lk s) -> Q tt (set_vlinks lk s)) ->
  wp (on_vlinks (list_del (BusyNode p))) Q s.
Proof.
  intros [(nil & oth & T & [Hl [Ht [np Hz]] Hrb Hs Hsame] & HLn & Hnil) Hb Hobj Hnd Ho Hap] HQ. unfold on_vlinks. wp_step.
  assert (Hperm : fs ++ (l ++ p :: r) ++ ws ≡ₚ fs ++ (l ++ r) ++ p :: ws) by (rewrite <- !app_assoc; cbn; by rewrite (Permutation_middle r)).
  assert (Hin : forall q, q ∈ fs ++ (l ++ r) ++ p :: ws -> q ∈ fs ++ (l ++ p :: r) ++ ws) by (intros q; by rewrite Hperm).
  rewrite fmap_app in Hb. cbn [fmap list_fmap] in Hb. eapply wp_list_del; [exact Hb|]. intros lk Hb' Hframe. rewrite <- fmap_app in Hb'. apply HQ. split.
  - exists nil, oth, T. split; [|split; [exact HLn|by rewrite <- Hperm]]. split; [|split; [exact Ht|by exists np]|exact Hrb|exact Hs|exact Hsame].
    assert (Hbusy : forall x, x ∈ BusyListHead :: (BusyNode <$> l) ++ BusyNode p :: (BusyNode <$> r) -> x = BusyListHead \/ exists y, x = BusyNode y).
    { intros x [->|[(y & -> & _)%list_elem_of_fmap|[->|(y & -> & _)%list_elem_of_fmap]%elem_of_cons]%elem_of_app]%elem_of_cons; eauto. }
    eapply dll_frame; [|exact Hl]. intros q Hq. apply Hframe. intros Hin'. apply Hbusy in Hin'.
    apply elem_of_cons in Hq as [->|(x & -> & _)%list_elem_of_fmap]; by destruct Hin' as [|[? ?]].
  - exact Hb'.
  - intros q Hq. by apply Hobj, Hin.
  - by rewrite <- Hperm.
  - exact Ho.
  - intros x y Hx Hy. apply Hap; by apply Hin.
Qed.

(** ** The free areas around a loose one *)

Lemma around L l q r bs p ws s : areas_ok L (l ++ q :: r) bs (p :: ws) s -> area_end (vm_areas s) q = area_start (vm_areas s) p ->
  (forall x, x ∈ l -> area_end (vm_areas s) x <= area_start (vm_areas s) p) /\ (forall x, x ∈ r -> area_start (vm_areas s) p < area_end (vm_areas s) x).
Proof.
  intros Ha Hq. pose proof (ao_order _ _ _ _ _ Ha) as (Hlq & _ & Hqr)%StronglySorted_app. apply StronglySorted_cons in Hqr as [Hqr _].
  pose proof (ao_nodup _ _ _ _ _ Ha) as Hnd. apply NoDup_app in Hnd as (Hnd & _ & _). apply NoDup_app in Hnd as (_ & Hlr & Hnd). apply NoDup_cons in Hnd as [Hqr' _].
  assert (Hval : forall x, x ∈ l ++ q :: r -> area_start (vm_areas s) x < area_end (vm_areas s) x).
  { intros x Hx. destruct (areas_at _ _ _ _ _ x Ha) as (a & Hxa & [Hr _]); [set_solver|]. unfold area_start, area_end. rewrite Hxa. cbn. lia. }
  assert (Hap : forall x, x ∈ l ++ q :: r -> x <> q -> apart (vm_areas s) x q) by (intros x Hx Hne; apply (ao_apart _ _ _ _ _ Ha); set_solver).
  pose proof (Hval q ltac:(set_solver)). split; intros x Hx.
  - pose proof (Hval x ltac:(set_solver)). specialize (Hlq x q Hx ltac:(left)). cbn in Hlq.
    destruct (Hap x ltac:(set_solver)) as [|]; [intros ->; apply (Hlr q Hx); left|lia|lia].
  - pose proof (Hval x ltac:(set_solver)). rewrite Forall_forall in Hqr. specialize (Hqr x Hx). cbn in Hqr.
    destruct (Hap x ltac:(set_solver)) as [|]; [by intros ->|lia|lia].
Qed.

Lemma free_list L fs bs ws s : areas_ok L fs bs ws s -> dll (vm_links s) FreeListHead (FreeNode <$> fs) /\
  (length fs <= size (vm_areas s))%nat /\ forall p, p ∈ fs -> exists a, vm_areas s !! p = Some a.
Proof.
  intros Ha. split; [by destruct (ao_free _ _ _ _ _ Ha) as (nil & oth & T & [Hl _ _ _ _] & _)|].
  split; [apply (areas_length _ _ _ _ _ Ha)|]. intros p Hp. destruct (areas_at _ _ _ _ _ p Ha) as (a & ? & _); [set_solver|by exists a].
Qed.

(** ** The two outcomes *)

(** The state after the busy area [p] became loose, under the lock. *)
Definition loosened s lk : vmap := set_counts (total_free s) (sub64 (nr_busy s) 1) (set_vlinks lk (va_locked s)).

Lemma areas_locked L fs bs ws s : areas_ok L fs bs ws s -> areas_ok L fs bs ws (va_locked s).
Proof. apply areas_ext; reflexivity. Qed.
Lemma areas_loosened L fs bs ws s lk : areas_ok L fs bs ws (set_vlinks lk (va_locked s)) -> areas_ok L fs bs ws (loosened s lk).
Proof. apply areas_ext; reflexivity. Qed.

(** Areas start at different addresses. *)
Lemma start_inj L fs bs ws s p q : areas_ok L fs bs ws s -> p ∈ fs ++ bs ++ ws -> q ∈ fs ++ bs ++ ws ->
  area_start (vm_areas s) p = area_start (vm_areas s) q -> p = q.
Proof.
  intros Ha Hp Hq E. destruct (decide (p = q)) as [|Hne]; [done|exfalso]. pose proof (ao_apart _ _ _ _ _ Ha p q Hp Hq Hne) as Hap.
  destruct (areas_at _ _ _ _ _ p Ha Hp) as (a & Hpa & [Hr _]), (areas_at _ _ _ _ _ q Ha Hq) as (b & Hqb & [Hr' _]).
  unfold apart, area_start, area_end in *. rewrite Hpa, Hqb in *. cbn in *. lia.
Qed.

(** The test on the area behind the freed one always fails. *)
Lemma wp_no_next {X} L fs bs ws p a (K : M vmap X) (Q : X -> vmap -> Prop) s : areas_ok L fs bs ws s -> vm_areas s !! p = Some a -> wp K Q s ->
  wp (next ← va_find_next_free (va_end a);
      _ ← match next with
      | None => mret tt
      | Some n => t ← area p; na ← area n;
          if va_end t =? va_start na then _ ← va_remove_free n; na ← area n; _ ← set_end p (va_end na); kfree_area n else mret tt
      end; K) Q s.
Proof.
  intros Ha Hpa HQ. destruct (free_list _ _ _ _ _ Ha) as (Hd & Hsz & Hat).
  wp_step. apply (wp_va_find_next_free fs s Hd Hsz Hat). intros [n|] Hnx; wp_step; [|by wp_step]. destruct (Hnx n eq_refl) as [Hn Hgt].
  destruct (Hat n Hn) as [b Hnb]. wp_step. eapply wp_area; [exact Hpa|]. wp_step. eapply wp_area; [exact Hnb|].
  unfold area_start in Hgt. rewrite Hnb in Hgt. cbn in Hgt. rewrite (proj2 (Z.eqb_neq _ _)) by lia. by wp_step.
Qed.

(** The test on the area before it fails unless that area ends where it starts. *)
Lemma wp_no_prev {X} L fs bs ws p a (K : Z -> M vmap X) (Q : X -> vmap -> Prop) s : areas_ok L fs bs ws s -> vm_areas s !! p = Some a ->
  (forall q, q ∈ fs -> area_end (vm_areas s) q <> va_start a) -> wp (K p) Q s ->
  wp (prev ← va_find_prev_free (va_start a);
      t ← match prev with
      | None => mret p
      | Some q => pa ← area q; a ← area p;
          if va_end pa =? va_start a then _ ← va_remove_free q; a ← area p; _ ← set_end q (va_end a); _ ← kfree_area p; mret q else mret p
      end; K t) Q s.
Proof.
  intros Ha Hpa Hno HQ. destruct (free_list _ _ _ _ _ Ha) as (Hd & Hsz & Hat). wp_step. apply (wp_va_find_prev_free fs s Hd Hsz Hat). unfold prev_free.
  destruct (walk_prev (vm_areas s) (va_start a) fs None) as [(q & -> & Hq & _)| ->]; wp_step; [|by wp_step]. destruct (Hat q Hq) as [b Hqb].
  wp_step. eapply wp_area; [exact Hqb|]. wp_step. eapply wp_area; [exact Hpa|]. specialize (Hno q Hq). unfold area_end in Hno. rewrite Hqb in Hno.
  rewrite (proj2 (Z.eqb_neq _ _)) by exact Hno. by wp_step.
Qed.

Lemma va_free_off_busy L fs l p r addr s : vmap_ok L fs (l ++ p :: r) s -> addr <> 0 -> area_start (vm_areas s) p = addr ->
  exists lk a, va_free addr s = give_back (daif (mach (vm_slab s))) p (loosened s lk) /\ areas_ok L fs (l ++ r) [p] (loosened s lk) /\
    vm_areas s !! p = Some a /\ va_start a = addr.
Proof.
  intros Hv H0 Hst. pose proof (vo_areas _ _ _ _ Hv) as Ha.
  enough (wp (va_find_by_addr addr) (fun r s1 => r = Some p /\ s1 = va_locked s) (va_locked s)) as Hfind.
  { destruct (areas_at _ _ _ _ _ p Ha) as (a & Hpa & _); [set_solver|].
    enough (wp (on_vlinks (list_del (BusyNode p))) (fun _ s' => exists lk, s' = set_vlinks lk (va_locked s) /\ areas_ok L fs (l ++ r) [p] s') (va_locked s)) as Hdel.
    { destruct (wp_done _ _ _ Hdel) as ([] & s1 & Hrun & lk & -> & Hlk). exists lk, a. split; [|split; [by apply areas_loosened|]].
      - unfold va_free. rewrite (proj2 (Z.eqb_neq addr 0) H0). apply run_bind, wp_va_lock; [apply (vo_lock _ _ _ _ Hv)|].
        apply run_bind. eapply wp_mono; [exact Hfind|]. intros ? ? [-> ->]. apply run_bind. unfold wp. rewrite Hrun. by apply run_bind; wp_step.
      - split; [exact Hpa|]. unfold area_start in Hst. by rewrite Hpa in Hst. }
    eapply wp_make_loose; [exact (areas_locked _ _ _ _ _ Ha)|]. intros lk Hlk. by exists lk. }
  eapply wp_va_find_by_addr; [exact (areas_locked _ _ _ _ _ Ha)| |].
  { intros Hno'. destruct (Hno' p); [set_solver|exact Hst]. }
  intros l1 p1 r1 E Hst1. change (vm_areas (va_locked s)) with (vm_areas s) in Hst1. split; [|done]. f_equal.
  apply (start_inj _ _ _ _ _ _ _ Ha); [rewrite E; set_solver|set_solver|congruence].
Qed.

(** The interrupt mask is put back. *)
Lemma slab_daif h d : set_mach (set_daif (daif (mach h)) (mach (set_mach (set_daif d (mach h)) h))) (set_mach (set_daif d (mach h)) h) = h.
Proof. by destruct h as [???? []]. Qed.

(** Without a free area that ends where it starts, the area goes back as it is. *)
Lemma wp_give_back L fs l p r s lk a : vmap_ok L fs (l ++ p :: r) s -> areas_ok L fs (l ++ r) [p] (loosened s lk) -> vm_areas s !! p = Some a ->
  (forall q, q ∈ fs -> area_end (vm_areas s) q <> va_start a) ->
  wp (give_back (daif (mach (vm_slab s))) p) (fun _ s' => exists l' r', fs = l' ++ r' /\ vmap_ok L (l' ++ p :: r') (l ++ r) s' /\ vm_areas s' = vm_areas s /\
    (mgr_start s', mgr_end s', vm_slab s') = (mgr_start s, mgr_end s, vm_slab s)) (loosened s lk).
Proof.
  intros Hv Ha1 Hpa Hno. pose proof (vo_lock _ _ _ _ Hv) as Hlf. set (s1 := loosened s lk) in *. unfold give_back.
  wp_step. eapply wp_area; [exact Hpa|]. eapply wp_no_prev; [exact Ha1|exact Hpa|exact Hno|].
  wp_step. eapply wp_area; [exact Hpa|]. eapply wp_no_next; [exact Ha1|exact Hpa|].
  wp_step. eapply wp_va_size; [exact Hpa|]. wp_step. wp_step. cbv beta.
  match goal with |- wp _ _ ?x => set (s2 := x) end.
  assert (Ha2 : areas_ok L fs (l ++ r) [p] s2) by (eapply areas_ext; [..|exact Ha1]; reflexivity).
  wp_step. eapply wp_va_insert_free; [exact Ha2|]. intros l' r' s' Hlr Ha' EA Erest. injection Erest as E1 E2 E3 E4 E5 E6.
  apply wp_va_unlock. exists l', r'. split; [exact Hlr|]. split; [|split; [exact EA|cbn; by rewrite E1, E2, E6, slab_daif]].
  apply (vmap_ok_unlocked L (l' ++ p :: r') (l ++ r) s); [rewrite E6; exact (heap_ok_daif _ _ _ (vo_heap _ _ _ _ Hv))|exact Ha'| |exact Hlf|exact E5| |].
  - rewrite EA. apply (vo_stack _ _ _ _ Hv).
  - rewrite E3, EA. change (total_free s2) with (add64 (total_free s) (area_size (vm_areas s) p)). change (vm_areas s2) with (vm_areas s).
    rewrite (vo_free _ _ _ _ Hv). fold (free_total (vm_areas s) fs). rewrite (free_total_perm _ (l' ++ p :: r') (p :: l' ++ r')) by (by rewrite Permutation_middle).
    rewrite <- Hlr. unfold free_total. cbn [map foldr]. unfold add64, u64. lia.
  - rewrite E4. change (nr_busy s2) with (sub64 (nr_busy s) 1). rewrite (vo_busy _ _ _ _ Hv), !length_app. cbn [length]. unfold sub64, u64. lia.
Qed.

(** Freeing takes the area out of the store. *)
Lemma wp_kfree_area L p z (Q : unit -> vmap -> Prop) s : heap_ok L (vm_slab s) -> L !! p = Some z ->
  (forall s', vm_links s' = vm_links s -> vm_areas s' = delete p (vm_areas s) -> Q tt s') -> wp (kfree_area p) Q s.
Proof.
  intros Hh Hp HQ. unfold kfree_area, on_slab. do 3 wp_step.
  eapply wp_mono; [apply (wp_kfree L p z); [exact Hh|exact Hp]|]. intros [] h _. by apply HQ.
Qed.

(** With a free area that ends there, the merge frees the area and then asks for its size. *)
Lemma give_back_merged L l' q r' bs p s a b irq : areas_ok L (l' ++ q :: r') bs [p] s -> heap_ok L (vm_slab s) -> vm_areas s !! p = Some a ->
  vm_areas s !! q = Some b -> va_end b = va_start a -> give_back irq p s = Undef.
Proof.
  intros Ha1 Hh Hpa Hqb Hqp. unfold give_back.
  apply run_bind. eapply wp_area; [exact Hpa|]. apply run_bind.
  destruct (free_list _ _ _ _ _ Ha1) as (Hd & Hsz & Hat). apply (wp_va_find_prev_free _ s Hd Hsz Hat).
  assert (Hq : area_end (vm_areas s) q = va_start a) by (unfold area_end; by rewrite Hqb).
  assert (Hst : area_start (vm_areas s) p = va_start a) by (unfold area_start; by rewrite Hpa).
  destruct (around _ _ _ _ _ _ _ _ Ha1 ltac:(congruence)) as [Hl Hr]. rewrite Hst in Hl, Hr. rewrite (prev_adjacent _ _ _ _ _ Hl Hq Hr).
  apply run_bind.
  wp_step. eapply wp_area; [exact Hqb|]. wp_step. eapply wp_area; [exact Hpa|]. rewrite Hqp, Z.eqb_refl.
  wp_step. eapply wp_va_remove_free; [exact Ha1|]. intros s2 Ha2 EA2 Erest2. injection Erest2 as E1 E2 E3 E4 E5 E6.
  assert (Hp2 : vm_areas s2 !! p = Some a) by (by rewrite EA2). assert (Hq2 : vm_areas s2 !! q = Some b) by (by rewrite EA2).
  wp_step. eapply wp_area; [exact Hp2|]. wp_step. eapply wp_put_area; [exact Hq2|].
  destruct (ao_objs _ _ _ _ _ Ha2 p) as ([z HLp] & _); [set_solver|].
  wp_step. eapply wp_kfree_area; [cbn; rewrite E6; exact Hh|exact HLp|]. intros s4 Elk Ear. wp_step.
  cbn in Elk, Ear. set (b' := VmapArea (va_start b) (va_end a) (va_flags b)) in Ear.
  pose proof (ao_nodup _ _ _ _ _ Ha2) as Hnd. rewrite app_assoc in Hnd. pose proof Hnd as (_ & Hlp & _)%NoDup_app. apply NoDup_app in Hnd as (Hnd & _ & _).
  apply NoDup_app in Hnd as (Hnd & _ & _).
  assert (Hqn : q <> p /\ q ∉ l' ++ r').
  { pose proof (ao_nodup _ _ _ _ _ Ha1) as Hnd1. rewrite <- (Permutation_middle l') in Hnd1. apply NoDup_cons in Hnd1 as [Hnd1 _]. set_solver. }
  assert (Hpn : p ∉ l' ++ r') by (intros Hin; apply (Hlp p); set_solver).
  assert (Hat4 : forall x, x ∈ l' ++ r' -> exists c, vm_areas s4 !! x = Some c).
  { intros x Hx. destruct (areas_at _ _ _ _ _ x Ha2) as (c & Hc & _); [set_solver|]. exists c. rewrite Ear, lookup_delete_ne, lookup_insert_ne; [exact Hc|intros ->; by apply (proj2 Hqn)|intros ->; by apply Hpn]. }
  assert (Hq4 : vm_areas s4 !! q = Some b') by (rewrite Ear, lookup_delete_ne by (intros ->; by apply (proj1 Hqn)); apply lookup_insert_eq).
  apply run_bind. eapply wp_area; [exact Hq4|]. apply run_bind. apply (wp_va_find_next_free (l' ++ r') s4).
  { rewrite Elk. apply (free_list _ _ _ _ _ Ha2). }
  { apply nodup_size; [exact Hnd|exact Hat4]. }
  { exact Hat4. }
  intros nx Hnx. apply run_bind. change (va_end b') with (va_end a) in Hnx |- *.
  assert (Hend : wp (match nx with
    | None => mret tt
    | Some n => t ← area q; na ← area n; if va_end t =? va_start na then
        _ ← va_remove_free n; na ← area n; _ ← set_end q (va_end na); kfree_area n else mret tt
    end) (fun _ s' => s' = s4) s4).
  { destruct nx as [n|]; [|by wp_step]. destruct (Hnx n eq_refl) as [Hn Hgt]. destruct (Hat4 n Hn) as [c Hc].
    wp_step. eapply wp_area; [exact Hq4|]. wp_step. eapply wp_area; [exact Hc|]. unfold area_start in Hgt. rewrite Hc in Hgt. cbn in Hgt.
    change (va_end b') with (va_end a). rewrite (proj2 (Z.eqb_neq _ _)) by lia. by wp_step. }
  eapply wp_mono; [exact Hend|]. intros [] ? ->. unfold va_size, area, gets, mbind, M_bind. cbn. rewrite Ear, lookup_delete_eq. reflexivity.
Qed.

(** ** The theorem *)

Lemma va_free_cases L fs bs addr s : vmap_ok L fs bs s ->
  ((addr = 0 \/ forall p, p ∈ bs -> area_start (vm_areas s) p <> addr) /\
     exists s', va_free addr s = Done (tt, s') /\ vm_areas s' = vm_areas s /\ vm_slab s' = vm_slab s /\ vmap_ok L fs bs s') \/
  (exists l p r, addr <> 0 /\ bs = l ++ p :: r /\ area_start (vm_areas s) p = addr /\
     (((forall q, q ∈ fs -> area_end (vm_areas s) q <> addr) /\
        exists s' l' r', va_free addr s = Done (tt, s') /\ fs = l' ++ r' /\ vmap_ok L (l' ++ p :: r') (l ++ r) s' /\ vm_areas s' = vm_areas s /\
          (mgr_start s', mgr_end s', vm_slab s') = (mgr_start s, mgr_end s, vm_slab s)) \/
      ((exists q, q ∈ fs /\ area_end (vm_areas s) q = addr) /\ va_free addr s = Undef))).
Proof.
  intros Hv. pose proof (vo_areas _ _ _ _ Hv) as Ha. destruct (decide (addr = 0)) as [->|H0].
  { left. split; [by left|]. exists s. by split. }
  destruct (decide (Exists (fun p => area_start (vm_areas s) p = addr) bs)) as [(p & Hp & Hst)%Exists_exists|Hno].
  - right. apply list_elem_of_split in Hp as (l & r & ->). exists l, p, r. split; [done|]. split; [done|]. split; [done|].
    destruct (va_free_off_busy L fs l p r addr s Hv H0 Hst) as (lk & a & Hrun & Ha1 & Hpa & Hsta). rewrite Hrun.
    destruct (decide (Exists (fun q => area_end (vm_areas s) q = addr) fs)) as [(q & Hq & Hend)%Exists_exists|Hnone].
    + right. split; [by exists q|]. pose proof Hq as (l' & r' & ->)%list_elem_of_split.
      destruct (areas_at _ _ _ _ _ q Ha) as (b & Hqb & _); [set_solver|]. eapply give_back_merged; [exact Ha1| |exact Hpa|exact Hqb|].
      * exact (heap_ok_daif _ _ _ (vo_heap _ _ _ _ Hv)).
      * unfold area_end in Hend. rewrite Hqb in Hend. cbn in Hend. congruence.
    + left. assert (Hne : forall q, q ∈ fs -> area_end (vm_areas s) q <> addr) by (intros q Hq E; apply Hnone, Exists_exists; by exists q).
      split; [exact Hne|]. rewrite <- Hsta in Hne.
      destruct (wp_done _ _ _ (wp_give_back L fs l p r s lk a Hv Ha1 Hpa Hne)) as ([] & s' & Hs' & l' & r' & H). by exists s', l', r'.
  - left. assert (Hno' : forall p, p ∈ bs -> area_start (vm_areas s) p <> addr) by (intros p Hp E; apply Hno, Exists_exists; by exists p).
    split; [by right|]. exists (va_unlocked (daif (mach (vm_slab s))) (va_locked s)). split; [|split; [done|split; [by apply slab_daif|]]].
    + unfold va_free. rewrite (proj2 (Z.eqb_neq addr 0) H0). apply run_bind, wp_va_lock; [apply (vo_lock _ _ _ _ Hv)|].
      apply run_bind. eapply wp_va_find_by_addr; [exact (areas_locked _ _ _ _ _ Ha)|reflexivity|].
      intros l p r -> Hst. exfalso. apply (Hno' p); [set_solver|exact Hst].
    + apply (vmap_ok_unlocked L fs bs s); [exact (heap_ok_daif _ _ _ (vo_heap _ _ _ _ Hv))|by apply areas_locked|apply (vo_stack _ _ _ _ Hv)|
        apply (vo_lock _ _ _ _ Hv)|done|apply (vo_free _ _ _ _ Hv)|apply (vo_busy _ _ _ _ Hv)].
Qed.

(** C17: va_free ignores NULL and addresses at which no busy area starts.  For the busy area that starts at the address, it returns with
    the area free again and nothing else changed if no free area ends at that address; it never merges with the area behind.  If a free
    area ends there, the merge frees the area's descriptor and then reads it: undefined behaviour. *)
Theorem va_free_correct L fs bs addr s : vmap_ok L fs bs s ->
  ((addr = 0 \/ forall p, p ∈ bs -> area_start (vm_areas s) p <> addr) /\
     exists s', va_free addr s = Done (tt, s') /\ vm_areas s' = vm_areas s /\ vm_slab s' = vm_slab s /\ vmap_ok L fs bs s') \/
  (exists l p r, addr <> 0 /\ bs = l ++ p :: r /\ area_start (vm_areas s) p = addr /\
     (((forall q, q ∈ fs -> area_end (vm_areas s) q <> addr) /\
        exists s' l' r', va_free addr s = Done (tt, s') /\ fs = l' ++ r' /\ vmap_ok L (l' ++ p :: r') (l ++ r) s' /\ vm_areas s' = vm_areas s /\
          (mgr_start s', mgr_end s', vm_slab s') = (mgr_start s, mgr_end s, vm_slab s)) \/
      ((exists q, q ∈ fs /\ area_end (vm_areas s) q = addr) /\ va_free addr s = Undef))).
Proof. apply va_free_cases. Qed.

(** ** Sequences of calls *)

Inductive va_op := OpAlloc (size align flags : Z) | OpFree (addr : Z).
Definition va_call (op : va_op) : M vmap unit :=
  match op with OpAlloc size align flags => _ ← va_alloc size align flags; mret tt | OpFree addr => va_free addr end.
Fixpoint va_run (ops : list va_op) : M vmap unit :=
  match ops with [] => mret tt | op :: ops => _ ← va_call op; va_run ops end.
Definition va_op_ok (op : va_op) : Prop := match op with OpAlloc size align _ => 0 <= size <= 2 ^ 64 - 4096 /\ align <= 4096 | OpFree _ => True end.

(** The call that goes wrong: a busy area is freed right behind a free one. *)
Definition merges_back fs bs (op : va_op) s : Prop :=
  exists addr p q, op = OpFree addr /\ p ∈ bs /\ q ∈ fs /\ area_start (vm_areas s) p = addr /\ area_end (vm_areas s) q = addr.
Lemma va_run_step L fs bs op s : vmap_ok L fs bs s -> va_op_ok op ->
  (exists L' fs' bs' s', va_call op s = Done (tt, s') /\ vmap_ok L' fs' bs' s') \/ (merges_back fs bs op s /\ va_call op s = Undef).
Proof.
  intros Hv Hop. destruct op as [size align flags|addr]; cbn [va_call].
  - left. destruct Hop as [Hs Hal]. assert (Hwp : wp (_ ← va_alloc size align flags; mret tt) (fun _ s' => exists L' fs' bs', vmap_ok L' fs' bs' s') s).
    { wp_step. eapply wp_mono; [by apply (wp_va_alloc L fs bs)|]. intros r s' [Hpost _]. wp_step. destruct Hpost; by do 3 eexists. }
    destruct (wp_done _ _ _ Hwp) as ([] & s' & Hrun & L' & fs' & bs' & Hv'). by exists L', fs', bs', s'.
  - destruct (va_free_cases L fs bs addr s Hv) as [(_ & s' & Hrun & _ & _ & Hv')|(l & p & r & _ & -> & Hst & [(_ & s' & l' & r' & Hrun & _ & Hv' & _)|((q & Hq & Hend) & Hun)])].
    + left. by exists L, fs, bs, s'.
    + left. by exists L, (l' ++ p :: r'), (l ++ r), s'.
    + right. split; [|exact Hun]. exists addr, p, q. split; [done|]. split; [set_solver|]. by split.
Qed.

(** C18: From a well-formed allocator, every sequence of calls with sizes up to 2^64 - 4096 and alignments up to a page ends in a
    well-formed allocator, in which every descriptor in a list or in the tree is a live object of the heap and all areas are disjoint,
    or it reaches, still well-formed, a va_free of an area that starts where a free area ends; that call is undefined behaviour. *)
Theorem va_run_correct L fs bs ops s : vmap_ok L fs bs s -> Forall va_op_ok ops ->
  (exists L' fs' bs' s', va_run ops s = Done (tt, s') /\ vmap_ok L' fs' bs' s') \/
  (va_run ops s = Undef /\ exists pre op post s1 L1 fs1 bs1, ops = pre ++ op :: post /\ va_run pre s = Done (tt, s1) /\
     vmap_ok L1 fs1 bs1 s1 /\ merges_back fs1 bs1 op s1).
Proof.
  revert L fs bs s. induction ops as [|op ops IH]; intros L fs bs s Hv Hops; [left; by exists L, fs, bs, s|]. apply Forall_cons in Hops as [Hop Hops].
  destruct (va_run_step L fs bs op s Hv Hop) as [(L' & fs' & bs' & s' & Hrun & Hv')|[Hm Hun]].
  - assert (Hcons : forall ops', va_run (op :: ops') s = va_run ops' s') by (intros ops'; cbn; apply run_bind; unfold wp; by rewrite Hrun).
    destruct (IH L' fs' bs' s' Hv' Hops) as [(L2 & fs2 & bs2 & s2 & Hrun2 & Hv2)|(Hun & pre & op2 & post & s1 & L1 & fs1 & bs1 & -> & Hpre & Hv1 & Hm)].
    + left. exists L2, fs2, bs2, s2. by rewrite Hcons.
    + right. rewrite Hcons. split; [exact Hun|]. exists (op :: pre), op2, post, s1, L1, fs1, bs1. by rewrite Hcons.
  - right. split; [cbn; unfold mbind, M_bind; by rewrite Hun|]. by exists [], op, ops, s, L, fs, bs.
Qed.

(** Two areas of a page side by side, the first one free and the second one busy. *)
Lemma sample_pair : exists L s p q, vmap_ok L [q] [p] s /\ area_start (vm_areas s) p = VMALLOC_START + 4096 /\
  area_end (vm_areas s) q = VMALLOC_START + 4096 /\ area_start (vm_areas s) q = VMALLOC_START.
Proof.
  destruct sample_objects as (L & h & o & p & q & Hok & Hnd & Hobj). apply NoDup_cons in Hnd as [Ho Hnd].
  assert (Hqp : q <> p) by (intros ->; apply NoDup_cons in Hnd as [Hnd _]; set_solver).
  set (a := VmapArea (VMALLOC_START + 4096) (VMALLOC_START + 8192) 1). set (b := VmapArea VMALLOC_START (VMALLOC_START + 4096) 0).
  set (A := {[p := a; q := b]} : gmap Z vmap_area).
  assert (HAp : A !! p = Some a) by apply lookup_insert_eq.
  assert (HAq : A !! q = Some b) by (unfold A; rewrite lookup_insert_ne by done; apply lookup_singleton_eq).
  assert (Hok2 : area_ok a /\ area_ok b) by (by vm_compute). set (s := sample_vmap h o 4096 1 A).
  assert (Ha : areas_ok L [] [] [q; p] s).
  { apply sample_loose; [apply Hobj; left|set_solver|apply NoDup_cons; split; [by rewrite list_elem_of_singleton|apply NoDup_singleton]| |].
    - intros x Hx. split; [apply Hobj; set_solver|]. apply elem_of_cons in Hx as [-> | ->%list_elem_of_singleton]; [exists b|exists a]; by split.
    - intros x y [-> | ->%list_elem_of_singleton]%elem_of_cons [-> | ->%list_elem_of_singleton]%elem_of_cons Hne; try done;
        unfold apart, area_start, area_end; rewrite HAp, HAq; cbn; lia. }
  assert (Hwp : wp (_ ← va_insert_free q; on_vlinks (list_add (BusyNode p) BusyListHead)) (fun _ s' => vmap_ok L [q] [p] s' /\ vm_areas s' = A) s).
  { wp_step. eapply wp_va_insert_free; [exact Ha|]. intros l r s' Hlr Ha' EA Erest. symmetry in Hlr. apply app_nil in Hlr as [-> ->].
    injection Erest as E1 E2 E3 E4 E5 E6. eapply wp_make_busy; [exact Ha'|]. intros lk Ha2. split; [|exact EA]. split.
    - cbn. rewrite E6. exact Hok.
    - cbn. by rewrite E5.
    - exact Ha2.
    - cbn. rewrite EA. cbn. unfold A. destruct (Hobj p) as [Hp _]; [set_solver|]. destruct (Hobj q) as [Hq _]; [set_solver|].
      unfold STACK_TARGET. rewrite lookup_insert_ne, lookup_singleton_ne by lia. done.
    - cbn. rewrite E3, EA. unfold area_size. cbn. by rewrite HAq.
    - cbn. by rewrite E4. }
  destruct (wp_done _ _ _ Hwp) as ([] & s' & _ & Hv & EA). exists L, s', p, q. split; [exact Hv|]. unfold area_start, area_end. by rewrite EA, HAp, HAq.
Qed.

Lemma va_free_correct_witness : exists L s p q, vmap_ok L [q] [p] s /\
  va_free (VMALLOC_START + 4096) s = Undef /\ exists s', va_free VMALLOC_START s = Done (tt, s').
Proof.
  destruct sample_pair as (L & s & p & q & Hv & Hp & Hq & Hqs). exists L, s, p, q. split; [exact Hv|]. split.
  - destruct (va_free_correct L [q] [p] (VMALLOC_START + 4096) s Hv) as [[[H0|Hno] _]|(l & x & r & _ & _ & _ & [[Hno _]|[_ Hun]])];
      [discriminate H0|by destruct (Hno p ltac:(left))|by destruct (Hno q ltac:(left))|exact Hun].
  - destruct (va_free_correct L [q] [p] VMALLOC_START s Hv) as [(_ & s' & Hrun & _)|(l & x & r & _ & E & Hst & _)]; [by exists s'|exfalso].
    assert (x = p) as -> by (apply list_elem_of_singleton; rewrite E; set_solver). rewrite Hp in Hst. discriminate Hst.
Defined.

Lemma va_run_correct_witness : exists L s p q, vmap_ok L [q] [p] s /\ va_run [OpAlloc 0 0 0; OpFree (VMALLOC_START + 4096)] s = Undef.
Proof.
  destruct sample_pair as (L & s & p & q & Hv & Hp & Hq & _). exists L, s, p, q. split; [exact Hv|].
  destruct (va_run_correct L [q] [p] [OpAlloc 0 0 0; OpFree (VMALLOC_START + 4096)] s Hv) as [(L' & fs' & bs' & s' & Hrun & _)|[Hun _]].
  - repeat constructor; cbn; lia.
  - exfalso. destruct (va_free_cases L [q] [p] (VMALLOC_START + 4096) s Hv) as [[[H0|Hno] _]|(l & x & r & _ & _ & _ & [[Hno _]|[_ Hun]])];
      [discriminate H0|by destruct (Hno p ltac:(left))|by destruct (Hno q ltac:(left))|].
    assert (E : va_run [OpAlloc 0 0 0; OpFree (VMALLOC_START + 4096)] s = Undef) by (cbn; unfold mbind, M_bind; cbn; by rewrite Hun).
    by rewrite E in Hrun.
  - exact Hun.
Defined.
