(* ===== verification/Vmalloc.v ===== *)
(** Mapped kernel memory ([kernel/vmalloc.c], [include/vmalloc.h], [include/ioremap.h]):
    [vmalloc], [ioremap] and the DMA buffers put the virtual-address allocator, the page
    allocator, the heap and the page tables together.

    The records kept for each mapping are objects of the heap named by their address, in typed
    stores; the array of page pointers of an area is a map from index to page frame.  The message on an invalid
    [vfree] is printed by the definition of that name in [Main], which has a console. *)
From S2P Require Import Prelude ListHead Pmm Sync Machine Mmu Slab Vmap.

Record vm_struct := VmStruct { vs_addr : Z; vs_size : Z; vs_nr_pages : Z; vs_pages : Z; vs_flags : Z }.
Record io_mapping := IoMapping { io_addr : Z; io_nr_pages : Z }.
Record dma_mapping := DmaMapping { dma_va : Z; dma_pa : Z; dma_nr_pages : Z; dma_order : Z }.

Inductive mnode : Set :=
| VmListHead | IoListHead | DmaListHead
| VmNode (p : Z) | IoNode (p : Z) | DmaNode (p : Z).

#[export] Instance mnode_eq_dec : EqDecision mnode.
Proof. solve_decision. Defined.
#[export] Instance mnode_countable : Countable mnode.
Proof.
  refine (inj_countable'
    (fun n => match n with VmListHead => (0, 0)%Z | IoListHead => (1, 0) | DmaListHead => (2, 0)
              | VmNode p => (3, p) | IoNode p => (4, p) | DmaNode p => (5, p) end)
    (fun x => match x with (0, _) => VmListHead | (1, _) => IoListHead | (2, _) => DmaListHead
              | (3, p) => VmNode p | (4, p) => IoNode p | (_, p) => DmaNode p end) _).
  by intros [].
Defined.

Record vmem := Vmem {
  vm_structs : gmap Z vm_struct;
  page_arrays : gmap Z (gmap Z Z);
  io_maps : gmap Z io_mapping;
  dma_maps : gmap Z dma_mapping;
  map_links : links mnode;
  vm_list_lock : arch_spinlock;
  io_map_lock : arch_spinlock;
  dma_map_lock : arch_spinlock;
  va_mgr : vmap;
}.

Definition set_structs x (s : vmem) : vmem :=
  Vmem x (page_arrays s) (io_maps s) (dma_maps s) (map_links s) (vm_list_lock s) (io_map_lock s) (dma_map_lock s) (va_mgr s).
Definition set_arrays x (s : vmem) : vmem :=
  Vmem (vm_structs s) x (io_maps s) (dma_maps s) (map_links s) (vm_list_lock s) (io_map_lock s) (dma_map_lock s) (va_mgr s).
Definition set_io x (s : vmem) : vmem :=
  Vmem (vm_structs s) (page_arrays s) x (dma_maps s) (map_links s) (vm_list_lock s) (io_map_lock s) (dma_map_lock s) (va_mgr s).
Definition set_dma x (s : vmem) : vmem :=
  Vmem (vm_structs s) (page_arrays s) (io_maps s) x (map_links s) (vm_list_lock s) (io_map_lock s) (dma_map_lock s) (va_mgr s).
Definition set_mlinks x (s : vmem) : vmem :=
  Vmem (vm_structs s) (page_arrays s) (io_maps s) (dma_maps s) x (vm_list_lock s) (io_map_lock s) (dma_map_lock s) (va_mgr s).
Definition set_locks a b c (s : vmem) : vmem :=
  Vmem (vm_structs s) (page_arrays s) (io_maps s) (dma_maps s) (map_links s) a b c (va_mgr s).
Definition set_va_mgr x (s : vmem) : vmem :=
  Vmem (vm_structs s) (page_arrays s) (io_maps s) (dma_maps s) (map_links s) (vm_list_lock s) (io_map_lock s) (dma_map_lock s) x.

Definition on_va {A} (m : M vmap A) : M vmem A := zoom va_mgr set_va_mgr m.
Definition on_heap {A} (m : M slab A) : M vmem A := on_va (on_slab m).
Definition on_machine {A} (m : M machine A) : M vmem A := on_heap (on_mach m).
Definition on_mlinks {A} (m : M (links mnode) A) : M vmem A := zoom map_links set_mlinks m.
Definition on_vm_lock {A} (m : M arch_spinlock A) : M vmem A :=
  zoom vm_list_lock (fun l s => set_locks l (io_map_lock s) (dma_map_lock s) s) m.
Definition on_io_lock {A} (m : M arch_spinlock A) : M vmem A :=
  zoom io_map_lock (fun l s => set_locks (vm_list_lock s) l (dma_map_lock s) s) m.
Definition on_dma_lock {A} (m : M arch_spinlock A) : M vmem A :=
  zoom dma_map_lock (fun l s => set_locks (vm_list_lock s) (io_map_lock s) l s) m.

(** The number of 4 KiB pages of the loops [nr_pages = (size + PAGE_SIZE - 1) / PAGE_SIZE]. *)
Definition pages_of (size : Z) : Z := sub64 (add64 size PAGE_SIZE) 1 / PAGE_SIZE.

Definition page_slot (arr i : Z) : M vmem Z :=
  a ← gets page_arrays; t ← of_option (a !! arr); of_option (t !! i).
Definition set_page_slot (arr i pfn : Z) : M vmem unit :=
  a ← gets page_arrays; t ← of_option (a !! arr);
  modify (fun s => set_arrays (<[arr := <[i := pfn]> t]> (page_arrays s)) s).

Definition map_pages (va_start pa n prot : Z) : M vmem unit :=
  for_n (Z.to_nat n) 0 (fun i =>
    on_machine (map_kernel_page (add64 va_start (mul64 i PAGE_SIZE)) (add64 pa (mul64 i PAGE_SIZE)) prot)).
Definition unmap_pages (va_start n : Z) : M vmem unit :=
  for_n (Z.to_nat n) 0 (fun i => on_machine (unmap_kernel_page (add64 va_start (mul64 i PAGE_SIZE)))).

(** ** vmalloc *)

Definition vm_struct_of (n : mnode) : M vmem Z := match n with VmNode p => mret p | _ => undef end.
Definition io_of (n : mnode) : M vmem Z := match n with IoNode p => mret p | _ => undef end.
Definition dma_of (n : mnode) : M vmem Z := match n with DmaNode p => mret p | _ => undef end.

(** The first entry of a list that satisfies a test; no list is longer than its store. *)
Definition find_entry (head : mnode) (bound : vmem -> nat) (entry : mnode -> M vmem Z)
    (test : Z -> M vmem bool) : M vmem (option Z) :=
  first ← on_mlinks (read_nxt head);
  n ← gets bound;
  loop (S n) (fun pos =>
    if decide (pos = head) then mret (inr None) else
    p ← entry pos;
    ok ← test p;
    if ok : bool then mret (inr (Some p))
    else next ← on_mlinks (read_nxt pos); mret (inl next)) first.

(** The common exit [fail]: what was allocated goes back. *)
Definition vmalloc_fail (addr vm pages_array : Z) : M vmem Z :=
  _ ← (if negb (pages_array =? 0) then
         _ ← modify (fun s => set_arrays (delete pages_array (page_arrays s)) s);
         on_heap (kfree pages_array)
       else mret tt);
  _ ← (if negb (vm =? 0) then
         _ ← modify (fun s => set_structs (delete vm (vm_structs s)) s);
         on_heap (kfree vm)
       else mret tt);
  _ ← on_va (va_free addr);
  mret 0.

(** The loop that buys the pages: the index it stopped at when there was no page. *)
Definition buy_pages (pages_array nr_pages : Z) : M vmem (option Z) :=
  find_n (Z.to_nat nr_pages) 0 (fun i =>
    page ← on_machine (on_pmm (alloc_page GFP_KERNEL));
    match page with
    | None => mret (Some i)
    | Some pfn => _ ← set_page_slot pages_array i pfn; mret None
    end).

Definition __vmalloc_node_range (size align va_flags prot : Z) : M vmem Z :=
  addr ← on_va (va_alloc size align va_flags);
  if addr =? 0 then mret 0 else
  let nr_pages := pages_of size in
  vm ← on_heap (kmalloc 56 GFP_KERNEL);
  _ ← (if negb (vm =? 0) then modify (fun s => set_structs (<[vm := VmStruct 0 0 0 0 0]> (vm_structs s)) s) else mret tt);
  pages_array ← on_heap (kmalloc (mul64 8 nr_pages) GFP_KERNEL);
  _ ← (if negb (pages_array =? 0) then modify (fun s => set_arrays (<[pages_array := ∅]> (page_arrays s)) s) else mret tt);
  if (vm =? 0) || (pages_array =? 0) then vmalloc_fail addr vm pages_array else
  stopped ← buy_pages pages_array nr_pages;
  match stopped with
  | Some i =>
      _ ← for_n (Z.to_nat i) 0 (fun j =>
            pfn ← page_slot pages_array j; on_machine (on_pmm (free_page pfn)));
      vmalloc_fail addr vm pages_array
  | None =>
      _ ← for_n (Z.to_nat nr_pages) 0 (fun i =>
            pfn ← page_slot pages_array i;
            on_machine (map_kernel_page (add64 addr (mul64 i PAGE_SIZE)) (pfn_to_pa pfn) prot));
      _ ← modify (fun s => set_structs
            (<[vm := VmStruct addr size (u32 nr_pages) pages_array va_flags]> (vm_structs s)) s);
      _ ← on_vm_lock spin_lock;
      _ ← on_mlinks (list_add_tail (VmNode vm) VmListHead);
      _ ← on_vm_lock spin_unlock;
      mret addr
  end.

Definition vmalloc (size : Z) : M vmem Z := __vmalloc_node_range size PAGE_SIZE VA_FLAG_VMALLOC PAGE_KERNEL_RW.

(** A byte store through the page tables. *)
Definition set_byte (w i v : Z) : Z :=
  Z.lor (Z.land w (not64 (Z.shiftl 0xFF (8 * i)))) (Z.shiftl (u8 v) (8 * i)).
Definition st8_mapped (va v : Z) : M machine unit :=
  frame ← get_phys_from_va va;
  _ ← guard_ub (negb (frame =? 0));
  let pa := frame + va mod PAGE_SIZE in
  let word := pa - pa mod 8 in
  _ ← guard_ub (ram_ok word);
  modify (fun s => set_ram (<[word := set_byte (ram_at s word) (pa mod 8) v]> (m_ram s)) s).

Definition vzalloc (size : Z) : M vmem Z :=
  addr ← vmalloc size;
  _ ← (if negb (addr =? 0)
       then for_n (Z.to_nat size) 0 (fun i => on_machine (st8_mapped (add64 addr i) 0)) else mret tt);
  mret addr.

Definition vm_at (p : Z) : M vmem vm_struct := m ← gets vm_structs; of_option (m !! p).

(** [vfree] up to its message: whether the address was a mapping (or NULL). *)
Definition vfree_known (addr : Z) : M vmem bool :=
  if addr =? 0 then mret true else
  _ ← on_vm_lock spin_lock;
  found ← find_entry VmListHead (fun s => size (vm_structs s)) vm_struct_of
            (fun p => vm ← vm_at p; mret (vs_addr vm =? addr));
  match found with
  | None => _ ← on_vm_lock spin_unlock; mret false
  | Some p =>
      _ ← on_mlinks (list_del (VmNode p));
      _ ← on_vm_lock spin_unlock;
      vm ← vm_at p;
      _ ← unmap_pages addr (vs_nr_pages vm);
      _ ← for_n (Z.to_nat (vs_nr_pages vm)) 0 (fun i =>
            pfn ← page_slot (vs_pages vm) i; on_machine (on_pmm (free_page pfn)));
      _ ← modify (fun s => set_arrays (delete (vs_pages vm) (page_arrays s)) s);
      _ ← on_heap (kfree (vs_pages vm));
      _ ← on_va (va_free addr);
      _ ← modify (fun s => set_structs (delete p (vm_structs s)) s);
      _ ← on_heap (kfree p);
      mret true
  end.

(** ** ioremap *)

Definition ioremap (phys_addr size : Z) : M vmem Z :=
  let offset := Z.land phys_addr (PAGE_SIZE - 1) in
  let paddr_aligned := Z.land phys_addr PAGE_MASK in
  let map_size := add64 size offset in
  addr ← on_va (va_alloc map_size PAGE_SIZE VA_FLAG_IOREMAP);
  if addr =? 0 then mret 0 else
  let nr_pages := pages_of map_size in
  _ ← map_pages addr paddr_aligned nr_pages PAGE_DEVICE;
  io ← on_heap (kmalloc 32 GFP_KERNEL);
  _ ← (if negb (io =? 0) then
         _ ← modify (fun s => set_io (<[io := IoMapping addr nr_pages]> (io_maps s)) s);
         _ ← on_io_lock spin_lock;
         _ ← on_mlinks (list_add (IoNode io) IoListHead);
         on_io_lock spin_unlock
       else mret tt);
  mret (add64 addr offset).

Definition io_at (p : Z) : M vmem io_mapping := m ← gets io_maps; of_option (m !! p).

Definition iounmap (addr : Z) : M vmem unit :=
  if addr =? 0 then mret tt else
  let va_aligned := Z.land addr PAGE_MASK in
  _ ← on_io_lock spin_lock;
  found ← find_entry IoListHead (fun s => size (io_maps s)) io_of
            (fun p => io ← io_at p; mret (io_addr io =? va_aligned));
  nr_pages ← match found with
    | None => mret 1
    | Some p =>
        io ← io_at p;
        _ ← on_mlinks (list_del (IoNode p));
        _ ← modify (fun s => set_io (delete p (io_maps s)) s);
        _ ← on_heap (kfree p);
        mret (io_nr_pages io)
    end;
  _ ← on_io_lock spin_unlock;
  _ ← unmap_pages va_aligned nr_pages;
  on_va (va_free va_aligned).

(** ** DMA buffers: the virtual and the physical address *)

Definition order_of_pages {S} (pages : Z) : M S Z :=
  loop 65 (fun order => if shl64 1 order <? pages then mret (inl (order + 1)) else mret (inr order)) 0.

Definition dma_alloc_coherent (size : Z) : M vmem (Z * option Z) :=
  let pages := pages_of size in
  order ← order_of_pages pages;
  pa ← on_machine (on_pmm (alloc_phys_pages order GFP_DMA));
  if pa =? 0 then mret (0, None) else
  va ← on_va (va_alloc (mul64 pages PAGE_SIZE) PAGE_SIZE VA_FLAG_IOREMAP);
  if va =? 0 then
    _ ← on_machine (on_pmm (free_phys_pages pa order)); mret (0, Some pa)
  else
    _ ← map_pages va pa pages PAGE_DMA;
    dma ← on_heap (kmalloc 48 GFP_KERNEL);
    _ ← (if negb (dma =? 0) then
           _ ← modify (fun s => set_dma (<[dma := DmaMapping va pa pages order]> (dma_maps s)) s);
           _ ← on_dma_lock spin_lock;
           _ ← on_mlinks (list_add (DmaNode dma) DmaListHead);
           on_dma_lock spin_unlock
         else mret tt);
    mret (va, Some pa).

Definition dma_at (p : Z) : M vmem dma_mapping := m ← gets dma_maps; of_option (m !! p).

Definition dma_free_coherent (va : Z) : M vmem unit :=
  if va =? 0 then mret tt else
  let va_aligned := Z.land va PAGE_MASK in
  _ ← on_dma_lock spin_lock;
  found ← find_entry DmaListHead (fun s => size (dma_maps s)) dma_of
            (fun p => d ← dma_at p; mret (dma_va d =? va_aligned));
  _ ← match found with None => mret tt | Some p => on_mlinks (list_del (DmaNode p)) end;
  _ ← on_dma_lock spin_unlock;
  match found with
  | None => mret tt
  | Some p =>
      d ← dma_at p;
      _ ← unmap_pages va_aligned (dma_nr_pages d);
      _ ← on_machine (on_pmm (free_phys_pages (dma_pa d) (dma_order d)));
      _ ← modify (fun s => set_dma (delete p (dma_maps s)) s);
      on_heap (kfree p)
  end.
