(* ===== verification/VmallocProps.v ===== *)
(** What [ioremap] promises ([kernel/vmalloc.c]): the address areas, the page tables and the heap working together. *)
From stdpp Require Import sorting.
From S2P Require Import Prelude ListHead Pmm PmmTheory PmmOps PmmInit PmmProps Sync Machine Mmu MmuTheory MmuProps UserPages Slab SlabTheory SlabOps SlabFree SlabProps SlabSample Memory MemoryProps Rbtree RbTheory RbDelete RbProps Vmap VmapTheory VmapProps VmapInit VmapAlloc Vmalloc.
Open Scope Z_scope.

(** ** One kernel page *)

Section kernel_page.
Context (D : Z -> bool) (L : gmap Z Z) (h : slab) (root : Z).
Hypothesis ok : memory_ok D L h root.
Hypothesis at_root : ttbr1_el1 (mach h) = root.

(** What [map_kernel_page] leaves, whether there was memory for the tables or not. *)
Record page_tried (va e : Z) (h' : slab) : Prop := {
  pt_memory : memory_ok D L h' root;
  pt_roots : same_roots (mach h) (mach h');
  pt_daif : daif (mach h') = daif (mach h);
  pt_same x : D (L0_INDEX x) = true -> ~ same_page x va -> mapping (mach h') root x = mapping (mach h) root x;
  pt_page : mapping (mach h') root va = Some e \/ mapping (mach h') root va = mapping (mach h) root va /\ free_pages (heap_pmm h') = 0;
  pt_less : free_pages (heap_pmm h') <= free_pages (heap_pmm h);
}.

Lemma wp_map_kernel_page va pa prot (Q : unit -> slab -> Prop) : is_user_addr va = false -> D (L0_INDEX va) = true ->
  pte_present (Z.lor prot (Z.land pa ARM64_PTE_ADDR_MASK)) = true ->
  (forall h', page_tried va (Z.lor prot (Z.land pa ARM64_PTE_ADDR_MASK)) h' -> Q tt h') -> wp (on_mach (map_kernel_page va pa prot)) Q h.
Proof using ok at_root.
  intros Hk HD He HQ. unfold map_kernel_page, pgtbl_map_one_page, sync_bases. apply wp_on_mach. do 3 wp_step.
  set (m1 := set_pgtbl_bases _ _ _).
  assert (Hr1 : other_regs (mach h) m1).
  { exists (daif (mach h)), (slab_linear_map_base (mach h)), (slab_l0_table_pa (mach h)). by destruct (mach h). }
  pose proof (regs_memory D L h m1 root ok Hr1) as Hok1. pose proof (me_tree _ _ _ _ Hok1) as Ht1.
  assert (Hroot : root_of m1 va = root) by (unfold root_of; rewrite Hk; exact at_root).
  assert (Hfin : forall m2, pt_inv D m2 root -> pt_frame D m1 m2 root ->
    (forall x, D (L0_INDEX x) = true -> ~ same_page x va -> mapping m2 root x = mapping m1 root x) ->
    (mapping m2 root va = Some (Z.lor prot (Z.land pa ARM64_PTE_ADDR_MASK)) \/ mapping m2 root va = mapping m1 root va /\ free_pages (m_pmm m2) = 0) ->
    free_pages (m_pmm m2) <= free_pages (m_pmm m1) ->
    Q tt (set_mach m2 h)).
  { intros m2 Hi Hf Hm Hva Hless. apply HQ. pose proof (fr_regs _ _ _ _ Hf) as Hregs. split.
    - exact (tables_memory D L (set_mach m1 h) m2 root Hok1 Hi Hf).
    - eapply same_roots_trans; [by apply other_roots|by apply regs_roots].
    - cbn. by rewrite Hregs.
    - intros x HDx Hx. cbn. rewrite Hm by done. by apply (regs_mapping D L h).
    - cbn. rewrite <- (regs_mapping D L h m1 root ok Hr1 va HD). exact Hva.
    - exact Hless. }
  apply (wp_map_one_page D); rewrite ?Hroot; [exact Ht1|exact HD| |].
  - intros m2 Hg H0. wp_step. apply Hfin; [apply Hg|apply Hg| |right; split; [by apply (grow_mapping D _ _ _ _ Hg)|exact H0]|].
    + intros; by apply (grow_mapping D _ _ _ _ Hg).
    + rewrite H0. apply (free_pages_nonneg [] (m_pmm m1)), (pt_pmm _ _ _ Ht1).
  - intros m2 Hi Hf Hm Hless. wp_step. apply Hfin; [exact Hi|exact Hf| |left|exact Hless].
    + intros x HDx Hx. rewrite Hm by done. by rewrite decide_False.
    + rewrite Hm by done. rewrite decide_True by done. cbv zeta. by rewrite He.
Qed.
End kernel_page.

(** ** A range of pages *)

Definition in_vmalloc (x : Z) : Prop := VMALLOC_START <= x < VMALLOC_END.
Lemma vmalloc_bounds : VMALLOC_START = 2 ^ 64 - 2 ^ 48 /\ VMALLOC_END = 2 ^ 64 - 2 ^ 48 + 2 ^ 36 /\ VMALLOC_START mod 4096 = 0.
Proof. done. Qed.
Lemma vmalloc_page x y : in_vmalloc x -> in_vmalloc y -> same_page x y -> x / 4096 = y / 4096.
Proof.
  intros Hx Hy. pose proof vmalloc_bounds as (E1 & E2 & _). unfold in_vmalloc in *. apply same_page_number; [lia|lia|].
  assert (E : forall z, VMALLOC_START <= z < VMALLOC_END -> z / 2 ^ 48 = 2 ^ 16 - 1) by (intros; lia). by rewrite !E.
Qed.
Lemma vmalloc_kernel x : in_vmalloc x -> is_user_addr x = false.
Proof.
  intros Hx. pose proof vmalloc_bounds as (E1 & E2 & _). unfold in_vmalloc, is_user_addr in *. rewrite shr64_div by lia.
  apply Z.eqb_neq. assert (0 < x / 2 ^ 47) by (apply Z.div_str_pos; lia). lia.
Qed.

(** The machine under the heap under the address areas. *)
Definition put_slab (h : slab) (s : vmem) : vmem := set_va_mgr (set_vm_slab h (va_mgr s)) s.
Lemma put_slab_id s : put_slab (vm_slab (va_mgr s)) s = s.
Proof. by destruct s as [????????[]]. Qed.
Definition cpu_of (s : vmem) : machine := mach (vm_slab (va_mgr s)).

Definition page_entry_at (pa prot i : Z) : Z := Z.lor prot (Z.land (pa + i * 4096) ARM64_PTE_ADDR_MASK).

Section range.
Context (D : Z -> bool) (L : gmap Z Z) (root va pa prot : Z).
Hypothesis vmalloc_dom : forall x, in_vmalloc x -> D (L0_INDEX x) = true.
Hypothesis valid : pte_present prot = true.

(** The first [n] pages were tried, all others are as before. *)
Record pages_tried (n : Z) (h h' : slab) : Prop := {
  ps_memory : memory_ok D L h' root;
  ps_roots : same_roots (mach h) (mach h');
  ps_daif : daif (mach h') = daif (mach h);
  ps_same x : D (L0_INDEX x) = true -> (forall i, 0 <= i < n -> ~ same_page x (va + i * 4096)) -> mapping (mach h') root x = mapping (mach h) root x;
  ps_page i : 0 <= i < n -> mapping (mach h') root (va + i * 4096) = Some (page_entry_at pa prot i) \/
    mapping (mach h') root (va + i * 4096) = mapping (mach h) root (va + i * 4096) /\ free_pages (heap_pmm h') = 0;
}.

Lemma entry_valid e : pte_present (Z.lor prot e) = true.
Proof using valid.
  unfold pte_present in *. rewrite Z.land_lor_distr_l. apply negb_true_iff, Z.eqb_neq. apply negb_true_iff, Z.eqb_neq in valid.
  intros E. apply Z.lor_eq_0_iff in E as [E _]. done.
Qed.

Lemma pages_step n h h1 h2 : pages_tried n h h1 -> 0 <= n -> in_vmalloc va -> va + n * 4096 < VMALLOC_END ->
  page_tried D L h1 root (va + n * 4096) (page_entry_at pa prot n) h2 -> pages_tried (n + 1) h h2.
Proof using vmalloc_dom.
  intros [M1 R1 D1 S1 P1] Hn Hva Hend [M2 R2 D2 S2 P2 Hless]. unfold in_vmalloc in *. split.
  - exact M2.
  - by eapply same_roots_trans.
  - congruence.
  - intros x HD Hx. rewrite S2, S1; [done|done| |done|apply Hx; lia]. intros i Hi. apply Hx. lia.
  - intros i Hi. assert (Hini : in_vmalloc (va + i * 4096)) by (unfold in_vmalloc; lia).
    assert (Hinn : in_vmalloc (va + n * 4096)) by (unfold in_vmalloc; lia).
    destruct (decide (i = n)) as [->|Hne].
    + destruct P2 as [P2|[P2 H0]]; [by left|right]. split; [|exact H0]. rewrite P2. apply S1; [by apply vmalloc_dom|].
      intros j Hj Hs. apply vmalloc_page in Hs; [lia|done|unfold in_vmalloc; lia].
    + rewrite S2; [|by apply vmalloc_dom|intros Hs; apply vmalloc_page in Hs; [lia|done|done]].
      destruct (P1 i ltac:(lia)) as [P|[P H0]]; [by left|right]. split; [exact P|].
      pose proof (free_pages_nonneg [] _ (pt_pmm _ _ _ (me_tree _ _ _ _ M2))). unfold heap_pmm in *. lia.
Qed.

Lemma wp_map_pages n (Q : unit -> vmem -> Prop) s : memory_ok D L (vm_slab (va_mgr s)) root -> ttbr1_el1 (cpu_of s) = root ->
  in_vmalloc va -> 0 <= n -> va + n * 4096 <= VMALLOC_END -> 0 <= pa -> pa + n * 4096 <= 2 ^ 64 ->
  (forall h', pages_tried n (vm_slab (va_mgr s)) h' -> Q tt (put_slab h' s)) -> wp (map_pages va pa n prot) Q s.
Proof using vmalloc_dom valid.
  intros Hok Hroot Hva Hn Hend Hpa Hpaend HQ. pose proof vmalloc_bounds as (E1 & E2 & _). set (h0 := vm_slab (va_mgr s)) in *.
  assert (Hwp : wp (map_pages va pa n prot) (fun _ s' => exists h', s' = put_slab h' s /\ pages_tried (0 + Z.of_nat (Z.to_nat n)) h0 h') s).
  { apply (wp_for_n (fun i s' => exists h', s' = put_slab h' s /\ pages_tried i h0 h')).
    - exists h0. split; [symmetry; apply put_slab_id|]. split; [exact Hok|by split|done|done|lia].
    - intros i s' Hi (h1 & -> & Hp). unfold on_machine, on_heap, on_va, on_slab. wp_step. wp_step.
      unfold in_vmalloc in Hva. rewrite PAGE_SIZE_eq.
      assert (Em : mul64 i 4096 = i * 4096) by (unfold mul64, u64; apply Z.mod_small; lia). rewrite Em, !add64_small by lia.
      change (vm_slab (va_mgr (put_slab h1 s))) with h1.
      apply (wp_map_kernel_page D L h1 root); [apply Hp| | | |apply entry_valid|].
      + rewrite (sr_ttbr1 _ _ (ps_roots _ _ _ Hp)). exact Hroot.
      + apply vmalloc_kernel. unfold in_vmalloc. lia.
      + apply vmalloc_dom. unfold in_vmalloc. lia.
      + intros h2 Ht. exists h2. split; [reflexivity|]. eapply pages_step; [exact Hp|lia|exact Hva|lia|exact Ht]. }
  eapply wp_mono; [exact Hwp|]. intros [] s' (h' & -> & Hp). rewrite Z2Nat.id in Hp by lia. by apply HQ.
Qed.
End range.

(** ** The state *)

Lemma areas_mono L L' fs bs ws v : areas_ok L fs bs ws v -> L ⊆ L' -> areas_ok L' fs bs ws v.
Proof.
  intros [(nil & oth & T & Hf & HLn & Hnil) Hb Hobj Hnd Ho Hap] Hsub.
  assert (Hs : forall p, is_Some (L !! p) -> is_Some (L' !! p)) by (intros p [z Hz]; exists z; by eapply lookup_weaken).
  split; [exists nil, oth, T; split_and!; auto|exact Hb| |exact Hnd|exact Ho|exact Hap].
  intros p Hp. destruct (Hobj p Hp) as (H1 & H2 & H3). split_and!; auto.
Qed.
Lemma vmap_ok_heap L L' fs bs v h : vmap_ok L fs bs v -> heap_ok L' h -> L ⊆ L' -> vmap_ok L' fs bs (set_vm_slab h v).
Proof.
  intros [H1 H2 H3 H4 H5 H6] Hh Hsub. split; [exact Hh|exact H2| |exact H4|exact H5|exact H6].
  eapply areas_ext; [..|eapply areas_mono; [exact H3|exact Hsub]]; reflexivity.
Qed.

(** No page of a free area is mapped, and every recorded mapping is a live object of the heap in the list. *)
Record io_ok (D : Z -> bool) (L : gmap Z Z) (fs bs ios : list Z) (s : vmem) (root : Z) : Prop := {
  io_areas : vmap_ok L fs bs (va_mgr s);
  io_memory : memory_ok D L (vm_slab (va_mgr s)) root;
  io_root : ttbr1_el1 (cpu_of s) = root;
  io_free p x : p ∈ fs -> area_start (vm_areas (va_mgr s)) p <= x < area_end (vm_areas (va_mgr s)) p -> mapping (cpu_of s) root x = None;
  io_unlocked : lock_free (io_map_lock s);
  io_list : dll (map_links s) IoListHead (IoNode <$> ios);
  io_live p : p ∈ ios -> is_Some (L !! p) /\ is_Some (io_maps s !! p);
}.

(** What is free after an allocation was free before. *)
Lemma taken_free L fs bs s p n fl L' fs' s' q x : areas_ok L fs bs [] s -> p ∈ fs -> 0 <= n -> taken L fs s p n fl L' fs' s' -> q ∈ fs' ->
  area_start (vm_areas s') q <= x < area_end (vm_areas s') q ->
  exists q0, q0 ∈ fs /\ area_start (vm_areas s) q0 <= x < area_end (vm_areas s) q0.
Proof.
  intros Ha Hp Hn Ht Hq Hx. pose proof (ao_nodup _ _ _ _ _ Ha) as Hnd. apply NoDup_app in Hnd as (Hnd & _ & _).
  assert (Hkeep : forall l r A', fs = l ++ p :: r -> q ∈ l ++ r -> A' !! q = vm_areas s !! q ->
    area_start A' q <= x < area_end A' q -> exists q0, q0 ∈ fs /\ area_start (vm_areas s) q0 <= x < area_end (vm_areas s) q0).
  { intros l r A' -> Hqin HA' Hx'. exists q. split; [set_solver|]. unfold area_start, area_end in *. by rewrite HA' in Hx'. }
  assert (Hpn : forall l r, fs = l ++ p :: r -> q ∈ l ++ r -> q <> p).
  { intros l r -> Hqin ->. rewrite <- Permutation_middle in Hnd. by apply NoDup_cons in Hnd as [? _]. }
  destruct Ht as [l r s' Hfs _ HA|l r l' r' f z s' Hfs Hlr HLf _ HA].
  - eapply (Hkeep l r (vm_areas s')); [exact Hfs|exact Hq| |exact Hx]. rewrite HA, lookup_insert_ne; [done|]. by apply not_eq_sym, (Hpn l r).
  - destruct (decide (q = f)) as [->|Hqf].
    + exists p. split; [exact Hp|]. assert (f <> p).
      { intros ->. destruct (ao_objs _ _ _ _ _ Ha p) as ([? ?] & _); [set_solver|congruence]. }
      unfold area_start at 1, area_end at 1 in Hx. rewrite HA, lookup_insert_ne, lookup_insert_eq in Hx by done. cbn in Hx. lia.
    + assert (Hqin : q ∈ l ++ r).
      { rewrite <- Hlr. apply elem_of_app in Hq as [Hq|[->|Hq]%elem_of_cons]; [|done|]; set_solver. }
      eapply (Hkeep l r (vm_areas s')); [exact Hfs|exact Hqin| |exact Hx].
      rewrite HA, !lookup_insert_ne; [done|congruence|]. by apply not_eq_sym, (Hpn l r).
Qed.

(** The area handed out lies in the free area it was taken from. *)
Lemma taken_inside L fs bs s p n fl L' fs' s' a e : areas_ok L fs bs [] s -> p ∈ fs -> taken L fs s p n fl L' fs' s' ->
  vm_areas s' !! p = Some (VmapArea a e fl) -> e <= area_end (vm_areas s) p.
Proof.
  intros Ha Hp Ht He. destruct (areas_at _ _ _ _ _ p Ha) as (b & Hb & Hok); [set_solver|].
  pose proof (area_ok_size _ _ _ Hb Hok) as Hsize. unfold area_start, area_end in *.
  destruct Ht as [l r s' _ _ HA|l r l' r' f z s' _ _ _ Hbig HA]; rewrite HA, lookup_insert_eq in He; injection He as _ <-.
  - unfold area_end. done.
  - unfold area_start. rewrite Hb. cbn. lia.
Qed.

(** ** [ioremap] *)

(** The mapping was recorded in a fresh object of the heap, or the heap is exhausted for the record. *)
Definition recorded (L : gmap Z Z) (fs bs ios : list Z) (a n : Z) (old : gmap Z io_mapping) (ios' : list Z) (s' : vmem) : Prop :=
  (ios' = ios /\ io_maps s' = old /\ exhausted (vm_slab (va_mgr s')) GFP_KERNEL 32) \/
  exists io z L0, ios' = io :: ios /\ io_maps s' = <[io := IoMapping a n]> old /\ L = <[io := z]> L0 /\ L0 !! io = None /\
    areas_ok L0 fs bs [] (va_mgr s').

Definition io_entry (phys i : Z) : Z := page_entry_at (phys - phys mod 4096) PAGE_DEVICE i.

Inductive ioremap_post (D : Z -> bool) (L : gmap Z Z) (fs bs ios : list Z) (phys size : Z) (s : vmem) (root : Z) : Z -> vmem -> Prop :=
| IoNone s' : size + phys mod 4096 = 0 \/ (forall q, q ∈ fs -> area_size (vm_areas (va_mgr s)) q < pages_up (size + phys mod 4096)) ->
    io_ok D L fs bs ios s' root -> (forall x, D (L0_INDEX x) = true -> mapping (cpu_of s') root x = mapping (cpu_of s) root x) ->
    ioremap_post D L fs bs ios phys size s root 0 s'
| IoMapped p a n e L' fs' ios' s' : 0 < size + phys mod 4096 -> p ∈ fs -> pages_up (size + phys mod 4096) <= area_size (vm_areas (va_mgr s)) p -> a = area_start (vm_areas (va_mgr s)) p -> a mod 4096 = 0 ->
    n * 4096 = pages_up (size + phys mod 4096) -> VMALLOC_START <= a -> a + n * 4096 <= e <= VMALLOC_END ->
    vm_areas (va_mgr s') !! p = Some (VmapArea a e VA_FLAG_IOREMAP) -> io_ok D L' fs' (p :: bs) ios' s' root ->
    recorded L' fs' (p :: bs) ios a n (io_maps s) ios' s' ->
    (forall q x, q ∈ p :: fs' -> area_start (vm_areas (va_mgr s')) q <= x < area_end (vm_areas (va_mgr s')) q -> mapping (cpu_of s) root x = None) ->
    (forall i, 0 <= i < n -> mapping (cpu_of s') root (a + i * 4096) = Some (io_entry phys i) \/
      mapping (cpu_of s') root (a + i * 4096) = None /\ free_pages (m_pmm (cpu_of s')) = 0) ->
    (forall x, D (L0_INDEX x) = true -> (forall i, 0 <= i < n -> ~ same_page x (a + i * 4096)) -> mapping (cpu_of s') root x = mapping (cpu_of s) root x) ->
    ioremap_post D L fs bs ios phys size s root (a + phys mod 4096) s'.

Lemma area_in_vmalloc L fs bs ws v p x : areas_ok L fs bs ws v -> p ∈ fs ++ bs ++ ws ->
  area_start (vm_areas v) p <= x < area_end (vm_areas v) p -> in_vmalloc x.
Proof.
  intros Ha Hp Hx. destruct (areas_at _ _ _ _ _ p Ha Hp) as (a & Hpa & Hok). pose proof (ar_range _ Hok) as Hr.
  unfold area_start, area_end in Hx. rewrite Hpa in Hx. cbn in Hx. unfold in_vmalloc. lia.
Qed.

Section record.
Context (D : Z -> bool) (L : gmap Z Z) (fs bs ios : list Z) (s : vmem) (root : Z).
Hypothesis vmalloc_dom : forall x, in_vmalloc x -> D (L0_INDEX x) = true.
Hypothesis ok : io_ok D L fs bs ios s root.

(** Calls of [kmalloc] leave the areas and the tables alone. *)
Lemma io_heap L' h : heap_run L (vm_slab (va_mgr s)) L' h -> heap_ok L' h -> io_ok D L' fs bs ios (put_slab h s) root /\
  forall x, D (L0_INDEX x) = true -> mapping (mach h) root x = mapping (cpu_of s) root x.
Proof using ok vmalloc_dom.
  intros Hrun Hh. destruct ok as [H1 H2 H3 H4 H5 H6 H7]. destruct (heap_run_memory D _ _ _ _ root Hrun H2) as (Hm & Hr & Hmap).
  pose proof (heap_run_sub _ _ _ _ Hrun) as Hsub. split; [|exact Hmap]. split.
  - by eapply vmap_ok_heap.
  - exact Hm.
  - exact (eq_trans (sr_ttbr1 _ _ Hr) H3).
  - intros p x Hp Hx. change (mapping (mach h) root x = None). rewrite Hmap; [by eapply H4|].
    apply vmalloc_dom. eapply area_in_vmalloc; [apply H1| |exact Hx]. set_solver.
  - exact H5.
  - exact H6.
  - intros p Hp. destruct (H7 p Hp) as [[z Hz] ?]. split; [|done]. exists z. by eapply lookup_weaken.
Qed.

(** The record of a mapping, when there is memory for it. *)
Lemma wp_record_io a n r (Q : Z -> vmem -> Prop) :
  (forall L' ios' s', io_ok D L' fs bs ios' s' root -> vm_areas (va_mgr s') = vm_areas (va_mgr s) ->
     recorded L' fs bs ios a n (io_maps s) ios' s' ->
     (forall x, D (L0_INDEX x) = true -> mapping (cpu_of s') root x = mapping (cpu_of s) root x) ->
     free_pages (m_pmm (cpu_of s')) <= free_pages (m_pmm (cpu_of s)) -> Q r s') ->
  wp (io ← on_heap (kmalloc 32 GFP_KERNEL);
      _ ← (if negb (io =? 0) then
             _ ← modify (fun s => set_io (<[io := IoMapping a n]> (io_maps s)) s);
             _ ← on_io_lock spin_lock;
             _ ← on_mlinks (list_add (IoNode io) IoListHead);
             on_io_lock spin_unlock
           else mret tt);
      mret r) Q s.
Proof using ok vmalloc_dom.
  intros HQ. pose proof (io_areas _ _ _ _ _ _ _ ok) as Hv. wp_step. unfold on_heap, on_va, on_slab. do 2 wp_step.
  eapply wp_mono; [apply (wp_kmalloc_grew L 32 GFP_KERNEL); [apply Hv|unfold SZ_4M; lia]|]. intros io h Hg.
  assert (Hless : free_pages (m_pmm (mach h)) <= free_pages (m_pmm (cpu_of s))) by (apply (kg_cost _ _ _ _ _ _ Hg 0); unfold fit_order; rewrite PAGE_SIZE_eq; lia).
  pose proof (kg_post _ _ _ _ _ _ Hg) as [_ [(-> & Hh & _)|(H0 & _ & z & _ & HLn & Hh)]].
  - destruct (io_heap L h) as [Hok' Hmap]; [eapply RunNull; [constructor|exact Hg|exact Hh]|exact Hh|].
    rewrite Z.eqb_refl. cbn [negb]. wp_step. wp_step. wp_step. apply (HQ L ios); [exact Hok'|reflexivity|left|exact Hmap|exact Hless]. split_and!; [done|done|]. exact (kg_still _ _ _ _ _ _ Hg eq_refl).
  - destruct (io_heap (<[io := z]> L) h) as [Hok' Hmap]; [eapply RunGot; [constructor|exact Hg|exact H0|exact HLn|exact Hh]|exact Hh|].
    rewrite (proj2 (Z.eqb_neq io 0) H0). cbn [negb]. pose proof Hok' as [K1 K2 K3 K4 K5 K6 K7].
    assert (Hfresh : io ∉ ios) by (intros Hin; destruct (io_live _ _ _ _ _ _ _ ok io Hin) as [[? ?] _]; congruence).
    do 4 wp_step. unfold on_io_lock, on_mlinks. wp_step. apply wp_spin_lock; [exact K5|]. do 2 wp_step.
    eapply wp_list_add; [exact K6| |].
    { intros [|Hin]%elem_of_cons; [done|]. by apply list_elem_of_fmap in Hin as (q & [= ->] & Hin). }
    intros lk Hlk _. wp_step. unfold spin_unlock, arch_spin_unlock. wp_step. wp_step.
    apply (HQ (<[io := z]> L) (io :: ios)); [|reflexivity| |exact Hmap|exact Hless].
    2: { right. exists io, z, L. split; [done|]. split; [done|]. split; [done|]. split; [exact HLn|].
         eapply areas_ext; [..|exact (vo_areas _ _ _ _ Hv)]; reflexivity. }
    split; [exact K1|exact K2|exact K3|exact K4|exact (spin_unlock_free _ K5)|exact Hlk|].
    intros p [->|Hp]%elem_of_cons.
    + split; [rewrite lookup_insert_eq; by eexists|]. cbn. rewrite lookup_insert_eq. by eexists.
    + destruct (K7 p Hp) as [Hl Hm]. split; [exact Hl|]. cbn. destruct (decide (p = io)) as [->|]; [rewrite lookup_insert_eq; by eexists|by rewrite lookup_insert_ne].
Qed.
End record.

Lemma wp_on_va {A} (c : M vmap A) (Q : A -> vmem -> Prop) s : wp c (fun a v => Q a (set_va_mgr v s)) (va_mgr s) -> wp (on_va c) Q s.
Proof. apply wp_zoom. Qed.

Section ioremap.
Context (D : Z -> bool) (L : gmap Z Z) (fs bs ios : list Z) (phys size : Z) (s : vmem) (root : Z).
Hypothesis vmalloc_dom : forall x, in_vmalloc x -> D (L0_INDEX x) = true.
Hypothesis ok : io_ok D L fs bs ios s root.
Hypothesis phys_ok : 0 <= phys /\ 0 <= size /\ phys + size + 4096 < 2 ^ 64.

Let off := phys mod 4096.
Let n := pages_up (size + off) / 4096.

Lemma io_pages : pages_of (add64 size off) = n /\ n * 4096 = pages_up (size + off) /\ 0 <= n /\ pages_up (size + off) < size + off + 4096.
Proof using phys_ok.
  unfold n, off, pages_of, pages_up. rewrite PAGE_SIZE_eq. assert (0 <= phys mod 4096 < 4096) by lia.
  assert (phys mod 4096 <= phys) by (apply Z.mod_le; lia).
  rewrite (add64_small size), add64_small, sub64_small by lia. split_and!; lia.
Qed.

(** The new area is apart from what is free. *)
Lemma io_allocated p a e L' fs' v h' : p ∈ fs -> a = area_start (vm_areas (va_mgr s)) p -> in_vmalloc a -> taken L fs (va_mgr s) p (pages_up (size + off)) VA_FLAG_IOREMAP L' fs' v ->
  vm_areas v !! p = Some (VmapArea a e VA_FLAG_IOREMAP) -> a + n * 4096 <= e <= VMALLOC_END -> vmap_ok L' fs' (p :: bs) v ->
  heap_run L (vm_slab (va_mgr s)) L' (vm_slab v) -> pages_tried D L' root a (phys - off) PAGE_DEVICE n (vm_slab v) h' ->
  io_ok D L' fs' (p :: bs) ios (put_slab h' (set_va_mgr v s)) root /\
  (forall q x, q ∈ p :: fs' -> area_start (vm_areas v) q <= x < area_end (vm_areas v) q -> mapping (cpu_of s) root x = None) /\
  (forall x, D (L0_INDEX x) = true -> (forall i, 0 <= i < n -> ~ same_page x (a + i * 4096)) -> mapping (mach h') root x = mapping (cpu_of s) root x) /\
  (forall i, 0 <= i < n -> mapping (mach h') root (a + i * 4096) = Some (io_entry phys i) \/
     mapping (mach h') root (a + i * 4096) = None /\ free_pages (heap_pmm h') = 0).
Proof using ok vmalloc_dom phys_ok.
  intros Hp -> Hin Ht Hpa He Hv Hrun Hps. set (a := area_start (vm_areas (va_mgr s)) p) in *.
  pose proof io_pages as (_ & Hn & Hn0 & _). pose proof (io_areas _ _ _ _ _ _ _ ok) as Hv0.
  destruct (heap_run_memory D _ _ _ _ root Hrun (io_memory _ _ _ _ _ _ _ ok)) as (Hm & Hr & Hmap).
  assert (Hsame : forall x, D (L0_INDEX x) = true -> (forall i, 0 <= i < n -> ~ same_page x (a + i * 4096)) ->
    mapping (mach h') root x = mapping (cpu_of s) root x).
  { intros x HD Hx. rewrite (ps_same _ _ _ _ _ _ _ _ _ Hps x HD Hx). by apply Hmap. }
  unfold in_vmalloc in Hin. destruct (areas_at _ _ _ _ _ p (vo_areas _ _ _ _ Hv)) as (b & Hb & Hbok); [set_solver|].
  rewrite Hpa in Hb. injection Hb as <-. destruct Hbok as [_ [Hal _]]. cbn [va_start] in Hal.
  assert (Hold : forall q x, q ∈ fs' -> area_start (vm_areas v) q <= x < area_end (vm_areas v) q -> mapping (cpu_of s) root x = None).
  { intros q x Hq Hx. destruct (taken_free L fs bs (va_mgr s) p (pages_up (size + off)) _ L' fs' v q x (vo_areas _ _ _ _ Hv0) Hp ltac:(lia) Ht Hq Hx) as (q0 & Hq0 & Hx0).
    by eapply (io_free _ _ _ _ _ _ _ ok). }
  assert (Hnew : forall q x, q ∈ p :: fs' -> area_start (vm_areas v) q <= x < area_end (vm_areas v) q -> mapping (cpu_of s) root x = None).
  { intros q x [->|Hq]%elem_of_cons Hx; [|by eapply Hold]. apply (io_free _ _ _ _ _ _ _ ok p); [exact Hp|]. fold a.
    pose proof (taken_inside _ _ _ _ _ _ _ _ _ _ _ _ (vo_areas _ _ _ _ Hv0) Hp Ht Hpa). unfold area_start, area_end in Hx. rewrite Hpa in Hx. cbn in Hx. lia. }
  split; [|split; [exact Hnew|split; [exact Hsame|]]].
  - split.
    + eapply vmap_ok_heap; [exact Hv|apply (ps_memory _ _ _ _ _ _ _ _ _ Hps)|done].
    + apply (ps_memory _ _ _ _ _ _ _ _ _ Hps).
    + change (ttbr1_el1 (mach h') = root). rewrite (sr_ttbr1 _ _ (ps_roots _ _ _ _ _ _ _ _ _ Hps)), (sr_ttbr1 _ _ Hr). apply ok.
    + intros q x Hq Hx. change (mapping (mach h') root x = None). change (area_start (vm_areas v) q <= x < area_end (vm_areas v) q) in Hx.
      assert (Hxin : in_vmalloc x) by (eapply area_in_vmalloc; [apply Hv| |exact Hx]; set_solver).
      rewrite Hsame; [by eapply Hold|by apply vmalloc_dom|]. intros i Hi Hs.
      apply vmalloc_page in Hs; [|exact Hxin|unfold in_vmalloc; lia].
      assert (Hap : apart (vm_areas v) p q).
      { apply (ao_apart _ _ _ _ _ (vo_areas _ _ _ _ Hv)); [set_solver..|]. intros <-.
        pose proof (ao_nodup _ _ _ _ _ (vo_areas _ _ _ _ Hv)) as Hnd. apply NoDup_app in Hnd as (_ & Hnd & _). apply (Hnd p Hq). set_solver. }
      assert (Hpe : area_start (vm_areas v) p = a /\ area_end (vm_areas v) p = e) by (unfold area_start, area_end; by rewrite Hpa).
      destruct Hpe as [Es Ee]. unfold apart in Hap. rewrite Es, Ee in Hap. lia.
    + apply ok.
    + apply ok.
    + intros q Hq. destruct (io_live _ _ _ _ _ _ _ ok q Hq) as [[z Hz] ?]. split; [|done]. exists z. eapply lookup_weaken; [exact Hz|by eapply heap_run_sub].
  - intros i Hi. destruct (ps_page _ _ _ _ _ _ _ _ _ Hps i Hi) as [H1|[H1 H0]]; [by left|right]. split; [|exact H0]. rewrite H1.
    assert (Hini : in_vmalloc (a + i * 4096)) by (unfold in_vmalloc; lia). rewrite Hmap by (by apply vmalloc_dom).
    apply (io_free _ _ _ _ _ _ _ ok p); [exact Hp|]. fold a.
    pose proof (taken_inside _ _ _ _ _ _ _ _ _ _ _ _ (vo_areas _ _ _ _ Hv0) Hp Ht Hpa). lia.
Qed.

(** What [ioremap] does, for the theorems on it and on [iounmap]. *)
Lemma ioremap_cases : exists r s', ioremap phys size s = Done (r, s') /\ ioremap_post D L fs bs ios phys size s root r s'.
Proof using ok vmalloc_dom phys_ok.
  apply (wp_done (ioremap phys size) (ioremap_post D L fs bs ios phys size s root)). pose proof io_pages as (Hpg & Hn & Hn0 & Hlt). pose proof vmalloc_bounds as (E1 & E2 & _).
  assert (Hoff : 0 <= off < 4096) by (unfold off; lia). assert (Hoffle : off <= phys) by (apply Z.mod_le; lia).
  assert (Eoff : Z.land phys (PAGE_SIZE - 1) = off).
  { rewrite PAGE_SIZE_eq. change (4096 - 1) with (2 ^ 12 - 1). by rewrite land_mask. }
  assert (Eal : Z.land phys PAGE_MASK = phys - off).
  { unfold PAGE_MASK. rewrite PAGE_SIZE_eq. change (4096 - 1) with (2 ^ 12 - 1). rewrite land_not_mask by (unfold is_u64; lia). done. }
  unfold ioremap. rewrite Eoff, Eal. cbv zeta. rewrite Hpg, (add64_small size) by lia.
  wp_step. apply wp_on_va. eapply wp_mono; [apply (wp_va_alloc L fs bs); [apply ok|lia|rewrite PAGE_SIZE_eq; lia]|].
  intros r v [Hpost _]. destruct Hpost as [v Hno HA Hv Hrun|p r e L' fs' v Hs0 Hp Hr Hal Hlo Hbest Ht Hpa He Hv Hrun].
  - rewrite Z.eqb_refl. wp_step. destruct (heap_run_memory D _ _ _ _ root Hrun (io_memory _ _ _ _ _ _ _ ok)) as (Hm & Hroots & Hmap).
    destruct ok as [K1 K2 K3 K4 K5 K6 K7]. eapply IoNone; [exact Hno| |exact Hmap].
    split; [exact Hv|exact Hm|exact (eq_trans (sr_ttbr1 _ _ Hroots) K3)| |exact K5|exact K6|exact K7].
    intros q x Hq Hx. change (mapping (mach (vm_slab v)) root x = None). change (area_start (vm_areas v) q <= x < area_end (vm_areas v) q) in Hx.
    rewrite Hmap; [by apply (K4 q); [|rewrite <- HA]|]. apply vmalloc_dom. eapply area_in_vmalloc; [apply Hv| |exact Hx]. set_solver.
  - rewrite (proj2 (Z.eqb_neq r 0)) by lia. wp_step.
    assert (Hup : 0 < pages_up (size + off)) by (unfold pages_up; lia). assert (Hin : in_vmalloc r) by (unfold in_vmalloc; lia).
    destruct (heap_run_memory D _ _ _ _ root Hrun (io_memory _ _ _ _ _ _ _ ok)) as (Hm & Hroots & _).
    apply (wp_map_pages D L' root); [exact vmalloc_dom|reflexivity|exact Hm|exact (eq_trans (sr_ttbr1 _ _ Hroots) (io_root _ _ _ _ _ _ _ ok))|
      exact Hin|exact Hn0|lia|lia|lia|]. intros h' Hps.
    destruct (io_allocated p r e L' fs' v h') as (Hok' & Hnew & Hsame & Hpages); try done; [lia|].
    assert (Hfits : pages_up (size + off) <= area_size (vm_areas (va_mgr s)) p).
    { pose proof (vo_areas _ _ _ _ (io_areas _ _ _ _ _ _ _ ok)) as Ha. destruct (areas_at _ _ _ _ _ p Ha) as (b & Hb & Hbok); [set_solver|].
      pose proof (area_ok_size _ _ _ Hb Hbok) as Hsize. pose proof (taken_inside _ _ _ _ _ _ _ _ _ _ _ _ Ha Hp Ht Hpa) as Hend.
      rewrite Hsize. unfold area_start, area_end in Hr, Hend. rewrite Hb in Hr, Hend. cbn in Hr, Hend. lia. }
    assert (Er : add64 r off = r + off) by (apply add64_small; lia). rewrite Er.
    apply (wp_record_io D L' fs' (p :: bs) ios (put_slab h' (set_va_mgr v s)) root vmalloc_dom Hok' r n (r + off)). intros L2 ios' s' Hok2 HA2 Hios Hmap2 Hless.
    eapply (IoMapped _ _ _ _ _ _ _ _ _ p r n e); [fold off; lia|exact Hp|exact Hfits|exact Hr|exact Hal|exact Hn|exact Hlo|lia|rewrite HA2; exact Hpa|exact Hok2|exact Hios|rewrite HA2; exact Hnew| |].
    + intros i Hi. rewrite Hmap2 by (apply vmalloc_dom; unfold in_vmalloc; lia). destruct (Hpages i Hi) as [H1|[H1 H0]]; [by left|right].
      split; [exact H1|]. pose proof (free_pages_nonneg [] _ (pt_pmm _ _ _ (me_tree _ _ _ _ (io_memory _ _ _ _ _ _ _ Hok2)))). unfold cpu_of, heap_pmm in *. cbn in Hless. lia.
    + intros x HD Hx. rewrite Hmap2 by exact HD. by apply Hsame.
Qed.

(** C19: [ioremap] returns for every physical range that does not wrap ([phys + size + 4096] below [2 ^ 64]).  It answers 0 exactly when the
    size is 0 at the start of a page (a size of 0 elsewhere maps the page) or no free area holds the range with the offset of
    its start, and neither areas nor mappings change; or the answer is the address of a fresh busy area with the
    offset of the physical address in its page.  Every page of the area that the range needs is mapped as device memory to the
    page of the range, or, which is not reported, is not mapped because the page allocator has no page left.  Every other address of the
    kernel is mapped as before, the mapping is recorded unless the heap is exhausted for the record, and areas, page tables and
    heap stay well formed together. *)
Theorem ioremap_correct : exists r s', ioremap phys size s = Done (r, s') /\ ioremap_post D L fs bs ios phys size s root r s'.
Proof using ok vmalloc_dom phys_ok. exact ioremap_cases. Qed.
End ioremap.

(** ** A booted kernel *)

Definition empty_io : links mnode := Links {[IoListHead := IoListHead]} {[IoListHead := IoListHead]}.
Definition sample_vmem (v : vmap) : vmem := Vmem ∅ ∅ ∅ ∅ empty_io SPIN_LOCK_UNLOCKED SPIN_LOCK_UNLOCKED SPIN_LOCK_UNLOCKED v.

Lemma sample_io : exists L p s, io_ok (fun _ => true) L [p] [] [] s (frame_addr 5) /\ vm_areas (va_mgr s) = {[p := whole]}.
Proof.
  destruct sample_objects_run as (pm & h0 & L & h & o & p & q & Hpm & Hm & Hok0 & Hrun & Hok & Hnd & Hobj).
  assert (Hop : p <> o) by (intros ->; apply NoDup_cons in Hnd as [Hnd _]; set_solver).
  destruct (whole_over L h o p Hok Hop) as (v & Hv & HA & Hvh); [apply Hobj; set_solver..|].
  assert (Hmem : memory_ok (fun _ => true) ∅ h0 (frame_addr 5)).
  { split; [exact Hok0|rewrite Hm; apply sample_pt_inv; [done|lia]|by intros ????? Hl%lookup_empty_Some]. }
  destruct (heap_run_memory _ _ _ _ _ (frame_addr 5) Hrun Hmem) as (Hm' & Hr & Hmap).
  exists L, p, (sample_vmem v). split; [|exact HA]. split.
  - exact Hv.
  - cbn. by rewrite Hvh.
  - unfold cpu_of. cbn. by rewrite Hvh, (sr_ttbr1 _ _ Hr), Hm.
  - intros q' x _ _. unfold cpu_of. cbn. rewrite Hvh, Hmap by done. rewrite Hm.
    unfold mapping, leaf, table_path. cbn [MmuTheory.walk]. unfold entry, ram_at. cbn. by rewrite lookup_empty.
  - reflexivity.
  - split; [split; reflexivity|apply NoDup_singleton].
  - by intros q' Hq%not_elem_of_nil.
Qed.

(** The first address of the area, with the offset of the device. *)
Lemma sample_answer L p s r s' : vm_areas (va_mgr s) = {[p := whole]} ->
  ioremap_post (fun _ => true) L [p] [] [] 0x9000018 0x1000 s (frame_addr 5) r s' -> r = VMALLOC_START + 0x18.
Proof.
  intros HA Hpost. destruct Hpost as [s' Hno|q a n e L' fs' ios' s' _ Hq _ -> _].
  - exfalso. destruct Hno as [Hno|Hno]; [discriminate Hno|]. specialize (Hno p ltac:(left)). unfold area_size in Hno.
    rewrite HA, lookup_singleton_eq in Hno. vm_compute in Hno. discriminate Hno.
  - apply list_elem_of_singleton in Hq as ->. unfold area_start. rewrite HA, lookup_singleton_eq. reflexivity.
Qed.

Lemma ioremap_correct_witness : exists L p s, io_ok (fun _ => true) L [p] [] [] s (frame_addr 5) /\
  exists s', ioremap 0x9000018 0x1000 s = Done (VMALLOC_START + 0x18, s').
Proof.
  destruct sample_io as (L & p & s & Hok & HA). exists L, p, s. split; [exact Hok|].
  destruct (ioremap_correct (fun _ => true) L [p] [] [] 0x9000018 0x1000 s (frame_addr 5) ltac:(reflexivity) Hok ltac:(lia)) as (r & s' & Hrun & Hpost).
  exists s'. by rewrite Hrun, <- (sample_answer L p s r s' HA Hpost).
Defined.
