(* ===== verification/IoProps.v ===== *)
(** [iounmap] undoes [ioremap] ([kernel/vmalloc.c]): pages that are unmapped one after the other, what [iounmap] does with a
    recorded mapping, and the round trip. *)
From stdpp Require Import sorting.
From S2P Require Import Prelude ListHead Pmm PmmTheory PmmOps PmmInit PmmProps Sync Machine Mmu MmuTheory MmuProps UserPages Slab SlabTheory SlabOps SlabFree SlabProps Memory Vmap VmapTheory VmapProps VmapAlloc VmapFree Vmalloc VmallocProps.
Open Scope Z_scope.

(** ** Pages that are unmapped *)

Section kernel_page.
Context (D : Z -> bool) (L : gmap Z Z) (h : slab) (root : Z).
Hypothesis ok : memory_ok D L h root.
Hypothesis at_root : ttbr1_el1 (mach h) = root.

Lemma wp_unmap_kernel_page va (Q : unit -> slab -> Prop) : is_user_addr va = false -> D (L0_INDEX va) = true ->
  (forall h', memory_ok D L h' root -> same_roots (mach h) (mach h') ->
     (forall x, D (L0_INDEX x) = true -> mapping (mach h') root x = if decide (same_page x va) then None else mapping (mach h) root x) ->
     Q tt h') -> wp (on_mach (unmap_kernel_page va)) Q h.
Proof using ok at_root.
  intros Hk HD HQ. unfold unmap_kernel_page, pgtbl_unmap_one_page, sync_bases. apply wp_on_mach. do 2 wp_step.
  set (m1 := set_pgtbl_bases _ _ _).
  assert (Hr1 : other_regs (mach h) m1).
  { exists (daif (mach h)), (slab_linear_map_base (mach h)), (slab_l0_table_pa (mach h)). by destruct (mach h). }
  pose proof (regs_memory D L h m1 root ok Hr1) as Hok1.
  assert (Hroot : root_of m1 va = root) by (unfold root_of; rewrite Hk; exact at_root).
  apply (wp_unmap_one_page D); rewrite ?Hroot; [exact (me_tree _ _ _ _ Hok1)|exact HD|]. intros m2 [Hi Hm Hf _].
  apply HQ.
  - exact (tables_memory D L (set_mach m1 h) m2 root Hok1 Hi Hf).
  - eapply same_roots_trans; [by apply other_roots|by apply regs_roots, Hf].
  - intros x HDx. cbn. rewrite Hm by done. by rewrite (regs_mapping D L h m1 root ok Hr1 x HDx).
Qed.
End kernel_page.

Section range.
Context (D : Z -> bool) (L : gmap Z Z) (root va : Z).
Hypothesis vmalloc_dom : forall x, in_vmalloc x -> D (L0_INDEX x) = true.

(** The first [n] pages are unmapped, all others are as before. *)
Record pages_cleared (n : Z) (h h' : slab) : Prop := {
  pc_memory : memory_ok D L h' root;
  pc_roots : same_roots (mach h) (mach h');
  pc_same x : D (L0_INDEX x) = true -> (forall i, 0 <= i < n -> ~ same_page x (va + i * 4096)) -> mapping (mach h') root x = mapping (mach h) root x;
  pc_none i x : D (L0_INDEX x) = true -> 0 <= i < n -> same_page x (va + i * 4096) -> mapping (mach h') root x = None;
}.

Lemma wp_unmap_pages n (Q : unit -> vmem -> Prop) s : memory_ok D L (vm_slab (va_mgr s)) root -> ttbr1_el1 (cpu_of s) = root ->
  in_vmalloc va -> 0 <= n -> va + n * 4096 <= VMALLOC_END ->
  (forall h', pages_cleared n (vm_slab (va_mgr s)) h' -> Q tt (put_slab h' s)) -> wp (unmap_pages va n) Q s.
Proof using vmalloc_dom.
  intros Hok Hroot Hva Hn Hend HQ. pose proof vmalloc_bounds as (E1 & E2 & _). set (h0 := vm_slab (va_mgr s)) in *.
  assert (Hwp : wp (unmap_pages va n) (fun _ s' => exists h', s' = put_slab h' s /\ pages_cleared (0 + Z.of_nat (Z.to_nat n)) h0 h') s).
  { apply (wp_for_n (fun i s' => exists h', s' = put_slab h' s /\ pages_cleared i h0 h')).
    - exists h0. split; [symmetry; apply put_slab_id|]. split; [exact Hok|by split|done|lia].
    - intros i s' Hi (h1 & -> & [M1 R1 S1 N1]). unfold on_machine, on_heap, on_va, on_slab. wp_step. wp_step.
      unfold in_vmalloc in Hva. rewrite PAGE_SIZE_eq.
      assert (Em : mul64 i 4096 = i * 4096) by (unfold mul64, u64; apply Z.mod_small; lia). rewrite Em, !add64_small by lia.
      change (vm_slab (va_mgr (put_slab h1 s))) with h1.
      apply (wp_unmap_kernel_page D L h1 root); [exact M1| | | |].
      + rewrite (sr_ttbr1 _ _ R1). exact Hroot.
      + apply vmalloc_kernel. unfold in_vmalloc. lia.
      + apply vmalloc_dom. unfold in_vmalloc. lia.
      + intros h2 M2 R2 S2. exists h2. split; [reflexivity|]. split; [exact M2|by eapply same_roots_trans| |].
        * intros x HD Hx. rewrite S2, decide_False by (done || apply Hx; lia). apply S1; [done|]. intros j Hj. apply Hx. lia.
        * intros j x HD Hj Hs. rewrite S2 by done. destruct (decide _); [done|]. apply (N1 j); [done| |done].
          destruct (decide (j = i)) as [->|]; [done|lia]. }
  eapply wp_mono; [exact Hwp|]. intros [] s' (h' & -> & Hp). rewrite Z2Nat.id in Hp by lia. by apply HQ.
Qed.
End range.

(** The search finds the first record when it is the one. *)
Lemma wp_find_first io ios a n (Q : option Z -> vmem -> Prop) s : dll (map_links s) IoListHead (IoNode <$> io :: ios) ->
  io_maps s !! io = Some (IoMapping a n) -> Q (Some io) s ->
  wp (find_entry IoListHead (fun s => size (io_maps s)) io_of (fun p => r ← io_at p; mret (io_addr r =? a))) Q s.
Proof.
  intros Hd Hio HQ. unfold find_entry, on_mlinks. wp_step. wp_step. eapply wp_read_nxt; [exact Hd|]. cbn [first_of head fmap list_fmap default].
  replace (set_mlinks (map_links s) s) with s by (by destruct s). do 2 wp_step. cbn [loop]. wp_step. rewrite decide_False by done.
  wp_step. cbn [io_of id]. do 3 wp_step. unfold io_at. do 2 wp_step. eapply wp_of_option; [exact Hio|]. wp_step. cbn [io_addr].
  rewrite Z.eqb_refl. do 2 wp_step. exact HQ.
Qed.

(** Any property of the outcome of a sequence whose first part returns. *)
Lemma bind_any {S A B} (R : outcome (B * S) -> Prop) (m : M S A) (k : A -> M S B) s : wp m (fun a s' => R (k a s')) s -> R ((m ≫= k) s).
Proof. unfold wp, mbind, M_bind. by destruct (m s) as [[a s']| |]. Qed.

(** Addresses of one page. *)
Lemma number_same_page x y : x / 4096 = y / 4096 -> same_page x y.
Proof.
  intros E. assert (forall k, 12 <= k -> shr64 x k = shr64 y k) as Hs.
  { intros k Hk. rewrite !shr64_div by lia. replace k with (12 + (k - 12)) by lia. rewrite Z.pow_add_r, <- !Z.div_div by lia. change (2 ^ 12) with 4096. by rewrite E. }
  unfold same_page, table_path, L0_INDEX, L1_INDEX, L2_INDEX, L3_INDEX. by rewrite !Hs by lia.
Qed.

Lemma same_page_mapping m root x y : same_page x y -> mapping m root x = mapping m root y.
Proof. intros [E1 E2]. unfold mapping. by rewrite E1, E2. Qed.

(** ** [iounmap] of a recorded mapping *)

Section iounmap.
Context (D : Z -> bool) (L : gmap Z Z) (fs bs ios : list Z) (s : vmem) (root : Z).
Context (io z p a n e fl addr : Z).
Hypothesis vmalloc_dom : forall x, in_vmalloc x -> D (L0_INDEX x) = true.
Hypothesis ok : io_ok D (<[io := z]> L) fs (p :: bs) (io :: ios) s root.
Hypothesis fresh : L !! io = None.
Hypothesis areas : areas_ok L fs (p :: bs) [] (va_mgr s).
Hypothesis at_io : io_maps s !! io = Some (IoMapping a n).
Hypothesis at_area : vm_areas (va_mgr s) !! p = Some (VmapArea a e fl).
Hypothesis bounds : 0 <= n /\ a + n * 4096 <= e.
Hypothesis at_addr : addr <> 0 /\ Z.land addr PAGE_MASK = a.

(** Before the area is given back: the record is gone and the pages are unmapped. *)
Record torn (s' : vmem) : Prop := {
  to_areas : vmap_ok L fs (p :: bs) (va_mgr s');
  to_same : vm_areas (va_mgr s') = vm_areas (va_mgr s);
  to_memory : memory_ok D L (vm_slab (va_mgr s')) root;
  to_root : ttbr1_el1 (cpu_of s') = root;
  to_lock : lock_free (io_map_lock s');
  to_list : dll (map_links s') IoListHead (IoNode <$> ios);
  to_maps : io_maps s' = delete io (io_maps s);
  to_live q : q ∈ ios -> is_Some (L !! q) /\ is_Some (io_maps s' !! q);
  to_rest x : D (L0_INDEX x) = true -> (forall i, 0 <= i < n -> ~ same_page x (a + i * 4096)) -> mapping (cpu_of s') root x = mapping (cpu_of s) root x;
  to_none i x : D (L0_INDEX x) = true -> 0 <= i < n -> same_page x (a + i * 4096) -> mapping (cpu_of s') root x = None;
}.

Lemma area_place : in_vmalloc a /\ a + n * 4096 <= VMALLOC_END /\ a mod 4096 = 0.
Proof using All.
  destruct (areas_at _ _ _ _ _ p areas) as (b & Hb & [Hr Hal]); [set_solver|]. rewrite at_area in Hb. injection Hb as <-. cbn in *.
  unfold in_vmalloc. lia.
Qed.

Lemma iounmap_torn (R : outcome (unit * vmem) -> Prop) : (forall s', torn s' -> R (on_va (va_free a) s')) -> R (iounmap addr s).
Proof using All.
  intros HR. destruct at_addr as [H0 Ha]. destruct area_place as (Hin & Hend & _). pose proof ok as [K1 K2 K3 K4 K5 K6 K7].
  assert (Hio : io ∉ ios).
  { destruct K6 as [_ Hnd]. apply NoDup_cons in Hnd as [_ Hnd]. cbn in Hnd. apply NoDup_cons in Hnd as [Hnd _]. intros Hin'. apply Hnd, list_elem_of_fmap. by exists io. }
  unfold iounmap. rewrite (proj2 (Z.eqb_neq addr 0) H0), Ha. apply bind_any. unfold on_io_lock. wp_step. apply wp_spin_lock; [exact K5|].
  apply bind_any. eapply wp_find_first; [exact K6|exact at_io|]. apply bind_any.
  wp_step. unfold io_at. do 2 wp_step. eapply wp_of_option; [exact at_io|]. cbn [io_nr_pages].
  wp_step. unfold on_mlinks. wp_step. apply (wp_list_del IoListHead [] (IoNode io) (IoNode <$> ios)); [exact K6|]. intros lk Hlk _. cbn [app] in Hlk.
  do 3 wp_step. unfold on_heap, on_va at 1, on_slab. do 2 wp_step.
  eapply wp_mono; [apply (wp_kfree (<[io := z]> L) io z); [apply K1|apply lookup_insert_eq]|]. intros [] h Hf. wp_step.
  pose proof (kfree_memory D _ _ io z h root K2 (lookup_insert_eq _ _ _) Hf) as Hm. pose proof (kf_ok _ _ _ _ Hf) as Hok.
  pose proof (kfree_mapping D _ _ io z h root K2 (lookup_insert_eq _ _ _) Hf) as Hmap. pose proof (kept_regs _ _ _ (kf_kept _ _ _ _ Hf)) as Hregs.
  rewrite delete_insert_id in Hm, Hok by exact fresh.
  apply bind_any. unfold spin_unlock, arch_spin_unlock. wp_step. wp_step. apply bind_any.
  apply (wp_unmap_pages D L root a vmalloc_dom); [exact Hm| |exact Hin|apply bounds|exact Hend|].
  { unfold cpu_of. cbn. rewrite (sr_ttbr1 _ _ (regs_roots _ _ Hregs)). exact K3. }
  intros h' [M3 R3 S3 N3]. apply HR. split.
  - split; [exact (me_heap _ _ _ _ M3)|exact (vo_lock _ _ _ _ K1)| |exact (vo_stack _ _ _ _ K1)|exact (vo_free _ _ _ _ K1)|exact (vo_busy _ _ _ _ K1)].
    eapply areas_ext; [..|exact areas]; reflexivity.
  - reflexivity.
  - exact M3.
  - unfold cpu_of. cbn. rewrite (sr_ttbr1 _ _ R3). cbn. rewrite (sr_ttbr1 _ _ (regs_roots _ _ Hregs)). exact K3.
  - exact (spin_unlock_free _ K5).
  - exact Hlk.
  - reflexivity.
  - intros q Hq. destruct (K7 q ltac:(set_solver)) as [HL Hr]. assert (q <> io) by (intros ->; contradiction).
    rewrite lookup_insert_ne in HL by congruence. split; [exact HL|]. cbn. by rewrite lookup_delete_ne by congruence.
  - intros x HD Hx. change (mapping (mach h') root x = mapping (cpu_of s) root x). rewrite (S3 x HD Hx). by apply Hmap.
  - exact N3.
Qed.

Lemma areas_nodup : p ∉ fs /\ p ∉ bs.
Proof using All.
  pose proof (ao_nodup _ _ _ _ _ areas) as Hnd. rewrite app_nil_r in Hnd. apply NoDup_app in Hnd as (_ & Hno & Hbs).
  apply NoDup_cons in Hbs as [Hpb _]. split; [|exact Hpb]. intros Hp. apply (Hno p Hp). set_solver.
Qed.

(** What lies in a free area has other pages. *)
Lemma outside x q : q ∈ fs -> area_start (vm_areas (va_mgr s)) q <= x < area_end (vm_areas (va_mgr s)) q -> forall i, 0 <= i < n -> ~ same_page x (a + i * 4096).
Proof using All.
  intros Hq Hx i Hi Hs. destruct area_place as (Hin & Hend & Hal). destruct areas_nodup as (Hpf & _).
  assert (in_vmalloc x) as Hxin by (eapply area_in_vmalloc; [exact areas| |exact Hx]; set_solver).
  unfold in_vmalloc in Hin. apply vmalloc_page in Hs; [|exact Hxin|unfold in_vmalloc; lia].
  assert (apart (vm_areas (va_mgr s)) p q) as Hap by (apply (ao_apart _ _ _ _ _ areas); [set_solver..|by intros ->]).
  unfold apart, area_start at 2, area_end at 1 in Hap. rewrite at_area in Hap. cbn in Hap. lia.
Qed.

(** [iounmap] gives the area back, or runs into the free area that ends where it starts. *)
Lemma iounmap_cases : (forall y, a + n * 4096 <= y < e -> mapping (cpu_of s) root y = None) ->
  ((exists q, q ∈ fs /\ area_end (vm_areas (va_mgr s)) q = a) /\ iounmap addr s = Undef) \/
  (exists fs' s', iounmap addr s = Done (tt, s') /\ io_ok D L fs' bs ios s' root /\
     fs' ≡ₚ p :: fs /\ vm_areas (va_mgr s') = vm_areas (va_mgr s) /\ io_maps s' = delete io (io_maps s) /\
     (forall i x, D (L0_INDEX x) = true -> 0 <= i < n -> same_page x (a + i * 4096) -> mapping (cpu_of s') root x = None) /\
     (forall x, D (L0_INDEX x) = true -> (forall i, 0 <= i < n -> ~ same_page x (a + i * 4096)) -> mapping (cpu_of s') root x = mapping (cpu_of s) root x)).
Proof using All.
  intros Hrest. destruct area_place as (Hin & Hend & Hal). destruct areas_nodup as (Hpf & Hpb). unfold in_vmalloc in Hin. pose proof vmalloc_bounds as (E1 & E2 & _).
  apply (iounmap_torn (fun o => (_ /\ o = Undef) \/ (exists fs' s', o = Done (tt, s') /\ _))). intros s3 Ht.
  destruct (va_free_cases L fs (p :: bs) a (va_mgr s3) (to_areas s3 Ht)) as [([H0|Hno] & _)|(l & p' & r & _ & Hl & Hst & Hcase)].
  - lia.
  - exfalso. apply (Hno p); [set_solver|]. rewrite (to_same s3 Ht). unfold area_start. by rewrite at_area.
  - assert (p' = p /\ l = [] /\ r = bs) as (-> & -> & ->).
    { assert (p' = p) as ->.
      { apply (start_inj L fs (p :: bs) [] (va_mgr s)); [exact areas|rewrite Hl; set_solver|set_solver|]. rewrite <- (to_same s3 Ht), Hst. rewrite (to_same s3 Ht). unfold area_start. by rewrite at_area. }
      destruct l as [|y l]; cbn in Hl; [by injection Hl as ->|]. injection Hl as <- Ebs. exfalso. apply Hpb. rewrite Ebs. set_solver. }
    destruct Hcase as [(_ & v & l' & r' & Hrun & Hfs & Hv & HA & Hrest')|((q & Hq & Hqe) & Hun)].
    + right. exists (l' ++ p :: r'), (set_va_mgr v s3). injection Hrest' as _ _ Hslab.
      assert (cpu_of (set_va_mgr v s3) = cpu_of s3) as Hcpu by (unfold cpu_of; cbn; by rewrite Hslab).
      split; [unfold on_va, zoom; by rewrite Hrun|].
      split; [|split_and!; [by rewrite Hfs, Permutation_middle|cbn; by rewrite HA, (to_same s3 Ht)|exact (to_maps s3 Ht)|rewrite Hcpu; exact (to_none s3 Ht)|rewrite Hcpu; exact (to_rest s3 Ht)]].
      split; [exact Hv|cbn; rewrite Hslab; exact (to_memory s3 Ht)|rewrite Hcpu; exact (to_root s3 Ht)| |exact (to_lock s3 Ht)|exact (to_list s3 Ht)|exact (to_live s3 Ht)].
      intros q x Hq Hx. rewrite Hcpu. cbn [va_mgr set_va_mgr] in Hx. rewrite HA, (to_same s3 Ht) in Hx.
      assert (Hq' : q = p \/ q ∈ fs) by (rewrite Hfs; set_solver). destruct Hq' as [->|Hqf].
      * assert (in_vmalloc x) as Hinx by (eapply area_in_vmalloc; [exact areas| |exact Hx]; set_solver).
        unfold area_start, area_end in Hx. rewrite at_area in Hx. cbn in Hx. destruct (decide (x < a + n * 4096)) as [Hlt|Hge].
        -- apply (to_none s3 Ht ((x - a) / 4096)); [by apply vmalloc_dom|lia|]. apply number_same_page. lia.
        -- rewrite (to_rest s3 Ht); [apply Hrest; lia|by apply vmalloc_dom|]. intros i Hi Hs.
           apply vmalloc_page in Hs; [lia|exact Hinx|unfold in_vmalloc; lia].
      * rewrite (to_rest s3 Ht); [by eapply (io_free _ _ _ _ _ _ _ ok)| |by eapply outside].
        apply vmalloc_dom. eapply area_in_vmalloc; [exact areas| |exact Hx]. set_solver.
    + left. split; [exists q; split; [exact Hq|]; by rewrite <- (to_same s3 Ht)|]. unfold on_va, zoom. by rewrite Hun.
Qed.
End iounmap.
(** ** [ioremap], then [iounmap] *)

Section undo.
Context (D : Z -> bool) (L : gmap Z Z) (fs bs ios : list Z) (phys size : Z) (s : vmem) (root : Z).
Hypothesis vmalloc_dom : forall x, in_vmalloc x -> D (L0_INDEX x) = true.
Hypothesis ok : io_ok D L fs bs ios s root.
Hypothesis phys_ok : 0 <= phys /\ 0 <= size /\ phys + size + 4096 < 2 ^ 64.

(** The record of the mapping [r] in [s1] and the area [p] it describes. *)
Definition io_recorded (r : Z) (s1 : vmem) (L1 : gmap Z Z) (fs1 : list Z) (p io : Z) : Prop :=
  io_ok D L1 fs1 (p :: bs) (io :: ios) s1 root /\ area_start (vm_areas (va_mgr s1)) p = r - phys mod 4096 /\
  exists n, io_maps s1 = <[io := IoMapping (r - phys mod 4096) n]> (io_maps s).

(** What is left after the mapping [r], made in [s1], is taken down. *)
Inductive undo_post (r : Z) (s1 : vmem) : Prop :=
| UndoRefused : r = 0 -> (forall x, D (L0_INDEX x) = true -> mapping (cpu_of s1) root x = mapping (cpu_of s) root x) -> undo_post r s1
| UndoUnrecorded : r <> 0 -> io_maps s1 = io_maps s -> exhausted (vm_slab (va_mgr s1)) GFP_KERNEL 32 -> undo_post r s1
| UndoBelow L1 fs1 p io q : io_recorded r s1 L1 fs1 p io -> q ∈ fs1 -> area_end (vm_areas (va_mgr s1)) q = r - phys mod 4096 ->
    iounmap r s1 = Undef -> undo_post r s1
| UndoDone L1 fs1 p io L2 fs2 s2 : io_recorded r s1 L1 fs1 p io ->
    iounmap r s1 = Done (tt, s2) -> io_ok D L2 fs2 bs ios s2 root ->
    fs2 ≡ₚ p :: fs1 -> vm_areas (va_mgr s2) = vm_areas (va_mgr s1) -> io_maps s2 = delete io (io_maps s) ->
    (forall x, D (L0_INDEX x) = true -> mapping (cpu_of s2) root x = mapping (cpu_of s) root x) -> undo_post r s1.

(** C20: mapping a device and unmapping it again leaves the kernel as it was.  After [ioremap] of a physical range that does not
    wrap, [iounmap] of the address it returned takes the record out of the list and the store, restores the mapping of every kernel
    address, and the area that was busy is in the free list again, as large as it was, with heap, areas and page tables well formed
    together.  The other cases: the request was refused and no mapping changed; the heap was exhausted for the record, so
    that [iounmap] would not know the size; or a free area ends where the new one starts, and then the merge
    in [va_free] uses memory it has given back. *)
Theorem ioremap_iounmap : exists r s1, ioremap phys size s = Done (r, s1) /\ undo_post r s1.
Proof using ok vmalloc_dom phys_ok.
  destruct (ioremap_cases D L fs bs ios phys size s root vmalloc_dom ok phys_ok) as (r & s1 & Hrun & Hpost).
  exists r, s1. split; [exact Hrun|].
  destruct Hpost as [s1 _ _ Hsame|p a n e L' fs' ios' s1 _ Hp _ _ Hal Hn Hlo Hhi Hpa Hok1 Hrec Hnew _ Hkeep]; [by apply UndoRefused|].
  pose proof vmalloc_bounds as (E1 & E2 & _).
  assert (0 <= phys mod 4096 < 4096) as Hoff by (apply Z.mod_pos_bound; lia).
  destruct Hrec as [(_ & Hsame & Hex)|(io & z & L0 & -> & Hmaps & -> & Hfresh & Hareas)]; [apply UndoUnrecorded; [lia|done|done]|].
  assert (io_maps s1 !! io = Some (IoMapping a n)) as Hio by (rewrite Hmaps; apply lookup_insert_eq).
  assert (0 <= n) as Hn0 by (unfold pages_up in Hn; lia).
  assert (area_start (vm_areas (va_mgr s1)) p = a /\ area_end (vm_areas (va_mgr s1)) p = e) as [Es Ee] by (unfold area_start, area_end; by rewrite Hpa).
  assert (forall y, a <= y < e -> mapping (cpu_of s) root y = None) as Hnone.
  { intros y Hy. apply (Hnew p); [left|by rewrite Es, Ee]. }
  assert (forall y, a <= y < e -> in_vmalloc y) as Hin by (intros y Hy; unfold in_vmalloc; lia).
  assert (a + phys mod 4096 <> 0 /\ Z.land (a + phys mod 4096) PAGE_MASK = a) as Hat.
  { split; [lia|]. unfold PAGE_MASK. rewrite PAGE_SIZE_eq. change (4096 - 1) with (2 ^ 12 - 1).
    rewrite land_not_mask by (unfold is_u64; lia). change (2 ^ 12) with 4096. lia. }
  assert (io_recorded (a + phys mod 4096) s1 (<[io := z]> L0) fs' p io) as Hrec1.
  { split; [exact Hok1|]. replace (a + phys mod 4096 - phys mod 4096) with a by lia. split; [exact Es|by exists n]. }
  destruct (iounmap_cases D L0 fs' bs ios s1 root io z p a n e VA_FLAG_IOREMAP (a + phys mod 4096) vmalloc_dom Hok1 Hfresh Hareas Hio Hpa ltac:(lia) Hat)
    as [((q & Hq & Hqe) & Hun)|(fs2 & s2 & Hun & Hok2 & Hfs2 & Hareas2 & Hmaps2 & Hcleared & Hothers)].
  - intros y Hy. rewrite Hkeep; [apply Hnone; lia|apply vmalloc_dom, Hin; lia|]. intros i Hi Hs.
    apply vmalloc_page in Hs; [lia|apply Hin; lia..].
  - eapply UndoBelow; [exact Hrec1|exact Hq| |exact Hun]. lia.
  - eapply UndoDone; [exact Hrec1|exact Hun|exact Hok2|exact Hfs2|exact Hareas2|rewrite Hmaps2, Hmaps; by apply delete_insert_eq|]. intros x HD.
    destruct (decide (Exists (fun i => same_page x (a + i * 4096)) (seqZ 0 n))) as [(i & Hi%elem_of_seqZ & Hs)%list.Exists_exists|Hno].
    + rewrite (Hcleared i) by done. symmetry. rewrite (same_page_mapping (cpu_of s) root _ _ Hs). apply Hnone. lia.
    + assert (forall i, 0 <= i < n -> ~ same_page x (a + i * 4096)) as Hno' .
      { intros i Hi Hs. apply Hno, list.Exists_exists. exists i. split; [apply elem_of_seqZ; lia|done]. }
      by rewrite Hothers, Hkeep.
Qed.
End undo.

Lemma ioremap_iounmap_witness : exists L p s, io_ok (fun _ => true) L [p] [] [] s (frame_addr 5) /\
  exists s1, ioremap 0x9000018 0x1000 s = Done (VMALLOC_START + 0x18, s1) /\
    (io_maps s1 = io_maps s \/ exists s2, iounmap (VMALLOC_START + 0x18) s1 = Done (tt, s2) /\
      forall x, mapping (cpu_of s2) (frame_addr 5) x = mapping (cpu_of s) (frame_addr 5) x).
Proof.
  destruct sample_io as (L & p & s & Hok & HA). exists L, p, s. split; [exact Hok|].
  destruct (ioremap_iounmap (fun _ => true) L [p] [] [] 0x9000018 0x1000 s (frame_addr 5) ltac:(reflexivity) Hok ltac:(lia)) as (r & s1 & Hrun & Hundo).
  assert (r = VMALLOC_START + 0x18) as ->.
  { destruct (ioremap_cases (fun _ => true) L [p] [] [] 0x9000018 0x1000 s (frame_addr 5) ltac:(reflexivity) Hok ltac:(lia)) as (r' & s' & Hrun' & Hpost).
    rewrite Hrun in Hrun'. injection Hrun' as <- <-. by apply (sample_answer L p s r s1 HA). }
  exists s1. split; [exact Hrun|]. destruct Hundo as [H0 _|_ Hsame _|L1 fs1 p1 io q (Hok1 & _) Hq Hend _|L1 fs1 p1 io L2 fs2 s2 _ Hun _ _ _ _ Hmap].
  - discriminate H0.
  - by left.
  - exfalso. destruct (areas_at _ _ _ _ _ q (vo_areas _ _ _ _ (io_areas _ _ _ _ _ _ _ Hok1)) ltac:(set_solver)) as (b & Hb & [Hr _]).
    unfold area_end in Hend. rewrite Hb in Hend. cbn in Hend. change (0x9000018 mod 4096) with 0x18 in Hend. lia.
  - right. exists s2. split; [exact Hun|]. intros x. by apply Hmap.
Defined.
