(* ===== verification/Mm.v ===== *)
(** Process address spaces ([kernel/mm.c], [kernel/brk.c], [kernel/page_fault.c],
    [kernel/sys_mm.c], [include/mm_defs.h], [include/mm.h], [include/brk.h]).

    A [struct mm_struct] and a [struct vma_area] are objects of the heap named by their address
    (0 is NULL) in typed stores; [kfree] removes the object, so a use after free is undefined.
    Page loops are bounded by the number of pages of the 64-bit address space.  What the fault
    handler prints goes to [console]. *)
From S2P Require Import Prelude ListHead Pmm Sync Machine Mmu Slab Vmap Vmalloc.

Definition VM_READ : Z := Z.shiftl 1 0.
Definition VM_WRITE : Z := Z.shiftl 1 1.
Definition VM_EXEC : Z := Z.shiftl 1 2.
Definition VM_ANONYMOUS : Z := Z.shiftl 1 3.
Definition MMAP_BASE : Z := 0xffff000010000000.

Record vma_area := VmaArea { vm_start : Z; vm_end : Z; vm_flags : Z; vm_next : Z }.
Record mm_struct := MmStruct {
  mmap : Z;
  start_brk : Z;
  brk : Z;
  start_stack : Z;
  pgd : Z;
  mm_lock : arch_spinlock;
}.
Definition init_mm : mm_struct := MmStruct 0 0 0 0 0 SPIN_LOCK_UNLOCKED.

Record spaces := Spaces {
  mms : gmap Z mm_struct;
  vmas : gmap Z vma_area;
  current_mm : Z;
  console : list Z;
  kmem : vmem;
}.
Definition set_mms x (s : spaces) : spaces := Spaces x (vmas s) (current_mm s) (console s) (kmem s).
Definition set_vmas x (s : spaces) : spaces := Spaces (mms s) x (current_mm s) (console s) (kmem s).
Definition set_current x (s : spaces) : spaces := Spaces (mms s) (vmas s) x (console s) (kmem s).
Definition set_console x (s : spaces) : spaces := Spaces (mms s) (vmas s) (current_mm s) x (kmem s).
Definition set_kmem x (s : spaces) : spaces := Spaces (mms s) (vmas s) (current_mm s) (console s) x.

Definition on_kmem {A} (m : M vmem A) : M spaces A := zoom kmem set_kmem m.
Definition on_kheap {A} (m : M slab A) : M spaces A := on_kmem (on_heap m).
Definition on_cpu {A} (m : M machine A) : M spaces A := on_kmem (on_machine m).
Definition cpu (s : spaces) : machine := mach (vm_slab (va_mgr (kmem s))).

(** ** Objects *)

Definition mm_at (mm : Z) : M spaces mm_struct := t ← gets mms; of_option (t !! mm).
Definition put_mm (mm : Z) (f : mm_struct -> mm_struct) : M spaces unit :=
  x ← mm_at mm; modify (fun s => set_mms (<[mm := f x]> (mms s)) s).
Definition vma_at (vma : Z) : M spaces vma_area := t ← gets vmas; of_option (t !! vma).
Definition put_vma (vma : Z) (f : vma_area -> vma_area) : M spaces unit :=
  x ← vma_at vma; modify (fun s => set_vmas (<[vma := f x]> (vmas s)) s).

Definition set_mmap v (x : mm_struct) := MmStruct v (start_brk x) (brk x) (start_stack x) (pgd x) (mm_lock x).
Definition set_brk v (x : mm_struct) := MmStruct (mmap x) (start_brk x) v (start_stack x) (pgd x) (mm_lock x).
Definition set_mm_lock v (x : mm_struct) := MmStruct (mmap x) (start_brk x) (brk x) (start_stack x) (pgd x) v.
Definition set_vm_next v (x : vma_area) := VmaArea (vm_start x) (vm_end x) (vm_flags x) v.

(** [kmalloc] of an object whose fields are all assigned before they are read. *)
Definition kmalloc_mm (x : mm_struct) : M spaces Z :=
  mm ← on_kheap (kmalloc 56 GFP_KERNEL);
  if mm =? 0 then mret 0 else
  _ ← modify (fun s => set_mms (<[mm := x]> (mms s)) s); mret mm.
Definition kmalloc_vma (x : vma_area) : M spaces Z :=
  vma ← on_kheap (kmalloc 32 GFP_KERNEL);
  if vma =? 0 then mret 0 else
  _ ← modify (fun s => set_vmas (<[vma := x]> (vmas s)) s); mret vma.
Definition kfree_mm (mm : Z) : M spaces unit :=
  _ ← modify (fun s => set_mms (delete mm (mms s)) s); on_kheap (kfree mm).
Definition kfree_vma (vma : Z) : M spaces unit :=
  _ ← modify (fun s => set_vmas (delete vma (vmas s)) s); on_kheap (kfree vma).

(** The lock of one address space together with the CPU's interrupt mask. *)
Definition on_mm_lock {A} (mm : Z) (m : M irq_lock A) : M spaces A :=
  x ← mm_at mm;
  zoom (fun s => IrqLock (mm_lock x) (daif (cpu s)))
       (fun il s =>
          let v := va_mgr (kmem s) in
          set_mms (<[mm := set_mm_lock (il_lock il) x]> (mms s))
            (set_kmem (set_va_mgr (set_vm_slab (set_mach (set_daif (il_daif il) (mach (vm_slab v)))
               (vm_slab v)) v) (kmem s)) s)) m.

(** [struct vma_area **pp]: the [mmap] field of an address space or a [vm_next] field. *)
Inductive vma_ref : Set := RefMmap (mm : Z) | RefVmNext (vma : Z).
Definition get_ref (pp : vma_ref) : M spaces Z :=
  match pp with
  | RefMmap mm => x ← mm_at mm; mret (mmap x)
  | RefVmNext vma => x ← vma_at vma; mret (vm_next x)
  end.
Definition set_ref (pp : vma_ref) (v : Z) : M spaces unit :=
  match pp with
  | RefMmap mm => put_mm mm (set_mmap v)
  | RefVmNext vma => put_vma vma (set_vm_next v)
  end.

(** No list of VMAs is longer than the store. *)
Definition walk_vmas {A B} (body : A -> M spaces (A + B)) (a : A) : M spaces B :=
  n ← gets (fun s => size (vmas s)); loop (S n) body a.

(** ** Address spaces and their VMAs *)

Definition mm_create : M spaces Z := kmalloc_mm (MmStruct 0 0 0 0 0 SPIN_LOCK_UNLOCKED).

Definition mm_destroy (mm : Z) : M spaces unit :=
  if mm =? 0 then mret tt else
  x ← mm_at mm;
  _ ← walk_vmas (fun vma =>
        if vma =? 0 then mret (inr tt) else
        v ← vma_at vma;
        _ ← kfree_vma vma;
        mret (inl (vm_next v))) (mmap x);
  kfree_mm mm.

Definition mm_copy (src : Z) : M spaces Z :=
  if src =? 0 then mret 0 else
  dst ← mm_create;
  if dst =? 0 then mret 0 else
  x ← mm_at src;
  _ ← put_mm dst (fun d => MmStruct (mmap d) (start_brk x) (brk x) (start_stack x) (pgd x) (mm_lock d));
  x ← mm_at src;
  walk_vmas (fun st : vma_ref * Z =>
    let '(pp, svma) := st in
    if svma =? 0 then mret (inr dst) else
    sv ← vma_at svma;
    dvma ← kmalloc_vma (VmaArea (vm_start sv) (vm_end sv) (vm_flags sv) 0);
    if dvma =? 0 then _ ← mm_destroy dst; mret (inr 0) else
    _ ← set_ref pp dvma;
    sv ← vma_at svma;
    mret (inl (RefVmNext dvma, vm_next sv))) (RefMmap dst, mmap x).

(** The loops that advance [pp] while the test on the VMA it holds is true. *)
Definition seek (mm : Z) (test : Z -> M spaces bool) : M spaces vma_ref :=
  walk_vmas (fun pp =>
    cur ← get_ref pp;
    if cur =? 0 then mret (inr pp) else
    go_on ← test cur;
    if go_on : bool then mret (inl (RefVmNext cur)) else mret (inr pp)) (RefMmap mm).

Definition vma_create (mm start stop flags : Z) : M spaces Z :=
  if (mm =? 0) || (stop <=? start) then mret (-1) else
  vma ← kmalloc_vma (VmaArea start stop flags 0);
  if vma =? 0 then mret (-1) else
  irq_flags ← on_mm_lock mm spin_lock_irqsave;
  pp ← seek mm (fun cur => v ← vma_at cur; mret (vm_start v <? start));
  cur ← get_ref pp;
  _ ← put_vma vma (set_vm_next cur);
  _ ← set_ref pp vma;
  _ ← on_mm_lock mm (spin_unlock_irqrestore irq_flags);
  mret 0.

Definition vma_find (mm addr : Z) : M spaces Z :=
  if mm =? 0 then mret 0 else
  x ← mm_at mm;
  walk_vmas (fun vma =>
    if vma =? 0 then mret (inr 0) else
    v ← vma_at vma;
    if (vm_start v <=? addr) && (addr <? vm_end v) then mret (inr vma)
    else mret (inl (vm_next v))) (mmap x).

(** Taking a VMA off the list, under the lock. *)
Definition unlink_vma (mm vma : Z) : M spaces unit :=
  irq_flags ← on_mm_lock mm spin_lock_irqsave;
  pp ← seek mm (fun cur => mret (negb (cur =? vma)));
  cur ← get_ref pp;
  _ ← (if negb (cur =? 0) then v ← vma_at vma; set_ref pp (vm_next v) else mret tt);
  on_mm_lock mm (spin_unlock_irqrestore irq_flags).

Definition vma_remove (mm vma : Z) : M spaces unit :=
  if (mm =? 0) || (vma =? 0) then mret tt else
  _ ← unlink_vma mm vma;
  kfree_vma vma.

(** ** Anonymous mappings *)

(** [(x + PAGE_SIZE - 1) & ~PAGE_MASK], the expression the source uses to align. *)
Definition page_align (x : Z) : Z := Z.land (sub64 (add64 x PAGE_SIZE) 1) (not64 PAGE_MASK).

(** One pass over the VMAs: the aligned end of the first one in the way. *)
Definition conflict_pass (mm addr len : Z) : M spaces (option Z) :=
  x ← mm_at mm;
  walk_vmas (fun vma =>
    if vma =? 0 then mret (inr None) else
    v ← vma_at vma;
    if (addr <? vm_end v) && (add64 addr len >? vm_start v) then mret (inr (Some (page_align (vm_end v))))
    else mret (inl (vm_next v))) (mmap x).

Definition find_free_area (fuel : nat) (mm len : Z) : M spaces Z :=
  loop fuel (fun addr =>
    c ← conflict_pass mm addr len;
    match c with Some addr' => mret (inl addr') | None => mret (inr addr) end) MMAP_BASE.

(** Every page loop runs at most once per page of the address space. *)
Definition page_loop {A B} (body : A -> M spaces (A + B)) (a : A) : M spaces B := loop2 53 body a.

Definition unmap_put (va : Z) : M spaces unit :=
  pa ← on_cpu (get_phys_from_va va);
  _ ← on_cpu (unmap_page va);
  if negb (pa =? 0) then on_cpu (on_pmm (put_page pa)) else mret tt.

(** The roll-back of [do_mmap]. *)
Definition mmap_undo (mm addr cur : Z) : M spaces Z :=
  _ ← page_loop (fun cur =>
        if cur >? addr then
          let cur := sub64 cur PAGE_SIZE in
          _ ← unmap_put cur; mret (inl cur)
        else mret (inr tt)) cur;
  vma ← vma_find mm addr;
  _ ← (if negb (vma =? 0) then vma_remove mm vma else mret tt);
  mret 0.

Definition do_mmap (fuel : nat) (mm addr len flags : Z) : M spaces Z :=
  if (mm =? 0) || (len =? 0) then mret 0 else
  let len := page_align len in
  addr ← (if addr =? 0 then find_free_area fuel mm len else mret addr);
  r ← vma_create mm addr (add64 addr len) (Z.lor flags VM_ANONYMOUS);
  if negb (r =? 0) then mret 0 else
  page_loop (fun cur =>
    if cur <? add64 addr len then
      pa ← on_cpu (on_pmm (alloc_phys_pages 0 GFP_KERNEL));
      if pa =? 0 then r ← mmap_undo mm addr cur; mret (inr r) else
      va ← on_cpu (phys_to_virt pa);
      _ ← on_cpu (zero_mem va PAGE_SIZE);
      ret ← on_cpu (map_page cur pa PAGE_USER_RW);
      if negb (ret =? 0) then
        _ ← on_cpu (on_pmm (free_phys_pages pa 0));
        r ← mmap_undo mm addr cur; mret (inr r)
      else mret (inl (add64 cur PAGE_SIZE))
    else mret (inr addr)) addr.

Definition do_munmap (mm addr len : Z) : M spaces Z :=
  if (mm =? 0) || (len =? 0) then mret (-1) else
  let len := page_align len in
  vma ← vma_find mm addr;
  if vma =? 0 then mret (-1) else
  _ ← unlink_vma mm vma;
  _ ← page_loop (fun cur =>
        v ← vma_at vma;
        if (cur <? add64 addr len) && (cur <? vm_end v) then
          _ ← unmap_put cur; mret (inl (add64 cur PAGE_SIZE))
        else mret (inr tt)) addr;
  _ ← kfree_vma vma;
  mret 0.

(** ** The heap of a process *)

Definition mm_brk (mm : Z) : M spaces Z := x ← mm_at mm; mret (brk x).

(** Mapping new pages up to [new_brk]: [false] when a page or a table was not available. *)
Definition brk_grow (mm new_brk : Z) : M spaces bool :=
  start ← mm_brk mm;
  page_loop (fun addr =>
    if addr <? new_brk then
      pa ← on_cpu (on_pmm (alloc_phys_pages 0 GFP_KERNEL));
      if pa =? 0 then mret (inr false) else
      va ← on_cpu (phys_to_virt pa);
      _ ← on_cpu (zero_mem va PAGE_SIZE);
      ret ← on_cpu (map_page addr pa PAGE_USER_RW);
      if negb (ret =? 0) then
        _ ← on_cpu (on_pmm (free_phys_pages pa 0)); mret (inr false)
      else mret (inl (add64 addr PAGE_SIZE))
    else mret (inr true)) start.

Definition brk_shrink (mm new_brk : Z) : M spaces unit :=
  page_loop (fun addr =>
    old ← mm_brk mm;
    if addr <? old then
      pa ← on_cpu (get_phys_from_va addr);
      _ ← on_cpu (unmap_page addr);
      _ ← (if negb (pa =? 0) then on_cpu (on_pmm (free_phys_pages pa 0)) else mret tt);
      mret (inl (add64 addr PAGE_SIZE))
    else mret (inr tt)) new_brk.

Definition do_brk (mm new_brk : Z) : M spaces Z :=
  if mm =? 0 then mret 0 else
  let new_brk := page_align new_brk in
  old ← mm_brk mm;
  if new_brk =? old then mret old else
  irq_flags ← on_mm_lock mm spin_lock_irqsave;
  old ← mm_brk mm;
  ok ← (if new_brk >? old then brk_grow mm new_brk
        else if new_brk <? old then _ ← brk_shrink mm new_brk; mret true
        else mret true);
  if negb ok then
    _ ← on_mm_lock mm (spin_unlock_irqrestore irq_flags); mm_brk mm
  else
    _ ← put_mm mm (set_brk new_brk);
    _ ← on_mm_lock mm (spin_unlock_irqrestore irq_flags);
    mm_brk mm.

(** ** Page faults *)

Definition console_putc (c : Z) : M spaces unit := modify (fun s => set_console (console s ++ [c]) s).
Definition pf_puts (str : list Z) : M spaces unit := modify (fun s => set_console (console s ++ str) s).

Definition vmalloc_handle_page_fault (fault_addr : Z) : M spaces Z :=
  if (fault_addr <? VMALLOC_START) || (VMALLOC_START + VMALLOC_SIZE <=? fault_addr) then mret (-1) else
  found ← on_kmem (on_va (scan BusyListHead (fun va (_ : unit) =>
            a ← area va;
            mret (if (va_start a <=? fault_addr) && (fault_addr <? va_end a) then inr va else inl tt)) tt));
  match found with
  | inl _ => mret (-1)
  | inr _ =>
      let page_addr := Z.land fault_addr PAGE_MASK in
      pa ← on_cpu (on_pmm (alloc_phys_pages 0 GFP_KERNEL));
      if pa =? 0 then _ ← pf_puts (bytes "[PAGE FAULT] vmalloc: alloc failed" ++ [10]); mret (-1) else
      va_kern ← on_cpu (phys_to_virt pa);
      _ ← on_cpu (zero_mem va_kern PAGE_SIZE);
      ret ← on_cpu (map_page page_addr pa PAGE_KERNEL_RW);
      if negb (ret =? 0) then
        _ ← on_cpu (on_pmm (free_phys_pages pa 0));
        _ ← pf_puts (bytes "[PAGE FAULT] vmalloc: map failed" ++ [10]); mret (-1)
      else mret 0
  end.

(** The sixteen hexadecimal digits of an address. *)
Definition hex_digit (d : Z) : Z := if d <? 10 then 48 + d else 97 + d - 10.
Definition put_hex (v : Z) : M spaces unit :=
  for_n 16 0 (fun i => console_putc (hex_digit (Z.land (shr64 v (60 - 4 * i)) 0xF))).

Section page_fault.
(** The scheduler's functions the handler calls: the flags of the VMA that holds an address (0
    when there is none) and the two signals to the current process. *)
Context (rust_vma_find : Z -> Z -> M spaces Z).
Context (rust_send_sigkill_current rust_send_sigsegv_current : M spaces unit).

(** A write to a mapped page: the page is copied. *)
Definition cow_fault (page_addr old_pa : Z) : M spaces unit :=
  new_pa ← on_cpu (on_pmm (alloc_phys_pages 0 GFP_KERNEL));
  if new_pa =? 0 then pf_puts (bytes "[PAGE FAULT] COW: alloc failed" ++ [10]) else
  old_va ← on_cpu (phys_to_virt old_pa);
  new_va ← on_cpu (phys_to_virt new_pa);
  _ ← on_cpu (copy_mem new_va old_va PAGE_SIZE);
  _ ← on_cpu (unmap_page page_addr);
  _ ← on_cpu (on_pmm (put_page old_pa));
  ret ← on_cpu (map_page page_addr new_pa PAGE_USER_RW);
  if negb (ret =? 0) then
    _ ← on_cpu (on_pmm (free_phys_pages new_pa 0));
    pf_puts (bytes "[PAGE FAULT] COW: map failed" ++ [10])
  else on_cpu flush_tlb.

(** A page that is not mapped yet. *)
Definition demand_fault (page_addr flags : Z) : M spaces unit :=
  let prot := if negb (Z.land flags VM_EXEC =? 0) then PAGE_USER_RX else PAGE_USER_RW in
  pa ← on_cpu (on_pmm (alloc_phys_pages 0 GFP_KERNEL));
  if pa =? 0 then pf_puts (bytes "[PAGE FAULT] alloc failed" ++ [10]) else
  va ← on_cpu (phys_to_virt pa);
  _ ← on_cpu (zero_mem va PAGE_SIZE);
  ret ← on_cpu (map_page page_addr pa prot);
  if negb (ret =? 0) then
    _ ← on_cpu (on_pmm (free_phys_pages pa 0));
    pf_puts (bytes "[PAGE FAULT] map failed" ++ [10])
  else mret tt.

Definition page_fault_handler (fault_addr esr far : Z) : M spaces unit :=
  r ← vmalloc_handle_page_fault fault_addr;
  if r =? 0 then mret tt else
  mm ← gets current_mm;
  if mm =? 0 then pf_puts (bytes "[PAGE FAULT] no mm" ++ [10]) else
  flags ← rust_vma_find mm fault_addr;
  if flags =? 0 then
    _ ← pf_puts (bytes "[PAGE FAULT] no vma at 0x");
    _ ← put_hex fault_addr;
    _ ← pf_puts (bytes ", sending SIGKILL" ++ [10]);
    rust_send_sigkill_current
  else
  let page_addr := Z.land fault_addr PAGE_MASK in
  let is_write := Z.land (shr64 esr 6) 1 in
  old_pa ← on_cpu (get_phys_from_va fault_addr);
  if negb (old_pa =? 0) && negb (is_write =? 0) then
    if Z.land flags VM_WRITE =? 0 then
      _ ← pf_puts (bytes "[PAGE FAULT] write fault on non-writable VMA, sending SIGSEGV" ++ [10]);
      rust_send_sigsegv_current
    else cow_fault page_addr old_pa
  else if negb (is_write =? 0) && (Z.land flags VM_WRITE =? 0) then
    _ ← pf_puts (bytes "[PAGE FAULT] write fault on non-writable VMA (demand alloc), sending SIGSEGV" ++ [10]);
    rust_send_sigsegv_current
  else demand_fault page_addr flags.
End page_fault.

(** ** System-call helpers *)

Definition sys_get_current_mm : M spaces Z := gets current_mm.
Definition sys_set_current_mm (mm : Z) : M spaces unit := modify (set_current mm).
