(* ===== verification/MmTheory.v ===== *)
(** The VMA lists of [kernel/mm.c]: seeking, linking and unlinking, on the theory of [Chain]. *)
From stdpp Require Import sorting.
From S2P Require Import Prelude ListHead Chain Sync Pmm Machine Slab SlabTheory SlabOps SlabFree SlabProps Rbtree Vmap Vmalloc Mm.
Open Scope Z_scope.

#[export] Instance vma_linked : Linked vma_area :=
  {| link := vm_next; relink := set_vm_next; link_relink _ _ := eq_refl |}.
#[export] Instance vma_relink : RelinkLaw vma_area := fun _ _ _ => eq_refl.

(** What a VMA says, links apart. *)
Definition extent (v : vma_area) : Z * Z * Z := (vm_start v, vm_end v, vm_flags v).
Definition start_of (t : gmap Z vma_area) (p : Z) : Z := from_option vm_start 0 (t !! p).
Definition by_start (t : gmap Z vma_area) (p q : Z) : Prop := start_of t p <= start_of t q.

Lemma links_only_extent t t' q : links_only t t' -> extent <$> t' !! q = extent <$> t !! q.
Proof. by apply links_only_field. Qed.
Lemma links_only_start t t' q : links_only t t' -> start_of t' q = start_of t q.
Proof. intros Hr. unfold start_of. destruct (Hr q) as [->|(x & n & -> & ->)]; done. Qed.

(** An order on VMAs that only looks at what the two stores agree on. *)
Lemma sorted_ext t t' vs : (forall q, q ∈ vs -> start_of t' q = start_of t q) ->
  StronglySorted (by_start t) vs -> StronglySorted (by_start t') vs.
Proof.
  induction vs as [|v vs IH]; [constructor|]. intros Hq. rewrite !StronglySorted_cons, !Forall_forall. intros [Hv Hs].
  split; [|apply IH; [|exact Hs]; intros q Hin; apply Hq; set_solver].
  intros q Hin. unfold by_start. rewrite !Hq by set_solver. by apply Hv.
Qed.

Implicit Types s : spaces.

(** ** The heap of the kernel inside the state *)

Definition s_heap s : slab := vm_slab (va_mgr (kmem s)).
Definition put_s_heap (h : slab) s : spaces := set_kmem (set_va_mgr (set_vm_slab h (va_mgr (kmem s))) (kmem s)) s.

Lemma wp_s_heap {A} (m : M slab A) (Q : A -> spaces -> Prop) s :
  wp m (fun a h => Q a (put_s_heap h s)) (s_heap s) -> wp (on_kheap m) Q s.
Proof. intros Hm. unfold on_kheap, on_kmem, on_heap. do 3 (apply wp_zoom). exact Hm. Qed.

(** Only the stores of objects and the heap differ. *)
Definition mm_frame s s' : Prop :=
  current_mm s' = current_mm s /\ console s' = console s /\
  exists h, kmem s' = set_va_mgr (set_vm_slab h (va_mgr (kmem s))) (kmem s).

Lemma mm_frame_refl s : mm_frame s s.
Proof.
  split_and!; [reflexivity..|]. exists (s_heap s). unfold s_heap. destruct s as [? ? ? ? [? ? ? ? ? ? ? ? [? ? ? ? ? ? ? ? ? ?]]].
  reflexivity.
Qed.
Lemma mm_frame_trans s1 s2 s3 : mm_frame s1 s2 -> mm_frame s2 s3 -> mm_frame s1 s3.
Proof.
  intros (A & B & h & E) (A' & B' & h' & E'). split_and!; [congruence..|]. exists h'. rewrite E', E. reflexivity.
Qed.
#[export] Instance mm_frame_preorder : PreOrder mm_frame.
Proof. split; [exact mm_frame_refl|exact mm_frame_trans]. Qed.
Lemma mm_frame_heap s s' : mms s' = mms s -> vmas s' = vmas s -> mm_frame s s' ->
  s' = put_s_heap (s_heap s') s.
Proof.
  destruct s, s'. intros Hm Hv (Hc & Ho & h & Hk). cbn in *. subst. reflexivity.
Qed.
(** A change of the object stores. *)
Lemma mm_frame_stores m t s : mm_frame s (set_vmas t (set_mms m s)).
Proof. exact (mm_frame_refl s). Qed.
Lemma mm_frame_put_heap h s : mm_frame s (put_s_heap h s).
Proof. split_and!; [reflexivity..|]. by exists h. Qed.

(** ** Objects *)

Lemma wp_mm_at mm x (Q : mm_struct -> spaces -> Prop) s : mms s !! mm = Some x -> Q x s -> wp (mm_at mm) Q s.
Proof. intros Hx HQ. unfold mm_at. do 2 wp_step. by eapply wp_of_option. Qed.
Lemma wp_put_mm mm f x (Q : unit -> spaces -> Prop) s : mms s !! mm = Some x ->
  Q tt (set_mms (<[mm := f x]> (mms s)) s) -> wp (put_mm mm f) Q s.
Proof. intros Hx HQ. unfold put_mm. wp_step. eapply wp_mm_at; [exact Hx|]. by wp_step. Qed.
Lemma wp_vma_at vma v (Q : vma_area -> spaces -> Prop) s : vmas s !! vma = Some v -> Q v s -> wp (vma_at vma) Q s.
Proof. intros Hv HQ. unfold vma_at. do 2 wp_step. by eapply wp_of_option. Qed.
Lemma wp_put_vma vma f v (Q : unit -> spaces -> Prop) s : vmas s !! vma = Some v ->
  Q tt (set_vmas (<[vma := f v]> (vmas s)) s) -> wp (put_vma vma f) Q s.
Proof. intros Hv HQ. unfold put_vma. wp_step. eapply wp_vma_at; [exact Hv|]. by wp_step. Qed.

(** ** The lock of an address space *)

Definition mm_locked mm (x : mm_struct) s : spaces :=
  put_s_heap (set_mach (set_daif (Z.lor (daif (cpu s)) DAIF_I) (cpu s)) (s_heap s))
    (set_mms (<[mm := set_mm_lock (ArchSpinlock (u32 (lock_next (mm_lock x) + 1)) (lock_owner (mm_lock x))) x]> (mms s)) s).
Definition mm_unlocked flags mm (x : mm_struct) s : spaces :=
  put_s_heap (set_mach (set_daif flags (cpu s)) (s_heap s))
    (set_mms (<[mm := set_mm_lock (ArchSpinlock (lock_next (mm_lock x)) (u32 (lock_owner (mm_lock x) + 1))) x]> (mms s)) s).

Lemma wp_mm_lock mm x (Q : Z -> spaces -> Prop) s : mms s !! mm = Some x -> lock_free (mm_lock x) ->
  Q (daif (cpu s)) (mm_locked mm x s) -> wp (on_mm_lock mm spin_lock_irqsave) Q s.
Proof.
  intros Hx Hf HQ. unfold on_mm_lock. wp_step. eapply wp_mm_at; [exact Hx|].
  wp_step. apply wp_spin_lock_irqsave; [exact Hf|]. exact HQ.
Qed.
Lemma wp_mm_unlock flags mm x (Q : unit -> spaces -> Prop) s : mms s !! mm = Some x ->
  Q tt (mm_unlocked flags mm x s) -> wp (on_mm_lock mm (spin_unlock_irqrestore flags)) Q s.
Proof.
  intros Hx HQ. unfold on_mm_lock. wp_step. eapply wp_mm_at; [exact Hx|].
  wp_step. apply wp_spin_unlock_irqrestore. exact HQ.
Qed.

(** The state after a change of the list under the lock. *)
Definition next_lock (l : arch_spinlock) : arch_spinlock := ArchSpinlock (u32 (lock_next l + 1)) (u32 (lock_owner l + 1)).
Definition list_state mm (x : mm_struct) h t s : spaces :=
  set_mms (<[mm := set_mmap h (set_mm_lock (next_lock (mm_lock x)) x)]> (mms s)) (set_vmas t s).
Definition lock_held (x : mm_struct) : mm_struct :=
  set_mm_lock (ArchSpinlock (u32 (lock_next (mm_lock x) + 1)) (lock_owner (mm_lock x))) x.

Lemma mm_locked_at mm x s : mms (mm_locked mm x s) !! mm = Some (lock_held x).
Proof. apply lookup_insert_eq. Qed.

Lemma unlock_locked mm x h t s :
  mm_unlocked (daif (cpu s)) mm (set_mmap h (lock_held x))
    (set_mms (<[mm := set_mmap h (lock_held x)]> (mms (mm_locked mm x s))) (set_vmas t (mm_locked mm x s))) = list_state mm x h t s.
Proof.
  unfold mm_unlocked, mm_locked, list_state, put_s_heap, set_mms, set_vmas, set_kmem. cbn. f_equal.
  - by rewrite !insert_insert_eq.
  - unfold cpu, s_heap. destruct s as [? ? ? ? [? ? ? ? ? ? ? ? [? ? ? ? ? ? ? ? ? [? ? ? ? []]]]]. reflexivity.
Qed.

(** ** Walking the list *)

(** The pointer to what follows the VMAs [l]. *)
Definition ref_after (mm : Z) (l : list Z) : vma_ref := match last l with None => RefMmap mm | Some v => RefVmNext v end.
Lemma ref_after_snoc mm l v : ref_after mm (l ++ [v]) = RefVmNext v.
Proof. unfold ref_after. by rewrite last_snoc. Qed.

Definition head_of (r : list Z) : Z := hd 0 r.
Lemma chain_hd t p r : chain t p r -> p = head_of r.
Proof. destruct r; cbn; [done|]. by intros [-> _]. Qed.

Lemma wp_walk_vmas {A B} (I : list Z -> A -> spaces -> Prop) (body : A -> M spaces (A + B)) Q xs a s :
  I xs a s -> (length xs <= size (vmas s))%nat ->
  (forall x rest a s, I (x :: rest) a s ->
     wp (body a) (fun r s' => match r with inl a' => I rest a' s' | inr b => Q b s' end) s) ->
  (forall a s, I [] a s -> wp (body a) (fun r s' => match r with inl _ => False | inr b => Q b s' end) s) ->
  wp (walk_vmas body a) Q s.
Proof. intros HI Hl H1 H2. unfold walk_vmas. do 2 wp_step. apply (wp_loop_list I _ _ _ xs); [exact HI|lia|exact H1|exact H2]. Qed.

Section list.
Context (mm : Z) (x : mm_struct).

Lemma wp_get_ref l r (Q : Z -> spaces -> Prop) s : mms s !! mm = Some x -> chain (vmas s) (mmap x) (l ++ r) ->
  Q (head_of r) s -> wp (get_ref (ref_after mm l)) Q s.
Proof.
  intros Hx Hc HQ. destruct l as [|v l _] using rev_ind.
  - cbn. wp_step. eapply wp_mm_at; [exact Hx|]. wp_step. by rewrite (chain_hd _ _ _ Hc).
  - rewrite ref_after_snoc. cbn. apply chain_cut in Hc as (p & Hs & Hc).
    apply seg_snoc in Hs as (_ & _ & v' & Hv & Hn). wp_step. eapply wp_vma_at; [exact Hv|]. wp_step.
    cbn in Hn. by rewrite Hn, (chain_hd _ _ _ Hc).
Qed.

(** [seek] stops at the first VMA that fails the test. *)
Lemma wp_seek (test : Z -> M spaces bool) (P : Z -> bool) vs (Q : vma_ref -> spaces -> Prop) s :
  mms s !! mm = Some x -> chain (vmas s) (mmap x) vs ->
  (forall v (K : bool -> spaces -> Prop), v ∈ vs -> K (P v) s -> wp (test v) K s) ->
  (forall l r, vs = l ++ r -> (forall v, v ∈ l -> P v = true) -> P (head_of r) = false \/ r = [] ->
     Q (ref_after mm l) s) ->
  wp (seek mm test) Q s.
Proof.
  intros Hx Hc Ht HQ. unfold seek.
  apply (wp_walk_vmas (fun xs pp s' => s' = s /\ exists l, vs = l ++ xs /\ pp = ref_after mm l /\
    forall v, v ∈ l -> P v = true) _ _ vs).
  - split; [reflexivity|]. exists []. split; [done|]. split; [done|]. by intros v ?%not_elem_of_nil.
  - eapply chain_length; [exact Hc|]. eapply chain_NoDup; exact Hc.
  - intros v rest pp s' (-> & l & Hvs & -> & Hl). assert (Hin : v ∈ vs) by (rewrite Hvs; set_solver).
    destruct (chain_elem _ _ _ _ Hc Hin) as [Hv0 _].
    wp_step. eapply (wp_get_ref l (v :: rest)); [exact Hx|by rewrite <- Hvs|]. cbn [head_of hd].
    rewrite (proj2 (Z.eqb_neq v 0)) by exact Hv0. wp_step. apply Ht; [exact Hin|].
    destruct (P v) eqn:EP; wp_step.
    + split; [reflexivity|]. exists (l ++ [v]). rewrite <- app_assoc. split; [exact Hvs|].
      split; [by rewrite ref_after_snoc|]. intros w Hw. apply elem_of_app in Hw as [Hw|Hw]; [by apply Hl|].
      apply list_elem_of_singleton in Hw. by subst w.
    + by apply (HQ l (v :: rest) Hvs Hl); left.
  - intros pp s' (-> & l & Hvs & -> & Hl). wp_step. eapply (wp_get_ref l []); [exact Hx|by rewrite <- Hvs|].
    cbn [head_of hd]. rewrite Z.eqb_refl. wp_step. apply (HQ l [] Hvs Hl). by right.
Qed.

(** Storing [new], which already points to the rest, at the place [ref_after mm l]. *)
Lemma wp_link_ref l r new v (Q : unit -> spaces -> Prop) s :
  mms s !! mm = Some x -> chain (vmas s) (mmap x) (l ++ r) -> vmas s !! new = Some v -> vm_next v = head_of r ->
  new <> 0 -> new ∉ l ++ r ->
  (forall h t, links_in (new :: l ++ r) (vmas s) t -> chain t h (l ++ new :: r) ->
     Q tt (set_mms (<[mm := set_mmap h x]> (mms s)) (set_vmas t s))) ->
  wp (set_ref (ref_after mm l) new) Q s.
Proof.
  intros Hx Hc Hv Hnx H0 Hn HQ. assert (Hid : <[new := relink (head_of r) v]> (vmas s) = vmas s).
  { apply insert_id. rewrite Hv. rewrite <- Hnx. by destruct v. }
  destruct l as [|y l _] using rev_ind.
  - cbn [ref_after last set_ref]. eapply wp_put_mm; [exact Hx|]. cbn [app] in *.
    specialize (HQ new (vmas s) (links_in_refl _ _)). destruct s. apply HQ. rewrite <- Hid, <- (chain_hd _ _ _ Hc).
    exact (chain_push _ _ _ _ _ Hc Hv H0 Hn).
  - rewrite ref_after_snoc. rewrite <- app_assoc in Hc, Hn. cbn [app] in Hc, Hn.
    destruct (chain_elem _ _ _ y Hc) as [_ [vy Hy]]; [set_solver|].
    assert (Hl : link vy = head_of r).
    { apply chain_cut in Hc as (p & _ & Hc). cbn in Hc. destruct Hc as (_ & _ & vy' & Hy' & Hc).
      rewrite Hy in Hy'. injection Hy' as <-. by apply chain_hd in Hc. }
    cbn [set_ref]. eapply (wp_put_vma y _ vy); [exact Hy|].
    specialize (HQ (mmap x) (<[y := relink new vy]> (vmas s))).
    replace (set_mmap (mmap x) x) with x in HQ by (by destruct x). rewrite (insert_id (mms s) mm x Hx) in HQ.
    rewrite <- !app_assoc in HQ. destruct s. apply HQ; [apply links_in_set; [set_solver|exact Hy]|].
    rewrite <- Hid, <- Hl. exact (chain_insert_after _ _ _ _ _ _ _ _ Hc Hy Hv H0 Hn).
Qed.

(** Linking [new] in at that place. *)
Lemma wp_link_vma {A} (m : M spaces A) l r new v (Q : A -> spaces -> Prop) s :
  mms s !! mm = Some x -> chain (vmas s) (mmap x) (l ++ r) -> vmas s !! new = Some v -> new <> 0 -> new ∉ l ++ r ->
  (forall h t, links_in (new :: l ++ r) (vmas s) t -> chain t h (l ++ new :: r) ->
     wp m Q (set_mms (<[mm := set_mmap h x]> (mms s)) (set_vmas t s))) ->
  wp (_ ← put_vma new (set_vm_next (head_of r)); _ ← set_ref (ref_after mm l) new; m) Q s.
Proof.
  intros Hx Hc Hv H0 Hn HQ. wp_step. eapply wp_put_vma; [exact Hv|].
  assert (Hin : links_in (new :: l ++ r) (vmas s) (<[new := relink (head_of r) v]> (vmas s))).
  { apply links_in_set; [set_solver|exact Hv]. }
  wp_step. eapply (wp_link_ref l r new (relink (head_of r) v)); [exact Hx| |apply lookup_insert_eq|reflexivity|exact H0|exact Hn|].
  - eapply chain_ext; [|exact Hc]. intros q Hq. cbn. rewrite lookup_insert_ne; [done|]. by intros ->.
  - intros h t Ht Hc'. apply HQ; [|exact Hc']. by etransitivity.
Qed.

(** Taking the VMA at that place off the list. *)
Lemma wp_drop_vma l q r v (Q : unit -> spaces -> Prop) s :
  mms s !! mm = Some x -> chain (vmas s) (mmap x) (l ++ q :: r) -> vmas s !! q = Some v ->
  (forall h t, links_in (l ++ r) (vmas s) t -> t !! q = Some v -> chain t h (l ++ r) ->
     Q tt (set_mms (<[mm := set_mmap h x]> (mms s)) (set_vmas t s))) ->
  wp (set_ref (ref_after mm l) (vm_next v)) Q s.
Proof.
  intros Hx Hc Hv HQ. destruct l as [|y l _] using rev_ind.
  - cbn [ref_after last set_ref]. eapply wp_put_mm; [exact Hx|]. cbn in Hc. destruct Hc as (_ & _ & v' & Hv' & Hc).
    rewrite Hv in Hv'. injection Hv' as <-. specialize (HQ (vm_next v) (vmas s) (links_in_refl _ _) Hv Hc).
    by destruct s.
  - rewrite ref_after_snoc. rewrite <- app_assoc in Hc. cbn [app] in Hc.
    destruct (chain_elem _ _ _ y Hc) as [_ [vy Hy]]; [set_solver|].
    destruct (chain_unlink_after _ _ _ _ _ _ _ _ Hc Hy Hv) as [Hc' Hq].
    cbn [set_ref]. eapply (wp_put_vma y _ vy); [exact Hy|].
    rewrite <- app_assoc in HQ. cbn [app] in HQ.
    specialize (HQ (mmap x) _ (links_in_set (l ++ y :: r) _ y vy (link v) ltac:(set_solver) Hy) Hq Hc').
    replace (set_mmap (mmap x) x) with x in HQ by (by destruct x). rewrite (insert_id (mms s) mm x Hx) in HQ.
    destruct s. exact HQ.
Qed.
End list.

(** ** Concrete states *)

Definition sample_vmem (h : slab) : vmem :=
  Vmem ∅ ∅ ∅ ∅ (Links ∅ ∅) SPIN_LOCK_UNLOCKED SPIN_LOCK_UNLOCKED SPIN_LOCK_UNLOCKED
    (Vmap ∅ (Links ∅ ∅) ∅ (RbTree 0 0) 0 0 0 0 SPIN_LOCK_UNLOCKED h).
Definition sample_spaces (h : slab) (mm : Z) (x : mm_struct) (t : gmap Z vma_area) : spaces :=
  Spaces {[mm := x]} t 0 [] (sample_vmem h).
