(* ===== verification/MmProps.v ===== *)
(** What the address spaces of [kernel/mm.c] promise: creating, finding, removing and copying VMAs,
    and what goes wrong in the search for a free area. *)
From stdpp Require Import sorting.
From S2P Require Import Prelude ListHead Chain Sync Pmm Machine Slab SlabTheory SlabOps SlabFree SlabProps Rbtree Vmap Vmalloc Mm MmTheory.
Open Scope Z_scope.
Implicit Types s : spaces.

(** ** The state of one address space *)

(** The address space [mm] holds [x]; its VMAs, in the order of the list, are [vs]; the live objects of the
    heap are [L]. *)
Record vma_inv (L : gmap Z Z) (mm : Z) (x : mm_struct) (vs : list Z) s : Prop := {
  vi_heap : heap_ok L (s_heap s);
  vi_mm : mms s !! mm = Some x;
  vi_lock : lock_free (mm_lock x);
  vi_chain : chain (vmas s) (mmap x) vs;
  vi_sorted : StronglySorted (by_start (vmas s)) vs;
  vi_live : forall p, p ∈ vs -> p <> 0 /\ is_Some (L !! p);
  vi_null : mm <> 0;
}.

(** The address space itself came from the heap ([init_mm] did not). *)
Definition mm_owned (L : gmap Z Z) (mm : Z) (vs : list Z) : Prop := is_Some (L !! mm) /\ mm ∉ vs.

(** The fields of an address space that are not about its list. *)
Definition same_mm (x x' : mm_struct) : Prop :=
  start_brk x' = start_brk x /\ brk x' = brk x /\ start_stack x' = start_stack x /\ pgd x' = pgd x.

(** [kmalloc] of a VMA. *)
Lemma wp_kmalloc_vma L v (Q : Z -> spaces -> Prop) s : heap_ok L (s_heap s) ->
  (forall h, heap_ok L h -> daif (mach h) = daif (cpu s) -> exhausted (s_heap s) GFP_KERNEL 32 ->
     Q 0 (put_s_heap h s)) ->
  (forall p z h, p <> 0 -> 32 <= z -> L !! p = None -> heap_ok (<[p := z]> L) h -> daif (mach h) = daif (cpu s) ->
     Q p (set_vmas (<[p := v]> (vmas s)) (put_s_heap h s))) ->
  wp (kmalloc_vma v) Q s.
Proof.
  intros Hh HQ0 HQ. unfold kmalloc_vma. wp_step. apply wp_s_heap.
  eapply wp_mono; [apply (wp_kmalloc L 32 GFP_KERNEL); [exact Hh|unfold SZ_4M; lia]|].
  intros r h [Hkept [(-> & Hh' & Hex)|(H0 & _ & z & Hz & HLn & Hh')]]; pose proof (heap_kept_daif _ _ _ Hkept) as Hd.
  - rewrite Z.eqb_refl. wp_step. by apply HQ0.
  - rewrite (proj2 (Z.eqb_neq r 0)) by exact H0. do 3 wp_step. by eapply HQ.
Qed.

(** A new object does not disturb the list. *)
Lemma vma_inv_alloc L mm x vs s p z v h : vma_inv L mm x vs s -> L !! p = None -> heap_ok (<[p := z]> L) h ->
  vma_inv (<[p := z]> L) mm x vs (set_vmas (<[p := v]> (vmas s)) (put_s_heap h s)).
Proof.
  intros [Hh Hm Hl Hc Hs Hlive Hnull] HLp Hh'.
  assert (Hne : forall q, q ∈ vs -> (<[p := v]> (vmas s)) !! q = vmas s !! q).
  { intros q Hq. rewrite lookup_insert_ne; [done|]. intros ->. destruct (Hlive q) as [_ [y Hy]]; [set_solver|congruence]. }
  split; [exact Hh'|exact Hm|exact Hl|by eapply chain_ext| | |exact Hnull].
  - eapply sorted_ext; [|exact Hs]. intros q Hq. unfold start_of. cbn. by rewrite Hne.
  - intros q Hq. destruct (Hlive q Hq) as [? ?]. split; [done|]. rewrite lookup_insert. by case_decide.
Qed.

(** A change of the links, and of the list head. *)
Lemma vma_inv_relink L mm x x' vs vs' t s : vma_inv L mm x vs s -> links_only (vmas s) t -> chain t (mmap x') vs' ->
  lock_free (mm_lock x') ->
  StronglySorted (by_start (vmas s)) vs' -> (forall p, p ∈ vs' -> p <> 0 /\ is_Some (L !! p)) ->
  vma_inv L mm x' vs' (set_mms (<[mm := x']> (mms s)) (set_vmas t s)).
Proof.
  intros [Hh Hm _ _ _ Hlive Hnull] Ht Hc Hl Hs Hlive'. split.
  - exact Hh.
  - apply lookup_insert_eq.
  - exact Hl.
  - exact Hc.
  - eapply sorted_ext; [|exact Hs]. intros q _. by apply links_only_start.
  - exact Hlive'.
  - exact Hnull.
Qed.

Lemma vma_inv_list L mm x vs vs' h t s : vma_inv L mm x vs s -> links_only (vmas s) t -> chain t h vs' ->
  StronglySorted (by_start (vmas s)) vs' -> (forall p, p ∈ vs' -> p <> 0 /\ is_Some (L !! p)) ->
  vma_inv L mm (set_mmap h (set_mm_lock (next_lock (mm_lock x)) x)) vs' (list_state mm x h t s).
Proof.
  intros Hi Ht Hc Hs Hlive. eapply vma_inv_relink; [exact Hi|exact Ht|exact Hc| |exact Hs|exact Hlive].
  exact (spin_unlock_free _ (vi_lock _ _ _ _ _ Hi)).
Qed.

Lemma same_mm_list h l x : same_mm x (set_mmap h (set_mm_lock l x)).
Proof. by split_and!. Qed.

(** Inserting by start address keeps the order. *)
Lemma sorted_insert t l r new : StronglySorted (by_start t) (l ++ r) ->
  (forall q, q ∈ l -> start_of t q < start_of t new) -> (start_of t (head_of r) >= start_of t new \/ r = []) ->
  StronglySorted (by_start t) (l ++ new :: r).
Proof.
  intros Hs Hl Hr. apply StronglySorted_app in Hs as (Hlr & Hsl & Hsr). apply StronglySorted_app. split; [|split; [exact Hsl|]].
  - intros p q Hp Hq. apply elem_of_cons in Hq as [->|Hq]; [specialize (Hl p Hp); unfold by_start; lia|by apply Hlr].
  - apply StronglySorted_cons. split; [|exact Hsr]. apply Forall_forall. intros q Hq. unfold by_start.
    destruct Hr as [Hr| ->]; [|set_solver]. destruct r as [|r0 r]; [set_solver|]. cbn in Hr.
    apply elem_of_cons in Hq as [->|Hq]; [lia|]. apply StronglySorted_cons in Hsr as [Hsr _].
    rewrite Forall_forall in Hsr. specialize (Hsr q Hq). unfold by_start in Hsr. lia.
Qed.

(** The locked part of [vma_create]. *)
Lemma wp_vma_insert {A} (m : M spaces A) L mm x vs new v (Q : A -> spaces -> Prop) s : vma_inv L mm x vs s ->
  vmas s !! new = Some v -> new ∉ vs -> new <> 0 -> is_Some (L !! new) ->
  (forall l r h t, vs = l ++ r -> links_in (new :: vs) (vmas s) t ->
     vma_inv L mm (set_mmap h (set_mm_lock (next_lock (mm_lock x)) x)) (l ++ new :: r) (list_state mm x h t s) ->
     wp m Q (list_state mm x h t s)) ->
  wp (irq_flags ← on_mm_lock mm spin_lock_irqsave;
      pp ← seek mm (fun cur => c ← vma_at cur; mret (vm_start c <? vm_start v));
      cur ← get_ref pp;
      _ ← put_vma new (set_vm_next cur);
      _ ← set_ref pp new;
      _ ← on_mm_lock mm (spin_unlock_irqrestore irq_flags);
      m) Q s.
Proof.
  intros Hi Hv Hn H0 HLn HQ. pose proof Hi as [Hh Hm Hl Hc Hs Hlive Hnull].
  wp_step. eapply wp_mm_lock; [exact Hm|exact Hl|].
  wp_step. apply (wp_seek mm (lock_held x) _ (fun q => start_of (vmas s) q <? vm_start v) vs);
    [apply mm_locked_at|exact Hc| |].
  { intros q K Hq HK. destruct (chain_elem _ _ _ _ Hc Hq) as [_ [c Hcq]]. wp_step. eapply wp_vma_at; [exact Hcq|]. wp_step.
    unfold start_of in HK. by rewrite Hcq in HK. }
  intros l r Hvs Hlt Hge. assert (Hsv : start_of (vmas s) new = vm_start v) by (unfold start_of; by rewrite Hv).
  wp_step. eapply (wp_get_ref mm (lock_held x) l r); [apply mm_locked_at|by rewrite <- Hvs|].
  assert (Hnlr : new ∉ l ++ r) by (rewrite <- Hvs; set_solver).
  eapply (wp_link_vma mm (lock_held x)); [apply mm_locked_at|by rewrite <- Hvs|exact Hv|exact H0|exact Hnlr|].
  intros h t Ht Hc'. wp_step. eapply wp_mm_unlock; [apply lookup_insert_eq|]. rewrite unlock_locked.
  apply (HQ l r); [exact Hvs|by rewrite Hvs|]. eapply vma_inv_list; [exact Hi|apply Ht|exact Hc'| |].
  - apply sorted_insert; [by rewrite <- Hvs| |].
    + intros q Hq. specialize (Hlt q Hq). lia.
    + destruct Hge as [Hge| ->]; [left; lia|by right].
  - intros p Hp. rewrite elem_of_app, elem_of_cons in Hp. rewrite Hvs in Hlive. destruct_or! Hp; [|by subst p|]; apply Hlive; set_solver.
Qed.

(** C21: [vma_create] always returns.  An empty or inverted range is refused with -1 and nothing changes; when
    the heap is exhausted the answer is -1 and the list is as before.  Otherwise the answer is 0 and the list
    holds one new VMA with the given range and flags, at a place that keeps it ordered by start address; apart
    from links of this list every VMA, the rest of the address space, the console, the current space
    and the interrupt mask are as before. *)
Theorem vma_create_correct L mm x vs start stop flags s : vma_inv L mm x vs s ->
  exists r s', vma_create mm start stop flags s = Done (r, s') /\ mm_frame s s' /\ daif (cpu s') = daif (cpu s) /\
    (stop <= start -> r = -1 /\ s' = s) /\
    (start < stop ->
      (r = -1 /\ vma_inv L mm x vs s' /\ mms s' = mms s /\ vmas s' = vmas s /\
         exhausted (s_heap s) GFP_KERNEL 32) \/
      (r = 0 /\ exists new z l r' x', vs = l ++ r' /\ L !! new = None /\ 32 <= z /\
         vma_inv (<[new := z]> L) mm x' (l ++ new :: r') s' /\ same_mm x x' /\ mms s' = <[mm := x']> (mms s) /\
         links_in (new :: vs) (<[new := VmaArea start stop flags 0]> (vmas s)) (vmas s'))).
Proof.
  intros Hi. pose proof (vi_null _ _ _ _ _ Hi) as Hm0.
  destruct (decide (stop <= start)) as [Hle|Hlt].
  { exists (-1), s. unfold vma_create. replace (stop <=? start) with true by lia. rewrite orb_true_r.
    split; [reflexivity|]. split; [reflexivity|]. split; [reflexivity|]. split; [done|lia]. }
  assert (Hwp : wp (vma_create mm start stop flags) (fun r s' => mm_frame s s' /\ daif (cpu s') = daif (cpu s) /\
      ((r = -1 /\ vma_inv L mm x vs s' /\ mms s' = mms s /\ vmas s' = vmas s /\
         exhausted (s_heap s) GFP_KERNEL 32) \/
      (r = 0 /\ exists new z l r' x', vs = l ++ r' /\ L !! new = None /\ 32 <= z /\
         vma_inv (<[new := z]> L) mm x' (l ++ new :: r') s' /\ same_mm x x' /\ mms s' = <[mm := x']> (mms s) /\
         links_in (new :: vs) (<[new := VmaArea start stop flags 0]> (vmas s)) (vmas s')))) s).
  { unfold vma_create. rewrite (proj2 (Z.eqb_neq mm 0)) by exact Hm0. replace (stop <=? start) with false by lia. cbn [orb].
    wp_step. apply (wp_kmalloc_vma L); [apply (vi_heap _ _ _ _ _ Hi)| |].
    - intros h Hh Hd Hex. rewrite Z.eqb_refl. wp_step. split; [apply mm_frame_put_heap|]. split; [exact Hd|]. left.
      split; [reflexivity|]. split; [|by split_and!]. destruct Hi. by split.
    - intros new z h H0 Hz HLn Hh Hd. rewrite (proj2 (Z.eqb_neq new 0)) by exact H0.
      pose proof (vma_inv_alloc _ _ _ _ _ _ _ (VmaArea start stop flags 0) _ Hi HLn Hh) as Hi1.
      set (s1 := set_vmas _ _) in *.
      eapply (wp_vma_insert (mret 0) _ _ _ _ new (VmaArea start stop flags 0)); [exact Hi1|apply lookup_insert_eq| |exact H0| |].
      + intros Hin. destruct (vi_live _ _ _ _ _ Hi new Hin) as [_ [y Hy]]. congruence.
      + rewrite lookup_insert_eq. by eexists.
      + intros l r hd t Hvs Ht Hi'. wp_step. split; [|split; [exact Hd|right; split; [reflexivity|]]].
        { etransitivity; [apply (mm_frame_put_heap h)|]. exact (mm_frame_stores _ _ _). }
        eexists new, z, l, r, _. split; [exact Hvs|]. split; [exact HLn|]. split; [exact Hz|]. split; [exact Hi'|].
        split; [apply same_mm_list|]. split; [reflexivity|]. exact Ht. }
  destruct (wp_done _ _ _ Hwp) as (r & s' & Hrun & Hf & Hd & Hr). exists r, s'.
  split; [exact Hrun|]. split; [exact Hf|]. split; [exact Hd|]. split; [lia|]. intros _. exact Hr.
Qed.

(** ** Finding *)

Definition covers (t : gmap Z vma_area) (addr q : Z) : bool :=
  match t !! q with Some v => (vm_start v <=? addr) && (addr <? vm_end v) | None => false end.

(** [vma_find] returns, without changing the state, the first VMA of the list whose range holds the
    address, and NULL exactly when no VMA does. *)
Theorem vma_find_correct mm x vs addr s : mm <> 0 -> mms s !! mm = Some x -> chain (vmas s) (mmap x) vs ->
  vma_find mm addr s = Done (from_option id 0 (List.find (covers (vmas s) addr) vs), s) /\
  (List.find (covers (vmas s) addr) vs = None <-> forall q v, q ∈ vs -> vmas s !! q = Some v -> ~ vm_start v <= addr < vm_end v).
Proof.
  intros H0 Hx Hc. split.
  - apply wp_exact. unfold vma_find. rewrite (proj2 (Z.eqb_neq mm 0)) by exact H0. wp_step. eapply wp_mm_at; [exact Hx|].
    apply (wp_walk_vmas (fun xs q s' => s' = s /\ chain (vmas s) q xs /\
       List.find (covers (vmas s) addr) vs = List.find (covers (vmas s) addr) xs) _ _ vs).
    + by split_and!.
    + eapply chain_length; [exact Hc|]. eapply chain_NoDup; exact Hc.
    + intros q rest a s' (-> & (-> & Hq0 & v & Hv & Hr) & Hf). rewrite (proj2 (Z.eqb_neq q 0)) by exact Hq0.
      wp_step. eapply wp_vma_at; [exact Hv|]. cbn [List.find] in Hf. unfold covers at 2 in Hf. rewrite Hv in Hf.
      destruct (_ && _); wp_step; [by rewrite Hf|]. by split_and!.
    + intros a s' (-> & -> & Hf). rewrite Z.eqb_refl. wp_step. by rewrite Hf.
  - split.
    + intros Hf q v Hq Hv Hin. pose proof (List.find_none _ _ Hf q) as Hn. rewrite list_elem_of_In in Hq.
      specialize (Hn Hq). unfold covers in Hn. rewrite Hv in Hn. lia.
    + intros Hall. destruct (List.find _ _) as [q|] eqn:Hf; [|done]. exfalso. apply List.find_some in Hf as [Hq Hf].
      unfold covers in Hf. destruct (vmas s !! q) as [v|] eqn:Hv; [|done]. apply (Hall q v); [by apply list_elem_of_In|done|lia].
Qed.

(** ** Removing *)

Lemma wp_kfree_vma L p z (Q : unit -> spaces -> Prop) s : heap_ok L (s_heap s) -> L !! p = Some z ->
  (forall h, heap_ok (delete p L) h -> daif (mach h) = daif (cpu s) ->
     Q tt (put_s_heap h (set_vmas (delete p (vmas s)) s))) -> wp (kfree_vma p) Q s.
Proof.
  intros Hh HL HQ. unfold kfree_vma. do 2 wp_step. apply wp_s_heap.
  eapply wp_mono; [exact (wp_kfree L p z _ Hh HL)|]. intros [] h [Hk Hh' _ _].
  apply HQ; [exact Hh'|]. by apply heap_kept_daif in Hk.
Qed.

Lemma wp_kfree_mm L p z (Q : unit -> spaces -> Prop) s : heap_ok L (s_heap s) -> L !! p = Some z ->
  (forall h, heap_ok (delete p L) h -> daif (mach h) = daif (cpu s) ->
     Q tt (put_s_heap h (set_mms (delete p (mms s)) s))) -> wp (kfree_mm p) Q s.
Proof.
  intros Hh HL HQ. unfold kfree_mm. do 2 wp_step. apply wp_s_heap.
  eapply wp_mono; [exact (wp_kfree L p z _ Hh HL)|]. intros [] h [Hk Hh' _ _].
  apply HQ; [exact Hh'|]. by apply heap_kept_daif in Hk.
Qed.

(** An object outside the list goes. *)
Lemma vma_inv_free L mm x vs p h s : vma_inv L mm x vs s -> p ∉ vs -> heap_ok (delete p L) h ->
  vma_inv (delete p L) mm x vs (put_s_heap h (set_vmas (delete p (vmas s)) s)).
Proof.
  intros [Hh Hm Hl Hc Hs Hlive Hnull] Hp Hh'.
  assert (Hne : forall q, q ∈ vs -> delete p (vmas s) !! q = vmas s !! q).
  { intros q Hq. rewrite lookup_delete_ne; [done|]. intros ->. apply Hp. set_solver. }
  split; [exact Hh'|exact Hm|exact Hl|by eapply chain_ext| | |exact Hnull].
  - eapply sorted_ext; [|exact Hs]. intros q Hq. unfold start_of. cbn. by rewrite Hne.
  - intros q Hq. destruct (Hlive q Hq) as [? ?]. split; [done|]. rewrite lookup_delete_ne; [done|]. by intros ->.
Qed.

Lemma sorted_drop t l q r : StronglySorted (by_start t) (l ++ q :: r) -> StronglySorted (by_start t) (l ++ r).
Proof.
  intros (H1 & H2 & H3)%StronglySorted_app. apply StronglySorted_cons in H3 as [_ H3]. apply StronglySorted_app.
  split; [|done]. intros a b Ha Hb. apply H1; [done|]. set_solver.
Qed.

(** Searching the list for [vma], and unlinking it. *)
Lemma wp_unlink_vma L mm x vs vma v (Q : unit -> spaces -> Prop) s : vma_inv L mm x vs s -> vma <> 0 ->
  vmas s !! vma = Some v ->
  (forall vs' h t, links_in vs (vmas s) t -> (vma ∉ vs /\ vs' = vs \/ exists l r, vs = l ++ vma :: r /\ vs' = l ++ r) ->
     vma_inv L mm (set_mmap h (set_mm_lock (next_lock (mm_lock x)) x)) vs' (list_state mm x h t s) -> vma ∉ vs' ->
     Q tt (list_state mm x h t s)) ->
  wp (unlink_vma mm vma) Q s.
Proof.
  intros Hi H0 Hv HQ. pose proof Hi as [Hh Hm Hl Hc Hs Hlive Hnull]. unfold unlink_vma.
  wp_step. eapply wp_mm_lock; [exact Hm|exact Hl|].
  wp_step. apply (wp_seek mm (lock_held x) _ (fun q => negb (q =? vma)) vs); [apply mm_locked_at|exact Hc| |].
  { intros q K _ HK. by wp_step. }
  intros l r Hvs Hlt Hge. wp_step. eapply (wp_get_ref mm (lock_held x) l r); [apply mm_locked_at|by rewrite <- Hvs|].
  assert (Hnl : vma ∉ l) by (intros Hin; specialize (Hlt _ Hin); rewrite Z.eqb_refl in Hlt; done).
  assert (Hend : forall vs' h t, links_in vs (vmas s) t -> chain t h vs' ->
    (vma ∉ vs /\ vs' = vs \/ exists l r, vs = l ++ vma :: r /\ vs' = l ++ r) -> vma ∉ vs' -> (forall p, p ∈ vs' -> p ∈ vs) ->
    StronglySorted (by_start (vmas s)) vs' ->
    wp (on_mm_lock mm (spin_unlock_irqrestore (daif (cpu s)))) Q
      (set_mms (<[mm := set_mmap h (lock_held x)]> (mms (mm_locked mm x s))) (set_vmas t (mm_locked mm x s)))).
  { intros vs' h t Ht Hc' Hcase Hn Hsub Hs'. eapply wp_mm_unlock; [apply lookup_insert_eq|]. rewrite unlock_locked.
    eapply (HQ vs'); [exact Ht|exact Hcase| |exact Hn]. eapply vma_inv_list; [exact Hi|apply Ht|exact Hc'|exact Hs'|].
    intros p Hp. by apply Hlive, Hsub. }
  destruct r as [|q r]; cbn [head_of hd] in *.
  - rewrite Z.eqb_refl. cbn [negb]. do 2 wp_step. rewrite app_nil_r in Hvs. subst l.
    specialize (Hend vs (mmap x) (vmas s) (links_in_refl _ _) Hc (or_introl (conj Hnl eq_refl)) Hnl (fun _ H => H) Hs).
    change (mmap x) with (mmap (lock_held x)) in Hend at 1.
    replace (set_mmap (mmap (lock_held x)) (lock_held x)) with (lock_held x) in Hend by reflexivity.
    rewrite (insert_id (mms (mm_locked mm x s))) in Hend by apply mm_locked_at. exact Hend.
  - destruct Hge as [Hge|Hge]; [|done]. apply negb_false_iff, Z.eqb_eq in Hge. subst q.
    rewrite (proj2 (Z.eqb_neq vma 0)) by exact H0. cbn [negb].
    wp_step. wp_step. eapply wp_vma_at; [exact Hv|].
    eapply (wp_drop_vma mm (lock_held x) l vma r v); [apply mm_locked_at|by rewrite <- Hvs|exact Hv|].
    intros h t Ht _ Hc'. eapply (Hend (l ++ r)); [eapply links_in_mono; [|exact Ht]; rewrite Hvs; set_solver|exact Hc'|right; by exists l, r| |rewrite Hvs; set_solver|].
    + pose proof (chain_NoDup _ _ _ Hc) as Hnd. rewrite Hvs, <- Permutation_middle in Hnd. by apply NoDup_cons in Hnd as [? _].
    + rewrite Hvs in Hs. by eapply sorted_drop.
Qed.

(** [vma_remove] always returns.  Given a live VMA it frees exactly that object, and the list is the
    old one without it (the old one when it was not listed), still ordered; apart from links of this list
    the other VMAs, the rest of the address space and the interrupt mask are as before. *)
Theorem vma_remove_correct L mm x vs vma v s : vma_inv L mm x vs s -> vma <> 0 ->
  vmas s !! vma = Some v -> is_Some (L !! vma) ->
  exists s' x' vs', vma_remove mm vma s = Done (tt, s') /\ mm_frame s s' /\ daif (cpu s') = daif (cpu s) /\
    vma_inv (delete vma L) mm x' vs' s' /\ same_mm x x' /\ mms s' = <[mm := x']> (mms s) /\
    (vma ∉ vs /\ vs' = vs \/ exists l r, vs = l ++ vma :: r /\ vs' = l ++ r) /\
    links_in vs (delete vma (vmas s)) (vmas s').
Proof.
  intros Hi H0 Hv [z Hz]. pose proof (vi_null _ _ _ _ _ Hi) as Hm0.
  eassert (Hwp : wp (vma_remove mm vma) (fun _ s' => exists x' vs', mm_frame s s' /\ daif (cpu s') = daif (cpu s) /\
    vma_inv (delete vma L) mm x' vs' s' /\ same_mm x x' /\ mms s' = <[mm := x']> (mms s) /\
    (vma ∉ vs /\ vs' = vs \/ exists l r, vs = l ++ vma :: r /\ vs' = l ++ r) /\
    links_in vs (delete vma (vmas s)) (vmas s')) s).
  { unfold vma_remove. rewrite (proj2 (Z.eqb_neq mm 0)), (proj2 (Z.eqb_neq vma 0)) by done. cbn [orb].
    wp_step. eapply wp_unlink_vma; [exact Hi|exact H0|exact Hv|]. intros vs' h t Ht Hcase Hi' Hn.
    eapply (wp_kfree_vma L vma z); [exact (vi_heap _ _ _ _ _ Hi)|exact Hz|]. intros hp Hhp Hd.
    eexists _, vs'. split; [etransitivity; [|apply mm_frame_put_heap]; exact (mm_frame_stores _ _ _)|].
    split; [exact Hd|]. split; [apply vma_inv_free; [exact Hi'| |exact Hhp]; set_solver|].
    split; [apply same_mm_list|]. split; [reflexivity|]. split; [exact Hcase|]. exact (links_in_delete _ _ _ _ Ht). }
  destruct (wp_done _ _ _ Hwp) as ([] & s' & Hrun & x' & vs' & H). by exists s', x', vs'.
Qed.

(** ** The theorems at a concrete state *)

(** An address space at 8 that is not on the heap, with one VMA that is. *)
Definition sample_mm (v : Z) : mm_struct := MmStruct v 0 0x400000 0 0 SPIN_LOCK_UNLOCKED.
Definition sample_vma : vma_area := VmaArea 0x10000 0x12000 VM_READ 0.

Lemma sample_vmas : exists L h v z, v <> 0 /\ L !! v = Some z /\
  vma_inv L 8 (sample_mm v) [v] (sample_spaces h 8 (sample_mm v) {[v := sample_vma]}).
Proof.
  destruct sample_object as (L & h & v & z & Hok & Hz). exists L, h, v, z.
  assert (Hv : v <> 0).
  { pose proof (heap_live_pos _ _ _ _ Hok Hz). lia. }
  split; [exact Hv|]. split; [exact Hz|]. split; [exact Hok|apply lookup_singleton_eq|reflexivity| | | |done].
  - split; [reflexivity|]. split; [exact Hv|]. eexists. split; [apply lookup_singleton_eq|reflexivity].
  - apply StronglySorted_cons. split; constructor.
  - intros p Hp. apply list_elem_of_singleton in Hp. subst p. split; [exact Hv|by exists z].
Qed.

Lemma vma_create_correct_witness : exists L h v, let s := sample_spaces h 8 (sample_mm v) {[v := sample_vma]} in
  vma_inv L 8 (sample_mm v) [v] s /\
  (exists r s', vma_create 8 0x1000 0x2000 VM_READ s = Done (r, s')) /\ vma_create 8 0x2000 0x2000 VM_READ s = Done (-1, s).
Proof.
  destruct sample_vmas as (L & h & v & z & _ & _ & Hi). exists L, h, v. intros s. split; [exact Hi|]. split.
  - destruct (vma_create_correct L 8 _ [v] 0x1000 0x2000 VM_READ s Hi) as (r & s' & Hrun & _). by exists r, s'.
  - destruct (vma_create_correct L 8 _ [v] 0x2000 0x2000 VM_READ s Hi) as (r & s' & Hrun & _ & _ & Hle & _).
    destruct Hle as [-> ->]; [lia|exact Hrun].
Defined.

Lemma vma_find_correct_witness : exists s : spaces, mms s !! 8 = Some (sample_mm 16) /\
  chain (vmas s) (mmap (sample_mm 16)) [16] /\ vma_find 8 0x11234 s = Done (16, s) /\ vma_find 8 0x12000 s = Done (0, s).
Proof.
  destruct sample_object as (_ & h & _). set (s := sample_spaces h 8 (sample_mm 16) {[16 := sample_vma]}). exists s.
  assert (Hm : mms s !! 8 = Some (sample_mm 16)) by reflexivity.
  assert (Hc : chain (vmas s) (mmap (sample_mm 16)) [16]).
  { split; [reflexivity|]. split; [lia|]. exists sample_vma. split; reflexivity. }
  split; [exact Hm|]. split; [exact Hc|]. split.
  - exact (proj1 (vma_find_correct 8 (sample_mm 16) [16] 0x11234 s ltac:(lia) Hm Hc)).
  - exact (proj1 (vma_find_correct 8 (sample_mm 16) [16] 0x12000 s ltac:(lia) Hm Hc)).
Defined.

Lemma vma_remove_correct_witness : exists L h v, let s := sample_spaces h 8 (sample_mm v) {[v := sample_vma]} in
  vma_inv L 8 (sample_mm v) [v] s /\ exists s' x', vma_remove 8 v s = Done (tt, s') /\ vma_inv (delete v L) 8 x' [] s'.
Proof.
  destruct sample_vmas as (L & h & v & z & Hv & Hz & Hi). exists L, h, v. intros s. split; [exact Hi|].
  destruct (vma_remove_correct L 8 _ [v] v sample_vma s Hi Hv) as (s' & x' & vs' & Hrun & _ & _ & Hi' & _ & _ & Hcase & _).
  - apply lookup_singleton_eq.
  - by exists z.
  - exists s', x'. split; [exact Hrun|]. destruct Hcase as [[Hn _]|(l & r & E & ->)].
    + exfalso. apply Hn, list_elem_of_singleton. reflexivity.
    + destruct l as [|a l]; [|by destruct l]. injection E as <-. exact Hi'.
Defined.
