(* ===== verification/MmFork.v ===== *)
(** Creating, destroying and copying whole address spaces ([kernel/mm.c]). *)
From stdpp Require Import sorting.
From S2P Require Import Prelude ListHead Chain Sync Pmm Machine Slab SlabTheory SlabOps SlabFree SlabProps Rbtree Vmap Vmalloc Mm MmTheory MmProps.
Open Scope Z_scope.
Implicit Types s : spaces.

(** ** Freeing a list of objects *)

Definition drop_all {A} (xs : list Z) (m : gmap Z A) : gmap Z A := foldl (fun m p => delete p m) m xs.

Lemma drop_all_lookup {A} xs (m : gmap Z A) p : drop_all xs m !! p = if decide (p ∈ xs) then None else m !! p.
Proof.
  revert m. induction xs as [|x xs IH]; intros m; cbn; [by rewrite decide_False by apply not_elem_of_nil|].
  fold (drop_all xs (delete x m)). rewrite IH, lookup_delete. repeat case_decide; set_solver.
Qed.
Lemma drop_all_snoc {A} xs x (m : gmap Z A) : drop_all (xs ++ [x]) m = delete x (drop_all xs m).
Proof. unfold drop_all. by rewrite foldl_app. Qed.

(** [mm_destroy] of an address space whose list is sound. *)
Lemma wp_mm_destroy L mm x vs (Q : unit -> spaces -> Prop) s : vma_inv L mm x vs s -> mm_owned L mm vs ->
  (forall h, heap_ok (drop_all (vs ++ [mm]) L) h -> daif (mach h) = daif (cpu s) ->
     Q tt (put_s_heap h (set_mms (delete mm (mms s)) (set_vmas (drop_all vs (vmas s)) s)))) ->
  wp (mm_destroy mm) Q s.
Proof.
  intros [Hh Hm Hl Hc Hs Hlive Hm0] [[zm Hzm] Hown] HQ. unfold mm_destroy.
  pose proof (chain_NoDup _ _ _ Hc) as Hnd.
  rewrite (proj2 (Z.eqb_neq mm 0)) by done. wp_step. eapply wp_mm_at; [exact Hm|]. wp_step.
  apply (wp_walk_vmas (fun xs vma s' => exists pre h, vs = pre ++ xs /\ chain (vmas s) vma xs /\
    s' = put_s_heap h (set_vmas (drop_all pre (vmas s)) s) /\ heap_ok (drop_all pre L) h /\ daif (mach h) = daif (cpu s)) _ _ vs).
  - exists [], (s_heap s). split; [done|]. split; [exact Hc|]. split; [|done].
    unfold put_s_heap, s_heap. destruct s as [? ? ? ? [? ? ? ? ? ? ? ? [? ? ? ? ? ? ? ? ? ?]]]. reflexivity.
  - by eapply chain_length.
  - intros q rest vma s' (pre & h & Hvs & (-> & Hq0 & v & Hv & Hr) & -> & Hh' & Hd).
    assert (Hq : q ∉ pre) by (rewrite Hvs in Hnd; apply NoDup_app in Hnd as (_ & Hn & _); intros Hin; apply (Hn q Hin); set_solver).
    rewrite (proj2 (Z.eqb_neq q 0)) by done.
    wp_step. eapply (wp_vma_at q v); [cbn; rewrite drop_all_lookup, decide_False by done; exact Hv|].
    destruct (Hlive q) as [_ [z Hz]]; [rewrite Hvs; set_solver|].
    wp_step. eapply (wp_kfree_vma (drop_all pre L) q z); [exact Hh'|rewrite drop_all_lookup, decide_False by done; exact Hz|].
    intros h' Hh'' Hd'. wp_step. exists (pre ++ [q]), h'. rewrite <- app_assoc, !drop_all_snoc.
    split; [exact Hvs|]. split; [exact Hr|]. split; [reflexivity|]. split; [exact Hh''|]. exact (eq_trans Hd' Hd).
  - intros vma s' (pre & h & Hvs & -> & -> & Hh' & Hd). rewrite Z.eqb_refl. wp_step. rewrite app_nil_r in Hvs. subst pre.
    eapply (wp_kfree_mm (drop_all vs L) mm zm); [exact Hh'|rewrite drop_all_lookup, decide_False by done; exact Hzm|].
    intros h' Hh'' Hd'. rewrite <- drop_all_snoc in Hh''. apply (HQ h' Hh''). exact (eq_trans Hd' Hd).
Qed.

(** [mm_destroy] always returns: it frees every VMA of the list and the address space itself, and no other
    object. *)
Theorem mm_destroy_correct L mm x vs s : vma_inv L mm x vs s -> mm_owned L mm vs ->
  exists s' L', mm_destroy mm s = Done (tt, s') /\ mm_frame s s' /\ daif (cpu s') = daif (cpu s) /\
    heap_ok L' (s_heap s') /\ (forall p, L' !! p = if decide (p ∈ mm :: vs) then None else L !! p) /\
    mms s' = delete mm (mms s) /\ (forall q, vmas s' !! q = if decide (q ∈ vs) then None else vmas s !! q).
Proof.
  intros Hi Ho.
  eassert (Hwp : wp (mm_destroy mm) (fun _ s' => exists L', mm_frame s s' /\ daif (cpu s') = daif (cpu s) /\
    heap_ok L' (s_heap s') /\ (forall p, L' !! p = if decide (p ∈ mm :: vs) then None else L !! p) /\
    mms s' = delete mm (mms s) /\ (forall q, vmas s' !! q = if decide (q ∈ vs) then None else vmas s !! q)) s).
  { eapply wp_mm_destroy; [exact Hi|exact Ho|]. intros h Hh Hd. exists (drop_all (vs ++ [mm]) L).
    split; [etransitivity; [|apply mm_frame_put_heap]; exact (mm_frame_stores _ _ _)|]. split; [exact Hd|]. split; [exact Hh|].
    split; [|split; [reflexivity|intros q; apply drop_all_lookup]].
    intros p. rewrite drop_all_lookup. apply decide_ext. set_solver. }
  destruct (wp_done _ _ _ Hwp) as ([] & s' & Hrun & L' & H). by exists s', L'.
Qed.

(** ** Copying *)

Lemma wp_kmalloc_mm L y (Q : Z -> spaces -> Prop) s : heap_ok L (s_heap s) ->
  (forall h, heap_ok L h -> daif (mach h) = daif (cpu s) -> Q 0 (put_s_heap h s)) ->
  (forall p z h, p <> 0 -> 56 <= z -> L !! p = None -> heap_ok (<[p := z]> L) h -> daif (mach h) = daif (cpu s) ->
     Q p (set_mms (<[p := y]> (mms s)) (put_s_heap h s))) ->
  wp (kmalloc_mm y) Q s.
Proof.
  intros Hh HQ0 HQ. unfold kmalloc_mm. wp_step. apply wp_s_heap.
  eapply wp_mono; [apply (wp_kmalloc L 56 GFP_KERNEL); [exact Hh|unfold SZ_4M; lia]|].
  intros r h [Hkept [(-> & Hh' & Hex)|(H0 & _ & z & Hz & HLn & Hh')]]; pose proof (heap_kept_daif _ _ _ Hkept) as Hd.
  - rewrite Z.eqb_refl. wp_step. by apply HQ0.
  - rewrite (proj2 (Z.eqb_neq r 0)) by exact H0. do 3 wp_step. by eapply HQ.
Qed.

Definition extents (t : gmap Z vma_area) (vs : list Z) : list (option (Z * Z * Z)) := map (fun q => extent <$> t !! q) vs.

Lemma extents_ext t t' vs : (forall q, q ∈ vs -> extent <$> t' !! q = extent <$> t !! q) -> extents t' vs = extents t vs.
Proof. intros Hq. apply map_ext_in. intros q Hin. apply Hq. by apply list_elem_of_In. Qed.

Lemma start_of_extent t t' p q : extent <$> t !! p = extent <$> t' !! q -> start_of t p = start_of t' q.
Proof. unfold start_of. destruct (t !! p), (t' !! q); cbn; [|done|done|done]. by intros [= ? ? ?]. Qed.

(** Lists with the same ranges are ordered alike. *)
Lemma sorted_extents t t' vs vs' : extents t' vs' = extents t vs -> StronglySorted (by_start t) vs ->
  StronglySorted (by_start t') vs'.
Proof.
  revert vs'. induction vs as [|v vs IH]; intros [|v' vs']; [constructor|done|done|]. cbn. intros [= Hv Hvs].
  rewrite !StronglySorted_cons. intros [Hle Hs]. split; [|by apply IH]. clear IH Hs. revert vs' Hvs.
  induction vs as [|w vs IH]; intros [|w' vs']; [constructor|done|done|]. cbn. intros [= Hw Hvs].
  apply Forall_cons in Hle as [Hle Hr]. constructor; [|by apply IH]. unfold by_start in *.
  by rewrite (start_of_extent _ _ _ _ Hv), (start_of_extent _ _ _ _ Hw).
Qed.

(** Part [pre] of the list of [src] has been copied to the list [dvs] of [dst]. *)
Record copying (L : gmap Z Z) (src dst : Z) (x : mm_struct) (vs pre dvs : list Z) s0 (L' : gmap Z Z) (xd : mm_struct) s : Prop := {
  cp_src : vma_inv L' src x vs s;
  cp_dst : vma_inv L' dst xd dvs s;
  cp_own : mm_owned L' dst dvs;
  cp_same : extents (vmas s) dvs = extents (vmas s0) pre;
  cp_new : forall p, p ∈ dst :: dvs -> L !! p = None;
  cp_old : forall p, p ∉ dst :: dvs -> L' !! p = L !! p;
  cp_vmas : forall q, q ∉ dvs -> vmas s !! q = vmas s0 !! q;
  cp_mms : mms s = <[dst := xd]> (mms s0);
  cp_mm : same_mm x xd;
  cp_frame : mm_frame s0 s;
  cp_daif : daif (cpu s) = daif (cpu s0);
}.

Section copy.
Context (L : gmap Z Z) (src dst : Z) (x : mm_struct) (vs : list Z) (s0 : spaces).
Context (Hi0 : vma_inv L src x vs s0) (Hsl : is_Some (L !! src)).

(** Linking the copy of the next VMA. *)
Lemma copying_step pre dvs L' xd s q rest sv new z h (Q : unit -> spaces -> Prop) :
  copying L src dst x vs pre dvs s0 L' xd s -> vs = pre ++ q :: rest -> vmas s !! q = Some sv ->
  new <> 0 -> L' !! new = None -> heap_ok (<[new := z]> L') h -> daif (mach h) = daif (cpu s) ->
  (forall xd' s', copying L src dst x vs (pre ++ [q]) (dvs ++ [new]) s0 (<[new := z]> L') xd' s' -> Q tt s') ->
  wp (set_ref (ref_after dst dvs) new) Q
    (set_vmas (<[new := VmaArea (vm_start sv) (vm_end sv) (vm_flags sv) 0]> (vmas s)) (put_s_heap h s)).
Proof.
  intros [Hs Hd [Hdo Hown] Hsame Hnew Hold Hvm Hmm Hxd Hf Hdf] Hvs Hsv H0 HLn Hh Hdh HQ.
  set (v := VmaArea _ _ _ _). pose proof (vma_inv_alloc _ _ _ _ _ new z v h Hs HLn Hh) as Hs1.
  pose proof (vma_inv_alloc _ _ _ _ _ new z v h Hd HLn Hh) as Hd1. set (s1 := set_vmas _ _) in *.
  assert (Hfresh : forall mm y us, vma_inv L' mm y us s -> new ∉ us).
  { intros mm y us Hi Hin. destruct (vi_live _ _ _ _ _ Hi new Hin) as [_ [w Hw]]. congruence. }
  pose proof (Hfresh _ _ _ Hs) as Hns. pose proof (Hfresh _ _ _ Hd) as Hnd.
  assert (Hsrc : forall p, p ∈ src :: vs -> p ∉ dst :: dvs).
  { intros p Hp Hp'. specialize (Hnew p Hp'). assert (Hsome : is_Some (L !! p)).
    { apply elem_of_cons in Hp as [->|Hp]; [exact Hsl|]. by destruct (vi_live _ _ _ _ _ Hi0 p Hp). }
    destruct Hsome as [w Hw]. congruence. }
  assert (Hnew_dst : new <> dst) by (intros ->; destruct Hdo as [w Hw]; congruence).
  eapply (wp_link_ref dst xd dvs [] new v); [apply (vi_mm _ _ _ _ _ Hd1)|rewrite app_nil_r; apply (vi_chain _ _ _ _ _ Hd1)|
    apply lookup_insert_eq|reflexivity|exact H0|rewrite app_nil_r; set_solver|].
  intros hd t Ht Hc. rewrite app_nil_r in Ht. destruct Ht as [Ht Hto].
  assert (Hext : extents t (dvs ++ [new]) = extents (vmas s0) (pre ++ [q])).
  { assert (Hq : vmas s0 !! q = Some sv) by (rewrite <- Hvm; [exact Hsv|]; specialize (Hsrc q); rewrite Hvs in Hsrc; set_solver).
    unfold extents in *. rewrite !map_app. f_equal.
    - rewrite <- Hsame. apply extents_ext. intros p Hp. rewrite (links_only_extent _ _ _ Ht). cbn.
      rewrite lookup_insert_ne; [done|]. intros ->. set_solver.
    - cbn. rewrite (links_only_extent _ _ _ Ht), Hq. cbn. by rewrite lookup_insert_eq. }
  apply (HQ (set_mmap hd xd)). split.
  - destruct Hs1 as [A B C E F G I]. split; [exact A| |exact C| | |exact G|exact I].
    + cbn. rewrite lookup_insert_ne; [exact B|]. intros ->. specialize (Hsrc src). set_solver.
    + eapply chain_ext; [|exact E]. intros p Hp. cbn. apply Hto. specialize (Hsrc p). set_solver.
    + eapply sorted_ext; [|exact F]. intros p _. by apply links_only_start.
  - eapply vma_inv_relink; [exact Hd1|exact Ht|exact Hc|exact (vi_lock _ _ _ _ _ Hd)| |].
    + eapply (sorted_extents (vmas s0) _ (pre ++ [q])).
      * rewrite <- Hext. apply extents_ext. intros p _. symmetry. by apply links_only_extent.
      * pose proof (vi_sorted _ _ _ _ _ Hi0) as Hso. rewrite Hvs in Hso.
        replace (pre ++ q :: rest) with ((pre ++ [q]) ++ rest) in Hso by (by rewrite <- app_assoc).
        by apply StronglySorted_app_1_l in Hso.
    + intros p Hp. apply elem_of_app in Hp as [Hp|Hp]; [apply (vi_live _ _ _ _ _ Hd1); set_solver|].
      apply list_elem_of_singleton in Hp. subst p. split; [exact H0|]. rewrite lookup_insert_eq. by eexists.
  - split; [rewrite lookup_insert_ne by done; exact Hdo|set_solver].
  - exact Hext.
  - intros p Hp. destruct (decide (p = new)) as [->|Hne]; [|apply Hnew; set_solver].
    rewrite <- Hold; [exact HLn|]. set_solver.
  - intros p Hp. rewrite lookup_insert_ne by set_solver. apply Hold. set_solver.
  - intros p Hp. cbn. rewrite Hto by set_solver. cbn. rewrite lookup_insert_ne by set_solver. apply Hvm. set_solver.
  - cbn. rewrite Hmm. by rewrite insert_insert_eq.
  - destruct Hxd as (? & ? & ? & ?). by split_and!.
  - etransitivity; [exact Hf|]. etransitivity; [apply (mm_frame_put_heap h)|]. exact (mm_frame_stores _ _ _).
  - exact (eq_trans Hdh Hdf).
Qed.
End copy.

Lemma vma_inv_agree L mm x vs s s' : vma_inv L mm x vs s -> heap_ok L (s_heap s') -> mms s' !! mm = mms s !! mm ->
  (forall q, q ∈ vs -> vmas s' !! q = vmas s !! q) -> vma_inv L mm x vs s'.
Proof.
  intros [Hh Hm Hl Hc Hs Hlive Hnull] Hh' Hmm Hvm. split; [exact Hh'|by rewrite Hmm|exact Hl|by eapply chain_ext| |exact Hlive|exact Hnull].
  eapply sorted_ext; [|exact Hs]. intros q Hq. unfold start_of. by rewrite Hvm.
Qed.

(** The objects that were live before [mm_copy] are as they were. *)
Definition live_kept (L : gmap Z Z) s s' : Prop :=
  forall p, is_Some (L !! p) -> mms s' !! p = mms s !! p /\ vmas s' !! p = vmas s !! p.

Definition copy_failed L src x vs s s' : Prop := vma_inv L src x vs s' /\ live_kept L s s'.
Definition copy_made L src x vs s r s' : Prop := exists L' x' vs',
  vma_inv L' src x vs s' /\ vma_inv L' r x' vs' s' /\ mm_owned L' r vs' /\ extents (vmas s') vs' = extents (vmas s) vs /\ same_mm x x' /\
  (forall p, p ∈ r :: vs' -> L !! p = None) /\ (forall p, p ∉ r :: vs' -> L' !! p = L !! p) /\ live_kept L s s'.

(** Giving up: everything the copy allocated is freed again. *)
Lemma copying_undo L src dst x vs pre dvs s0 L' xd s h (Q : Z -> spaces -> Prop) :
  vma_inv L src x vs s0 -> is_Some (L !! src) -> copying L src dst x vs pre dvs s0 L' xd s -> heap_ok L' h -> daif (mach h) = daif (cpu s) ->
  (forall s', mm_frame s0 s' -> daif (cpu s') = daif (cpu s0) -> copy_failed L src x vs s0 s' -> Q 0 s') ->
  wp (_ ← mm_destroy dst; mret 0) Q (put_s_heap h s).
Proof.
  intros Hi0 Hsl [Hs Hd [Hdo Hown] Hsame Hnew Hold Hvm Hmm Hxd Hf Hdf] Hh Hdh HQ.
  assert (Hd1 : vma_inv L' dst xd dvs (put_s_heap h s)) by (eapply vma_inv_agree; [exact Hd|exact Hh|done|done]).
  wp_step. eapply wp_mm_destroy; [exact Hd1|by split|]. intros h' Hh' Hd'. wp_step.
  assert (HL : drop_all (dvs ++ [dst]) L' = L).
  { apply map_eq. intros p. rewrite drop_all_lookup. case_decide; [symmetry; apply Hnew; set_solver|apply Hold; set_solver]. }
  rewrite HL in Hh'.
  assert (Hk : live_kept L s0 (put_s_heap h' (set_mms (delete dst (mms s)) (set_vmas (drop_all dvs (vmas s)) s)))).
  { intros p [w Hw]. assert (Hp : p ∉ dst :: dvs) by (intros Hin; specialize (Hnew p Hin); congruence). cbn.
    rewrite drop_all_lookup, decide_False by set_solver. rewrite lookup_delete_ne by set_solver.
    rewrite Hmm, lookup_insert_ne by set_solver. split; [done|]. apply Hvm. set_solver. }
  apply HQ.
  - etransitivity; [exact Hf|]. etransitivity; [|apply mm_frame_put_heap]. etransitivity; [apply (mm_frame_put_heap h)|].
    exact (mm_frame_stores _ _ _).
  - exact (eq_trans Hd' (eq_trans Hdh Hdf)).
  - split; [|exact Hk]. eapply vma_inv_agree; [exact Hi0|exact Hh'| |].
    + by apply Hk.
    + intros q Hq. apply Hk. apply (vi_live _ _ _ _ _ Hi0). set_solver.
Qed.

(** The copy loop. *)
Lemma wp_copy_loop L src dst x vs s0 L1 xd s (Q : Z -> spaces -> Prop) :
  vma_inv L src x vs s0 -> is_Some (L !! src) -> copying L src dst x vs [] [] s0 L1 xd s -> size (vmas s) = size (vmas s0) ->
  (forall s', mm_frame s0 s' -> daif (cpu s') = daif (cpu s0) -> copy_failed L src x vs s0 s' -> Q 0 s') ->
  (forall s', mm_frame s0 s' -> daif (cpu s') = daif (cpu s0) -> copy_made L src x vs s0 dst s' -> Q dst s') ->
  wp (walk_vmas (fun st : vma_ref * Z =>
    let '(pp, svma) := st in
    if svma =? 0 then mret (inr dst) else
    sv ← vma_at svma;
    dvma ← kmalloc_vma (VmaArea (vm_start sv) (vm_end sv) (vm_flags sv) 0);
    if dvma =? 0 then _ ← mm_destroy dst; mret (inr 0) else
    _ ← set_ref pp dvma;
    sv ← vma_at svma;
    mret (inl (RefVmNext dvma, vm_next sv))) (RefMmap dst, mmap x)) Q s.
Proof.
  intros Hi0 Hsl Hcp Hsz HQ0 HQ1.
  apply (wp_walk_vmas (fun xs '(pp, svma) s => exists pre dvs L' xd, vs = pre ++ xs /\ pp = ref_after dst dvs /\
    copying L src dst x vs pre dvs s0 L' xd s /\ chain (vmas s) svma xs) _ _ vs).
  - exists [], [], L1, xd. split; [done|]. split; [done|]. split; [exact Hcp|]. apply (vi_chain _ _ _ _ _ (cp_src _ _ _ _ _ _ _ _ _ _ _ Hcp)).
  - rewrite Hsz. pose proof (vi_chain _ _ _ _ _ Hi0) as Hc. eapply chain_length; [exact Hc|]. eapply chain_NoDup; exact Hc.
  - intros q rest [pp svma] s1 (pre & dvs & L' & xd1 & Hvs & -> & Hc1 & -> & Hq0 & sv & Hsv & Hr).
    rewrite (proj2 (Z.eqb_neq q 0)) by done. wp_step. eapply wp_vma_at; [exact Hsv|].
    wp_step. apply (wp_kmalloc_vma L'); [apply (vi_heap _ _ _ _ _ (cp_src _ _ _ _ _ _ _ _ _ _ _ Hc1))| |].
    + intros h Hh Hd _. rewrite Z.eqb_refl.
      assert (Hu : wp (_ ← mm_destroy dst; mret 0) Q (put_s_heap h s1)) by (by eapply copying_undo).
      apply wp_bind_inv in Hu. wp_step. eapply wp_mono; [exact Hu|]. intros [] s' Hw. wp_step. exact Hw.
    + intros new z h H0 _ HLn Hh Hd. rewrite (proj2 (Z.eqb_neq new 0)) by done.
      wp_step. eapply copying_step; [exact Hi0|exact Hsl|exact Hc1|exact Hvs|exact Hsv|exact H0|exact HLn|exact Hh|exact Hd|].
      intros xd' s2 Hc2. pose proof (cp_src _ _ _ _ _ _ _ _ _ _ _ Hc2) as Hs2.
      pose proof (vi_chain _ _ _ _ _ Hs2) as Hch. rewrite Hvs in Hch. apply chain_cut in Hch as (p' & _ & Hch).
      destruct Hch as (_ & _ & sv2 & Hsv2 & Hr2). wp_step. eapply wp_vma_at; [exact Hsv2|]. wp_step.
      exists (pre ++ [q]), (dvs ++ [new]), (<[new := z]> L'), xd'. rewrite <- app_assoc.
      split; [exact Hvs|]. split; [by rewrite ref_after_snoc|]. split; [exact Hc2|exact Hr2].
  - intros [pp svma] s1 (pre & dvs & L' & xd1 & Hvs & _ & Hc1 & ->). rewrite Z.eqb_refl. wp_step.
    rewrite app_nil_r in Hvs. subst pre. destruct Hc1 as [Hs Hd Hown Hsame Hnew Hold Hvm Hmm Hxd Hf Hdf].
    apply HQ1; [exact Hf|exact Hdf|]. exists L', xd1, dvs. split_and!; [exact Hs|exact Hd|exact Hown|exact Hsame|exact Hxd|exact Hnew|exact Hold|].
    intros p [w Hw]. assert (Hp : p ∉ dst :: dvs) by (intros Hin; specialize (Hnew p Hin); congruence).
    rewrite Hmm, lookup_insert_ne by set_solver. split; [done|]. apply Hvm. set_solver.
Qed.

(** C22: [mm_copy] always returns.  Either it returns NULL and every object is as before, with nothing left
    allocated; or it returns a new address space whose list has the ranges and flags of the source in the
    same order, made of new objects only, with the same program break, stack and page directory. *)
Theorem mm_copy_correct L src x vs s : vma_inv L src x vs s -> is_Some (L !! src) ->
  exists r s', mm_copy src s = Done (r, s') /\ mm_frame s s' /\ daif (cpu s') = daif (cpu s) /\
    (r = 0 /\ copy_failed L src x vs s s' \/ r <> 0 /\ copy_made L src x vs s r s').
Proof.
  intros Hi [zs Hzs]. pose proof (vi_null _ _ _ _ _ Hi) as Hs0.
  eassert (Hwp : wp (mm_copy src) (fun r s' => mm_frame s s' /\ daif (cpu s') = daif (cpu s) /\
    (r = 0 /\ copy_failed L src x vs s s' \/ r <> 0 /\ copy_made L src x vs s r s')) s).
  { unfold mm_copy, mm_create. rewrite (proj2 (Z.eqb_neq src 0)) by done. wp_step.
    apply (wp_kmalloc_mm L); [apply (vi_heap _ _ _ _ _ Hi)| |].
    - intros h Hh Hd. rewrite Z.eqb_refl. wp_step. split; [apply mm_frame_put_heap|]. split; [exact Hd|]. left.
      split; [done|]. split; [by eapply vma_inv_agree|done].
    - intros dst z h H0 _ HLn Hh Hd. rewrite (proj2 (Z.eqb_neq dst 0)) by done.
      assert (Hne : src <> dst) by (intros ->; congruence).
      wp_step. eapply (wp_mm_at src x); [cbn; rewrite lookup_insert_ne by done; exact (vi_mm _ _ _ _ _ Hi)|].
      wp_step. eapply wp_put_mm; [apply lookup_insert_eq|].
      wp_step. eapply (wp_mm_at src x); [cbn; rewrite !lookup_insert_ne by done; exact (vi_mm _ _ _ _ _ Hi)|].
      eapply (wp_copy_loop L src dst x vs s (<[dst := z]> L)); [exact Hi|by exists zs| |done| |].
      + split.
        * destruct Hi as [A B C E F G I]. split; [exact Hh| |exact C|exact E|exact F| |exact I].
          -- cbn. by rewrite !lookup_insert_ne.
          -- intros p Hp. destruct (G p Hp) as [? ?]. split; [done|]. rewrite lookup_insert. by case_decide.
        * split; [exact Hh|apply lookup_insert_eq|done|done|constructor|by intros p ?%not_elem_of_nil|exact H0].
        * split; [rewrite lookup_insert_eq; by eexists|apply not_elem_of_nil].
        * done.
        * intros p Hp. apply list_elem_of_singleton in Hp. by subst p.
        * intros p Hp. apply lookup_insert_ne. set_solver.
        * done.
        * cbn. by rewrite insert_insert_eq.
        * by split_and!.
        * etransitivity; [apply (mm_frame_put_heap h)|]. exact (mm_frame_stores _ (vmas s) _).
        * exact Hd.
      + intros s' Hf Hd' Hc. split; [exact Hf|]. split; [exact Hd'|]. by left.
      + intros s' Hf Hd' Hc. split; [exact Hf|]. split; [exact Hd'|]. by right. }
  destruct (wp_done _ _ _ Hwp) as (r & s' & Hrun & H). by exists r, s'.
Qed.

(** ** The theorems at a concrete state *)

(** An address space on the heap, without VMAs. *)
Lemma sample_owned : exists L h mm, vma_inv L mm (sample_mm 0) [] (sample_spaces h mm (sample_mm 0) ∅) /\ mm_owned L mm [].
Proof.
  destruct sample_vmas as (L & h & v & z & Hv & Hz & [Hh _ _ _ _ _ _]). exists L, h, v. split; [split|].
  - exact Hh.
  - apply lookup_singleton_eq.
  - reflexivity.
  - reflexivity.
  - constructor.
  - by intros p ?%not_elem_of_nil.
  - exact Hv.
  - split; [by exists z|apply not_elem_of_nil].
Qed.

Lemma mm_destroy_correct_witness : exists L h mm, let s := sample_spaces h mm (sample_mm 0) ∅ in
  vma_inv L mm (sample_mm 0) [] s /\ mm_owned L mm [] /\ exists s', mm_destroy mm s = Done (tt, s') /\ mms s' !! mm = None.
Proof.
  destruct sample_owned as (L & h & mm & Hi & Ho). exists L, h, mm. intros s. split; [exact Hi|]. split; [exact Ho|].
  destruct (mm_destroy_correct L mm _ [] s Hi Ho) as (s' & L' & Hrun & _ & _ & _ & _ & Hm & _). exists s'.
  split; [exact Hrun|]. rewrite Hm. apply lookup_delete_eq.
Defined.

Lemma mm_copy_correct_witness : exists L h mm, let s := sample_spaces h mm (sample_mm 0) ∅ in
  vma_inv L mm (sample_mm 0) [] s /\ is_Some (L !! mm) /\ exists r s', mm_copy mm s = Done (r, s') /\ daif (cpu s') = daif (cpu s).
Proof.
  destruct sample_owned as (L & h & mm & Hi & [Ho _]). exists L, h, mm. intros s. split; [exact Hi|]. split; [exact Ho|].
  destruct (mm_copy_correct L mm _ [] s Hi Ho) as (r & s' & Hrun & _ & Hd & _). exists r, s'. split; [exact Hrun|exact Hd].
Defined.
