(* ===== verification/MmArea.v ===== *)
(** The search for a free area and the lengths of anonymous mappings ([kernel/mm.c]).

    The expression the source aligns with, [(x + PAGE_SIZE - 1) & ~PAGE_MASK], keeps the offset inside
    the page instead of the page number; the theorems say what the search does with it. *)
From S2P Require Import Prelude ListHead Chain Sync Pmm Machine Slab PmmTheory SlabTheory SlabProps Vmap Vmalloc Mm MmTheory MmProps.
Implicit Types s : spaces.

(** What [page_align] computes. *)
Lemma page_align_mod x : page_align x = (x - 1) mod 4096.
Proof.
  unfold page_align. replace (not64 PAGE_MASK) with (2 ^ 12 - 1) by reflexivity.
  rewrite land_mask by lia. unfold sub64, add64, u64, PAGE_SIZE. change (Z.shiftl 1 PAGE_SHIFT) with 4096.
  change (2 ^ 64) with 18446744073709551616. change (2 ^ 12) with 4096. lia.
Qed.

Definition end_of (t : gmap Z vma_area) (p : Z) : Z := from_option vm_end 0 (t !! p).
Definition range_of (t : gmap Z vma_area) (p : Z) : Z * Z := (start_of t p, end_of t p).

(** [q] is in the way of [len] bytes at [addr]. *)
Definition in_the_way (t : gmap Z vma_area) (addr len q : Z) : bool :=
  (addr <? end_of t q) && (add64 addr len >? start_of t q).

(** The next candidate of the search, if there has to be one. *)
Definition next_candidate (t : gmap Z vma_area) (vs : list Z) (len addr : Z) : option Z :=
  (fun q => page_align (end_of t q)) <$> List.find (in_the_way t addr len) vs.

Fixpoint search (fuel : nat) (t : gmap Z vma_area) (vs : list Z) (len addr : Z) : option Z :=
  match fuel with
  | O => None
  | S fuel => match next_candidate t vs len addr with None => Some addr | Some addr' => search fuel t vs len addr' end
  end.

Section area.
Context (mm : Z) (x : mm_struct) (vs : list Z) (s : spaces).
Context (Hx : mms s !! mm = Some x) (Hc : chain (vmas s) (mmap x) vs).

Lemma conflict_pass_eq addr len : conflict_pass mm addr len s = Done (next_candidate (vmas s) vs len addr, s).
Proof.
  apply wp_exact. unfold conflict_pass, next_candidate. wp_step. eapply wp_mm_at; [exact Hx|].
  apply (wp_walk_vmas (fun xs q s' => s' = s /\ chain (vmas s) q xs /\
     List.find (in_the_way (vmas s) addr len) vs = List.find (in_the_way (vmas s) addr len) xs) _ _ vs).
  - by split_and!.
  - eapply chain_length; [exact Hc|]. eapply chain_NoDup; exact Hc.
  - intros q rest a s' (-> & (-> & Hq0 & v & Hv & Hr) & Hf). rewrite (proj2 (Z.eqb_neq q 0)) by exact Hq0.
    wp_step. eapply wp_vma_at; [exact Hv|]. cbn [List.find] in Hf.
    assert (Hw : in_the_way (vmas s) addr len q = (addr <? vm_end v) && (add64 addr len >? vm_start v)).
    { unfold in_the_way, end_of, start_of. by rewrite Hv. }
    rewrite Hw in Hf. destruct (_ && _); wp_step.
    + rewrite Hf. cbn. unfold end_of. by rewrite Hv.
    + by split_and!.
  - intros a s' (-> & -> & Hf). rewrite Z.eqb_refl. wp_step. by rewrite Hf.
Qed.

(** The loop of [find_free_area] is the search. *)
Lemma find_free_area_search fuel len : find_free_area fuel mm len s =
  match search fuel (vmas s) vs len MMAP_BASE with Some a => Done (a, s) | None => NoFuel end.
Proof.
  unfold find_free_area. generalize MMAP_BASE. induction fuel as [|fuel IH]; intros addr; [done|].
  cbn [loop search]. unfold mbind, M_bind. rewrite conflict_pass_eq. destruct (next_candidate _ _ _ _) as [addr'|]; [|done].
  exact (IH addr').
Qed.

Lemma search_fixpoint fuel len addr : next_candidate (vmas s) vs len addr = Some addr -> search fuel (vmas s) vs len addr = None.
Proof. intros Hn. induction fuel as [|fuel IH]; [done|]. cbn [search]. by rewrite Hn. Qed.

Lemma next_candidate_none len addr : next_candidate (vmas s) vs len addr = None ->
  forall q, q ∈ vs -> end_of (vmas s) q <= addr \/ add64 addr len <= start_of (vmas s) q.
Proof.
  unfold next_candidate. destruct (List.find _ _) as [q0|] eqn:Hf; [done|]. intros _ q Hq.
  pose proof (List.find_none _ _ Hf q) as Hn. rewrite list_elem_of_In in Hq. specialize (Hn Hq). unfold in_the_way in Hn. lia.
Qed.
End area.

(** As long as no VMA reaches below the third page of the address space, the search for a length
    computed by [page_align] ends after at most two passes.  It returns an address where no VMA is in the way:
    [MMAP_BASE], or, when that is taken, an address inside the first page (the offset of the end of the
    first VMA in the way), never another page above [MMAP_BASE]. *)
Theorem find_free_area_ends mm x vs len fuel s : mms s !! mm = Some x -> chain (vmas s) (mmap x) vs ->
  (forall q, q ∈ vs -> 8192 <= start_of (vmas s) q) -> (2 <= fuel)%nat ->
  exists a, find_free_area fuel mm (page_align len) s = Done (a, s) /\
    (a = MMAP_BASE \/ 0 <= a < PAGE_SIZE) /\
    forall q, q ∈ vs -> end_of (vmas s) q <= a \/ add64 a (page_align len) <= start_of (vmas s) q.
Proof.
  intros Hx Hc Hlow Hfuel. rewrite (find_free_area_search mm x vs s Hx Hc).
  pose proof (page_align_mod len) as Hlen. assert (0 <= page_align len < 4096) by lia. clear Hlen. set (n := page_align len) in *.
  destruct fuel as [|[|fuel]]; [lia|lia|]. cbn [search].
  destruct (next_candidate (vmas s) vs n MMAP_BASE) as [a|] eqn:Hn.
  - assert (Ha : 0 <= a < 4096).
    { unfold next_candidate in Hn. destruct (List.find _ _) as [q|]; [|done]. injection Hn as <-. rewrite page_align_mod. lia. }
    assert (Hn' : next_candidate (vmas s) vs n a = None).
    { unfold next_candidate. destruct (List.find _ _) as [q|] eqn:Hf; [|done]. exfalso. apply List.find_some in Hf as [Hq Hf].
      apply list_elem_of_In in Hq. specialize (Hlow q Hq). unfold in_the_way in Hf. rewrite add64_small in Hf by lia. lia. }
    rewrite Hn'. exists a. split; [done|]. split; [right; rewrite PAGE_SIZE_eq; lia|]. by apply next_candidate_none.
  - exists MMAP_BASE. split; [done|]. split; [by left|]. by apply next_candidate_none.
Qed.

(** Evaluating one pass over VMAs with known ranges. *)
Ltac run_pass Hs He :=
  rewrite ?Hs, ?He;
  match goal with |- context [if ?b then _ else _] => let r := eval vm_compute in b in change b with r end;
  cbn -[page_align end_of]; rewrite ?He; try reflexivity.

(** C26: mapping one page three times with [mmap(NULL, 4096)].  The first search gives [MMAP_BASE]; when
    that VMA is the only one the second gives address 0xFFE; and with both VMAs in place [do_mmap] does
    not return, for any number of passes: the search comes back to the candidate 0xFFC for ever. *)
Theorem mmap_third_page_hangs mm x vs s : mm <> 0 -> mms s !! mm = Some x -> chain (vmas s) (mmap x) vs ->
  (map (range_of (vmas s)) vs = [] -> forall fuel, (1 <= fuel)%nat ->
     find_free_area fuel mm (page_align 4096) s = Done (MMAP_BASE, s)) /\
  (map (range_of (vmas s)) vs = [(MMAP_BASE, MMAP_BASE + page_align 4096)] -> forall fuel, (2 <= fuel)%nat ->
     find_free_area fuel mm (page_align 4096) s = Done (0xFFE, s)) /\
  (map (range_of (vmas s)) vs = [(0xFFE, 0xFFE + page_align 4096); (MMAP_BASE, MMAP_BASE + page_align 4096)] ->
     forall fuel flags, do_mmap fuel mm 0 4096 flags s = NoFuel).
Proof.
  intros Hm0 Hx Hc. split; [|split].
  - intros Hvs fuel Hf. rewrite (find_free_area_search mm x vs s Hx Hc). destruct vs; [|done]. destruct fuel; [lia|done].
  - intros Hvs fuel Hf. rewrite (find_free_area_search mm x vs s Hx Hc).
    destruct vs as [|v [|? ?]]; [done| |done]. injection Hvs as Hs He. destruct fuel as [|[|fuel]]; [lia|lia|].
    assert (E1 : next_candidate (vmas s) [v] (page_align 4096) MMAP_BASE = Some 0xFFE).
    { unfold next_candidate, in_the_way. cbn [List.find]. run_pass Hs He. }
    assert (E2 : next_candidate (vmas s) [v] (page_align 4096) 0xFFE = None).
    { unfold next_candidate, in_the_way. cbn [List.find]. run_pass Hs He. }
    cbn [search]. by rewrite E1, E2.
  - intros Hvs fuel flags. destruct vs as [|v [|w [|? ?]]]; [done|done| |done]. injection Hvs as Hs He Hs' He'.
    assert (Hnone : find_free_area fuel mm (page_align 4096) s = NoFuel).
    { rewrite (find_free_area_search mm x _ s Hx Hc).
      assert (E1 : next_candidate (vmas s) [v; w] (page_align 4096) MMAP_BASE = Some 0xFFE).
      { unfold next_candidate, in_the_way. cbn [List.find]. run_pass Hs He. run_pass Hs' He'. }
      assert (E2 : next_candidate (vmas s) [v; w] (page_align 4096) 0xFFE = Some 0xFFC).
      { unfold next_candidate, in_the_way. cbn [List.find]. run_pass Hs He. }
      assert (E3 : next_candidate (vmas s) [v; w] (page_align 4096) 0xFFC = Some 0xFFC).
      { unfold next_candidate, in_the_way. cbn [List.find]. run_pass Hs He. }
      destruct fuel as [|[|fuel]]; cbn [search]; rewrite ?E1, ?E2; [done|done|].
      by rewrite (search_fixpoint [v; w] s fuel _ 0xFFC E3). }
    unfold do_mmap. rewrite (proj2 (Z.eqb_neq mm 0)) by exact Hm0. cbn [orb Z.eqb].
    unfold mbind, M_bind. by rewrite Hnone.
Qed.

Definition sample_pages : gmap Z vma_area :=
  {[16 := VmaArea 0xFFE 0x1FFD VM_ANONYMOUS 32; 32 := VmaArea MMAP_BASE (MMAP_BASE + 0xFFF) VM_ANONYMOUS 0]}.

Lemma find_free_area_ends_witness : exists s a, chain (vmas s) (mmap (sample_mm 32)) [32] /\
  find_free_area 2 8 (page_align 0x3000) s = Done (a, s).
Proof.
  destruct sample_object as (_ & h & _). set (s := sample_spaces h 8 (sample_mm 32) sample_pages).
  assert (Hc : chain (vmas s) (mmap (sample_mm 32)) [32]).
  { split; [reflexivity|]. split; [lia|]. eexists. split; reflexivity. }
  destruct (find_free_area_ends 8 (sample_mm 32) [32] 0x3000 2 s) as (a & Hrun & _); [reflexivity|exact Hc| |lia|].
  - intros q Hq. apply list_elem_of_singleton in Hq. subst q. vm_compute. discriminate.
  - exists s, a. split; assumption.
Defined.

Lemma mmap_third_page_hangs_witness : exists s : spaces, chain (vmas s) (mmap (sample_mm 16)) [16; 32] /\
  forall fuel, do_mmap fuel 8 0 4096 VM_READ s = NoFuel.
Proof.
  destruct sample_object as (_ & h & _). set (s := sample_spaces h 8 (sample_mm 16) sample_pages).
  assert (Hc : chain (vmas s) (mmap (sample_mm 16)) [16; 32]).
  { split; [reflexivity|]. split; [lia|]. eexists. split; [reflexivity|]. split; [reflexivity|]. split; [lia|].
    eexists. split; reflexivity. }
  exists s. split; [exact Hc|]. intros fuel.
  apply (mmap_third_page_hangs 8 (sample_mm 16) [16; 32] s ltac:(lia) eq_refl Hc). reflexivity.
Defined.
