(* ===== verification/FaultProps.v ===== *)
(** What the page-fault handler does ([kernel/page_fault.c]): pages on demand, pages copied on a write, faults refused. *)
From S2P Require Import Prelude ListHead Pmm PmmTheory PmmOps PmmInit PmmProps Machine Mmu MmuTheory MmuProps UserPages SlabSample PageSample Slab SlabProps Vmap Vmalloc Mm MmTheory MmProps PrintkTheory.

(** ** The machine inside the state *)

Definition with_cpu (m : machine) (s : spaces) : spaces := put_s_heap (set_mach m (s_heap s)) s.

Lemma wp_on_cpu {A} (m : M machine A) (Q : A -> spaces -> Prop) s : wp m (fun a m' => Q a (with_cpu m' s)) (cpu s) -> wp (on_cpu m) Q s.
Proof. intros Hm. unfold on_cpu, on_kmem, on_machine, on_heap. do 4 (apply wp_zoom). exact Hm. Qed.
Lemma cpu_with_cpu m s : cpu (with_cpu m s) = m.
Proof. reflexivity. Qed.
Lemma with_cpu_id s : with_cpu (cpu s) s = s.
Proof. by destruct s as [? ? ? ? [? ? ? ? ? ? ? ? [? ? ? ? ? ? ? ? ? []]]]. Qed.
Lemma with_cpu_twice m m' s : with_cpu m (with_cpu m' s) = with_cpu m s.
Proof. reflexivity. Qed.

(** ** A fresh page at an address *)

(** [alloc_phys_pages], [memset] and [map_page], as four functions do it. *)
Section add_page.
Context (D : Z -> bool) {A : Type} (va prot : Z) (e1 e2 ok : M spaces A) (Q : A -> spaces -> Prop) (s : spaces).
Let root := root_of (cpu s) va.

Lemma wp_add_page : pt_inv D (cpu s) root -> D (L0_INDEX va) = true -> prot_ok prot ->
  (forall m, grow D (cpu s) m root -> free_pages (m_pmm m) = 0 -> wp e1 Q (with_cpu m s)) ->
  (forall m, grow D (cpu s) m root -> free_pages (m_pmm m) = 1 -> wp e2 Q (with_cpu m s)) ->
  (forall n m, page_added D (cpu s) m root va prot (fun _ => 0) n -> wp ok Q (with_cpu m s)) ->
  wp (pa ← on_cpu (on_pmm (alloc_phys_pages 0 GFP_KERNEL));
      if pa =? 0 then e1 else
      v ← on_cpu (phys_to_virt pa);
      _ ← on_cpu (zero_mem v PAGE_SIZE);
      ret ← on_cpu (map_page va pa prot);
      if negb (ret =? 0) then _ ← on_cpu (on_pmm (free_phys_pages pa 0)); e2 else ok) Q s.
Proof using.
  intros Hi HD Hprot H1 H2 H3. pose proof (pt_pmm _ _ _ Hi) as Hpmm.
  apply wp_bind, wp_on_cpu, wp_on_pmm. eapply wp_alloc_phys_pages; [done|unfold MAX_ORDER; lia| |].
  2:{ intros Hno. apply H1; [apply grow_same_ram; try done; by apply binv_with_error|]. by apply (no_free_pages (m_pmm (cpu s))). }
  intros n pm Hal _. pose proof (own_allocated _ _ _ _ Hpmm Hal) as Hown. destruct (op_new _ _ _ Hown) as (_ & _ & Hok & _).
  pose proof (frame_addr_bounds n Hok) as [Hb _]. replace (frame_addr n =? 0) with false by lia.
  apply wp_bind, wp_on_cpu, wp_phys_to_virt. apply wp_bind, wp_on_cpu. rewrite cpu_with_cpu, !with_cpu_twice.
  apply wp_zero_page; [done|]. intros s1 Hr1 Hp1 Hz Ho.
  pose proof (own_written _ _ _ _ Hown Hr1 Hp1 Ho) as Hown1.
  apply wp_bind, wp_on_cpu. rewrite cpu_with_cpu, with_cpu_twice.
  apply (wp_map_own D (cpu s) root); [done..| |].
  - intros s2 Hg H0. apply wp_bind, wp_on_cpu. rewrite cpu_with_cpu.
    apply (wp_free_own D (cpu s) root s1); [done..|]. intros m Hm Hcount. apply H2; [done|]. by rewrite Hcount, H0.
  - intros s2 [P1 P2 P3 P4 P5]. apply (H3 n). split; [done..| |done]. intros i Hx. by rewrite P4, Hz.
Qed.
End add_page.

(** ** Messages *)

Definition pf_msg (str : String.string) : list Z := bytes str ++ [10].
#[local] Arguments pf_msg str%_string_scope.
(** The state after output, with the machine [m]. *)
Definition reported (m : machine) (out : list Z) (s : spaces) : spaces := set_console (console s ++ out) (with_cpu m s).

Lemma wp_pf_puts str (Q : unit -> spaces -> Prop) s : Q tt (set_console (console s ++ str) s) -> wp (pf_puts str) Q s.
Proof. intros HQ. unfold pf_puts. by wp_step. Qed.
Lemma silent m s : with_cpu m s = reported m [] s.
Proof. unfold reported. rewrite app_nil_r. reflexivity. Qed.

(** ** A page on demand *)

Inductive demand_outcome D (s s' : machine) root va prot : list Z -> Prop :=
| DemandAllocFailed : grow D s s' root -> free_pages (m_pmm s') = 0 -> demand_outcome D s s' root va prot (pf_msg "[PAGE FAULT] alloc failed")
| DemandMapFailed : grow D s s' root -> free_pages (m_pmm s') = 1 -> demand_outcome D s s' root va prot (pf_msg "[PAGE FAULT] map failed")
| DemandMapped n : page_added D s s' root va prot (fun _ => 0) n -> demand_outcome D s s' root va prot [].

(** The access a VMA grants to a page on demand. *)
Definition demand_prot (flags : Z) : Z := if Z.land flags VM_EXEC =? 0 then PAGE_USER_RW else PAGE_USER_RX.
Lemma demand_prot_ok flags : prot_ok (demand_prot flags).
Proof. unfold demand_prot. by case_match; split. Qed.

Lemma wp_demand_fault D va flags (Q : unit -> spaces -> Prop) s : pt_inv D (cpu s) (root_of (cpu s) va) -> D (L0_INDEX va) = true ->
  (forall m out, demand_outcome D (cpu s) m (root_of (cpu s) va) va (demand_prot flags) out -> Q tt (reported m out s)) ->
  wp (demand_fault va flags) Q s.
Proof.
  intros Hi HD HQ. unfold demand_fault.
  replace (if negb (Z.land flags VM_EXEC =? 0) then PAGE_USER_RX else PAGE_USER_RW) with (demand_prot flags)
    by (unfold demand_prot; by destruct (_ =? 0)).
  cbv zeta. apply (wp_add_page D); [done|done|apply demand_prot_ok|..].
  - intros m Hg H0. apply wp_pf_puts, HQ. by constructor 1.
  - intros m Hg H1. apply wp_pf_puts, HQ. by constructor 2.
  - intros n m Ha. wp_step. rewrite silent. apply HQ. by econstructor 3.
Qed.

(** ** Copying on a write *)

(** The writer's page [va] now maps to the copy [n] of the frame [f]. *)
Record page_copied D (s s' : machine) root va f n : Prop := {
  pc_inv : pt_inv D s' root;
  pc_rest : page_put D s s' root f;
  pc_new : ~ held (m_pmm s) n /\ live (m_pmm s') n 0 /\ page_ok n /\ not_table D s' root n /\
    pg_ref_count (page_at (m_pmm s') n) = 1;
  pc_content : forall i, idx_ok i -> entry s' (frame_addr n) i = entry s (frame_addr f) i;
  pc_map : forall va', D (L0_INDEX va') = true -> mapping s' root va' =
    if decide (same_page va' va) then Some (Z.lor PAGE_USER_RW (frame_addr n)) else mapping s root va';
}.
(** The page is lost: it is not mapped any more, and the reference to its frame is gone. *)
Record page_lost D (s s' : machine) root va f : Prop := {
  po_inv : pt_inv D s' root;
  po_rest : page_put D s s' root f;
  po_map : forall va', D (L0_INDEX va') = true -> mapping s' root va' =
    if decide (same_page va' va) then None else mapping s root va';
}.
Inductive cow_outcome D (s s' : machine) root va f : list Z -> Prop :=
| CowNoMemory : grow D s s' root -> free_pages (m_pmm s') = 0 -> cow_outcome D s s' root va f (pf_msg "[PAGE FAULT] COW: alloc failed")
| CowLost : page_lost D s s' root va f -> free_pages (m_pmm s') = 1 -> cow_outcome D s s' root va f (pf_msg "[PAGE FAULT] COW: map failed")
| CowCopied n s1 : page_copied D s s1 root va f n -> flush_tlb s1 = Done (tt, s') -> cow_outcome D s s' root va f [].

(** Half way: the old page is gone and the copy [n] not yet mapped. *)
Record page_swapped D (s s' : machine) root va f n : Prop := {
  ps_lost : page_lost D s s' root va f;
  ps_old : ~ held (m_pmm s) n;
  ps_new : user_page D s' root n /\ pg_ref_count (page_at (m_pmm s') n) = 1;
  ps_content : forall i, idx_ok i -> entry s' (frame_addr n) i = entry s (frame_addr f) i;
}.

Section swap.
Context (D : Z -> bool) (s : machine) (va f n : Z).
Let root := root_of s va.
Hypothesis inv : pt_inv D s root.
Hypothesis in_D : D (L0_INDEX va) = true.
Hypothesis used : user_page D s root f.

Lemma wp_swap s2 (Q : unit -> machine -> Prop) : own_page s s2 n ->
  (forall i, idx_ok i -> entry s2 (frame_addr n) i = entry s (frame_addr f) i) ->
  (forall s3, pt_inv D s3 root -> user_page D s3 root f ->
     (forall s4, pt_inv D s4 root -> page_put D s3 s4 root f -> (forall va', mapping s4 root va' = mapping s3 root va') ->
        page_swapped D s s4 root va f n) -> Q tt s3) ->
  wp (unmap_page va) Q s2.
Proof using inv in_D used.
  intros Hown Hc HQ. pose proof (own_grow _ _ _ _ _ inv Hown) as Hg. pose proof (gr_frame _ _ _ _ Hg) as Hf2.
  pose proof (own_ne _ _ _ Hown f (live_held _ _ (proj1 (proj2 used)))) as Hfn.
  destruct (user_page_frame _ _ _ _ _ Hf2 used) as (Hu2 & _).
  pose proof (same_regs_root _ _ va (op_regs _ _ _ Hown)) as Hr. fold root in Hr.
  apply (wp_unmap_one_page D); rewrite ?Hr; [apply Hg|done|]. intros s3 [Hi3 Hm3 Hf3 _].
  destruct (user_page_frame _ _ _ _ _ Hf3 Hu2) as (Hu3 & _). apply HQ; [done..|]. intros s4 Hi4 Hp Hm4.
  destruct (op_new _ _ _ Hown) as (Hnh & Hl & Hok & Hrc).
  assert (Hn2 : user_page D s2 root n) by (split_and!; [done|done|exact (own_not_table D s s2 root n inv Hown)|lia..]).
  destruct (user_page_frame _ _ _ _ _ Hf3 Hn2) as ((_ & Hl3 & Hn3 & _) & Hrc3 & He3).
  destruct (pp_rest _ _ _ _ _ Hp n) as ([_ Hl4 Hrc4] & Hn4 & He4); [congruence|by apply live_held|done|].
  split; [split|done| |].
  - done.
  - eapply page_put_l; [exact Hf2|done|]. by eapply page_put_l; [exact Hf3| |].
  - intros va' HD'. rewrite Hm4, Hm3 by done. case_decide; [done|]. by apply (grow_mapping D).
  - split; [|congruence]. split_and!; [done|by apply Hl4|done|lia..].
  - intros i Hx. by rewrite He4, He3, Hc.
Qed.

Lemma wp_swap_map s4 (Q : Z -> machine -> Prop) : page_swapped D s s4 root va f n ->
  (forall s5, page_swapped D s s5 root va f n -> free_pages (m_pmm s5) = 0 -> Q (-1) s5) -> (forall s5, page_copied D s s5 root va f n -> Q 0 s5) ->
  wp (map_page va (frame_addr n) PAGE_USER_RW) Q s4.
Proof using inv in_D used.
  intros [[Hi4 Hp4 Hm4] Hnh [Hn4 Hrc4] Hc4] HQ1 HQ2.
  pose proof (same_regs_root _ _ va (pp_regs _ _ _ _ _ Hp4)) as Hr. fold root in Hr.
  assert (Hkeep : forall s5, pt_frame D s4 s5 root -> page_put D s s5 root f /\ (user_page D s5 root n /\ pg_ref_count (page_at (m_pmm s5) n) = 1) /\
    forall i, idx_ok i -> entry s5 (frame_addr n) i = entry s (frame_addr f) i).
  { intros s5 Hf5. destruct (user_page_frame _ _ _ _ _ Hf5 Hn4) as (Hu5 & Hrc5 & He5).
    split_and!; [by eapply page_put_r|done|congruence|]. intros i Hx. by rewrite He5, Hc4. }
  apply (wp_map_one_page D); rewrite ?Hr; [done|done| |].
  - intros s5 Hg H0. destruct (Hkeep s5 (gr_frame _ _ _ _ Hg)) as (Hp5 & Hn5 & Hc5). apply HQ1; [|exact H0].
    split; [split; [apply Hg|done|]|done|done|done]. intros va' HD'. rewrite <- Hm4 by done. by apply (grow_mapping D).
  - intros s5 Hi5 Hf5 Hm5 _. destruct (Hkeep s5 Hf5) as (Hp5 & ((Hok & Hl & Hnt & _) & Hrc5) & Hc5). apply HQ2.
    split; [done|done|done|done|]. intros va' HD'. rewrite Hm5, Hm4 by done.
    destruct (frame_addr_bounds n Hok) as [Hb Hmod]. rewrite (land_addr_mask (frame_addr n)) by (done || lia).
    cbv zeta. destruct (page_entry PAGE_USER_RW n) as [-> _]; [by split|done|]. by case_decide.
Qed.

Lemma wp_swap_free s5 (Q : unit -> machine -> Prop) : page_swapped D s s5 root va f n ->
  (forall s6, page_lost D s s6 root va f -> free_pages (m_pmm s6) = free_pages (m_pmm s5) + 1 -> Q tt s6) -> wp (on_pmm (free_phys_pages (frame_addr n) 0)) Q s5.
Proof using inv in_D used.
  intros [[Hi5 [Hr Hrest Hsh] Hm5] Hnh [Hn5 _] _] HQ. apply (wp_free_user D s5 root); [done|done|].
  intros s6 Hi6 Hr6 Hrel Hnt He Hm. assert (Hst : forall g, g <> n -> held (m_pmm s5) g -> stays (m_pmm s5) (m_pmm s6) g).
  { intros g Hg Hh. eapply released_stays; [exact Hrel|apply Hn5|done|done]. }
  pose proof (live_held _ _ (proj1 (proj2 used))) as Hhf.
  apply HQ; [|exact (rl_count _ _ _ _ Hrel)]. split; [done| |intros va' HD'; by rewrite Hm, Hm5]. split.
  - by eapply same_regs_trans.
  - intros g Hg Hh Hng. destruct (Hrest g Hg Hh Hng) as (Hs & Hn & Hge).
    split_and!; [eapply stays_trans; [exact Hs|]; apply Hst; [intros ->; done|apply Hs]|by apply Hnt|]. intros i Hx. by rewrite He, Hge.
  - intros H1. destruct (Hsh H1) as (Hl & Hrc & Hn & Hfe).
    destruct (Hst f) as [_ Hl6 Hrc6]; [intros ->; done|by apply live_held|].
    split_and!; [by apply Hl6|lia|by apply Hnt|]. intros i Hx. by rewrite He, Hfe.
Qed.
End swap.

Lemma wp_cow_fault D va f (Q : unit -> spaces -> Prop) s : let root := root_of (cpu s) va in
  pt_inv D (cpu s) root -> D (L0_INDEX va) = true -> user_page D (cpu s) root f ->
  (forall m out, cow_outcome D (cpu s) m root va f out -> Q tt (reported m out s)) ->
  wp (cow_fault va (frame_addr f)) Q s.
Proof.
  intros root Hi HD Hu HQ. pose proof (pt_pmm _ _ _ Hi) as Hpmm. unfold cow_fault.
  apply wp_bind, wp_on_cpu, wp_on_pmm. eapply wp_alloc_phys_pages; [done|unfold MAX_ORDER; lia| |].
  2:{ intros Hno. apply wp_pf_puts, (HQ _ (pf_msg _)). constructor; [apply grow_same_ram; try done; by apply binv_with_error|]. by apply (no_free_pages (m_pmm (cpu s))). }
  intros n pm Hal _. pose proof (own_allocated _ _ _ _ Hpmm Hal) as Hown. destruct (op_new _ _ _ Hown) as (_ & _ & Hok & _).
  pose proof (frame_addr_bounds n Hok) as [Hb _]. replace (frame_addr n =? 0) with false by lia.
  do 2 (apply wp_bind, wp_on_cpu, wp_phys_to_virt). apply wp_bind, wp_on_cpu. rewrite !cpu_with_cpu, !with_cpu_twice.
  pose proof (own_ne _ _ _ Hown f (live_held _ _ (proj1 (proj2 Hu)))) as Hfn.
  apply wp_copy_page; [apply Hu|done|done|]. intros s2 Hr2 Hp2 Hc2 Ho2.
  pose proof (own_written _ _ _ _ Hown Hr2 Hp2 Ho2) as Hown2.
  apply wp_bind, wp_on_cpu. rewrite cpu_with_cpu, with_cpu_twice.
  eapply (wp_swap D (cpu s)); [done|done|exact Hu|exact Hown2|exact Hc2|]. intros s3 Hi3 Hu3 Hput.
  apply wp_bind, wp_on_cpu. rewrite cpu_with_cpu, with_cpu_twice.
  apply (wp_put_user D s3 root); [done|done|]. intros s4 Hi4 Hp4 Hm4. specialize (Hput s4 Hi4 Hp4 Hm4).
  apply wp_bind, wp_on_cpu. rewrite cpu_with_cpu, with_cpu_twice.
  eapply (wp_swap_map D (cpu s)); [done|done|exact Hu|exact Hput| |].
  - intros s5 Hs5 H0. apply wp_bind, wp_on_cpu. rewrite cpu_with_cpu, with_cpu_twice.
    eapply (wp_swap_free D (cpu s)); [done|done|exact Hu|exact Hs5|]. intros s6 Hlost Hcount. apply wp_pf_puts, (HQ _ (pf_msg _)). constructor; [done|]. by rewrite Hcount, H0.
  - intros s5 Hc. apply wp_on_cpu. rewrite cpu_with_cpu, with_cpu_twice. unfold flush_tlb, arch_tlb_flush_all. wp_step.
    rewrite silent. apply HQ. by econstructor.
Qed.

(** ** The page of an address *)

Lemma page_shr va n : is_u64 va -> 12 <= n -> shr64 (Z.land va PAGE_MASK) n = shr64 va n.
Proof.
  intros Hva Hn. unfold PAGE_MASK. rewrite PAGE_SIZE_eq. change (4096 - 1) with (2 ^ 12 - 1). rewrite land_not_mask by (done || lia).
  rewrite !shr64_div by lia. replace n with (12 + (n - 12)) by lia. rewrite Z.pow_add_r, <- !Z.div_div by lia.
  f_equal. change (2 ^ 12) with 4096. lia.
Qed.

(** The tree does not tell an address from the start of its page. *)
Lemma page_same_page va : is_u64 va -> same_page (Z.land va PAGE_MASK) va.
Proof. intros Hva. unfold same_page, table_path, L0_INDEX, L1_INDEX, L2_INDEX, L3_INDEX. by rewrite !page_shr by (done || lia). Qed.
Lemma page_root m va : is_u64 va -> root_of m (Z.land va PAGE_MASK) = root_of m va.
Proof. intros Hva. unfold root_of, is_user_addr. by rewrite page_shr by (done || lia). Qed.
Lemma page_L0 va : is_u64 va -> L0_INDEX (Z.land va PAGE_MASK) = L0_INDEX va.
Proof. intros Hva. unfold L0_INDEX. by rewrite page_shr by (done || lia). Qed.

(** ** The dispatch *)

(** The sixteen digits of an address. *)
Definition hex_text (v : Z) (l : list Z) : Prop :=
  exists ds, l = map hex_digit ds /\ length ds = 16%nat /\ Forall (fun d => 0 <= d < 16) ds /\ value_of 16 ds = v.

Lemma wp_put_hex v (Q : unit -> spaces -> Prop) s : is_u64 v ->
  (forall l, hex_text v l -> Q tt (set_console (console s ++ l) s)) -> wp (put_hex v) Q s.
Proof.
  intros Hv HQ. unfold put_hex. eapply wp_mono; [apply (wp_for_n (fun k s' => exists ds, s' = set_console (console s ++ map hex_digit ds) s /\
    Z.of_nat (length ds) = k /\ Forall (fun d => 0 <= d < 16) ds /\ (k <= 16 -> value_of 16 ds = v / 2 ^ (64 - 4 * k))))|].
  - exists []. split_and!; [|done|done|]. { cbn. rewrite app_nil_r. by destruct s. }
    intros _. rewrite Z.div_small; [done|]. exact Hv.
  - intros k s1 Hk (ds & -> & Hl & Hds & Hval). unfold console_putc. wp_step. change 0xF with (2 ^ 4 - 1). rewrite land_mask, shr64_div by lia.
    set (d := _ mod 2 ^ 4). pose proof (Z.mod_pos_bound (v / 2 ^ (60 - 4 * k)) (2 ^ 4) ltac:(lia)) as Hd. fold d in Hd.
    exists (ds ++ [d]). rewrite map_app, app_assoc, length_app. split_and!; [done|cbn; lia| |].
    { apply Forall_app. split; [done|]. by apply Forall_singleton. }
    intros _. rewrite value_of_app, Hval by lia.
    replace (64 - 4 * (k + 1)) with (60 - 4 * k) by lia. replace (64 - 4 * k) with (60 - 4 * k + 4) by lia.
    rewrite Z.pow_add_r, <- Z.div_div by lia. subst d. change (2 ^ 4) with 16. pose proof (Z.div_mod (v / 2 ^ (60 - 4 * k)) 16). lia.
  - intros [] s' (ds & -> & Hl & Hds & Hval). apply HQ. exists ds. split_and!; [done|lia|done|]. rewrite Hval by lia. apply Z.div_1_r.
Qed.

Section handler.
Context (rust_vma_find : Z -> Z -> M spaces Z) (rust_send_sigkill_current rust_send_sigsegv_current : M spaces unit).
Context (D : Z -> bool) (s : spaces) (va esr far flags : Z).
Let root := root_of (cpu s) va.
Let page := Z.land va PAGE_MASK.
Let handler := page_fault_handler rust_vma_find rust_send_sigkill_current rust_send_sigsegv_current va esr far.

(** A fault of a process at an address that is not vmalloc's. *)
Record user_fault : Prop := {
  uf_addr : is_u64 va /\ (va < VMALLOC_START \/ VMALLOC_START + VMALLOC_SIZE <= va);
  uf_mm : current_mm s <> 0;
  uf_vma : rust_vma_find (current_mm s) va s = Done (flags, s);
  uf_tree : pt_inv D (cpu s) root /\ D (L0_INDEX va) = true;
}.
Hypothesis fault : user_fault.

Definition is_write : bool := negb (Z.land (shr64 esr 6) 1 =? 0).
Definition writable : bool := negb (Z.land flags VM_WRITE =? 0).

Lemma run_vmalloc_miss (k : Z -> M spaces unit) o : k (-1) s = o -> (vmalloc_handle_page_fault va ≫= k) s = o.
Proof using fault.
  intros Hk. destruct fault as [[Hva Hout] _ _ _]. unfold vmalloc_handle_page_fault.
  replace ((va <? VMALLOC_START) || (VMALLOC_START + VMALLOC_SIZE <=? va)) with true by lia. exact Hk.
Qed.

Definition no_vma_msg (l : list Z) : list Z := bytes "[PAGE FAULT] no vma at 0x" ++ l ++ pf_msg ", sending SIGKILL".
Definition readonly_msg (mapped : bool) : list Z :=
  if mapped then pf_msg "[PAGE FAULT] write fault on non-writable VMA, sending SIGSEGV"
  else pf_msg "[PAGE FAULT] write fault on non-writable VMA (demand alloc), sending SIGSEGV".

Lemma handler_no_vma : flags = 0 -> exists l, hex_text va l /\ handler s = rust_send_sigkill_current (set_console (console s ++ no_vma_msg l) s).
Proof using fault.
  intros H0. destruct fault as [[Hva _] Hmm Hfind _].
  assert (Hhex : wp (put_hex va) (fun _ s' => exists l, hex_text va l /\ s' = set_console (console s ++ bytes "[PAGE FAULT] no vma at 0x" ++ l) s)
    (set_console (console s ++ bytes "[PAGE FAULT] no vma at 0x") s)).
  { apply wp_put_hex; [done|]. intros l Hl. exists l. split; [done|]. by rewrite app_assoc. }
  apply wp_done in Hhex as ([] & s' & Hrun & l & Hl & ->). exists l. split; [exact Hl|].
  unfold handler, page_fault_handler. apply run_vmalloc_miss. change (-1 =? 0) with false. cbn iota.
  apply run_bind, wp_gets. replace (current_mm s =? 0) with false by lia.
  apply run_bind. unfold wp. rewrite Hfind. replace (flags =? 0) with true by lia.
  apply run_bind, wp_pf_puts. apply run_bind. unfold wp. rewrite Hrun. apply run_bind, wp_pf_puts.
  f_equal. unfold no_vma_msg, pf_msg. cbn [console set_console]. by rewrite <- !app_assoc.
Qed.

(** The frame the address maps to, 0 when it maps to none. *)
Definition old_frame : Z := match mapping (cpu s) root va with Some e => pte_to_phys e | None => 0 end.

Lemma handler_vma : flags <> 0 -> handler s =
  if negb (old_frame =? 0) && is_write && writable then cow_fault page old_frame s
  else if is_write && negb writable then rust_send_sigsegv_current (set_console (console s ++ readonly_msg (negb (old_frame =? 0))) s)
  else demand_fault page flags s.
Proof using fault.
  intros H0. destruct fault as [_ Hmm Hfind [Hi HD]].
  unfold handler, page_fault_handler. apply run_vmalloc_miss. change (-1 =? 0) with false. cbn iota.
  apply run_bind, wp_gets. replace (current_mm s =? 0) with false by lia.
  apply run_bind. unfold wp. rewrite Hfind. replace (flags =? 0) with false by lia.
  apply run_bind, wp_on_cpu, (wp_get_phys_from_va D); [done|done|]. fold root. fold old_frame.
  rewrite with_cpu_id.
  unfold is_write, writable. destruct (old_frame =? 0), (Z.land (shr64 esr 6) 1 =? 0), (Z.land flags VM_WRITE =? 0); cbn [negb andb];
    try reflexivity; apply run_bind, wp_pf_puts; reflexivity.
Qed.
End handler.

(** ** The properties *)

(** C23: A process writes to a page it maps and whose VMA allows writing: the page is copied.  Either there is no
    memory, which is reported and leaves every mapping as it was; or the address now maps, writable, to a fresh
    frame with the contents of the old one, and the TLB is flushed last; or no table could be allocated for the
    new mapping, and the page is lost.  In the last two cases one reference to the old frame is gone: while
    others use it, it keeps its contents; all other mappings and all other pages in use are untouched. *)
Theorem write_fault_correct find kill segv D s va esr far flags f e : let root := root_of (cpu s) va in
  user_fault find D s va flags -> is_write esr = true -> writable flags = true ->
  mapping (cpu s) root va = Some e -> pte_to_phys e = frame_addr f -> user_page D (cpu s) root f ->
  exists m out, page_fault_handler find kill segv va esr far s = Done (tt, reported m out s) /\
    cow_outcome D (cpu s) m root (Z.land va PAGE_MASK) f out.
Proof.
  intros root Hf Hw Hwr He Hphys Hu. destruct (uf_addr _ _ _ _ _ Hf) as [Hva _]. destruct (uf_tree _ _ _ _ _ Hf) as [Hi HD].
  assert (Hold : old_frame s va = frame_addr f) by (unfold old_frame; fold root; by rewrite He).
  rewrite (handler_vma _ _ _ D s va esr far flags) by (done || by intros ->). rewrite Hold, Hw, Hwr.
  pose proof (frame_addr_bounds f (proj1 Hu)) as [Hb _]. replace (frame_addr f =? 0) with false by lia. cbn [negb andb].
  assert (Hwp : wp (cow_fault (Z.land va PAGE_MASK) (frame_addr f)) (fun _ s' => exists m out, s' = reported m out s /\
    cow_outcome D (cpu s) m root (Z.land va PAGE_MASK) f out) s).
  { apply (wp_cow_fault D); rewrite ?page_root, ?page_L0 by done; [done..|]. intros m out Hout. by exists m, out. }
  apply wp_done in Hwp as ([] & s' & Hrun & m & out & -> & Hout). by exists m, out.
Qed.

(** A fault the VMA allows. *)
Lemma demand_fault_runs find kill segv D s va esr far flags : let root := root_of (cpu s) va in
  user_fault find D s va flags -> flags <> 0 ->
  (is_write esr = true -> writable flags = true /\ mapping (cpu s) root va = None) ->
  exists m out, page_fault_handler find kill segv va esr far s = Done (tt, reported m out s) /\
    demand_outcome D (cpu s) m root (Z.land va PAGE_MASK) (demand_prot flags) out.
Proof.
  intros root Hf H0 Hw. destruct (uf_addr _ _ _ _ _ Hf) as [Hva _]. destruct (uf_tree _ _ _ _ _ Hf) as [Hi HD].
  assert (Hwp : wp (demand_fault (Z.land va PAGE_MASK) flags) (fun _ s' => exists m out, s' = reported m out s /\
    demand_outcome D (cpu s) m root (Z.land va PAGE_MASK) (demand_prot flags) out) s).
  { apply (wp_demand_fault D); rewrite ?page_root, ?page_L0 by done; [done..|]. intros m out Hout. by exists m, out. }
  apply wp_done in Hwp as ([] & s' & Hrun & m & out & -> & Hout). exists m, out. split; [|exact Hout].
  rewrite (handler_vma _ _ _ D s va esr far flags) by done. destruct (is_write esr); [|by rewrite andb_false_r].
  destruct Hw as [-> Hm]; [done|]. unfold old_frame. fold root. rewrite Hm. exact Hrun.
Qed.

(** A fault that the VMAs do not allow changes nothing but the console before the signal is sent: outside every VMA
    the message holds the sixteen hexadecimal digits of the address and the process is killed; a write to a VMA
    without write access, mapped page or not, is answered with a segmentation fault. *)
Lemma fault_refused find kill segv D s va esr far flags : user_fault find D s va flags ->
  (flags = 0 -> exists l, hex_text va l /\
     page_fault_handler find kill segv va esr far s = kill (set_console (console s ++ no_vma_msg l) s)) /\
  (flags <> 0 -> is_write esr = true -> writable flags = false ->
     page_fault_handler find kill segv va esr far s =
       segv (set_console (console s ++ readonly_msg (negb (old_frame s va =? 0))) s)).
Proof.
  intros Hf. split.
  - by apply (handler_no_vma find kill segv D).
  - intros H0 Hw Hwr. rewrite (handler_vma _ _ _ D s va esr far flags) by done. by rewrite Hw, Hwr, andb_false_r.
Qed.

(** C24: The fault handler for an address of the user half, in every case but a write to a mapped page that may be written.
    Outside every VMA the console gets the sixteen hexadecimal digits of the address and the process is killed.  A write to a
    VMA without write access, mapped page or not, is reported and answered with a segmentation fault, and nothing
    else changes.  Any other fault, on a page that is not mapped or a read, maps a fresh zeroed frame at the page: read-only and
    executable when the VMA is executable, and otherwise writable, even when the VMA does not allow writing; or the
    lack of memory is reported and no mapping changes.  A frame that was mapped at the address before keeps the
    reference the mapping held. *)
Theorem demand_fault_correct find kill segv D s va esr far flags : let root := root_of (cpu s) va in
  user_fault find D s va flags ->
  (flags = 0 -> exists l, hex_text va l /\
     page_fault_handler find kill segv va esr far s = kill (set_console (console s ++ no_vma_msg l) s)) /\
  (flags <> 0 -> is_write esr = true -> writable flags = false ->
     page_fault_handler find kill segv va esr far s =
       segv (set_console (console s ++ readonly_msg (negb (old_frame s va =? 0))) s)) /\
  (flags <> 0 -> (is_write esr = true -> writable flags = true /\ mapping (cpu s) root va = None) ->
     exists m out, page_fault_handler find kill segv va esr far s = Done (tt, reported m out s) /\
       demand_outcome D (cpu s) m root (Z.land va PAGE_MASK) (demand_prot flags) out).
Proof.
  intros root Hf. destruct (fault_refused find kill segv D s va esr far flags Hf) as [H1 H2].
  split; [exact H1|]. split; [exact H2|]. by apply demand_fault_runs.
Qed.

(** ** Examples *)

(** A process running on the machine [m]. *)
Definition running (m : machine) (h : slab) : spaces := with_cpu m (set_current 8 (sample_spaces h 8 (sample_mm 0) ∅)).
(** Every address belongs to a VMA with the flags [flags]. *)
Definition one_vma (flags : Z) (mm addr : Z) : M spaces Z := mret flags.
Definition no_signal : M spaces unit := mret tt.

Lemma running_fault m h va flags : is_u64 va -> va < VMALLOC_START -> pt_inv everywhere m (root_of m va) ->
  user_fault (one_vma flags) everywhere (running m h) va flags.
Proof.
  intros Hva Hlow Hi. split; [split; [exact Hva|by left]|discriminate|reflexivity|split; [exact Hi|reflexivity]].
Qed.

Lemma write_fault_correct_witness : exists s m out,
  page_fault_handler (one_vma VM_WRITE) no_signal no_signal 0x400123 0x40 0 s = Done (tt, reported m out s) /\
  exists f, user_page everywhere (cpu s) (root_of (cpu s) 0x400123) f /\
    cow_outcome everywhere (cpu s) m (root_of (cpu s) 0x400123) 0x400000 f out.
Proof.
  destruct sample_object as (_ & h & _). destruct (sample_page 0x400123 PAGE_USER_RX) as (m & f & e & ps & _ & _ & Hi & Hu & He & Hp & _); [reflexivity|split; reflexivity|].
  destruct (write_fault_correct (one_vma VM_WRITE) no_signal no_signal everywhere (running m h) 0x400123 0x40 0 VM_WRITE f e) as (m' & out & Hrun & Hout).
  - apply running_fault; [split; [discriminate|reflexivity]|reflexivity|exact Hi].
  - reflexivity.
  - reflexivity.
  - exact He.
  - exact Hp.
  - exact Hu.
  - exists (running m h), m', out. split; [exact Hrun|]. exists f. split; [exact Hu|exact Hout].
Defined.

(** A read of an executable page on demand, and a write that is refused. *)
Lemma demand_fault_correct_witness : exists s,
  (exists m out, page_fault_handler (one_vma (Z.lor VM_READ VM_EXEC)) no_signal no_signal 0x800123 0 0 s = Done (tt, reported m out s) /\
    demand_outcome everywhere (cpu s) m (root_of (cpu s) 0x800123) 0x800000 PAGE_USER_RX out) /\
  page_fault_handler (one_vma VM_READ) no_signal no_signal 0x800123 0x40 0 s =
    no_signal (set_console (readonly_msg false) s).
Proof.
  destruct sample_object as (_ & h & _). destruct booted as [pm Hpm]. exists (running (sample_machine pm) h).
  assert (Hf : forall flags, user_fault (one_vma flags) everywhere (running (sample_machine pm) h) 0x800123 flags).
  { intros flags. apply running_fault; [split; [discriminate|reflexivity]|reflexivity|apply (sample_pt_inv pm 6 Hpm); lia]. }
  split.
  - destruct (demand_fault_correct (one_vma (Z.lor VM_READ VM_EXEC)) no_signal no_signal everywhere (running (sample_machine pm) h)
      0x800123 0 0 (Z.lor VM_READ VM_EXEC) (Hf _)) as (_ & _ & H).
    destruct H as (m & out & Hrun & Hout); [discriminate|discriminate|]. exists m, out. split; [exact Hrun|exact Hout].
  - destruct (demand_fault_correct (one_vma VM_READ) no_signal no_signal everywhere (running (sample_machine pm) h) 0x800123 0x40 0 VM_READ (Hf _)) as (_ & H & _).
    rewrite H; [reflexivity|discriminate|reflexivity|reflexivity].
Defined.
