(* ===== verification/BrkProps.v ===== *)
(** What the heap call of a process does ([kernel/brk.c]), with the page tables and the frames it changes. *)
From S2P Require Import Prelude ListHead Pmm PmmTheory PmmOps PmmInit PmmProps Sync Machine Mmu MmuTheory MmuProps UserPages SlabSample PageSample Slab SlabProps Vmap Vmalloc Mm MmTheory MmProps MmArea FaultProps.

(** ** The pages of a process *)

Lemma user_page_addr m p : 0 <= p < 2 ^ 47 -> root_of m p = ttbr0_el1 m.
Proof. intros Hp. unfold root_of, is_user_addr. rewrite shr64_div, Z.div_small by lia. done. Qed.

(** ** Frames that are gone *)

(** From [s] to [s'] some tables and the frames [G] were given back, and nothing else. *)
Record pages_gone D (s s' : machine) root (G : Z -> Prop) : Prop := {
  pg_inv : pt_inv D s' root;
  pg_regs : same_regs s s';
  pg_live : forall g o, live (m_pmm s') g o -> live (m_pmm s) g o /\ ~ G g;
  pg_rest : forall g, held (m_pmm s) g -> not_table D s root g -> ~ G g ->
    stays (m_pmm s) (m_pmm s') g /\ not_table D s' root g /\
    forall i, idx_ok i -> entry s' (frame_addr g) i = entry s (frame_addr g) i;
}.

Section gone.
Context (D : Z -> bool) (s s1 s2 : machine) (root : Z) (G : Z -> Prop).

Lemma gone_none : pt_inv D s root -> pages_gone D s s root (fun _ => False).
Proof using. intros Hi. split; [done|apply same_regs_refl|by intros g o Hg; split; [|intros []]|]. intros g Hg Hn _. split; [by apply stays_refl|done]. Qed.
Lemma gone_ext (G' : Z -> Prop) : (forall g, G g <-> G' g) -> pages_gone D s s1 root G -> pages_gone D s s1 root G'.
Proof using. intros HG [H1 H2 H3 H4]. split; [done|done|intros g o Hg; rewrite <- HG; eauto|intros g; rewrite <- HG; eauto]. Qed.
Lemma gone_unmap va : pages_gone D s s1 root G -> unmapped D s1 s2 root va -> pages_gone D s s2 root G.
Proof using.
  intros [H1 H2 H3 H4] [U1 _ [U2 U3] U4]. split; [done|by eapply same_regs_trans|intros g o Hg; by eapply H3, U4|].
  intros g Hg Hn HG. destruct (H4 g Hg Hn HG) as (Hs & Hn1 & He). destruct (U3 g (st_held _ _ _ Hs) Hn1) as (Hs2 & Hn2 & He2).
  split_and!; [by eapply stays_trans|done|]. intros i Hi. by rewrite He2, He.
Qed.
Lemma gone_free f : pages_gone D s s1 root G -> user_page D s1 root f -> pt_inv D s2 root -> same_regs s1 s2 ->
  released (m_pmm s1) f 0 (m_pmm s2) -> (forall g, not_table D s2 root g <-> not_table D s1 root g) ->
  (forall g i, entry s2 g i = entry s1 g i) -> pages_gone D s s2 root (fun g => G g \/ g = f).
Proof using.
  intros [H1 H2 H3 H4] (_ & Hl & _) Hi2 Hr2 Hrel Hnt He2. split; [done|by eapply same_regs_trans| |].
  - intros g o Hg. destruct (proj1 (rl_live _ _ _ _ Hrel g o) Hg) as [Hg1 Hgf]. destruct (H3 g o Hg1). tauto.
  - intros g Hg Hn HG. destruct (H4 g Hg Hn) as (Hs & Hn1 & He); [tauto|].
    split_and!; [|by apply Hnt|by intros i Hi; rewrite He2, He].
    eapply stays_trans; [exact Hs|]. eapply released_stays; [exact Hrel|exact Hl|tauto|apply (st_held _ _ _ Hs)].
Qed.
End gone.

(** ** Shrinking *)

(** The pages of a heap: each is absent or maps to a frame of its own. *)
Record heap_pages D (s : machine) root lo hi : Prop := {
  hp_range : 0 <= lo /\ hi <= 2 ^ 47;
  hp_dom : forall p, page_in lo hi p -> D (L0_INDEX p) = true;
  hp_user : forall p e, page_in lo hi p -> mapping s root p = Some e -> exists f, pte_to_phys e = frame_addr f /\ user_page D s root f;
  hp_inj : forall p p' e e', page_in lo hi p -> page_in lo hi p' -> mapping s root p = Some e -> mapping s root p' = Some e' ->
    pte_to_phys e = pte_to_phys e' -> p = p';
}.
(** The frames of the pages below [a]. *)
Definition frames_below (s : machine) root lo a (g : Z) : Prop :=
  exists p e, page_in lo a p /\ mapping s root p = Some e /\ pte_to_phys e = frame_addr g.

(** The pages from [lo] to [a] are not mapped any more, and their frames are free. *)
Record shrunk D (s s' : machine) root lo a : Prop := {
  sh_gone : pages_gone D s s' root (frames_below s root lo a);
  sh_cut : forall va, D (L0_INDEX va) = true -> covered lo a va -> mapping s' root va = None;
  sh_rest : forall va, D (L0_INDEX va) = true -> ~ covered lo a va -> mapping s' root va = mapping s root va;
}.

Section shrink.
Context (D : Z -> bool) (s : machine) (root lo hi : Z).
Hypothesis inv : pt_inv D s root.
Hypothesis heap : heap_pages D s root lo hi.

Lemma shrunk_start : shrunk D s s root lo lo.
Proof using inv.
  split.
  - eapply gone_ext; [|by apply gone_none]. intros g. split; [done|]. intros (p & e & [Hp _] & _). lia.
  - intros va _ (p & [Hp _] & _). lia.
  - done.
Qed.

(** One page more. *)
Section step.
Context (a : Z).
Hypothesis at_a : page_in lo hi a.

Lemma mapping_a s' : shrunk D s s' root lo a -> mapping s' root a = mapping s root a.
Proof using heap at_a.
  intros Hs. apply (sh_rest _ _ _ _ _ _ Hs); [by apply (hp_dom _ _ _ _ _ heap)|]. intros (p & Hp & Hsame).
  destruct (hp_range _ _ _ _ _ heap) as [Hlo Hhi]. destruct at_a as [Ha Hm].
  assert (a = p) as <-; [|destruct Hp; lia]. apply (page_in_inj lo hi); [done|lia|done|destruct Hp; split; [lia|done]|done].
Qed.
Lemma frame_not_below e f : mapping s root a = Some e -> pte_to_phys e = frame_addr f -> ~ frames_below s root lo a f.
Proof using heap at_a.
  intros He Hf (p & e' & Hp & He' & Hf'). assert (a = p) as <-; [|destruct Hp; lia].
  apply (hp_inj _ _ _ _ _ heap a p e e'); [done|destruct Hp, at_a; split; [lia|done]|done|done|congruence].
Qed.
Lemma covered_snoc va : covered lo (a + 4096) va <-> covered lo a va \/ same_page va a.
Proof using at_a.
  destruct at_a as [Ha Hm]. unfold covered. setoid_rewrite page_in_snoc; [|lia|done]. split.
  - intros (p & [Hp| ->] & Hs); [left; by exists p|by right].
  - intros [(p & Hp & Hs)|Hs]; [exists p; tauto|exists a; tauto].
Qed.
Lemma frames_snoc g : frames_below s root lo (a + 4096) g <->
  frames_below s root lo a g \/ exists e, mapping s root a = Some e /\ pte_to_phys e = frame_addr g.
Proof using at_a.
  destruct at_a as [Ha Hm]. unfold frames_below. setoid_rewrite page_in_snoc; [|lia|done]. split.
  - intros (p & e & [Hp| ->] & Hs); [left; by exists p, e|right; by exists e].
  - intros [(p & e & Hp & Hs)|(e & Hs)]; [exists p, e; tauto|exists a, e; tauto].
Qed.

Lemma cut_page s1 s2 : shrunk D s s1 root lo a -> unmapped D s1 s2 root a ->
  pages_gone D s s2 root (frames_below s root lo a) /\
  (forall va, D (L0_INDEX va) = true -> covered lo (a + 4096) va -> mapping s2 root va = None) /\
  (forall va, D (L0_INDEX va) = true -> ~ covered lo (a + 4096) va -> mapping s2 root va = mapping s root va).
Proof using at_a.
  intros [S1 S2 S3] Hu. split_and!; [by eapply gone_unmap| |]; intros va HD Hc; rewrite (un_leaf _ _ _ _ _ Hu) by done;
    rewrite covered_snoc in Hc.
  - case_decide; [done|]. apply S2; [done|tauto].
  - rewrite decide_False by tauto. apply S3; tauto.
Qed.

Lemma shrunk_absent s1 s2 : shrunk D s s1 root lo a -> unmapped D s1 s2 root a -> mapping s root a = None -> shrunk D s s2 root lo (a + 4096).
Proof using at_a.
  intros Hs Hu Hn. destruct (cut_page s1 s2 Hs Hu) as (Hg & H1 & H2). split; [|done|done].
  eapply gone_ext; [|exact Hg]. intros g. rewrite frames_snoc. rewrite Hn. split; [by left|intros [|(e & He & _)]; done].
Qed.

Lemma wp_shrink_free s1 s2 e f (Q : unit -> machine -> Prop) : shrunk D s s1 root lo a -> unmapped D s1 s2 root a ->
  mapping s root a = Some e -> pte_to_phys e = frame_addr f -> user_page D s root f ->
  (forall s3, shrunk D s s3 root lo (a + 4096) -> Q tt s3) -> wp (on_pmm (free_phys_pages (frame_addr f) 0)) Q s2.
Proof using heap at_a.
  intros Hs Hu He Hf Hup HQ. destruct (cut_page s1 s2 Hs Hu) as (Hg & H1 & H2).
  pose proof Hup as (Hok & Hl & Hnt & Hrc).
  destruct (pg_rest _ _ _ _ _ Hg f (live_held _ _ Hl) Hnt (frame_not_below e f He Hf)) as ([_ Hl2 Hrc2] & Hnt2 & _).
  assert (Hup2 : user_page D s2 root f) by (split_and!; [done|by apply Hl2|done|lia..]).
  apply (wp_free_user D s2 root); [apply (un_inv _ _ _ _ _ Hu)|done|]. intros s3 Hi3 Hr3 Hrel Hnt3 He3 Hm3. apply HQ.
  split; [|by intros va HD Hc; rewrite Hm3; apply H1|by intros va HD Hc; rewrite Hm3; apply H2].
  eapply gone_ext; [|eapply (gone_free D s s2 s3 root _ f Hg Hup2); done].
  intros g. rewrite frames_snoc. rewrite He. split.
  - intros [Hb| ->]; [by left|right; by exists e].
  - intros [Hb|(e' & [= <-] & Hg')]; [by left|right]. apply frame_addr_inj. congruence.
Qed.
End step.
End shrink.

Lemma shrunk_end D s s' root lo a hi : hi <= a -> a < hi + 4096 -> lo <= a -> (a - lo) mod 4096 = 0 -> shrunk D s s' root lo a -> shrunk D s s' root lo hi.
Proof.
  intros Hge Hlt Hlo Hm [H1 H2 H3]. assert (Hp : forall p, page_in lo hi p <-> page_in lo a p) by (unfold page_in; lia).
  split.
  - eapply gone_ext; [|exact H1]. intros g. unfold frames_below. by setoid_rewrite Hp.
  - intros va HD Hc. apply H2; [done|]. revert Hc. unfold covered. by setoid_rewrite Hp.
  - intros va HD Hc. apply H3; [done|]. revert Hc. unfold covered. by setoid_rewrite Hp.
Qed.

Lemma wp_brk_shrink D mm x new (Q : unit -> spaces -> Prop) s : mms s !! mm = Some x -> new <= brk x ->
  let root := ttbr0_el1 (cpu s) in pt_inv D (cpu s) root -> heap_pages D (cpu s) root new (brk x) ->
  (forall m, shrunk D (cpu s) m root new (brk x) -> Q tt (with_cpu m s)) -> wp (brk_shrink mm new) Q s.
Proof.
  intros Hx Hle root Hi Hh HQ. destruct (hp_range _ _ _ _ _ Hh) as [Hlo Hhi]. unfold brk_shrink, page_loop.
  apply (wp_loop2 (fun a s' => exists m, s' = with_cpu m s /\ new <= a < brk x + 4096 /\ (a - new) mod 4096 = 0 /\ shrunk D (cpu s) m root new a)
    (fun a _ => (brk x + 4096 - a) / 4096)).
  - exists (cpu s). split_and!; [by rewrite with_cpu_id|lia|lia|by rewrite Z.sub_diag|by apply shrunk_start].
  - change (2 ^ Z.of_nat 53) with (2 ^ 53). apply Z.div_lt_upper_bound; lia.
  - intros a s' (m & -> & Ha & Hm & Hs). wp_step. unfold mm_brk. wp_step. eapply wp_mm_at; [exact Hx|]. wp_step.
    destruct (Z.ltb_spec a (brk x)) as [Hlt|Hge]; [|wp_step; apply HQ; by apply (shrunk_end D _ _ _ _ a); [lia..| |]].
    assert (Hat : page_in new (brk x) a) by (split; [lia|done]). pose proof (hp_dom _ _ _ _ _ Hh a Hat) as HD.
    assert (Hroot : root_of m a = root).
    { rewrite user_page_addr by lia. by rewrite (pg_regs _ _ _ _ _ (sh_gone _ _ _ _ _ _ Hs)). }
    pose proof (pg_inv _ _ _ _ _ (sh_gone _ _ _ _ _ _ Hs)) as Him.
    wp_step. apply wp_on_cpu. rewrite cpu_with_cpu. apply (wp_get_phys_from_va D); rewrite ?Hroot; [done|done|].
    rewrite (mapping_a D (cpu s) root new (brk x) Hh a Hat m Hs), with_cpu_twice.
    wp_step. apply wp_on_cpu. rewrite cpu_with_cpu. apply (wp_unmap_one_page D); rewrite ?Hroot; [done|done|]. intros m2 Hu.
    rewrite with_cpu_twice. assert (Hnext : add64 a PAGE_SIZE = a + 4096) by (rewrite PAGE_SIZE_eq; apply add64_small; lia).
    assert (Hend : forall m3, shrunk D (cpu s) m3 root new (a + 4096) ->
      wp (mret (inl (add64 a PAGE_SIZE))) (fun (r : Z + unit) s' => match r with
        | inl a' => (exists m, s' = with_cpu m s /\ new <= a' < brk x + 4096 /\ (a' - new) mod 4096 = 0 /\ shrunk D (cpu s) m root new a') /\
            0 <= (brk x + 4096 - a') / 4096 < (brk x + 4096 - a) / 4096
        | inr b => Q b s' end) (with_cpu m3 s)).
    { intros m3 H3. wp_step. rewrite Hnext. split; [exists m3; split_and!; [done|lia|lia|lia|done]|]. lia. }
    destruct (mapping (cpu s) root a) as [e|] eqn:He.
    + destruct (hp_user _ _ _ _ _ Hh a e Hat He) as (f & Hf & Hup). rewrite Hf.
      pose proof (frame_addr_bounds f (proj1 Hup)) as [Hb _]. replace (frame_addr f =? 0) with false by lia. cbn [negb].
      wp_step. apply wp_on_cpu. rewrite cpu_with_cpu.
      apply (wp_shrink_free D (cpu s) root new (brk x) Hh a Hat m m2 e f); [done..|]. exact Hend.
    + rewrite Z.eqb_refl. cbn [negb]. do 2 wp_step. apply Hend. by apply (shrunk_absent D (cpu s) root new (brk x) a Hat m).
Qed.

(** ** Growing *)

Lemma wp_brk_grow D mm x new (Q : bool -> spaces -> Prop) s : mms s !! mm = Some x -> 0 <= brk x < new -> new < 4096 ->
  let root := ttbr0_el1 (cpu s) in pt_inv D (cpu s) root -> D (L0_INDEX (brk x)) = true ->
  (forall m, grow D (cpu s) m root -> free_pages (m_pmm m) <= 1 -> Q false (with_cpu m s)) ->
  (forall n m, page_added D (cpu s) m root (brk x) PAGE_USER_RW (fun _ => 0) n -> Q true (with_cpu m s)) -> wp (brk_grow mm new) Q s.
Proof.
  intros Hx Hlt Hnew root Hi HD HQ1 HQ2. unfold brk_grow, page_loop, mm_brk. do 2 wp_step. eapply wp_mm_at; [exact Hx|]. wp_step.
  assert (Hroot : root_of (cpu s) (brk x) = root) by (apply user_page_addr; lia).
  apply (wp_loop2 (fun a s' => a = brk x /\ s' = s \/ a = brk x + 4096 /\ exists n m, s' = with_cpu m s /\
      page_added D (cpu s) m root (brk x) PAGE_USER_RW (fun _ => 0) n)
    (fun a _ => if a =? brk x then 1 else 0)).
  - by left.
  - by case_match.
  - intros a s' [[-> ->]|(-> & n & m & -> & Ha)].
    + rewrite (proj2 (Z.ltb_lt _ _)) by lia. apply (wp_add_page D); rewrite ?Hroot; [done|done|by split|..].
      * intros m Hg H0. wp_step. apply HQ1; [done|lia].
      * intros m Hg H1. wp_step. apply HQ1; [done|lia].
      * intros n m Ha. wp_step. rewrite PAGE_SIZE_eq, add64_small by lia. split; [right; split; [done|by exists n, m]|].
        rewrite Z.eqb_refl. rewrite (proj2 (Z.eqb_neq _ _)) by lia. lia.
    + rewrite (proj2 (Z.ltb_ge _ _)) by lia. wp_step. by eapply HQ2.
Qed.

(** ** The interrupt mask is not part of memory *)

Section mask.
Context (D : Z -> bool) (d : Z) (c : machine) (root : Z).

Lemma mask_walk m e t p : walk (set_daif e m) t p = walk m t p.
Proof using. by apply walk_frame. Qed.
Lemma mask_leaf m e p i : leaf (set_daif e m) root p i = leaf m root p i.
Proof using. unfold leaf. by rewrite mask_walk. Qed.
Lemma mask_mapping m e va : mapping (set_daif e m) root va = mapping m root va.
Proof using. apply mask_leaf. Qed.
Lemma mask_not_table m e f : not_table D (set_daif e m) root f <-> not_table D m root f.
Proof using. unfold not_table. by setoid_rewrite mask_walk. Qed.
Lemma mask_inv m e : pt_inv D m root -> pt_inv D (set_daif e m) root.
Proof using. intros Hi. by apply (pt_inv_same_blocks D m); [|reflexivity|apply Hi|..]. Qed.
Lemma mask_user m e f : user_page D m root f -> user_page D (set_daif e m) root f.
Proof using. intros (H1 & H2 & H3 & H4). split_and!; [done|done|by apply mask_not_table|apply H4..]. Qed.
Lemma mask_heap m e lo hi : heap_pages D m root lo hi -> heap_pages D (set_daif e m) root lo hi.
Proof using.
  intros [H1 H2 H3 H4]. split; [done|done| |].
  - intros p x. rewrite mask_mapping. intros Hp Hx. destruct (H3 p x Hp Hx) as (f & Hf & Hu). exists f. split; [done|by apply mask_user].
  - intros p p' x x'. rewrite !mask_mapping. apply H4.
Qed.

(** From the machine with its interrupts masked to the machine after they are restored. *)
Variable m : machine.
Lemma mask_regs : same_regs (set_daif d c) m -> same_regs c (set_daif (daif c) m).
Proof using. intros E. rewrite E. by destruct c. Qed.
Lemma mask_frame : pt_frame D (set_daif d c) m root -> pt_frame D c (set_daif (daif c) m) root.
Proof using.
  intros [H1 H2]. split; [by apply mask_regs|]. intros f Hf. specialize (H2 f Hf). rewrite mask_not_table in *. exact H2.
Qed.
Lemma mask_grow : grow D (set_daif d c) m root -> grow D c (set_daif (daif c) m) root.
Proof using.
  intros [H1 H2 H3 H4]. split; [by apply mask_inv| | |by apply mask_frame].
  - intros p t. specialize (H2 p t). rewrite mask_walk in *. exact H2.
  - intros p i Hp Hl Hx. specialize (H3 p i Hp Hl Hx). rewrite mask_leaf in *. exact H3.
Qed.
Lemma mask_added va prot f n : page_added D (set_daif d c) m root va prot f n -> page_added D c (set_daif (daif c) m) root va prot f n.
Proof using.
  intros [H1 H2 (N1 & N2 & N3 & N4 & N5) H4 H5]. split; [by apply mask_inv|by apply mask_frame| |done|].
  - split_and!; [done..|by apply mask_not_table|done].
  - intros va' HD. specialize (H5 va' HD). rewrite mask_mapping in *. exact H5.
Qed.
Lemma mask_shrunk lo a : shrunk D (set_daif d c) m root lo a -> shrunk D c (set_daif (daif c) m) root lo a.
Proof using.
  intros [[G1 G2 G3 G4] H2 H3].
  assert (HF : forall g, frames_below (set_daif d c) root lo a g <-> frames_below c root lo a g) by (intros g; unfold frames_below; by setoid_rewrite mask_mapping).
  split; [split; [by apply mask_inv|by apply mask_regs| |]| |].
  - intros g o Hg. rewrite <- HF. by apply G3.
  - intros g Hg Hn. rewrite <- HF. rewrite mask_not_table. apply G4; [done|by apply mask_not_table].
  - intros va HD Hc. rewrite mask_mapping. by apply H2.
  - intros va HD Hc. rewrite mask_mapping, H3 by done. apply mask_mapping.
Qed.
End mask.

(** ** The call *)

(** The state after [do_brk]: the lock went round, the break is [v] and the machine [m]. *)
Definition brk_state mm (x : mm_struct) v (m : machine) (s : spaces) : spaces :=
  set_mms (<[mm := set_brk v (set_mm_lock (next_lock (mm_lock x)) x)]> (mms s)) (with_cpu (set_daif (daif (cpu s)) m) s).

Inductive brk_outcome D (s s' : machine) root (old new : Z) : Z -> Prop :=
| BrkShrunk : new < old -> shrunk D s s' root new old -> brk_outcome D s s' root old new new
| BrkGrown n : old < new -> page_added D s s' root old PAGE_USER_RW (fun _ => 0) n -> brk_outcome D s s' root old new new
| BrkNoMemory : old < new -> grow D s s' root -> free_pages (m_pmm s') <= 1 -> brk_outcome D s s' root old new old.

Lemma wp_unlock_brk mm x v m (Q : Z -> spaces -> Prop) s :
  Q v (brk_state mm x v m s) ->
  wp (_ ← on_mm_lock mm (spin_unlock_irqrestore (daif (cpu s))); mm_brk mm) Q
    (set_mms (<[mm := set_brk v (lock_held x)]> (mms s)) (with_cpu m (mm_locked mm x s))).
Proof.
  intros HQ. wp_step. eapply wp_mm_unlock; [apply lookup_insert_eq|]. unfold mm_brk. wp_step. eapply wp_mm_at; [apply lookup_insert_eq|].
  wp_step. cbn [brk set_brk set_mm_lock]. eassert (E : _ = brk_state mm x v m s); [|rewrite <- E in HQ; exact HQ].
  unfold brk_state, mm_unlocked, mm_locked, with_cpu, put_s_heap, set_mms, set_kmem. cbn. by rewrite insert_insert_eq.
Qed.

Lemma wp_do_brk D mm x b (Q : Z -> spaces -> Prop) s : let root := ttbr0_el1 (cpu s) in let new := (b - 1) mod 4096 in
  mm <> 0 -> mms s !! mm = Some x -> lock_free (mm_lock x) ->
  pt_inv D (cpu s) root -> (brk x < new -> 0 <= brk x /\ D (L0_INDEX (brk x)) = true) -> heap_pages D (cpu s) root new (brk x) ->
  (brk x = new -> Q new s) ->
  (forall r m, brk_outcome D (cpu s) (set_daif (daif (cpu s)) m) root (brk x) new r -> Q r (brk_state mm x r m s)) -> wp (do_brk mm b) Q s.
Proof.
  intros root new Hmm Hx Hl Hi HD Hh HQ0 HQ. unfold do_brk. rewrite page_align_mod. fold new. cbv zeta.
  assert (Hnew : new < 4096) by (apply Z.mod_pos_bound; lia).
  rewrite (proj2 (Z.eqb_neq mm 0)) by exact Hmm. cbn iota. wp_step. unfold mm_brk at 1. wp_step. eapply wp_mm_at; [exact Hx|]. wp_step.
  destruct (Z.eqb_spec new (brk x)) as [E|Hne]; [wp_step; rewrite <- E; by apply HQ0|].
  wp_step. eapply wp_mm_lock; [exact Hx|exact Hl|]. wp_step. unfold mm_brk at 1. wp_step. eapply wp_mm_at; [apply mm_locked_at|]. wp_step.
  cbn [brk lock_held set_mm_lock]. set (s1 := mm_locked mm x s).
  set (c1 := set_daif (Z.lor (daif (cpu s)) DAIF_I) (cpu s)). change (cpu s1) with c1 in *.
  pose proof (mask_inv D root (cpu s) (Z.lor (daif (cpu s)) DAIF_I) Hi) as Hi1. fold c1 in Hi1.
  pose proof (mask_heap D root (cpu s) (Z.lor (daif (cpu s)) DAIF_I) _ _ Hh) as Hh1. fold c1 in Hh1.
  assert (Hput : forall v m, brk_outcome D (cpu s) (set_daif (daif (cpu s)) m) root (brk x) new v ->
     wp (_ ← put_mm mm (set_brk v); _ ← on_mm_lock mm (spin_unlock_irqrestore (daif (cpu s))); mm_brk mm) Q (with_cpu m s1)).
  { intros v m Hout. wp_step. eapply wp_put_mm; [apply mm_locked_at|].
    assert (E : <[mm := set_brk v (lock_held x)]> (mms (with_cpu m s1)) = <[mm := set_brk v (lock_held x)]> (mms s)) by (cbn; by rewrite insert_insert_eq).
    rewrite E. by apply wp_unlock_brk, HQ. }
  destruct (Z.gtb_spec new (brk x)) as [Hgt|Hle].
  - destruct (HD Hgt) as [H0 HDb]. wp_step. eapply (wp_brk_grow D mm (lock_held x)); [apply mm_locked_at|done|done|done|done|..].
    + intros m Hg Hfew. cbn [negb].
      replace (with_cpu m s1) with (set_mms (<[mm := set_brk (brk x) (lock_held x)]> (mms s)) (with_cpu m s1)) by (by destruct x).
      apply wp_unlock_brk, HQ. constructor 3; [done| |exact Hfew]. by apply (mask_grow D (Z.lor (daif (cpu s)) DAIF_I)).
    + intros n m Ha. cbn [negb]. apply Hput. econstructor 2; [done|]. by apply (mask_added D (Z.lor (daif (cpu s)) DAIF_I)).
  - rewrite (proj2 (Z.ltb_lt _ _)) by lia. wp_step. wp_step.
    eapply (wp_brk_shrink D mm (lock_held x)); [apply mm_locked_at|cbn; lia|exact Hi1|exact Hh1|].
    intros m Hs. wp_step. cbn [negb]. apply Hput. constructor 1; [lia|]. by apply (mask_shrunk D (Z.lor (daif (cpu s)) DAIF_I)).
Qed.

(** C25: [do_brk] with a break [b] always returns, with the lock free and the interrupt mask restored.  What it sets is not
    [b] rounded up to a page but [new], the low bits of [b - 1], a number below 4096.  When the heap ends above it,
    every page from there to the old break is unmapped and its frame is back with the page allocator, whatever its
    reference count; other pages and frames in use stay.  When the heap ends below it, one fresh zeroed page is mapped
    at the old break, or the old break is returned, no mapping changed and the page allocator is left with at most one page. *)
Theorem do_brk_correct D mm x b s : let root := ttbr0_el1 (cpu s) in let new := (b - 1) mod 4096 in
  mm <> 0 -> mms s !! mm = Some x -> lock_free (mm_lock x) ->
  pt_inv D (cpu s) root -> (brk x < new -> 0 <= brk x /\ D (L0_INDEX (brk x)) = true) -> heap_pages D (cpu s) root new (brk x) ->
  exists r s', do_brk mm b s = Done (r, s') /\ new < 4096 /\
    (r = new /\ brk x = new /\ s' = s \/
     exists m, s' = brk_state mm x r m s /\ lock_free (next_lock (mm_lock x)) /\
       brk_outcome D (cpu s) (cpu s') root (brk x) new r).
Proof.
  intros root new Hmm Hx Hl Hi HD Hh. eapply wp_done, (wp_do_brk D mm x b); [done..| |].
  - intros E. split; [by apply Z.mod_pos_bound|]. by left.
  - intros r m Hout. split; [by apply Z.mod_pos_bound|]. right. exists m. split; [done|]. split; [by apply spin_unlock_free|exact Hout].
Qed.

(** A process of which one page is mapped and whose break is [v]. *)
Definition with_heap (v : Z) (m : machine) (h : slab) : spaces := with_cpu m (sample_spaces h 8 (set_brk v (sample_mm 0)) ∅).

Lemma do_brk_correct_witness : exists s f e, user_page everywhere (cpu s) (ttbr0_el1 (cpu s)) f /\
  mapping (cpu s) (ttbr0_el1 (cpu s)) 0x400FFF = Some e /\ pte_to_phys e = frame_addr f /\
  exists s', do_brk 8 0x500000 s = Done (0xFFF, s') /\ mapping (cpu s') (ttbr0_el1 (cpu s)) 0x400FFF = None /\ ~ live (m_pmm (cpu s')) f 0.
Proof.
  destruct sample_object as (_ & h & _).
  destruct (sample_page 0x400FFF PAGE_USER_RW) as (m & f & e & ps & _ & _ & Hi & Hu & He & Hp & Hno); [reflexivity|split; reflexivity|].
  change (root_of m 0x400FFF) with (ttbr0_el1 m) in *. exists (with_heap 0x402000 m h), f, e.
  split; [exact Hu|]. split; [exact He|]. split; [exact Hp|].
  assert (Honly : forall p x, page_in 0xFFF 0x402000 p -> mapping m (ttbr0_el1 m) p = Some x -> p = 0x400FFF).
  { intros p x Hin Hx. destruct (decide (same_page p 0x400FFF)) as [Hs|Hs]; [|by rewrite Hno in Hx].
    apply (page_in_inj 0xFFF 0x402000); [lia|lia|exact Hin| |exact Hs]. split; [lia|reflexivity]. }
  assert (Hh : heap_pages everywhere m (ttbr0_el1 m) 0xFFF 0x402000).
  { split; [lia|done| |].
    - intros p x Hin Hx. rewrite (Honly p x Hin Hx) in Hx. exists f. split; [congruence|exact Hu].
    - intros p p' x x' Hin Hin' Hx Hx' _. rewrite (Honly p x Hin Hx). by rewrite (Honly p' x' Hin' Hx'). }
  destruct (do_brk_correct everywhere 8 (set_brk 0x402000 (sample_mm 0)) 0x500000 (with_heap 0x402000 m h)) as (r & s' & Hrun & _ & Hcase).
  - discriminate.
  - reflexivity.
  - reflexivity.
  - exact Hi.
  - intros Hlt. exfalso. revert Hlt. vm_compute. discriminate.
  - exact Hh.
  - exists s'. destruct Hcase as [(_ & Hbad & _)|(m' & _ & _ & Hout)]; [discriminate Hbad|].
    inversion Hout as [Hlt [Hg Hcut _]|n Hlt|Hlt]; [|exfalso; revert Hlt; vm_compute; discriminate..]. subst r.
    split; [exact Hrun|]. assert (Hcov : page_in 0xFFF 0x402000 0x400FFF) by (split; [lia|reflexivity]).
    split; [apply Hcut; [reflexivity|]; exists 0x400FFF; split; [exact Hcov|split; reflexivity]|].
    intros Hl. apply (pg_live _ _ _ _ _ Hg) in Hl as [_ Hn]. apply Hn. exists 0x400FFF, e. split; [exact Hcov|]. split; [exact He|exact Hp].
Defined.
