(* ===== verification/Board.v ===== *)
(** Memory-mapped devices ([include/io.h]) and the state the drivers share.

    [Mmio] is the interface between the drivers and the hardware: what a 32-bit read or write of a
    device address does.  The drivers are written against it, and their theorems assume of a
    device only what its class promises.  A [board] adds the drivers' static variables and the
    kernel memory they use.  Messages printed with [printk] go to the console of the address-space
    component, character by character as they are handed to [uart_putc]. *)
From S2P Require Import Prelude Sync Pmm Machine Slab Vmap Vmalloc Mm Libc Printk.

Class Mmio (D : Type) := {
  mmio_read : Z -> D -> Z * D;
  mmio_write : Z -> Z -> D -> D;
}.

Record board (D : Type) := Board {
  bd_mem : spaces;
  bd_bytes : bmem;
  printk_lock : arch_spinlock;
  bd_dev : D;
  uart_base : Z;
  GICD_BASE : Z;
  GICC_BASE : Z;
  dtb_base : Z;
}.
Arguments Board {D}.
Arguments bd_mem {D}.
Arguments bd_bytes {D}.
Arguments printk_lock {D}.
Arguments bd_dev {D}.
Arguments uart_base {D}.
Arguments GICD_BASE {D}.
Arguments GICC_BASE {D}.
Arguments dtb_base {D}.

Section board.
Context {D : Type}.
Definition set_bd_mem x (b : board D) : board D :=
  Board x (bd_bytes b) (printk_lock b) (bd_dev b) (uart_base b) (GICD_BASE b) (GICC_BASE b) (dtb_base b).
Definition set_bd_bytes x (b : board D) : board D :=
  Board (bd_mem b) x (printk_lock b) (bd_dev b) (uart_base b) (GICD_BASE b) (GICC_BASE b) (dtb_base b).
Definition set_bd_dev x (b : board D) : board D :=
  Board (bd_mem b) (bd_bytes b) (printk_lock b) x (uart_base b) (GICD_BASE b) (GICC_BASE b) (dtb_base b).
Definition set_uart_base x (b : board D) : board D :=
  Board (bd_mem b) (bd_bytes b) (printk_lock b) (bd_dev b) x (GICD_BASE b) (GICC_BASE b) (dtb_base b).
Definition set_gic_bases d c (b : board D) : board D :=
  Board (bd_mem b) (bd_bytes b) (printk_lock b) (bd_dev b) (uart_base b) d c (dtb_base b).
Definition set_dtb_base x (b : board D) : board D :=
  Board (bd_mem b) (bd_bytes b) (printk_lock b) (bd_dev b) (uart_base b) (GICD_BASE b) (GICC_BASE b) x.

Definition set_printk_lock x (b : board D) : board D :=
  Board (bd_mem b) (bd_bytes b) x (bd_dev b) (uart_base b) (GICD_BASE b) (GICC_BASE b) (dtb_base b).

Definition on_spaces {A} (m : M spaces A) : M (board D) A := zoom bd_mem set_bd_mem m.
Definition on_mem {A} (m : M vmem A) : M (board D) A := on_spaces (on_kmem m).
Definition bd_cpu (b : board D) : machine := cpu (bd_mem b).
Definition set_bd_daif (d : Z) (b : board D) : board D :=
  let k := kmem (bd_mem b) in
  let v := va_mgr k in
  set_bd_mem (set_kmem (set_va_mgr (set_vm_slab (set_mach (set_daif d (mach (vm_slab v))) (vm_slab v)) v) k)
    (bd_mem b)) b.

(** [printk], with the lock, the CPU's interrupt mask and the console of this board. *)
Definition on_console {A} (m : M Printk.console A) : M (board D) A :=
  zoom (fun b => Console (printk_lock b) (daif (bd_cpu b)) (bd_bytes b) (Mm.console (bd_mem b)))
       (fun c b => set_printk_lock (pk_lock c) (set_bd_bytes (pk_mem c) (set_bd_daif (pk_daif c)
          (set_bd_mem (set_console (pk_out c) (bd_mem b)) b)))) m.
Definition on_bytes {A} (m : M bmem A) : M (board D) A := zoom bd_bytes set_bd_bytes m.

Context `{Mmio D}.
Definition io_read32 (addr : Z) : M (board D) Z := fun b =>
  let '(v, d) := mmio_read addr (bd_dev b) in Done (v, set_bd_dev d b).
Definition io_write32 (addr val : Z) : M (board D) unit :=
  modify (fun b => set_bd_dev (mmio_write addr val (bd_dev b)) b).

Lemma wp_io_read32 addr Q b :
  Q (mmio_read addr (bd_dev b)).1 (set_bd_dev (mmio_read addr (bd_dev b)).2 b) -> wp (io_read32 addr) Q b.
Proof. unfold wp, io_read32. by destruct (mmio_read addr (bd_dev b)). Qed.
Lemma wp_io_write32 addr val Q b :
  Q tt (set_bd_dev (mmio_write addr val (bd_dev b)) b) -> wp (io_write32 addr val) Q b.
Proof. done. Qed.
End board.
