(* ===== verification/Uart.v ===== *)
(** The serial port ([driver/uart.c], [include/uart.h]): a PL011 behind [uart_base].

    The busy-wait loops are bounded by [polls], the number of times the device is read before the
    model gives up.  [uart_init] finds the device in the flattened tree at [dtb_base]. *)
From S2P Require Import Prelude Pmm Machine Slab Vmap Vmalloc Mm Libc Fdt Board.

Definition UART_CLOCK : Z := 24000000.
Definition DEFAULT_BAUDRATE : Z := 115200.
Definition UART0_PHYS_BASE : Z := 0x9000000.
Definition UART_DR : Z := 0x000.
Definition UART_RSR_ECR : Z := 0x004.
Definition UART_FR : Z := 0x018.
Definition UART_IBRD : Z := 0x024.
Definition UART_FBRD : Z := 0x028.
Definition UART_LCR_H : Z := 0x02C.
Definition UART_CR : Z := 0x030.
Definition UART_IFLS : Z := 0x034.
Definition UART_IMSC : Z := 0x038.
Definition UART_ICR : Z := 0x044.
Definition UART_FR_TXFE : Z := Z.shiftl 1 7.
Definition UART_FR_TXFF : Z := Z.shiftl 1 5.
Definition UART_FR_RXFE : Z := Z.shiftl 1 4.
Definition UART_CR_UARTEN : Z := Z.shiftl 1 0.
Definition UART_CR_TXE : Z := Z.shiftl 1 8.
Definition UART_CR_RXE : Z := Z.shiftl 1 9.
Definition UART_CR_LBE : Z := Z.shiftl 1 18.
Definition UART_LCR_H_WLEN8 : Z := Z.shiftl 3 5.
Definition UART_IFLS_RXIFLSEL_1_8 : Z := Z.shiftl 0 3.
Definition UART_IFLS_TXIFLSEL_1_2 : Z := Z.shiftl 2 0.
Definition UART_IMSC_RXIM : Z := Z.shiftl 1 4.
Definition UART_ICR_RXIC : Z := UART_IMSC_RXIM.
Definition UART_ERR_NONE : Z := 0.

Section uart.
Context {D : Type} `{Mmio D} (polls : nat) (lit : String.string -> Z).

Definition uart_read (reg : Z) : M (board D) Z := base ← gets uart_base; io_read32 (add64 base reg).
Definition uart_write (reg val : Z) : M (board D) unit := base ← gets uart_base; io_write32 (add64 base reg) val.

Definition uart_set_baudrate (baudrate : Z) : M (board D) unit :=
  _ ← guard_ub (negb (u32 (16 * baudrate) =? 0));
  let bauddiv := UART_CLOCK / u32 (16 * baudrate) in
  _ ← uart_write UART_IBRD (bauddiv / 64);
  uart_write UART_FBRD (bauddiv mod 64).

Definition uart_clear_error : M (board D) unit := uart_write UART_RSR_ECR 0x0F.

Definition uart_irq_init : M (board D) unit :=
  _ ← uart_write UART_IFLS (Z.lor UART_IFLS_RXIFLSEL_1_8 UART_IFLS_TXIFLSEL_1_2);
  _ ← uart_write UART_IMSC UART_IMSC_RXIM;
  uart_write UART_ICR UART_ICR_RXIC.

(** The address in a [reg] property: two cells. *)
Definition reg_address (fdt node : Z) : M bmem (option Z) :=
  '(prop, len) ← fdt_getprop fdt node (lit "reg"%string);
  if (prop =? 0) || (len <? 8) then mret None else
  addr_hi ← fdt32_ld prop;
  addr_lo ← fdt32_ld (prop + 4);
  mret (Some (Z.lor (shl64 addr_hi 32) addr_lo)).

Definition uart_from_chosen (fdt : Z) : M bmem (option Z) :=
  chosen ← fdt_path_offset lit fdt (lit "/chosen"%string);
  if chosen <? 0 then mret None else
  '(stdout_path, _) ← fdt_getprop fdt chosen (lit "stdout-path"%string);
  if stdout_path =? 0 then mret None else
  uart_node ← fdt_path_offset lit fdt stdout_path;
  if uart_node <? 0 then mret None else reg_address fdt uart_node.

(** Is this node an enabled, non-secure PL011? *)
Definition uart_node_ok (fdt node : Z) : M bmem bool :=
  '(compatible, _) ← fdt_getprop fdt node (lit "compatible"%string);
  if compatible =? 0 then mret false else
  found ← strstr compatible (lit "arm,pl011"%string);
  if found =? 0 then mret false else
  '(status, _) ← fdt_getprop fdt node (lit "status"%string);
  okay ← (if status =? 0 then mret true
          else r ← strcmp status (lit "okay"%string); mret (r =? 0));
  if negb okay then mret false else
  '(secure, _) ← fdt_getprop fdt node (lit "secure-status"%string);
  mret (secure =? 0).

Definition uart_from_tree (fdt : Z) : M bmem (option Z) :=
  root ← fdt_path_offset lit fdt (lit "/"%string);
  if root <? 0 then mret None else
  first ← fdt_first_subnode fdt root;
  loop2 32 (fun node =>
    if 0 <=? node then
      ok ← uart_node_ok fdt node;
      addr ← (if ok : bool then reg_address fdt node else mret None);
      match addr with
      | Some a => mret (inr (Some a))
      | None => next ← fdt_next_subnode fdt node; mret (inl next)
      end
    else mret (inr None)) first.

Definition uart_phys_base (fdt : Z) : M bmem Z :=
  chosen ← uart_from_chosen fdt;
  match chosen with
  | Some a => mret a
  | None => a ← uart_from_tree fdt; mret (default UART0_PHYS_BASE a)
  end.

Definition uart_map : M (board D) unit :=
  base ← gets uart_base;
  if negb (base =? 0) then mret tt else
  dtb ← gets dtb_base;
  _ ← (if dtb =? 0 then modify (set_dtb_base 0x40000000) else mret tt);
  dtb ← gets dtb_base;
  phys ← on_bytes (uart_phys_base dtb);
  va ← on_mem (ioremap phys 4096);
  modify (set_uart_base va).

Definition uart_init : M (board D) unit :=
  _ ← uart_map;
  base ← gets uart_base;
  if base =? 0 then mret tt else
  cr_val ← uart_read UART_CR;
  _ ← uart_write UART_CR (Z.land cr_val (not32 UART_CR_UARTEN));
  _ ← uart_set_baudrate DEFAULT_BAUDRATE;
  _ ← uart_write UART_LCR_H UART_LCR_H_WLEN8;
  _ ← uart_clear_error;
  _ ← uart_irq_init;
  uart_write UART_CR (Z.lor (Z.lor UART_CR_UARTEN UART_CR_TXE) UART_CR_RXE).

(** [while ((io_read32(UART_REG(reg)) & mask) == 0);], or [!= 0] *)
Definition wait_flag (mask : Z) (set : bool) : M (board D) unit :=
  loop polls (fun _ : unit =>
    v ← uart_read UART_FR;
    mret (if Bool.eqb (negb (Z.land v mask =? 0)) set then inr tt else inl tt)) tt.

Definition uart_putc (c : Z) : M (board D) unit :=
  _ ← (if c =? 10 then _ ← wait_flag UART_FR_TXFE true; uart_write UART_DR 13 else mret tt);
  _ ← wait_flag UART_FR_TXFE true;
  uart_write UART_DR (u32 c).

Definition uart_puts (s : Z) : M (board D) unit :=
  n ← gets (fun b => size (bd_bytes b));
  loop (S n) (fun s =>
    c ← on_bytes (ldb s);
    if c =? 0 then mret (inr tt) else _ ← uart_putc c; mret (inl (s + 1))) s.

(** The error code, when the caller wants it. *)
Definition read_error (want_err : bool) : M (board D) (option Z) :=
  if want_err then
    rsr_val ← uart_read UART_RSR_ECR;
    _ ← uart_clear_error;
    mret (Some (Z.land rsr_val 0x0F))
  else mret None.

Definition uart_getc (want_err : bool) : M (board D) (Z * option Z) :=
  _ ← wait_flag UART_FR_RXFE false;
  err ← read_error want_err;
  dr_val ← uart_read UART_DR;
  mret (Z.land dr_val 0xFF, err).

Definition uart_putc_nonblock (c : Z) : M (board D) bool :=
  v ← uart_read UART_FR;
  if negb (Z.land v UART_FR_TXFF =? 0) then mret false else
  _ ← uart_write UART_DR (u32 c); mret true.

(** [have_c] says that the pointer for the character is not NULL; the result is the return value
    with what was stored through the two pointers. *)
Definition uart_getc_nonblock (have_c want_err : bool) : M (board D) (bool * option Z * option Z) :=
  if negb have_c then mret (false, None, None) else
  v ← uart_read UART_FR;
  if negb (Z.land v UART_FR_RXFE =? 0) then mret (false, None, None) else
  err ← read_error want_err;
  dr_val ← uart_read UART_DR;
  mret (true, Some (Z.land dr_val 0xFF), err).

Definition uart_tx_ready : M (board D) bool := v ← uart_read UART_FR; mret (Z.land v UART_FR_TXFF =? 0).
Definition uart_rx_ready : M (board D) bool := v ← uart_read UART_FR; mret (Z.land v UART_FR_RXFE =? 0).

Definition uart_set_loopback (enable : bool) : M (board D) unit :=
  cr_val ← uart_read UART_CR;
  uart_write UART_CR (if enable then Z.lor cr_val UART_CR_LBE else Z.land cr_val (not32 UART_CR_LBE)).
End uart.
