(* ===== verification/Gic.v ===== *)
(** The interrupt controller ([driver/gic.c], [include/gic.h], the EL3 part of
    [arch/arm64/boot/bootc.c]): a GICv2 behind [GICD_BASE] and [GICC_BASE]. *)
From S2P Require Import Prelude Pmm Machine Slab Vmap Vmalloc Mm Board.

Definition GICD_PHYS_BASE : Z := 0x08000000.
Definition GICC_PHYS_BASE : Z := 0x08010000.
Definition GICD_CTLR : Z := 0x000.
Definition GICD_IGROUPR (n : Z) : Z := 0x80 + n * 4.
Definition GICD_ISENABLER (n : Z) : Z := 0x100 + n * 4.
Definition GICD_ICENABLER (n : Z) : Z := 0x180 + n * 4.
Definition GICD_ISPENDR (n : Z) : Z := 0x200 + n * 4.
Definition GICC_CTLR : Z := 0x000.
Definition GICC_PMR : Z := 0x004.
Definition GICC_BPR : Z := 0x008.
Definition GICC_IAR : Z := 0x00C.
Definition GICC_EOIR : Z := 0x010.

Section gic.
Context {D : Type} `{Mmio D}.

Definition gicd_read (reg : Z) : M (board D) Z := base ← gets GICD_BASE; io_read32 (add64 base reg).
Definition gicd_write (reg val : Z) : M (board D) unit := base ← gets GICD_BASE; io_write32 (add64 base reg) val.
Definition gicc_read (reg : Z) : M (board D) Z := base ← gets GICC_BASE; io_read32 (add64 base reg).
Definition gicc_write (reg val : Z) : M (board D) unit := base ← gets GICC_BASE; io_write32 (add64 base reg) val.

Definition gic_init : M (board D) unit :=
  d ← on_mem (ioremap GICD_PHYS_BASE 0x10000);
  c ← on_mem (ioremap GICC_PHYS_BASE 0x10000);
  _ ← modify (if (d =? 0) || (c =? 0) then set_gic_bases GICD_PHYS_BASE GICC_PHYS_BASE else set_gic_bases d c);
  _ ← gicd_write GICD_CTLR 0x1;
  _ ← gicc_write GICC_CTLR 0x1;
  _ ← gicc_write GICC_PMR 0xFF;
  gicc_write GICC_BPR 3.

(** [1 << bit] as an [int], converted to [uint32_t]. *)
Definition bit32 (bit : Z) : Z := u32 (Z.shiftl 1 bit).

Definition gic_enable_irq (irq_num : Z) : M (board D) unit :=
  gicd_write (GICD_ISENABLER (irq_num / 32)) (bit32 (irq_num mod 32)).

Definition gic_ack_irq : M (board D) Z := gicc_read GICC_IAR.
Definition gic_eoi_irq (irq_num : Z) : M (board D) unit := gicc_write GICC_EOIR irq_num.

Definition gic_disable_irq (irq_num : Z) : M (board D) unit :=
  gicd_write (GICD_ICENABLER (irq_num / 32)) (bit32 (irq_num mod 32)).

Definition gic_set_irq_priority (irq_num priority : Z) : M (board D) unit :=
  gicd_write (0x400 + u32 (irq_num * 4)) priority.

Definition gic_is_irq_pending (irq_num : Z) : M (board D) bool :=
  reg_val ← gicd_read (GICD_ISPENDR (irq_num / 32));
  mret (negb (Z.land reg_val (bit32 (irq_num mod 32)) =? 0)).

(** Before the MMU is on: every interrupt to group 1, all disabled, forwarding enabled. *)
Definition gic_el3_init : M (board D) unit :=
  _ ← for_n 1024 0 (fun i =>
        let reg := 0x8000000 + GICD_IGROUPR (i / 32) in
        v ← io_read32 reg;
        io_write32 reg (Z.lor v (bit32 (i mod 32))));
  _ ← for_n 32 0 (fun i => io_write32 (0x8000000 + GICD_ICENABLER i) 0xFFFFFFFF);
  _ ← io_write32 (0x8000000 + GICD_CTLR) 0x3;
  io_write32 (0x08010000 + GICC_PMR) 0xFF.
End gic.
