(* ===== verification/Irq.v ===== *)
(** The kernel state the interrupt path works on, and the interrupt table
    ([exception/handler.c], [include/irq.h]).

    A handler stored in the table is one of the two C handlers or a function of another
    component, named by a number. *)
From S2P Require Import Prelude Sync Pmm Machine Slab Vmap Vmalloc Mm Libc Printk Board Gic.

Definition IRQ_UART0 : Z := 33.
Definition IRQ_TIMER0 : Z := 29.

Inductive irq_handler : Set := TimerIrq | UartIrq | OtherIrq (f : Z).

Record timer := Timer { expire_tick : Z; callback : Z; timer_name : Z; timer_next : Z }.

(** The saved registers of the interrupted context. *)
Record pt_regs := PtRegs { pr_elr : Z; pr_spsr : Z; pr_x : gmap Z Z }.
Record sysregs := Sysregs { esr_el1 : Z; elr_el1 : Z; far_el1 : Z; spsr_el1 : Z }.

(** The generic timer: its registers and the kernel's counters. *)
Record clock := Clock {
  system_tick : Z;
  timer_load_val : Z;
  cntp_ctl : Z;
  cntp_tval : Z;
  cntfrq : Z;
  cntpct : Z;
}.

Record kernel (D : Type) := Kernel {
  k_board : board D;
  irq_table : gmap Z irq_handler;
  irq_table_lock : arch_spinlock;
  k_clock : clock;
  timers : gmap Z timer;
  timer_list : Z;
  timer_lock : arch_spinlock;
  k_regs : pt_regs;
  k_sysregs : sysregs;
  (** the static variables of [main.c] *)
  uart_irq_cnt : Z;
  ttbr0_pa : Z;
}.
Arguments Kernel {D}.
Arguments k_board {D}.
Arguments irq_table {D}.
Arguments irq_table_lock {D}.
Arguments k_clock {D}.
Arguments timers {D}.
Arguments timer_list {D}.
Arguments timer_lock {D}.
Arguments k_regs {D}.
Arguments k_sysregs {D}.
Arguments uart_irq_cnt {D}.
Arguments ttbr0_pa {D}.

Section kernel.
Context {D : Type}.
Definition set_board x (k : kernel D) : kernel D :=
  Kernel x (irq_table k) (irq_table_lock k) (k_clock k) (timers k) (timer_list k) (timer_lock k) (k_regs k) (k_sysregs k)
    (uart_irq_cnt k) (ttbr0_pa k).
Definition set_irqs x l (k : kernel D) : kernel D :=
  Kernel (k_board k) x l (k_clock k) (timers k) (timer_list k) (timer_lock k) (k_regs k) (k_sysregs k)
    (uart_irq_cnt k) (ttbr0_pa k).
Definition set_clock x (k : kernel D) : kernel D :=
  Kernel (k_board k) (irq_table k) (irq_table_lock k) x (timers k) (timer_list k) (timer_lock k) (k_regs k) (k_sysregs k)
    (uart_irq_cnt k) (ttbr0_pa k).
Definition set_timers x l (k : kernel D) : kernel D :=
  Kernel (k_board k) (irq_table k) (irq_table_lock k) (k_clock k) x l (timer_lock k) (k_regs k) (k_sysregs k)
    (uart_irq_cnt k) (ttbr0_pa k).
Definition set_timer_lock x (k : kernel D) : kernel D :=
  Kernel (k_board k) (irq_table k) (irq_table_lock k) (k_clock k) (timers k) (timer_list k) x (k_regs k) (k_sysregs k)
    (uart_irq_cnt k) (ttbr0_pa k).
Definition set_regs x (k : kernel D) : kernel D :=
  Kernel (k_board k) (irq_table k) (irq_table_lock k) (k_clock k) (timers k) (timer_list k) (timer_lock k) x (k_sysregs k)
    (uart_irq_cnt k) (ttbr0_pa k).
Definition set_uart_irq_cnt x (k : kernel D) : kernel D :=
  Kernel (k_board k) (irq_table k) (irq_table_lock k) (k_clock k) (timers k) (timer_list k) (timer_lock k) (k_regs k) (k_sysregs k)
    x (ttbr0_pa k).
Definition set_ttbr0_pa x (k : kernel D) : kernel D :=
  Kernel (k_board k) (irq_table k) (irq_table_lock k) (k_clock k) (timers k) (timer_list k) (timer_lock k) (k_regs k) (k_sysregs k)
    (uart_irq_cnt k) x.

Definition on_board {A} (m : M (board D) A) : M (kernel D) A := zoom k_board set_board m.
Definition on_kspaces {A} (m : M spaces A) : M (kernel D) A := on_board (on_spaces m).
Definition k_daif (k : kernel D) : Z := daif (bd_cpu (k_board k)).

(** The two locks of this component, with the CPU's interrupt mask. *)
Definition on_irq_lock {A} (m : M irq_lock A) : M (kernel D) A :=
  zoom (fun k => IrqLock (irq_table_lock k) (k_daif k))
       (fun il k => set_irqs (irq_table k) (il_lock il) (set_board (set_bd_daif (il_daif il) (k_board k)) k)) m.
Definition on_timer_lock {A} (m : M irq_lock A) : M (kernel D) A :=
  zoom (fun k => IrqLock (timer_lock k) (k_daif k))
       (fun il k => set_timer_lock (il_lock il) (set_board (set_bd_daif (il_daif il) (k_board k)) k)) m.

(** [uart_puts] and the lock-free printing of the exception path, on a constant or a pointer. *)
Definition say (l : list Z) : M (kernel D) unit := on_board (on_console (emit l)).
Definition say_at (p : Z) : M (kernel D) unit := on_board (on_console (print_str p)).
Definition say_printk (fmt : Z) (args : list Z) : M (kernel D) unit := on_board (on_console (printk fmt args)).
Definition say_panic (fmt : Z) : M (kernel D) unit := on_board (on_console (panic fmt [])).

Context `{Mmio D}.

Definition irq_register (irq : Z) (handler : option irq_handler) (name : Z) : M (kernel D) unit :=
  flags ← on_irq_lock spin_lock_irqsave;
  _ ← match handler with
      | Some h =>
          if irq <? 1024 then
            _ ← modify (fun k => set_irqs (<[irq := h]> (irq_table k)) (irq_table_lock k) k);
            _ ← on_board (gic_enable_irq irq);
            _ ← say (bytes "[IRQ] Register: ");
            _ ← say_at name;
            say [10]
          else mret tt
      | None => mret tt
      end;
  on_irq_lock (spin_unlock_irqrestore flags).

Definition el1_irq_handler (call : irq_handler -> Z -> M (kernel D) unit) : M (kernel D) unit :=
  iar ← on_board (gicc_read GICC_IAR);
  let irq_num := Z.land iar 0x3FF in
  _ ← (if irq_num <? 1024 then
         flags ← on_irq_lock spin_lock_irqsave;
         handler ← gets (fun k => irq_table k !! irq_num);
         _ ← on_irq_lock (spin_unlock_irqrestore flags);
         match handler with Some h => call h irq_num | None => mret tt end
       else mret tt);
  on_board (gicc_write GICC_EOIR iar).
End kernel.
