(* ===== verification/Timer.v ===== *)
(** The system tick and software timers ([driver/timer.c], [include/timer.h]).

    A [struct timer] is a heap object of 32 bytes in a typed store; callbacks are functions of
    other components, named by the number stored in the timer, and run with the list unlocked. *)
From S2P Require Import Prelude Sync Pmm Machine Slab Vmap Vmalloc Mm Libc Printk Board Irq.

Definition TICK_HZ : Z := 1000.
Definition TIMER_IRQ_NUM : Z := 30.

Section timer.
Context {D : Type} `{Mmio D} (lit : String.string -> Z).

Definition upd_clock (f : clock -> clock) : M (kernel D) unit := modify (fun k => set_clock (f (k_clock k)) k).

Definition cntp_enable : M (kernel D) unit :=
  upd_clock (fun c => Clock (system_tick c) (timer_load_val c) (Z.lor (Z.shiftl 1 0) (Z.shiftl 0 1))
                        (cntp_tval c) (cntfrq c) (cntpct c)).
Definition cntp_set_tval (tval : Z) : M (kernel D) unit :=
  upd_clock (fun c => Clock (system_tick c) (timer_load_val c) (cntp_ctl c) tval (cntfrq c) (cntpct c)).

Definition timer_at (p : Z) : M (kernel D) timer := t ← gets timers; of_option (t !! p).

(** [struct timer **prev]: the list head or a [next] field. *)
Inductive timer_ref : Set := RefList | RefTimer (p : Z).
Definition set_timer_ref (r : timer_ref) (v : Z) : M (kernel D) unit :=
  match r with
  | RefList => modify (fun k => set_timers (timers k) v k)
  | RefTimer p =>
      t ← timer_at p;
      modify (fun k => set_timers (<[p := Timer (expire_tick t) (callback t) (timer_name t) v]> (timers k))
                         (timer_list k) k)
  end.

Definition walk_timers {A B} (body : A -> M (kernel D) (A + B)) (a : A) : M (kernel D) B :=
  n ← gets (fun k => size (timers k)); loop (S n) body a.

(** The due timers, in list order; [rust_timer_tick] and the callbacks are other components.  The
    number of rounds is bounded because a callback may add timers that are already due. *)
Definition timer_irq_handler (fuel : nat) (rust_timer_tick : M (kernel D) unit)
    (call : Z -> M (kernel D) unit) (irq : Z) : M (kernel D) unit :=
  load ← gets (fun k => timer_load_val (k_clock k));
  _ ← cntp_set_tval load;
  _ ← rust_timer_tick;
  _ ← upd_clock (fun c => Clock (add64 (system_tick c) 1) (timer_load_val c) (cntp_ctl c) (cntp_tval c)
                            (cntfrq c) (cntpct c));
  flags ← on_timer_lock spin_lock_irqsave;
  first ← gets timer_list;
  flags ← loop fuel (fun st : timer_ref * Z * Z =>
    let '(prev, current, flags) := st in
    if current =? 0 then mret (inr flags) else
    t ← timer_at current;
    tick ← gets (fun k => system_tick (k_clock k));
    if expire_tick t <=? tick then
      let to_remove := current in
      _ ← set_timer_ref prev (timer_next t);
      let current := timer_next t in
      _ ← on_timer_lock (spin_unlock_irqrestore flags);
      t ← timer_at to_remove;
      _ ← (if negb (callback t =? 0) then call (callback t) else mret tt);
      flags ← on_timer_lock spin_lock_irqsave;
      mret (inl (prev, current, flags))
    else mret (inl (RefTimer current, timer_next t, flags))) (RefList, first, flags);
  on_timer_lock (spin_unlock_irqrestore flags).

Definition kmalloc_timer (t : timer) : M (kernel D) Z :=
  p ← on_kspaces (on_kheap (kmalloc 32 GFP_KERNEL));
  if p =? 0 then mret 0 else
  _ ← modify (fun k => set_timers (<[p := t]> (timers k)) (timer_list k) k); mret p.

(** The insertion of [timer_add], with the list locked. *)
Definition timer_insert (new expire : Z) : M (kernel D) unit :=
  head ← gets timer_list;
  before ← (if head =? 0 then mret true else t ← timer_at head; mret (expire <? expire_tick t));
  if before : bool then
    _ ← set_timer_ref (RefTimer new) head; set_timer_ref RefList new
  else
    current ← walk_timers (fun current =>
      t ← timer_at current;
      if timer_next t =? 0 then mret (inr current) else
      n ← timer_at (timer_next t);
      if expire_tick n <? expire then mret (inl (timer_next t)) else mret (inr current)) head;
    t ← timer_at current;
    _ ← set_timer_ref (RefTimer new) (timer_next t);
    set_timer_ref (RefTimer current) new.

Definition timer_add (expire_ms cb name : Z) : M (kernel D) Z :=
  if cb =? 0 then mret 0 else
  tick ← gets (fun k => system_tick (k_clock k));
  let expire := add64 tick (u32 (expire_ms * TICK_HZ) / 1000) in
  new ← kmalloc_timer (Timer expire cb name 0);
  if new =? 0 then mret 0 else
  flags ← on_timer_lock spin_lock_irqsave;
  _ ← timer_insert new expire;
  _ ← on_timer_lock (spin_unlock_irqrestore flags);
  mret new.

Definition timer_del (timer : Z) : M (kernel D) Z :=
  if timer =? 0 then mret (-1) else
  flags ← on_timer_lock spin_lock_irqsave;
  first ← gets timer_list;
  found ← walk_timers (fun st : timer_ref * Z =>
    let '(prev, current) := st in
    if current =? 0 then mret (inr false) else
    t ← timer_at current;
    if current =? timer then _ ← set_timer_ref prev (timer_next t); mret (inr true)
    else mret (inl (RefTimer current, timer_next t))) (RefList, first);
  _ ← on_timer_lock (spin_unlock_irqrestore flags);
  if found : bool then
    _ ← modify (fun k => set_timers (delete timer (timers k)) (timer_list k) k);
    _ ← on_kspaces (on_kheap (kfree timer));
    mret 0
  else mret (-1).

Definition timer_get_tick : M (kernel D) Z := gets (fun k => system_tick (k_clock k)).
Definition timer_get_time_ms : M (kernel D) Z :=
  gets (fun k => mul64 (system_tick (k_clock k)) 1000 / TICK_HZ).

Definition timer_init : M (kernel D) unit :=
  actual_freq ← gets (fun k => cntfrq (k_clock k));
  pct ← gets (fun k => cntpct (k_clock k));
  _ ← (if pct =? 0 then say_printk (lit "[TIMER] Warning: System counter not running\n"%string) [] else mret tt);
  let load_val := actual_freq / TICK_HZ in
  _ ← cntp_set_tval load_val;
  _ ← upd_clock (fun c => Clock (system_tick c) load_val (cntp_ctl c) (cntp_tval c) (cntfrq c) (cntpct c));
  _ ← cntp_enable;
  _ ← irq_register TIMER_IRQ_NUM (Some TimerIrq) (lit "Timer"%string);
  say_printk (lit "[TIMER] Initialized, tick rate: %d Hz, counter freq: %llu Hz, IRQ: %d\n"%string)
    [TICK_HZ; actual_freq; TIMER_IRQ_NUM].
End timer.
