(* ===== verification/TimerTheory.v ===== *)
(** The list of software timers ([driver/timer.c]): walking it, inserting in order and unlinking. *)
From stdpp Require Import sorting.
From S2P Require Import Prelude Chain Sync Pmm Machine Slab Vmap Vmalloc Mm Libc Printk Board Irq Timer.
Open Scope Z_scope.

Definition set_next (n : Z) (x : timer) : timer := Timer (expire_tick x) (callback x) (timer_name x) n.
#[export] Instance timer_linked : Linked timer := {| link := timer_next; relink := set_next; link_relink _ _ := eq_refl |}.
#[export] Instance timer_relink : RelinkLaw timer := fun _ _ _ => eq_refl.

Definition expire_at (t : gmap Z timer) (p : Z) : Z := from_option expire_tick 0 (t !! p).
Definition earlier (t : gmap Z timer) (p q : Z) : Prop := expire_at t p <= expire_at t q.

Lemma links_only_expire t t' q : links_only t t' -> expire_at t' q = expire_at t q.
Proof. intros H. unfold expire_at. destruct (H q) as [->|(x & n & -> & ->)]; done. Qed.
Lemma links_only_callback t t' q : links_only t t' -> (callback <$> t' !! q) = (callback <$> t !! q).
Proof. by apply links_only_field. Qed.

Section timer_rules.
Context {D : Type} `{Mmio D}.
Implicit Types k : kernel D.

Lemma wp_timer_at p x (Q : timer -> kernel D -> Prop) k : timers k !! p = Some x -> Q x k -> wp (timer_at p) Q k.
Proof. intros Hx HQ. unfold timer_at. do 2 wp_step. by eapply wp_of_option. Qed.

Lemma wp_set_next p v x (Q : unit -> kernel D -> Prop) k : timers k !! p = Some x ->
  Q tt (set_timers (<[p := relink v x]> (timers k)) (timer_list k) k) -> wp (set_timer_ref (RefTimer p) v) Q k.
Proof. intros Hx HQ. cbn [set_timer_ref]. wp_step. eapply wp_timer_at; [exact Hx|]. by wp_step. Qed.

Lemma wp_set_head v (Q : unit -> kernel D -> Prop) k :
  Q tt (set_timers (timers k) v k) -> wp (set_timer_ref RefList v) Q k.
Proof. intros HQ. cbn [set_timer_ref]. by wp_step. Qed.

Lemma wp_walk_timers {A B} (I : list Z -> A -> kernel D -> Prop) (body : A -> M (kernel D) (A + B)) Q xs a k :
  I xs a k -> (length xs <= size (timers k))%nat ->
  (forall x rest a k, I (x :: rest) a k ->
     wp (body a) (fun r k' => match r with inl a' => I rest a' k' | inr b => Q b k' end) k) ->
  (forall a k, I [] a k -> wp (body a) (fun r k' => match r with inl _ => False | inr b => Q b k' end) k) ->
  wp (walk_timers body a) Q k.
Proof. intros HI Hl H1 H2. unfold walk_timers. do 2 wp_step. apply (wp_loop_list I _ _ _ xs); [exact HI|lia|exact H1|exact H2]. Qed.

(** ** Inserting *)

Lemma wp_insert_head new x ps (Q : unit -> kernel D -> Prop) k :
  timers k !! new = Some x -> new <> 0 -> new ∉ ps -> chain (timers k) (timer_list k) ps ->
  (forall t, links_only (timers k) t -> chain t new (new :: ps) -> Q tt (set_timers t new k)) ->
  wp (_ ← set_timer_ref (RefTimer new) (timer_list k); set_timer_ref RefList new) Q k.
Proof.
  intros Hx H0 Hn Hc HQ. wp_step. eapply wp_set_next; [exact Hx|]. apply wp_set_head. apply HQ.
  - by apply links_only_set.
  - by apply chain_push.
Qed.

(** The place where the walk of [timer_insert] stops. *)
Definition insert_place (t : gmap Z timer) (expire : Z) (l : list Z) (cur : Z) (r : list Z) : Prop :=
  (forall q, q ∈ l ++ [cur] -> expire_at t q <= expire) /\ (forall q, q ∈ r -> expire <= expire_at t q).

Lemma wp_insert_walk expire head ps (Q : Z -> kernel D -> Prop) k :
  chain (timers k) head ps -> StronglySorted (earlier (timers k)) ps -> head <> 0 ->
  expire_at (timers k) head <= expire ->
  (forall l cur r, ps = l ++ cur :: r -> insert_place (timers k) expire l cur r -> Q cur k) ->
  wp (walk_timers (fun current =>
      t ← timer_at current;
      if timer_next t =? 0 then mret (inr current) else
      n ← timer_at (timer_next t);
      if expire_tick n <? expire then mret (inl (timer_next t)) else mret (inr current)) head) Q k.
Proof.
  intros Hc Hsort H0 Hle HQ. destruct ps as [|p0 ps]; [done|].
  pose proof (chain_length _ _ _ Hc (chain_NoDup _ _ _ Hc)) as Hlen. assert (head = p0) as -> by apply Hc.
  apply (wp_walk_timers (fun xs cur k' => k' = k /\ exists l, p0 :: ps = l ++ cur :: xs /\
     forall q, q ∈ l ++ [cur] -> expire_at (timers k) q <= expire) _ _ ps).
  - split; [done|]. exists []. split; [done|]. intros q Hq. apply list_elem_of_singleton in Hq. by subst q.
  - cbn in Hlen. lia.
  - intros x rest cur k' (-> & l & Hl & Hall). rewrite Hl in Hc, Hsort.
    apply chain_cut in Hc as (p' & _ & Hc). cbn in Hc. destruct Hc as (-> & _ & xc & Hxc & Hnx & Hx0 & xx & Hxx & _).
    wp_step. eapply wp_timer_at; [exact Hxc|]. rewrite Hnx, (proj2 (Z.eqb_neq _ 0)) by exact Hx0.
    wp_step. eapply wp_timer_at; [exact Hxx|].
    assert (Hex : expire_at (timers k) x = expire_tick xx) by (unfold expire_at; by rewrite Hxx).
    destruct (Z.ltb_spec (expire_tick xx) expire); wp_step.
    + split; [done|]. exists (l ++ [cur]). rewrite <- app_assoc. split; [exact Hl|].
      intros q Hq. apply elem_of_app in Hq as [Hq|Hq]; [by apply Hall|]. apply list_elem_of_singleton in Hq. subst q. lia.
    + apply (HQ l cur _ Hl). split; [exact Hall|]. intros q Hq.
      apply StronglySorted_app_1_r, StronglySorted_cons in Hsort as [_ Hs]. apply StronglySorted_cons in Hs as [Hs _].
      apply elem_of_cons in Hq as [->|Hq]; [lia|]. rewrite Forall_forall in Hs. specialize (Hs q Hq). unfold earlier in Hs. lia.
  - intros cur k' (-> & l & Hl & Hall). rewrite Hl in Hc.
    apply chain_cut in Hc as (p' & _ & Hc). cbn in Hc. destruct Hc as (-> & _ & xc & Hxc & Hnx).
    wp_step. eapply wp_timer_at; [exact Hxc|]. rewrite Hnx, Z.eqb_refl. wp_step.
    apply (HQ l cur [] Hl). split; [exact Hall|]. by intros q ?%not_elem_of_nil.
Qed.

(** [t'] is [t] with [new] inserted into the list [ps] in order. *)
Lemma wp_timer_insert new x ps (Q : unit -> kernel D -> Prop) k :
  timers k !! new = Some x -> new <> 0 -> new ∉ ps -> chain (timers k) (timer_list k) ps ->
  StronglySorted (earlier (timers k)) ps ->
  (forall t h l r, ps = l ++ r -> links_only (timers k) t -> chain t h (l ++ new :: r) ->
     (forall q, q ∈ l -> expire_at (timers k) q <= expire_tick x) ->
     (forall q, q ∈ r -> expire_tick x <= expire_at (timers k) q) -> Q tt (set_timers t h k)) ->
  wp (timer_insert new (expire_tick x)) Q k.
Proof.
  intros Hx H0 Hn Hc Hsort HQ. unfold timer_insert. wp_step. wp_step.
  assert (Hfirst : (forall q, q ∈ ps -> expire_tick x <= expire_at (timers k) q) ->
    wp (_ ← set_timer_ref (RefTimer new) (timer_list k); set_timer_ref RefList new) Q k).
  { intros Hle. eapply wp_insert_head; [exact Hx|exact H0|exact Hn|exact Hc|]. intros t Ht Hc'.
    apply (HQ t new [] ps); [done|exact Ht|exact Hc'|by intros q ?%not_elem_of_nil|exact Hle]. }
  destruct ps as [|p0 ps].
  { assert (timer_list k = 0) as Hh by exact Hc. rewrite Hh in *. rewrite Z.eqb_refl. do 2 wp_step.
    apply Hfirst. by intros q ?%not_elem_of_nil. }
  pose proof Hc as (Hh & Hp0 & x0 & Hx0 & _). rewrite Hh in *. rewrite (proj2 (Z.eqb_neq p0 0)) by exact Hp0.
  assert (He0 : expire_at (timers k) p0 = expire_tick x0) by (unfold expire_at; by rewrite Hx0).
  do 2 wp_step. eapply wp_timer_at; [exact Hx0|]. wp_step. destruct (Z.ltb_spec (expire_tick x) (expire_tick x0)).
  - apply Hfirst. intros q Hq. apply StronglySorted_cons in Hsort as [Hs _]. rewrite Forall_forall in Hs.
    apply elem_of_cons in Hq as [->|Hq]; [lia|]. specialize (Hs q Hq). unfold earlier in Hs. lia.
  - wp_step. eapply wp_insert_walk; [exact Hc|exact Hsort|exact Hp0|lia|].
    intros l cur r Hl [Hlo Hhi]. rewrite Hl in Hc, Hn.
    assert (Hnc : cur <> new) by (intros ->; apply Hn, elem_of_app; right; apply elem_of_cons; by left).
    destruct (chain_elem _ _ _ cur Hc) as [_ [xc Hxc]]; [apply elem_of_app; right; apply elem_of_cons; by left|].
    wp_step. eapply wp_timer_at; [exact Hxc|]. wp_step. eapply wp_set_next; [exact Hx|].
    eapply wp_set_next; [cbn; rewrite lookup_insert_ne by (by intros ->); exact Hxc|].
    cbn [timers timer_list set_timers].
    apply (HQ _ (timer_list k) (l ++ [cur]) r); [by rewrite <- app_assoc| | |exact Hlo|exact Hhi].
    + etransitivity; [by apply (links_only_set _ new)|]. apply links_only_set. by rewrite lookup_insert_ne by (by intros ->).
    + rewrite <- app_assoc, Hh. cbn [app]. exact (chain_insert_after _ _ _ _ _ _ xc x Hc Hxc Hx H0 Hn).
Qed.
End timer_rules.

(** Inserting at that place keeps the list sorted. *)
Lemma inserted_sorted t t' new x l r : links_only t t' -> expire_at t new = expire_tick x ->
  StronglySorted (earlier t) (l ++ r) -> (forall q, q ∈ l -> expire_at t q <= expire_tick x) ->
  (forall q, q ∈ r -> expire_tick x <= expire_at t q) -> StronglySorted (earlier t') (l ++ new :: r).
Proof.
  intros Hr He Hs Hlo Hhi.
  assert (Heq : forall p q, earlier t' p q <-> earlier t p q).
  { intros p q. unfold earlier. by rewrite !(links_only_expire t t') by exact Hr. }
  assert (Himpl : forall ps, StronglySorted (earlier t) ps -> StronglySorted (earlier t') ps).
  { induction ps as [|p ps IH]; [constructor|]. rewrite !StronglySorted_cons, !Forall_forall. intros [Hp Hps].
    split; [|by apply IH]. intros q Hq. by apply Heq, Hp. }
  apply Himpl. apply StronglySorted_app in Hs as (Hlr & Hl & Hs). apply StronglySorted_app. split; [|split; [exact Hl|]].
  - intros p q Hp Hq. apply elem_of_cons in Hq as [->|Hq]; [unfold earlier; rewrite He; by apply Hlo|by apply Hlr].
  - apply StronglySorted_cons. split; [|exact Hs]. apply Forall_forall. intros q Hq. unfold earlier. rewrite He. by apply Hhi.
Qed.

(** ** Unlinking *)

(** Where the pointer to the timer after [l] is stored. *)
Definition prev_ref (l : list Z) : timer_ref := match last l with None => RefList | Some q => RefTimer q end.

Section unlink.
Context {D : Type} `{Mmio D}.
Implicit Types k : kernel D.

Lemma wp_unlink l q x r (Q : unit -> kernel D -> Prop) k :
  chain (timers k) (timer_list k) (l ++ q :: r) -> timers k !! q = Some x ->
  (forall t h, links_only (timers k) t -> t !! q = Some x -> chain t h (l ++ r) -> Q tt (set_timers t h k)) ->
  wp (set_timer_ref (prev_ref l) (timer_next x)) Q k.
Proof.
  intros Hc Hx HQ. unfold prev_ref. destruct (last l) as [y|] eqn:El.
  - apply last_Some in El as [l' ->]. rewrite <- app_assoc in Hc. cbn [app] in Hc.
    destruct (chain_elem _ _ _ y Hc) as [_ [xy Hxy]]; [apply elem_of_app; right; apply elem_of_cons; by left|].
    destruct (chain_unlink_after _ _ _ _ _ _ _ _ Hc Hxy Hx) as [Hc' Hq].
    eapply wp_set_next; [exact Hxy|]. apply HQ; [by apply links_only_set|exact Hq|]. by rewrite <- app_assoc.
  - apply last_None in El as ->. apply wp_set_head. cbn in Hc. destruct Hc as (_ & _ & x' & Hx' & Hc).
    rewrite Hx in Hx'. injection Hx' as <-. apply HQ; [apply links_only_refl|exact Hx|exact Hc].
Qed.

(** Looking for [timer] as [timer_del] does, and unlinking it. *)
Lemma wp_del_walk timer ps (Q : bool -> kernel D -> Prop) k :
  chain (timers k) (timer_list k) ps ->
  (timer ∉ ps -> Q false k) ->
  (forall l r t h, ps = l ++ timer :: r -> links_only (timers k) t -> chain t h (l ++ r) ->
     Q true (set_timers t h k)) ->
  wp (walk_timers (fun st : timer_ref * Z =>
    let '(prev, current) := st in
    if current =? 0 then mret (inr false) else
    t ← timer_at current;
    if current =? timer then _ ← set_timer_ref prev (timer_next t); mret (inr true)
    else mret (inl (RefTimer current, timer_next t))) (RefList, timer_list k)) Q k.
Proof.
  intros Hc HQ1 HQ2.
  apply (wp_walk_timers (fun xs '(prev, cur) k' => k' = k /\ exists l, ps = l ++ xs /\ prev = prev_ref l /\
     timer ∉ l /\ chain (timers k) cur xs) _ _ ps).
  - split; [done|]. exists []. split; [done|]. split; [done|]. split; [by apply not_elem_of_nil|exact Hc].
  - eapply chain_length, chain_NoDup; exact Hc.
  - intros q rest [prev cur] k' (-> & l & Hl & -> & Hnt & Hcq). destruct Hcq as (-> & H0 & x & Hx & Hr).
    rewrite (proj2 (Z.eqb_neq q 0)) by exact H0. wp_step. eapply wp_timer_at; [exact Hx|].
    destruct (Z.eqb_spec q timer) as [->|Hne].
    + wp_step. rewrite Hl in Hc. eapply (wp_unlink l timer x rest); [exact Hc|exact Hx|].
      intros t h Ht _ Hc'. wp_step. by eapply HQ2.
    + wp_step. split; [done|]. exists (l ++ [q]). rewrite <- app_assoc. split; [exact Hl|].
      split; [unfold prev_ref; by rewrite last_snoc|]. split; [|exact Hr].
      rewrite elem_of_app, list_elem_of_singleton. intros [?|?]; congruence.
  - intros [prev cur] k' (-> & l & Hl & -> & Hnt & ->). rewrite Z.eqb_refl. wp_step. apply HQ1.
    rewrite Hl, app_nil_r. exact Hnt.
Qed.
End unlink.
