(* ===== verification/TimerProps.v ===== *)
(** What the software timers promise ([driver/timer.c]): adding, deleting and the tick, with the
    objects of the timers on the heap. *)
From stdpp Require Import sorting.
From S2P Require Import Prelude ListHead Chain Sync Pmm Machine Slab SlabTheory SlabOps SlabFree SlabProps Rbtree Vmap Vmalloc Mm MmTheory Libc Printk Board Irq Timer TimerTheory.
Open Scope Z_scope.

(** ** The state of the component *)

Section timer_props.
Context {D : Type} `{Mmio D}.
Implicit Types k : kernel D.

Definition k_heap k : slab := vm_slab (va_mgr (kmem (bd_mem (k_board k)))).
Definition put_heap (h : slab) k : kernel D :=
  let s := bd_mem (k_board k) in
  set_board (set_bd_mem (set_kmem (set_va_mgr (set_vm_slab h (va_mgr (kmem s))) (kmem s)) s) (k_board k)) k.

Lemma wp_kheap {A} (m : M slab A) (Q : A -> kernel D -> Prop) k :
  wp m (fun a h => Q a (put_heap h k)) (k_heap k) -> wp (on_kspaces (on_kheap m)) Q k.
Proof. intros Hm. unfold on_kspaces, on_kheap, on_board, on_spaces, on_kmem, on_heap. do 5 (apply wp_zoom). exact Hm. Qed.

(** The list [ps], and the heap whose live objects are [L]. *)
Record timers_ok (ps : list Z) k : Prop := {
  to_lock : lock_free (timer_lock k);
  to_chain : chain (timers k) (timer_list k) ps;
  to_nodup : NoDup ps;
  to_sorted : StronglySorted (earlier (timers k)) ps;
}.
Record timer_inv (L : gmap Z Z) (ps : list Z) k : Prop := {
  ti_heap : heap_ok L (k_heap k);
  ti_list : timers_ok ps k;
  ti_live : forall p, p ∈ ps -> is_Some (L !! p);
}.

Definition t_locked k : kernel D :=
  set_timer_lock (ArchSpinlock (u32 (lock_next (timer_lock k) + 1)) (lock_owner (timer_lock k)))
    (set_board (set_bd_daif (Z.lor (k_daif k) DAIF_I) (k_board k)) k).
Definition t_unlocked (flags : Z) k : kernel D :=
  set_timer_lock (ArchSpinlock (lock_next (timer_lock k)) (u32 (lock_owner (timer_lock k) + 1)))
    (set_board (set_bd_daif flags (k_board k)) k).

Lemma wp_timer_lock (Q : Z -> kernel D -> Prop) k : lock_free (timer_lock k) -> Q (k_daif k) (t_locked k) ->
  wp (on_timer_lock spin_lock_irqsave) Q k.
Proof.
  intros Hf HQ. unfold on_timer_lock. wp_step. apply wp_spin_lock_irqsave; [exact Hf|exact HQ].
Qed.
Lemma wp_timer_unlock flags (Q : unit -> kernel D -> Prop) k : Q tt (t_unlocked flags k) ->
  wp (on_timer_lock (spin_unlock_irqrestore flags)) Q k.
Proof.
  intros HQ. unfold on_timer_lock. wp_step. apply wp_spin_unlock_irqrestore. exact HQ.
Qed.

(** The tick at which a timer of [expire_ms] milliseconds started now expires. *)
Definition expiry k (expire_ms : Z) : Z := add64 (system_tick (k_clock k)) (u32 (expire_ms * TICK_HZ) / 1000).

(** Timers outside the list do not matter. *)
Lemma timers_ok_ext ps t k : timers_ok ps k -> (forall q, q ∈ ps -> t !! q = timers k !! q) ->
  timers_ok ps (set_timers t (timer_list k) k).
Proof.
  intros [Hl Hc Hnd Hs] Ht. split; [exact Hl|by eapply chain_ext|exact Hnd|]. cbn. clear Hc Hnd.
  induction ps as [|p ps IH]; [constructor|]. apply StronglySorted_cons in Hs as [Hp Hs].
  assert (Hp' : forall q, q ∈ p :: ps -> expire_at t q = expire_at (timers k) q) by (intros q Hq; unfold expire_at; by rewrite Ht).
  apply StronglySorted_cons. split.
  - apply Forall_forall. intros q Hq. rewrite Forall_forall in Hp. specialize (Hp q Hq). unfold earlier in *.
    rewrite !Hp' by set_solver. exact Hp.
  - apply IH; [exact Hs|]. intros q Hq. apply Ht. set_solver.
Qed.

Lemma wp_timer_add_list new x ps (Q : Z -> kernel D -> Prop) k :
  timers_ok ps k -> new ∉ ps -> new <> 0 -> timers k !! new = Some x ->
  (forall l r k', ps = l ++ r -> links_only (timers k) (timers k') -> timers_ok (l ++ new :: r) k' ->
     k_daif k' = k_daif k -> k_clock k' = k_clock k -> (forall L, heap_ok L (k_heap k) -> heap_ok L (k_heap k')) ->
     Q new k') ->
  wp (flags ← on_timer_lock spin_lock_irqsave;
      _ ← timer_insert new (expire_tick x);
      _ ← on_timer_lock (spin_unlock_irqrestore flags);
      mret new) Q k.
Proof.
  intros [Hl Hc Hnd Hs] Hnps H0 Hx HQ.
  wp_step. apply wp_timer_lock; [exact Hl|]. wp_step.
  apply (wp_timer_insert new x ps); [exact Hx|exact H0|exact Hnps|exact Hc|exact Hs|].
  intros t h l r Hps Hr Hc' Hlo Hhi. wp_step. apply wp_timer_unlock. wp_step.
  apply (HQ l r); [exact Hps|exact Hr| |reflexivity|reflexivity|].
  - subst ps. assert (Hex : expire_at (timers k) new = expire_tick x) by (unfold expire_at; by rewrite Hx). split.
    + exact (spin_unlock_free _ Hl).
    + exact Hc'.
    + rewrite <- Permutation_middle. by constructor.
    + by eapply inserted_sorted.
  - intros L Hh. apply (heap_ok_daif _ _ _ (heap_ok_daif _ _ _ Hh)).
Qed.

(** [timer_add] always returns.  Without a callback it does nothing; when the heap is exhausted it
    returns NULL and the list is as before; otherwise the result is a new object, in the list at a place
    that keeps it sorted by expiry tick, with the given callback and an expiry [expire_ms] milliseconds
    (the product taken modulo [2 ^ 32]) after the current tick; the other timers keep their data. *)
Theorem timer_add_correct L ps expire_ms cb name k : timer_inv L ps k ->
  exists r k', timer_add expire_ms cb name k = Done (r, k') /\ k_daif k' = k_daif k /\ k_clock k' = k_clock k /\
    (cb = 0 -> r = 0 /\ k' = k) /\
    (cb <> 0 ->
      (r = 0 /\ timer_inv L ps k' /\ timers k' = timers k /\ exhausted (k_heap k) GFP_KERNEL 32) \/
      (r <> 0 /\ exists z l l', 32 <= z /\ L !! r = None /\ ps = l ++ l' /\ timer_inv (<[r := z]> L) (l ++ r :: l') k' /\
         (exists n, timers k' !! r = Some (Timer (expiry k expire_ms) cb name n)) /\
         links_only (<[r := Timer (expiry k expire_ms) cb name 0]> (timers k)) (timers k'))).
Proof.
  intros Hi. destruct (decide (cb = 0)) as [->|Hcb].
  { exists 0, k. repeat (split; [reflexivity|]). split; [done|]. done. }
  set (x := Timer (expiry k expire_ms) cb name 0).
  assert (Hwp : wp (timer_add expire_ms cb name) (fun r k' => k_daif k' = k_daif k /\ k_clock k' = k_clock k /\
    ((r = 0 /\ timer_inv L ps k' /\ timers k' = timers k /\ exhausted (k_heap k) GFP_KERNEL 32) \/
     (r <> 0 /\ exists z l l', 32 <= z /\ L !! r = None /\ ps = l ++ l' /\ timer_inv (<[r := z]> L) (l ++ r :: l') k' /\
         (exists n, timers k' !! r = Some (Timer (expiry k expire_ms) cb name n)) /\
         links_only (<[r := x]> (timers k)) (timers k')))) k).
  { unfold timer_add. rewrite (proj2 (Z.eqb_neq cb 0)) by exact Hcb. do 2 wp_step. fold (expiry k expire_ms). fold x.
    unfold kmalloc_timer. do 2 wp_step. apply wp_kheap.
    eapply wp_mono; [apply (wp_kmalloc L 32 GFP_KERNEL); [apply (ti_heap _ _ _ Hi)|unfold SZ_4M; lia]|].
    intros r h [Hkept [(-> & Hh & Hex)|(H0 & _ & z & Hz & HLn & Hh)]]; pose proof (heap_kept_daif _ _ _ Hkept) as Hd.
    - rewrite Z.eqb_refl. wp_step. rewrite Z.eqb_refl. wp_step. split; [exact Hd|]. split; [reflexivity|]. left.
      split; [reflexivity|]. split; [split; [exact Hh|destruct (ti_list _ _ _ Hi); split; assumption|apply (ti_live _ _ _ Hi)]|].
      split; [reflexivity|exact Hex].
    - rewrite (proj2 (Z.eqb_neq r 0)) by exact H0. do 3 wp_step. rewrite (proj2 (Z.eqb_neq r 0)) by exact H0.
      assert (Hrps : r ∉ ps) by (intros Hin; destruct (ti_live _ _ _ Hi r Hin); congruence).
      match goal with |- wp _ _ ?k0 => set (k1 := k0) end.
      assert (Hok1 : timers_ok ps k1).
      { destruct (timers_ok_ext ps (<[r := x]> (timers k)) k (ti_list _ _ _ Hi)) as [A B C E].
        - intros q Hq. rewrite lookup_insert_ne; [reflexivity|]. by intros ->.
        - split; assumption. }
      eapply (wp_timer_add_list r x ps); [exact Hok1|exact Hrps|exact H0|apply lookup_insert_eq|].
      intros l l' k' Hps Hr Hok' Hd' Hc' Hh'. split; [by rewrite Hd'|]. split; [by rewrite Hc'|]. right. split; [exact H0|].
      exists z, l, l'. split; [exact Hz|]. split; [exact HLn|]. split; [exact Hps|]. split; [|split; [|exact Hr]].
      + split; [apply Hh'; exact Hh|exact Hok'|]. intros p Hp. rewrite lookup_insert. case_decide; [by eexists|].
        apply (ti_live _ _ _ Hi). subst ps. rewrite elem_of_app, elem_of_cons in Hp. rewrite elem_of_app. naive_solver.
      + assert (Hx1 : timers k1 !! r = Some x) by apply lookup_insert_eq.
        destruct (Hr r) as [E|(y & n & Hy & E)]; rewrite E; [by eexists|].
        rewrite Hx1 in Hy. injection Hy as <-. by exists n. }
  destruct (wp_done _ _ _ Hwp) as (r & k' & Hrun & Hd & Hc & Hr). exists r, k'.
  split; [exact Hrun|]. split; [exact Hd|]. split; [exact Hc|]. split; [done|]. intros _. exact Hr.
Qed.

Lemma sorted_links t t' ps : links_only t t' -> StronglySorted (earlier t) ps -> StronglySorted (earlier t') ps.
Proof.
  intros Hr. induction ps as [|p ps IH]; [constructor|]. rewrite !StronglySorted_cons, !Forall_forall. intros [Hp Hps].
  split; [|by apply IH]. intros q Hq. unfold earlier. rewrite !(links_only_expire t t') by exact Hr. by apply Hp.
Qed.

(** Taking [q] out of the list. *)
Lemma timers_ok_unlink l q r t h k : timers_ok (l ++ q :: r) k -> links_only (timers k) t -> chain t h (l ++ r) ->
  timers_ok (l ++ r) (set_timers t h k).
Proof.
  intros [Hl _ Hnd Hs] Hr Hc. rewrite <- Permutation_middle in Hnd. apply NoDup_cons in Hnd as [_ Hnd].
  split; [exact Hl|exact Hc|exact Hnd|]. eapply sorted_links; [exact Hr|].
  apply StronglySorted_app in Hs as (H1 & H2 & H3). apply StronglySorted_cons in H3 as [_ H3].
  apply StronglySorted_app. split; [|split; [exact H2|exact H3]]. intros x y Hx Hy. apply H1; [exact Hx|]. set_solver.
Qed.

(** [timer_del] of a listed timer returns 0: it leaves the list, the others stay in order with their
    data, and its object is freed.  For any other pointer it returns -1 and changes nothing. *)
Theorem timer_del_correct L ps p k : timer_inv L ps k ->
  exists r k', timer_del p k = Done (r, k') /\ k_daif k' = k_daif k /\
    (p ∈ ps -> r = 0 /\ exists l l', ps = l ++ p :: l' /\ timer_inv (delete p L) (l ++ l') k' /\
       timers k' !! p = None /\
       forall q, q <> p -> timers k' !! q = timers k !! q \/
         exists x n, timers k !! q = Some x /\ timers k' !! q = Some (set_next n x)) /\
    (p ∉ ps -> r = -1 /\ timers k' = timers k /\ timer_inv L ps k').
Proof.
  intros [Hh Hok Hlive]. destruct (decide (p = 0)) as [->|H0].
  { exists (-1), k. split; [reflexivity|]. split; [reflexivity|]. split.
    - intros Hin. destruct (chain_elem _ _ _ _ (to_chain _ _ Hok) Hin). done.
    - intros _. split; [reflexivity|]. split; [reflexivity|]. split; assumption. }
  assert (Hwp : wp (timer_del p) (fun r k' => k_daif k' = k_daif k /\
    (p ∈ ps -> r = 0 /\ exists l l', ps = l ++ p :: l' /\ timer_inv (delete p L) (l ++ l') k' /\
       timers k' !! p = None /\
       forall q, q <> p -> timers k' !! q = timers k !! q \/
         exists x n, timers k !! q = Some x /\ timers k' !! q = Some (set_next n x)) /\
    (p ∉ ps -> r = -1 /\ timers k' = timers k /\ timer_inv L ps k')) k).
  { unfold timer_del. rewrite (proj2 (Z.eqb_neq p 0)) by exact H0. destruct Hok as [Hl Hc Hnd Hs].
    wp_step. apply wp_timer_lock; [exact Hl|]. do 2 wp_step. wp_step.
    apply (wp_del_walk p ps); [exact Hc| |].
    - intros Hn. wp_step. apply wp_timer_unlock. wp_step. split; [reflexivity|]. split; [done|]. intros _.
      split; [reflexivity|]. split; [reflexivity|]. split.
      + apply (heap_ok_daif _ _ _ (heap_ok_daif _ _ _ Hh)).
      + split; [exact (spin_unlock_free _ Hl)|exact Hc|exact Hnd|exact Hs].
      + exact Hlive.
    - intros l r t h Hps Hr Hc'. wp_step. apply wp_timer_unlock. do 2 wp_step.
      assert (Hin : p ∈ ps) by (rewrite Hps; set_solver). destruct (Hlive p Hin) as [z Hz].
      match goal with |- wp _ _ ?k0 => set (k1 := k0) end.
      assert (Hh1 : heap_ok L (k_heap k1)) by exact (heap_ok_daif _ _ _ (heap_ok_daif _ _ _ Hh)).
      wp_step. apply wp_kheap. eapply wp_mono; [apply (wp_kfree L p z); [exact Hh1|exact Hz]|].
      intros [] h' [Hkept Hh' _ _]. wp_step. split; [exact (heap_kept_daif _ _ _ Hkept)|]. split; [|done]. intros _.
      split; [reflexivity|]. exists l, r. split; [exact Hps|]. subst ps.
      assert (Hnp : p ∉ l ++ r) by (rewrite <- Permutation_middle in Hnd; by apply NoDup_cons in Hnd as [? _]).
      split; [split|split].
      + exact Hh'.
      + destruct (timers_ok_unlink l p r t h k) as [_ _ Hnd' Hs']; [by split|exact Hr|exact Hc'|].
        destruct (timers_ok_ext (l ++ r) (delete p t) (set_timers t h (t_unlocked (k_daif k) (t_locked k)))) as [A B C E].
        * split; [exact (spin_unlock_free _ Hl)|exact Hc'|exact Hnd'|exact Hs'].
        * intros q Hq. cbn. rewrite lookup_delete_ne; [reflexivity|]. by intros ->.
        * split; assumption.
      + intros q Hq. rewrite lookup_delete_ne by (by intros ->). apply Hlive. rewrite elem_of_app, elem_of_cons. set_solver.
      + apply lookup_delete_eq.
      + intros q Hq. cbn. rewrite lookup_delete_ne by done. apply Hr. }
  destruct (wp_done _ _ _ Hwp) as (r & k' & Hrun & Hp). by exists r, k'.
Qed.

(** ** The tick *)

(** What the timers do not touch: the devices, the interrupt controller's address, the interrupt table's lock. *)
Definition outside k : D * Z * arch_spinlock := (bd_dev (k_board k), GICC_BASE (k_board k), irq_table_lock k).

Section tick.
(** Callbacks and the scheduler's tick are other components.  [R tr o] relates the callbacks called so far,
    in order, to the state of the devices and of the interrupt path.  A callback is relied on only when it
    is called with the list unlocked (a callback that takes the lock would spin forever otherwise): it then
    returns and leaves the timers, the lock and the clock as they are.  So does the scheduler's tick. *)
Context (R : list Z -> D * Z * arch_spinlock -> Prop) (call : Z -> M (kernel D) unit) (rust_timer_tick : M (kernel D) unit).
Definition timer_frame k k' : Prop :=
  timers k' = timers k /\ timer_list k' = timer_list k /\ timer_lock k' = timer_lock k /\ k_clock k' = k_clock k /\
  k_daif k' = k_daif k.
Hypothesis callbacks_ok : forall tr c k, lock_free (timer_lock k) -> R tr (outside k) ->
  wp (call c) (fun _ k' => timer_frame k k' /\ R (tr ++ [c]) (outside k')) k.
Hypothesis tick_ok : forall tr k, R tr (outside k) ->
  wp rust_timer_tick (fun _ k' => timer_frame k k' /\ R tr (outside k')) k.

Definition due (t : gmap Z timer) (tick p : Z) : bool := expire_at t p <=? tick.
Definition callback_of (t : gmap Z timer) (p : Z) : Z := from_option callback 0 (t !! p).

(** The callbacks the handler calls for the timers [ps]. *)
Definition fired (t : gmap Z timer) (tick : Z) (ps : list Z) : list Z :=
  List.filter (fun c => negb (c =? 0)) (map (callback_of t) (List.filter (due t tick) ps)).
Definition pending (t : gmap Z timer) (tick : Z) (ps : list Z) : list Z := List.filter (fun p => negb (due t tick p)) ps.

(** The lock as its holder sees it. *)
Definition held (l : arch_spinlock) : Prop := lock_next l = u32 (lock_owner l + 1).

(** The state of the loop after the timers [pre], before the timers [xs]. *)
Record tick_inv (k0 : kernel D) (tick : Z) (pre xs : list Z) (prev : timer_ref) (cur flags : Z) k : Prop := {
  tk_prev : prev = prev_ref (pending (timers k0) tick pre);
  tk_chain : chain (timers k) (timer_list k) (pending (timers k0) tick pre ++ xs);
  tk_cur : chain (timers k) cur xs;
  tk_links : links_only (timers k0) (timers k);
  tk_fired : R (fired (timers k0) tick pre) (outside k);
  tk_lock : held (timer_lock k);
  tk_clock : k_clock k = k_clock k0 /\ system_tick (k_clock k0) = tick;
  tk_daif : flags = k_daif k0;
}.

Lemma fired_snoc t tick pre q : fired t tick (pre ++ [q]) =
  fired t tick pre ++ (if due t tick q && negb (callback_of t q =? 0) then [callback_of t q] else []).
Proof.
  unfold fired. rewrite List.filter_app, map_app, List.filter_app. f_equal. cbn.
  destruct (due t tick q); cbn; [|done]. by destruct (callback_of t q =? 0).
Qed.
Lemma pending_snoc t tick pre q : pending t tick (pre ++ [q]) = pending t tick pre ++ (if due t tick q then [] else [q]).
Proof. unfold pending. rewrite List.filter_app. cbn. by destruct (due t tick q). Qed.

Lemma wp_tick_step k0 tick pre q rest prev flags (Q : timer_ref * Z * Z + Z -> kernel D -> Prop) k :
  tick_inv k0 tick pre (q :: rest) prev q flags k ->
  (forall prev' cur' k', tick_inv k0 tick (pre ++ [q]) rest prev' cur' flags k' -> Q (inl (prev', cur', flags)) k') ->
  wp (t ← timer_at q;
      tick ← gets (fun k => system_tick (k_clock k));
      if expire_tick t <=? tick then
        let to_remove := q in
        _ ← set_timer_ref prev (timer_next t);
        let current := timer_next t in
        _ ← on_timer_lock (spin_unlock_irqrestore flags);
        t ← timer_at to_remove;
        _ ← (if negb (callback t =? 0) then call (callback t) else mret tt);
        flags ← on_timer_lock spin_lock_irqsave;
        mret (inl (prev, current, flags))
      else mret (inl (RefTimer q, timer_next t, flags))) Q k.
Proof.
  intros [-> Hch Hcur Hln Hf Hlk [Hck Htk] Hd] HQ. cbn in Hcur. destruct Hcur as (_ & H0 & x & Hx & Hrest).
  set (keep := pending (timers k0) tick pre) in *.
  assert (Hex : expire_at (timers k0) q = expire_tick x /\ callback_of (timers k0) q = callback x).
  { unfold expire_at, callback_of. destruct (Hln q) as [<-|(y & n & Hy & Hn)]; [by rewrite Hx|].
    rewrite Hy. rewrite Hx in Hn. by injection Hn as ->. }
  destruct Hex as [Hex Hcb].
  wp_step. eapply wp_timer_at; [exact Hx|]. do 2 wp_step. rewrite Hck, Htk.
  assert (Hdue : due (timers k0) tick q = (expire_tick x <=? tick)) by (unfold due; by rewrite Hex).
  destruct (expire_tick x <=? tick).
  - cbn zeta. wp_step. eapply wp_unlink; [exact Hch|exact Hx|]. intros t h Ht Htq Hch'.
    wp_step. apply wp_timer_unlock. wp_step. eapply wp_timer_at; [exact Htq|].
    assert (Hcur' : chain t (timer_next x) rest).
    { apply chain_cut in Hch' as (p' & _ & Hc'). by rewrite (chain_head _ _ _ _ _ Hrest Hc'). }
    set (k1 := t_unlocked flags (set_timers t h k)).
    assert (Hfree : lock_free (timer_lock k1)) by (unfold lock_free; cbn; by rewrite Hlk).
    wp_step. apply (wp_mono _ (fun _ k' => timer_frame k1 k' /\ R (fired (timers k0) tick (pre ++ [q])) (outside k'))).
    { rewrite fired_snoc, Hdue, Hcb. cbn [andb]. destruct (callback x =? 0); cbn [negb].
      - wp_step. rewrite app_nil_r. split; [repeat split|exact Hf].
      - apply callbacks_ok; [exact Hfree|exact Hf]. }
    intros [] k' [(E1 & E2 & E3 & E4 & E5) Hf']. wp_step. apply wp_timer_lock; [by rewrite E3|]. wp_step.
    assert (Hdf : k_daif k' = flags) by (rewrite E5; reflexivity). rewrite Hdf.
    apply HQ. split.
    + rewrite pending_snoc, Hdue, app_nil_r. reflexivity.
    + rewrite pending_snoc, Hdue, app_nil_r. cbn. rewrite E1, E2. exact Hch'.
    + cbn. rewrite E1. exact Hcur'.
    + cbn. rewrite E1. by eapply links_only_trans.
    + exact Hf'.
    + unfold held. cbn. rewrite E3. unfold lock_free in Hfree. by rewrite <- Hfree.
    + cbn. rewrite E4. by split.
    + exact Hd.
  - wp_step. apply HQ. split.
    + rewrite pending_snoc, Hdue. unfold prev_ref. by rewrite last_snoc.
    + rewrite pending_snoc, Hdue, <- app_assoc. exact Hch.
    + exact Hrest.
    + exact Hln.
    + rewrite fired_snoc, Hdue, app_nil_r. exact Hf.
    + exact Hlk.
    + by split.
    + exact Hd.
Qed.

Lemma sorted_filter (Rel : Z -> Z -> Prop) (f : Z -> bool) ps : StronglySorted Rel ps -> StronglySorted Rel (List.filter f ps).
Proof.
  induction ps as [|p ps IH]; [done|]. rewrite StronglySorted_cons. intros [Hp Hps]. cbn.
  destruct (f p); [|by apply IH]. apply StronglySorted_cons. split; [|by apply IH].
  rewrite Forall_forall in *. intros q Hq. apply Hp. apply list_elem_of_In, List.filter_In in Hq as [Hq _]. by apply list_elem_of_In.
Qed.

Lemma wp_tick_loop k0 tick flags fuel ps (Q : Z -> kernel D -> Prop) :
  (forall k, tick_inv k0 tick ps [] (prev_ref (pending (timers k0) tick ps)) 0 flags k -> Q flags k) ->
  forall pre xs prev cur k, ps = pre ++ xs -> tick_inv k0 tick pre xs prev cur flags k -> (length xs < fuel)%nat ->
  wp (loop fuel (fun st : timer_ref * Z * Z =>
    let '(prev, current, flags) := st in
    if current =? 0 then mret (inr flags) else
    t ← timer_at current;
    tick ← gets (fun k => system_tick (k_clock k));
    if expire_tick t <=? tick then
      let to_remove := current in
      _ ← set_timer_ref prev (timer_next t);
      let current := timer_next t in
      _ ← on_timer_lock (spin_unlock_irqrestore flags);
      t ← timer_at to_remove;
      _ ← (if negb (callback t =? 0) then call (callback t) else mret tt);
      flags ← on_timer_lock spin_lock_irqsave;
      mret (inl (prev, current, flags))
    else mret (inl (RefTimer current, timer_next t, flags))) (prev, cur, flags)) Q k.
Proof.
  intros HQ. induction fuel as [|fuel IH]; intros pre xs prev cur k Hps Hi Hf; [lia|]. cbn [loop]. wp_step.
  destruct xs as [|q rest].
  - pose proof (tk_cur _ _ _ _ _ _ _ _ Hi) as Hc. cbn in Hc. subst cur. rewrite Z.eqb_refl. do 2 wp_step.
    rewrite app_nil_r in Hps. subst pre. apply HQ. pose proof (tk_prev _ _ _ _ _ _ _ _ Hi) as <-. exact Hi.
  - pose proof (tk_cur _ _ _ _ _ _ _ _ Hi) as (-> & H0 & _). rewrite (proj2 (Z.eqb_neq q 0)) by exact H0.
    eapply wp_tick_step; [exact Hi|]. intros prev' cur' k' Hi'.
    apply (IH (pre ++ [q]) rest); [by rewrite <- app_assoc|exact Hi'|]. cbn in Hf. lia.
Qed.

(** What one tick does. *)
Definition tick_post (ps : list Z) k k' : Prop :=
  let tick := add64 (system_tick (k_clock k)) 1 in
  system_tick (k_clock k') = tick /\ cntp_tval (k_clock k') = timer_load_val (k_clock k) /\ k_daif k' = k_daif k /\
  timers_ok (pending (timers k) tick ps) k' /\ links_only (timers k) (timers k') /\
  R (fired (timers k) tick ps) (outside k').

Lemma wp_timer_irq_handler fuel ps irq k : timers_ok ps k -> R [] (outside k) -> (length ps < fuel)%nat ->
  wp (timer_irq_handler fuel rust_timer_tick call irq) (fun _ k' => tick_post ps k k') k.
Proof.
  intros [Hl Hc Hnd Hs] HR Hf. unfold tick_post. set (tick := add64 (system_tick (k_clock k)) 1). cbn zeta.
  unfold timer_irq_handler. do 2 wp_step. unfold cntp_set_tval, upd_clock. do 2 wp_step. wp_step.
  eapply wp_mono; [apply (tick_ok []); exact HR|]. intros [] k1 [(E1 & E2 & E3 & E4 & E5) HR1]. cbn in E1, E2, E3, E4, E5.
  do 2 wp_step. wp_step. match goal with |- wp _ _ ?kk => set (k0 := kk) end.
  assert (Ht0 : timers k0 = timers k) by exact E1.
  assert (Hck0 : system_tick (k_clock k0) = tick /\ cntp_tval (k_clock k0) = timer_load_val (k_clock k))
    by (unfold k0; cbn; rewrite E4; by split).
  assert (Hd0 : k_daif k0 = k_daif k) by exact E5.
  assert (Hl0 : lock_free (timer_lock k0)) by (unfold k0; cbn; rewrite E3; exact Hl).
  apply wp_timer_lock; [exact Hl0|]. do 2 wp_step. wp_step.
  apply (wp_tick_loop k0 tick (k_daif k0) fuel ps) with (pre := []) (xs := ps); [|reflexivity| |exact Hf].
  - intros k' [_ Hch _ Hln HR' Hlk [Hck _] _]. apply wp_timer_unlock. rewrite app_nil_r, Ht0 in *.
    cbn [t_unlocked set_timer_lock set_board k_clock timers timer_list k_board]. rewrite Hck.
    split; [apply Hck0|]. split; [apply Hck0|]. split; [exact Hd0|]. split; [|split; [exact Hln|exact HR']]. split.
    + unfold lock_free. cbn. by rewrite Hlk.
    + exact Hch.
    + apply NoDup_ListNoDup, List.NoDup_filter. by apply NoDup_ListNoDup.
    + eapply sorted_links; [exact Hln|]. by apply sorted_filter.
  - assert (Hc0 : chain (timers k0) (timer_list k0) ps) by (rewrite Ht0; unfold k0; cbn; by rewrite E2).
    split; [reflexivity|exact Hc0|exact Hc0|apply links_only_refl|exact HR1| |split; [reflexivity|apply Hck0]|reflexivity].
    unfold held. cbn [t_locked set_timer_lock timer_lock lock_next lock_owner]. unfold lock_free in Hl0. by rewrite <- Hl0.
Qed.

(** C32: one tick of the timer interrupt, for a scheduler that returns and leaves the timers and the clock
    alone, and callbacks that do so when they are called with the list unlocked: the counter is reloaded,
    the tick advances by one, and the callbacks of exactly the timers that are due are called, in list order,
    each with the list unlocked.  These timers leave the list; the others stay in order with their data; the
    lock is free and the interrupt mask as before. *)
Theorem timer_tick_correct fuel ps irq k : timers_ok ps k -> R [] (outside k) -> (length ps < fuel)%nat ->
  exists k', timer_irq_handler fuel rust_timer_tick call irq k = Done (tt, k') /\ tick_post ps k k'.
Proof.
  intros Hok HR Hf. destruct (wp_done _ _ _ (wp_timer_irq_handler fuel ps irq k Hok HR Hf)) as ([] & k' & Hrun & Hp). by exists k'.
Qed.
End tick.
End timer_props.

(** ** The theorems at a sample kernel *)

Definition sample_kernel {D} (h : slab) (d : D) (t : gmap Z timer) (head : Z) : kernel D :=
  Kernel (Board (Spaces ∅ ∅ 0 [] (sample_vmem h)) ∅
            SPIN_LOCK_UNLOCKED d 0 0 0 0)
    ∅ SPIN_LOCK_UNLOCKED (Clock 0 62500 1 0 62500000 0) t head SPIN_LOCK_UNLOCKED (PtRegs 0 0 ∅) (Sysregs 0 0 0 0) 0 0.

(** One timer, on the heap. *)
Lemma sample_timer : exists L p (k : kernel unit), timer_inv L [p] k.
Proof.
  destruct sample_object as (L & h & p & z & Hok & Hz).
  exists L, p, (sample_kernel h tt {[p := Timer 5 7 0 0]} p). split; [exact Hok| |].
  - split; [reflexivity| |apply NoDup_singleton|apply StronglySorted_cons; split; constructor].
    cbn. split; [reflexivity|]. split.
    + pose proof (heap_live_pos _ _ _ _ Hok Hz). lia.
    + eexists. split; [apply lookup_singleton_eq|reflexivity].
  - intros q Hq. apply list_elem_of_singleton in Hq. subst q. by exists z.
Qed.

Lemma timer_add_correct_witness : exists L p (k : kernel unit), timer_inv L [p] k /\
  exists r k', timer_add 2 9 0 k = Done (r, k') /\ k_clock k' = k_clock k.
Proof.
  destruct sample_timer as (L & p & k & Hi). exists L, p, k. split; [exact Hi|].
  destruct (timer_add_correct L [p] 2 9 0 k Hi) as (r & k' & Hrun & _ & Hc & _). exists r, k'. split; assumption.
Defined.

Lemma timer_del_correct_witness : exists L p (k : kernel unit), timer_inv L [p] k /\
  exists k', timer_del p k = Done (0, k') /\ timers k' !! p = None.
Proof.
  destruct sample_timer as (L & p & k & Hi). exists L, p, k. split; [exact Hi|].
  destruct (timer_del_correct L [p] p k Hi) as (r & k' & Hrun & _ & Hin & _).
  destruct Hin as (-> & l & l' & _ & _ & Hp & _); [apply list_elem_of_singleton; reflexivity|]. exists k'. split; assumption.
Defined.

(** Callbacks that write their number to the device. *)
Definition trace_call (c : Z) : M (kernel (list Z)) unit :=
  modify (fun k => set_board (set_bd_dev (bd_dev (k_board k) ++ [c]) (k_board k)) k).
Definition sample_timers : gmap Z timer := {[4096 := Timer 1 7 0 8192; 8192 := Timer 9 8 0 0]}.

Lemma sample_timers_ok {D} h (d : D) : timers_ok [4096; 8192] (sample_kernel h d sample_timers 4096).
Proof.
  split; [reflexivity| | |].
  - cbn. split; [reflexivity|]. split; [lia|]. exists (Timer 1 7 0 8192). split; [reflexivity|]. cbn.
    split; [reflexivity|]. split; [lia|]. exists (Timer 9 8 0 0). split; reflexivity.
  - apply NoDup_cons. split; [rewrite list_elem_of_singleton; lia|apply NoDup_singleton].
  - apply StronglySorted_cons. split; [constructor; [|constructor]; vm_compute; congruence|].
    apply StronglySorted_cons. split; constructor.
Qed.

Lemma timer_tick_correct_witness : exists (h : slab) (k' : kernel (list Z)),
  timer_irq_handler 3 (mret tt) trace_call 30 (sample_kernel h [] sample_timers 4096) = Done (tt, k') /\
  timers_ok [8192] k' /\ bd_dev (k_board k') = [7].
Proof.
  destruct sample_object as (_ & h & _). exists h. set (k := sample_kernel h [] sample_timers 4096).
  destruct (timer_tick_correct (fun tr o => o.1.1 = tr) trace_call (mret tt)) with (fuel := 3%nat) (ps := [4096; 8192]) (irq := 30) (k := k)
    as (k' & Hrun & _ & _ & _ & Hl & _ & HR).
  - intros tr c k0 _ Hd. apply wp_modify. split; [repeat split|]. cbn in Hd |- *. by rewrite Hd.
  - intros tr k0 Hd. apply wp_ret. split; [repeat split|exact Hd].
  - apply sample_timers_ok.
  - reflexivity.
  - cbn. lia.
  - exists k'. split; [exact Hrun|]. split; [exact Hl|]. exact HR.
Defined.
