(* ===== verification/Exception.v ===== *)
(** Exception entry ([exception/handler.c], [include/exception.h]).

    [Scheduler] is the interface to the scheduler, the system calls and the signals, which are
    not C code; a call that does not return is one that diverges.  [c_exception_handler_el1] works
    on the saved registers [k_regs], which are at address [regs]. *)
From S2P Require Import Prelude Sync Pmm Machine Slab Vmap Vmalloc Mm Libc Printk Board Uart Gic Irq Timer.

Definition ESR_ELx_EC_SHIFT : Z := 26.
Definition ESR_ELx_EC_MASK : Z := Z.shiftl 0x3F ESR_ELx_EC_SHIFT.
Definition ESR_EC_UNDEF_INSTR : Z := 0x01.
Definition ESR_EC_BRK : Z := 0x3C.
Definition ESR_EC_SVC_AARCH64 : Z := 0x15.
Definition ESR_EC_IABORT : Z := 0x20.
Definition ESR_EC_IABORT_LOW : Z := 0x21.
Definition ESR_EC_DABORT : Z := 0x24.
Definition ESR_EC_DABORT_LOW : Z := 0x25.
Definition ESR_EC_SERROR : Z := 0x2F.

Class Scheduler (K : Type) := {
  rust_check_and_schedule : M K Z;
  rust_handle_syscall : Z -> Z -> Z -> Z -> Z -> M K Z;
  rust_check_signals : M K Z;
  rust_do_exit : M K unit;
  rust_do_exit_if_dead : M K unit;
  (** pid, ppid, pgd and the name (0 for NULL) of the running task *)
  get_current_task_info : M K (Z * Z * Z * Z);
}.

Section exception.
Context {D : Type} `{Mmio D} `{Scheduler (kernel D)} (polls : nat) (lit : String.string -> Z).
Context (rust_vma_find : Z -> Z -> M spaces Z).
Context (rust_send_sigkill_current rust_send_sigsegv_current : M spaces unit).

Definition safe_print_hex (val : Z) : M (kernel D) unit :=
  _ ← say (bytes "0x");
  for_n 16 0 (fun i => say [hex_digit (Z.land (shr64 val (60 - 4 * i)) 0xF)]).

Definition report_task : M (kernel D) unit :=
  '(pid, ppid, pgd, name) ← get_current_task_info;
  _ ← say (bytes "[Exception] Current task: pid=");
  _ ← safe_print_hex pid;
  _ ← say (bytes " ppid=");
  _ ← safe_print_hex ppid;
  _ ← say (bytes " pgd=");
  _ ← safe_print_hex pgd;
  _ ← say (bytes " name=");
  _ ← (if negb (name =? 0) then say_at name else say (bytes "(null)"));
  say [10].

Definition report_sync (esr ec far elr : Z) : M (kernel D) unit :=
  _ ← say (bytes "[Exception] Synchronous exception" ++ [10]);
  _ ← say (bytes "[Exception] ESR=");
  _ ← safe_print_hex esr;
  _ ← say (bytes " EC=");
  _ ← safe_print_hex ec;
  _ ← say (bytes " FAR=");
  _ ← safe_print_hex far;
  _ ← say (bytes " ELR=");
  _ ← safe_print_hex elr;
  _ ← say [10];
  report_task.

Definition reg_x (n : Z) : M (kernel D) Z := gets (fun k => default 0 (pr_x (k_regs k) !! n)).
Definition set_x0 (v : Z) : M (kernel D) unit :=
  modify (fun k => set_regs (PtRegs (pr_elr (k_regs k)) (pr_spsr (k_regs k)) (<[0 := v]> (pr_x (k_regs k)))) k).

(** A terminated process does not go on. *)
Definition exit_on_signal : M (kernel D) unit :=
  pending ← rust_check_signals;
  if negb (pending =? 0) then rust_do_exit else mret tt.

(** [fork] and [execve] get the address of the saved registers. *)
Definition handle_svc (regs : Z) : M (kernel D) unit :=
  syscall_num ← reg_x 8;
  arg0 ← reg_x 0;
  arg1 ← reg_x 1;
  arg2 ← reg_x 2;
  arg3 ← reg_x 3;
  ret ← (if syscall_num =? 220 then rust_handle_syscall syscall_num regs 0 0 0
         else if syscall_num =? 221 then rust_handle_syscall syscall_num arg0 regs arg2 arg3
         else rust_handle_syscall syscall_num arg0 arg1 arg2 arg3);
  _ ← set_x0 ret;
  exit_on_signal.

(** Translation, access-flag and permission faults. *)
Definition is_page_fault (dfsc : Z) : bool := (0x04 <=? dfsc) && (dfsc <=? 0x0F).

Definition handle_fault (esr far : Z) : M (kernel D) unit :=
  _ ← on_kspaces (page_fault_handler rust_vma_find rust_send_sigkill_current rust_send_sigsegv_current far esr far);
  _ ← rust_do_exit_if_dead;
  exit_on_signal.

Definition handle_iabort (esr far : Z) : M (kernel D) unit :=
  let iss := Z.land esr 0x1FFFFFF in
  let dfsc := Z.land iss 0x3F in
  if is_page_fault dfsc then handle_fault esr far
  else
    _ ← say (bytes "[Exception] Instruction abort" ++ [10]);
    _ ← say (bytes "[Exception] DFSC=");
    _ ← safe_print_hex dfsc;
    _ ← say [10];
    say_panic (lit "Instruction abort"%string).

Definition handle_dabort (esr far : Z) : M (kernel D) unit :=
  let iss := Z.land esr 0x1FFFFFF in
  let dfsc := Z.land iss 0x3F in
  if is_page_fault dfsc then handle_fault esr far
  else
    _ ← say (bytes "[Exception] Data abort" ++ [10]);
    say_panic (lit "Data abort"%string).

Definition handle_sync (esr elr far : Z) (regs : Z) : M (kernel D) unit :=
  let ec := shr64 (Z.land esr ESR_ELx_EC_MASK) ESR_ELx_EC_SHIFT in
  _ ← (if negb (ec =? ESR_EC_SVC_AARCH64) then report_sync esr ec far elr else mret tt);
  if ec =? ESR_EC_BRK then say (bytes "[Exception] Breakpoint instruction" ++ [10]) else
  if ec =? ESR_EC_UNDEF_INSTR then
    _ ← say (bytes "[Exception] Undefined instruction" ++ [10]);
    say_panic (lit "Undefined instruction"%string)
  else if ec =? ESR_EC_SVC_AARCH64 then handle_svc regs
  else if (ec =? ESR_EC_IABORT) || (ec =? ESR_EC_IABORT_LOW) then handle_iabort esr far
  else if (ec =? ESR_EC_DABORT) || (ec =? ESR_EC_DABORT_LOW) then handle_dabort esr far
  else if ec =? ESR_EC_SERROR then
    _ ← say (bytes "[Exception] SError" ++ [10]); say_panic (lit "SError"%string)
  else
    _ ← say (bytes "[Exception] Unknown exception" ++ [10]); say_panic (lit "Unknown exception"%string).

(** The interrupt handlers of the C part; those of the other components are [other]. *)
Definition uart_irq_callback (irq : Z) : M (kernel D) unit :=
  ready ← on_board uart_rx_ready;
  if negb ready then mret tt else
  r ← on_board (uart_getc_nonblock true true);
  let '(ok, ch, err) := r in
  if (ok : bool) && bool_decide (err = Some UART_ERR_NONE) then
    match ch with Some c => say [c] | None => undef end
  else
    (* [err] is not initialised when nothing was received *)
    e ← of_option err;
    if negb (e =? UART_ERR_NONE) then on_board uart_clear_error else mret tt.

Definition call_irq (fuel : nat) (rust_timer_tick : M (kernel D) unit) (callback : Z -> M (kernel D) unit)
    (other : Z -> Z -> M (kernel D) unit) (h : irq_handler) (irq : Z) : M (kernel D) unit :=
  match h with
  | TimerIrq => timer_irq_handler fuel rust_timer_tick callback irq
  | UartIrq => uart_irq_callback irq
  | OtherIrq f => other f irq
  end.

Definition c_exception_handler_el1 (call : irq_handler -> Z -> M (kernel D) unit) (ex_type regs : Z) : M (kernel D) unit :=
  r ← gets k_sysregs;
  let esr := esr_el1 r in
  let elr := elr_el1 r in
  let far := far_el1 r in
  if ex_type =? 0 then handle_sync esr elr far regs
  else if ex_type =? 1 then
    _ ← el1_irq_handler call;
    _ ← exit_on_signal;
    switched ← rust_check_and_schedule;
    if negb (switched =? 0) then undef else mret tt
  else if ex_type =? 2 then
    _ ← say_printk (lit "[Exception] FIQ interrupt\n"%string) [];
    say_panic (lit "FIQ interrupt not handled"%string)
  else if ex_type =? 3 then
    _ ← say_printk (lit "[Exception] SError system error\n"%string) [];
    _ ← say_printk (lit "[Exception] ESR: 0x%lx\n"%string) [esr];
    _ ← say_printk (lit "[Exception] FAR: 0x%lx\n"%string) [far];
    say_panic (lit "SError"%string)
  else
    _ ← say_printk (lit "[Exception] Unknown exception type: %lu\n"%string) [ex_type];
    say_panic (lit "Unknown exception type"%string).

(** The early handlers that only report. *)
Definition c_exception_handler_el2 (esr elr spsr : Z) : M (kernel D) unit :=
  _ ← say_printk (lit "[EL2 Exception] ESR=0x%lx, ELR=0x%lx, SPSR=0x%lx\n"%string) [esr; elr; spsr];
  diverge.

Definition el1_sync_handler : M (kernel D) unit :=
  r ← gets k_sysregs;
  let ec := u32 (Z.land (shr64 (esr_el1 r) 26) 0x3F) in
  _ ← say_printk (lit "\n[EL1 Sync Exception]\n"%string) [];
  _ ← say_printk (lit "ESR: %x\n"%string) [esr_el1 r];
  _ ← say_printk (lit "FAR: %x\n"%string) [far_el1 r];
  _ ← (if ec =? 0 then say (bytes "[Error] Undefined Instruction!" ++ [10]) else mret tt);
  diverge.

(** The secure monitor: opening an interrupt to the non-secure world.  [1 << (x1 * 2)] is an [int]
    shift, undefined for a count of 32 or more. *)
Definition smc_gic_enable_irq (x1 : Z) : M (kernel D) unit :=
  _ ← say_printk (lit "[EL3] SMC_GIC_ENABLE_IRQ called, irq=%lu\n"%string) [x1];
  if x1 <? 1024 then
    let idx := x1 / 32 in
    let bit := x1 mod 32 in
    _ ← (if x1 <? 32 then
           nsacr ← on_board (gicd_read 0xE0);
           _ ← guard_ub (x1 * 2 <? 32);
           let nsacr := Z.lor nsacr (bit32 (x1 * 2)) in
           _ ← on_board (gicd_write 0xE0 nsacr);
           say_printk (lit "[EL3] NSACR=0x%x\n"%string) [nsacr]
         else mret tt);
    grp ← on_board (gicd_read (GICD_IGROUPR idx));
    let grp := Z.lor grp (bit32 bit) in
    _ ← on_board (gicd_write (GICD_IGROUPR idx) grp);
    _ ← say_printk (lit "[EL3] IGROUPR[%d]=0x%x\n"%string) [idx; grp];
    _ ← on_board (gicd_write (GICD_ISENABLER idx) (bit32 bit));
    say_printk (lit "[EL3] ISENABLER[%d] bit%d set\n"%string) [idx; bit]
  else mret tt.

Definition c_exception_handler_el3 (x0 x1 : Z) : M (kernel D) unit :=
  let smc_id := Z.land x0 0xFFFF in
  _ ← say_printk (lit "[EL3] SMC Call, ID=0x%x, x1=0x%lx\n"%string) [smc_id; x1];
  if smc_id =? 0x1000 then smc_gic_enable_irq x1
  else say_printk (lit "[EL3] Unknown SMC ID: 0x%x\n"%string) [smc_id].
End exception.
