(* ===== verification/Main.v ===== *)
(** The entry of the kernel ([kernel/main.c]): initialisation in order, the interrupt handlers that are linked,
    the search for the block device and the self-tests that run at boot.

    [main.c] defines [timer_irq_handler] and [uart_irq_callback] as strong symbols; the weak definitions of
    [driver/timer.c] and [exception/handler.c] are not linked.  The linked ones have the suffix [_main] here.
    The functions of the Rust part are arguments.  A local array is a list. *)
From S2P Require Import Prelude Pmm Sync Machine Mmu Slab Vmap Vmalloc Mm Libc Fdt FdtRo Printk Board Uart Gic Irq Timer Exception.

Definition LINEAR_MAP_BASE : Z := 0xFFFF800000000000.
Definition VIRT_BASE : Z := 0xffff800000000000.

Definition set_slab_map (base l0 : Z) (s : machine) : machine :=
  Machine (m_pmm s) (m_ram s) base l0 (linear_map_base s) (l0_table_pa s) (ttbr0_el1 s) (ttbr1_el1 s)
    (mair_el1 s) (tcr_el1 s) (sctlr_el1 s) (tlb_flushes s) (daif s).

(** [s], then [t] between quotation marks. *)
Definition quoted (s t : String.string) : String.string :=
  let q := String.String (Ascii.ascii_of_nat 34) String.EmptyString in String.append s (String.append q (String.append t q)).

(** A loop over a list, with the index. *)
Fixpoint for_each {S A} (i : Z) (l : list A) (body : Z -> A -> M S unit) : M S unit :=
  match l with [] => mret tt | a :: l => _ ← body i a; for_each (i + 1) l body end.
(** [for (i = 0; i < n; i++) array[i] = body;] *)
Fixpoint collect {S A} (n : nat) (i : Z) (body : Z -> M S A) : M S (list A) :=
  match n with O => mret [] | Datatypes.S n => a ← body i; l ← collect n (i + 1) body; mret (a :: l) end.

Definition non_null (l : list Z) : list Z := filter (fun p => p <> 0) l.
(** The first [allocated] entries, as the tests free them: [allocated] counts the entries that are not NULL. *)
Definition counted (l : list Z) : list Z := take (length (non_null l)) l.

Section main.
Context {D : Type} `{Mmio D} (polls : nat) (lit : String.string -> Z).

Definition on_pages {A} (m : M pmm A) : M (kernel D) A := on_board (on_mem (on_machine (on_pmm m))).
Definition on_khp {A} (m : M slab A) : M (kernel D) A := on_kspaces (on_kheap m).
Definition note (fmt : String.string) (args : list Z) : M (kernel D) unit := say_printk (lit fmt) args.
#[local] Arguments note fmt%_string_scope args.

Definition print_mem_usage : M (kernel D) unit :=
  s ← gets (fun k => m_pmm (bd_cpu (k_board k)));
  _ ← note "Buddy 内存使用情况: 已使用 %u 页, 空闲 %u 页, 占用率 %u%%\n" [buddy_nr_used_pages_total s; buddy_nr_free_pages_total s; buddy_mem_usage_percent s];
  note "总物理内存使用情况: 总页数 %u, 已使用 %u 页, 占用率 %u%%\n" [u32 total_phys_pages; u32 (total_used_pages s); total_mem_usage_percent s].

(** ** The linked interrupt handlers *)

Definition timer_irq_handler_main (rust_check_sleepers rust_timer_tick : M (kernel D) unit) (irq : Z) : M (kernel D) unit :=
  freq ← gets (fun k => cntfrq (k_clock k));
  let load_val := freq / 1000 in
  _ ← cntp_set_tval load_val;
  _ ← upd_clock (fun c => Clock (add64 (system_tick c) 1) (timer_load_val c) (cntp_ctl c) (cntp_tval c) (cntfrq c) (cntpct c));
  _ ← rust_check_sleepers;
  rust_timer_tick.

(** The loop over the received characters; its result is [err], which is not initialised before the first read. *)
Definition drain_uart (fuel : nat) (rust_tty_input_char : Z -> M (kernel D) unit) : M (kernel D) (option Z) :=
  loop fuel (fun err : option Z =>
    '(ok, ch, e) ← on_board (uart_getc_nonblock true true);
    let err := match e with Some _ => e | None => err end in
    if (ok : bool) && bool_decide (err = Some UART_ERR_NONE) then
      c ← of_option ch;
      _ ← rust_tty_input_char (u8 c);
      mret (inl err)
    else mret (inr err)) None.

Definition uart_irq_callback_main (fuel : nat) (rust_tty_input_char : Z -> M (kernel D) unit) (irq : Z) : M (kernel D) unit :=
  n ← gets uart_irq_cnt;
  _ ← guard_ub (n + 1 <? 2 ^ 31);
  _ ← modify (set_uart_irq_cnt (n + 1));
  ready ← on_board uart_rx_ready;
  if negb ready then mret tt else
  err ← drain_uart fuel rust_tty_input_char;
  e ← of_option err;
  if negb (e =? UART_ERR_NONE) then on_board uart_clear_error else mret tt.

(** The handlers the kernel registers. *)
Definition call_irq_main (fuel : nat) (rust_check_sleepers rust_timer_tick : M (kernel D) unit)
    (rust_tty_input_char : Z -> M (kernel D) unit) (other : Z -> Z -> M (kernel D) unit) (h : irq_handler) (irq : Z) : M (kernel D) unit :=
  match h with
  | TimerIrq => timer_irq_handler_main rust_check_sleepers rust_timer_tick irq
  | UartIrq => uart_irq_callback_main fuel rust_tty_input_char irq
  | OtherIrq f => other f irq
  end.

(** ** Memory *)

(** The start of [main]: the tables of the boot code and the image end are the linker's. *)
Definition main_memory (kernel_end ttbr0_l0 ttbr1_l0 dtb : Z) : M (kernel D) unit :=
  _ ← modify (set_ttbr0_pa ttbr0_l0);
  _ ← on_kspaces (on_cpu (modify (set_slab_map LINEAR_MAP_BASE ttbr1_l0)));
  _ ← on_pages (buddy_init kernel_end);
  _ ← on_khp slab_init;
  _ ← on_board (modify (set_dtb_base dtb));
  on_kspaces (on_kmem (on_va va_manager_init)).

(** ** The device tree *)

(** [for (i = 0; i < len; i += k) if (i + k <= len) body], on an [int]. *)
Definition every (k len : Z) (body : Z -> M (kernel D) unit) : M (kernel D) unit :=
  loop2 32 (fun i =>
    if i <? len then
      _ ← guard_ub (i + k <=? INT_MAX);
      _ ← (if i + k <=? len then body i else mret tt);
      mret (inl (i + k))
    else mret (inr tt)) 0.
Definition cell (p : Z) : M (kernel D) Z := on_board (on_bytes (fdt32_ld p)).
Definition is_name (name : Z) (l : String.string) : M (kernel D) bool := r ← on_board (on_bytes (strcmp name (lit l))); mret (r =? 0).
#[local] Arguments is_name name l%_string_scope.

Definition print_reg (prop_value i : Z) : M (kernel D) unit :=
  addr_hi ← cell (prop_value + i);
  addr_lo ← cell (prop_value + i + 4);
  size_hi ← cell (prop_value + i + 8);
  size_lo ← cell (prop_value + i + 12);
  note "0x%lx (0x%lx) " [Z.lor (Z.shiftl addr_hi 32) addr_lo; Z.lor (Z.shiftl size_hi 32) size_lo].

(** The value of one property, by its name and length. *)
Definition print_property (fdt node_offset prop_name prop_len prop_value : Z) : M (kernel D) unit :=
  compatible ← is_name prop_name "compatible";
  if compatible : bool then
    count ← on_board (on_bytes (fdt_stringlist_count fdt node_offset (lit "compatible"%string)));
    for_n (Z.to_nat count) 0 (fun i =>
      '(compatible, _) ← on_board (on_bytes (fdt_stringlist_get fdt node_offset (lit "compatible"%string) i));
      if negb (compatible =? 0) then note "[FDT TEST]       Compatible: %s\n" [compatible] else mret tt)
  else
  reg ← is_name prop_name "reg";
  if reg : bool then
    _ ← note "[FDT TEST]       Reg: " [];
    _ ← every 16 prop_len (print_reg prop_value);
    note "\n" []
  else
  interrupts ← is_name prop_name "interrupts";
  if interrupts : bool then
    _ ← note "[FDT TEST]       Interrupts: " [];
    _ ← every 4 prop_len (fun i => irq ← cell (prop_value + i); note "%d " [irq]);
    note "\n" []
  else
  status ← is_name prop_name "status";
  if status : bool then
    if prop_len >? 0 then
      _ ← note "[FDT TEST]       Status: " [];
      _ ← every 1 prop_len (fun i => c ← on_board (on_bytes (ldb (prop_value + i))); on_board (uart_putc polls c));
      note "\n" []
    else mret tt
  else
  clocks ← is_name prop_name "clocks";
  if clocks : bool then
    _ ← note "[FDT TEST]       Clocks: " [];
    _ ← every 4 prop_len (fun i => clock ← cell (prop_value + i); note "0x%x " [clock]);
    note "\n" []
  else if prop_len =? 4 then
    value ← cell prop_value; note "[FDT TEST]       Value: %d (0x%x)\n" [value; value]
  else if prop_len =? 8 then
    value ← on_board (on_bytes (fdt64_ld prop_value)); note "[FDT TEST]       Value: %llu (0x%lx)\n" [value; value]
  else
  ends ← (if prop_len >? 0 then c ← on_board (on_bytes (ldb (prop_value + prop_len - 1))); mret (c =? 0) else mret false);
  if ends : bool then say_printk (lit (String.append (quoted "[FDT TEST]       Value: " "%s") "\n")%string) [prop_value]
  else
    _ ← note "[FDT TEST]       Raw bytes: " [];
    _ ← for_n (Z.to_nat (Z.min prop_len 16)) 0 (fun i =>
          byte ← on_board (on_bytes (ldb (prop_value + i))); note "%02x " [byte]);
    _ ← (if prop_len >? 16 then note "... (truncated)" [] else mret tt);
    note "\n" [].

Definition parse_node_properties (fdt node_offset : Z) : M (kernel D) unit :=
  '(name, _) ← on_board (on_bytes (fdt_get_name fdt node_offset));
  if name =? 0 then mret tt else
  _ ← note "[FDT TEST]   Node: %s\n" [name];
  prop_offset ← on_board (on_bytes (fdt_first_property_offset fdt node_offset));
  loop2 32 (fun prop_offset =>
    if prop_offset <? 0 then mret (inr tt) else
    prop ← on_board (on_bytes (fdt_offset_ptr fdt prop_offset 12));
    if prop =? 0 then mret (inr tt) else
    nameoff ← cell (prop + 8);
    prop_name ← on_board (on_bytes (fdt_string fdt (s32 nameoff)));
    len ← cell (prop + 4);
    let prop_len := s32 len in
    _ ← note "[FDT TEST]     Property: %s (length: %d)\n" [prop_name; prop_len];
    _ ← print_property fdt node_offset prop_name prop_len (prop + 12);
    next ← on_board (on_bytes (fdt_next_property_offset fdt prop_offset));
    mret (inl next)) prop_offset.

(** The address of the tree, from the pointer the boot loader passed. *)
Definition dtb_address : M (kernel D) Z :=
  dtb ← gets (fun k => dtb_base (k_board k));
  mret (if dtb =? 0 then 0x40000000 else dtb).

(** Every node with the string [virtio,mmio]; the body returns a result or nothing ([continue]). *)
Definition each_virtio {A B} (fdt : Z) (body : Z -> A -> M (kernel D) (A + B)) (a : A) : M (kernel D) (A + B) :=
  loop2 32 (fun st : Z * A =>
    vnode ← on_board (on_bytes (fdt_node_offset_by_compatible lit fdt st.1 (lit "virtio,mmio"%string)));
    if vnode <? 0 then mret (inr (inl st.2)) else
    r ← body vnode st.2;
    mret (match r with inl a => inl (vnode, a) | inr b => inr (inr b) end)) (-1, a).

(** The registers of the node, mapped: the physical and the virtual base. *)
Definition map_virtio (fdt vnode : Z) : M (kernel D) (option (Z * Z)) :=
  '(reg, len) ← on_board (on_bytes (fdt_getprop fdt vnode (lit "reg"%string)));
  if (reg =? 0) || (len <? 8) then mret None else
  base ← on_board (on_bytes (fdt64_ld reg));
  vm ← on_board (on_mem (ioremap base 0x200));
  mret (if vm =? 0 then None else Some (base, vm)).

Definition test_fdt : M (kernel D) unit :=
  _ ← note "\n[FDT TEST] Starting FDT test...\n" [];
  dtb ← gets (fun k => dtb_base (k_board k));
  _ ← (if dtb =? 0 then note "[FDT TEST] DTB address is 0 (bare-metal boot), using default address (0x40000000)\n" [] else mret tt);
  dtb_phys ← dtb_address;
  let fdt := add64 VIRT_BASE dtb_phys in
  _ ← note "[FDT TEST] DTB physical address: %lx\n" [dtb_phys];
  _ ← note "[FDT TEST] DTB virtual address: %lx\n" [fdt];
  ret ← on_board (on_bytes (fdt_check_header fdt));
  if negb (ret =? 0) then note "[FDT TEST] ERROR: Invalid FDT header: %d\n" [ret] else
  _ ← note "[FDT TEST] FDT header is valid\n" [];
  root_offset ← on_board (on_bytes (fdt_path_offset lit fdt (lit "/"%string)));
  if root_offset <? 0 then note "[FDT TEST] ERROR: Failed to find root node: %d\n" [root_offset] else
  _ ← note "[FDT TEST] Root node found at offset: %d\n" [root_offset];
  _ ← note "[FDT TEST] Root node properties:\n" [];
  _ ← parse_node_properties fdt root_offset;
  _ ← note "[FDT TEST] Child nodes:\n" [];
  first ← on_board (on_bytes (fdt_first_subnode fdt root_offset));
  _ ← loop2 32 (fun node_offset =>
        if node_offset <? 0 then mret (inr tt) else
        _ ← parse_node_properties fdt node_offset;
        next ← on_board (on_bytes (fdt_next_subnode fdt node_offset));
        mret (inl next)) first;
  _ ← note "[FDT TEST] FDT test completed!\n" [];
  _ ← each_virtio fdt (fun vnode _ =>
        mapped ← map_virtio fdt vnode;
        match mapped with
        | None => mret (inl tt)
        | Some (base, vm) =>
            magic ← on_board (io_read32 vm);
            ver ← on_board (io_read32 (add64 vm 4));
            devid ← on_board (io_read32 (add64 vm 8));
            let slot := u32 (sub64 base 0xa000000 / 0x200) in
            _ ← note "[VIRTIO]   slot%02d: magic=0x%x ver=%d id=%d\n" [slot; magic; ver; devid];
            _ ← on_board (on_mem (iounmap vm));
            mret (inl tt : unit + unit)
        end) tt;
  mret tt.

(** The interrupt number of the first virtio block device (0: none) and the address of its registers. *)
Definition rust_find_virtio_blk : M (kernel D) (Z * option Z) :=
  dtb_phys ← dtb_address;
  let fdt := add64 VIRT_BASE dtb_phys in
  ret ← on_board (on_bytes (fdt_check_header fdt));
  if negb (ret =? 0) then mret (0, None) else
  r ← each_virtio fdt (fun vnode count =>
    let count := count + 1 in
    mapped ← map_virtio fdt vnode;
    match mapped with
    | None => mret (inl count)
    | Some (base, vm) =>
        devid ← on_board (io_read32 (add64 vm 8));
        _ ← on_board (on_mem (iounmap vm));
        if negb (devid =? 2) then
          _ ← note "[FDT] skip virtio @ %llx, devid=%d\n" [base; devid]; mret (inl count)
        else
          '(irq, len) ← on_board (on_bytes (fdt_getprop fdt vnode (lit "interrupts"%string)));
          if (irq =? 0) || (len <? 12) then mret (inr (0, None)) else
          irq_type ← cell irq;
          irq_num ← cell (irq + 4);
          _ ← note "[FDT] found virtio-blk @ %llx, irq_type=%d irq_num=%d (count=%d)\n" [base; irq_type; irq_num; count];
          mret (inr (if irq_type =? 1 then u32 (16 + irq_num) else u32 (32 + irq_num), Some base))
    end) 0;
  match r with
  | inr res => mret res
  | inl count => _ ← note "[FDT] virtio-blk not found, scanned %d nodes\n" [count]; mret (0, None)
  end.

(** ** The self-tests *)

Definition free_counted (order : Z) (l : list Z) : M (kernel D) unit :=
  for_each 0 (counted l) (fun _ pa => if negb (pa =? 0) then on_pages (free_phys_pages pa order) else mret tt).

Definition test_orders : M (kernel D) unit :=
  _ ← note "[BUDDY TEST] Test 1: Allocate different orders\n" [];
  orders ← collect 11 0 (fun i =>
    pa ← on_pages (alloc_phys_pages i GFP_KERNEL);
    _ ← print_mem_usage;
    _ ← (if negb (pa =? 0) then note "[BUDDY TEST]  Order %d: allocated at %p\n" [i; pa]
         else note "[BUDDY TEST]  Order %d: allocation failed\n" [i]);
    mret pa);
  _ ← for_each 0 orders (fun i pa => if negb (pa =? 0) then on_pages (free_phys_pages pa i) else mret tt);
  print_mem_usage.

Definition test_many_pages : M (kernel D) unit :=
  _ ← note "\n[BUDDY TEST] Test 2: Allocate 1000 pages (order 0)\n" [];
  _ ← print_mem_usage;
  pages ← collect 1000 0 (fun i =>
    pa ← on_pages (alloc_phys_pages 0 GFP_KERNEL);
    _ ← (if negb (pa =? 0) && ((i + 1) mod 100 =? 0) then
           _ ← note "[BUDDY TEST]  Allocated %d/1000 pages...\n" [i + 1]; print_mem_usage
         else mret tt);
    mret pa);
  _ ← note "[BUDDY TEST]  Successfully allocated %d pages\n" [Z.of_nat (length (non_null pages))];
  _ ← print_mem_usage;
  _ ← note "\n[BUDDY TEST] Test 3: Verify address range (0x40200000-0x4fffffff)\n" [];
  _ ← for_each 0 (counted pages) (fun _ pa =>
        if (pa <? 0x40200000) || (pa >? 0x4fffffff) then note "[BUDDY TEST]  ERROR: Page at %p is out of range!\n" [pa] else mret tt);
  _ ← note "[BUDDY TEST]  All pages are within valid range\n" [];
  _ ← free_counted 0 pages;
  print_mem_usage.

Definition test_cycles : M (kernel D) unit :=
  _ ← note "\n[BUDDY TEST] Test 4: Allocate/free cycle test\n" [];
  _ ← print_mem_usage;
  _ ← for_n 100 0 (fun cycle =>
        _ ← (if (cycle + 1) mod 20 =? 0 then
               _ ← note "[BUDDY TEST]  Cycle %d/%d...\n" [cycle + 1; 100]; print_mem_usage
             else mret tt);
        let order := cycle mod 5 in
        page ← on_pages (alloc_phys_pages order GFP_KERNEL);
        if negb (page =? 0) then on_pages (free_phys_pages page order) else mret tt);
  print_mem_usage.

(** Blocks of 4 MiB until one is refused, the last one first; the loop stops with [break]. *)
Definition test_large_blocks : M (kernel D) unit :=
  _ ← note "\n[BUDDY TEST] Test 5: Allocate 30 order10 blocks (4MB each)\n" [];
  _ ← print_mem_usage;
  blocks ← loop 31 (fun blocks : list Z =>
    let i := Z.of_nat (length blocks) in
    if i <? 30 then
      pa ← on_pages (alloc_phys_pages 10 GFP_KERNEL);
      if negb (pa =? 0) then
        _ ← note "[BUDDY TEST]  Order10 %d allocated at %p\n" [i + 1; pa];
        _ ← (if (i + 1) mod 5 =? 0 then print_mem_usage else mret tt);
        mret (inl (blocks ++ [pa]))
      else
        _ ← note "[BUDDY TEST]  Order10 %d allocation failed\n" [i + 1];
        mret (inr blocks)
    else mret (inr blocks)) [];
  _ ← note "[BUDDY TEST]  Successfully allocated %d/30 order10 blocks\n" [Z.of_nat (length blocks)];
  _ ← print_mem_usage;
  _ ← for_each 0 blocks (fun _ pa => on_pages (free_phys_pages pa 10));
  _ ← note "[BUDDY TEST]  All order10 blocks freed\n" [];
  print_mem_usage.

Definition test_buddy_system : M (kernel D) unit :=
  _ ← note "\n[BUDDY TEST] Starting comprehensive buddy system test...\n" [];
  _ ← test_orders;
  _ ← test_many_pages;
  _ ← test_cycles;
  _ ← test_large_blocks;
  _ ← note "\n[BUDDY TEST] Test 6: Boundary cases\n" [];
  _ ← print_mem_usage;
  big_page ← on_pages (alloc_phys_pages 20 GFP_KERNEL);
  _ ← (if big_page =? 0 then note "[BUDDY TEST]  Expected failure: order 20 allocation failed\n" [] else mret tt);
  _ ← print_mem_usage;
  _ ← on_pages (free_phys_pages 0 0);
  _ ← note "[BUDDY TEST]  NULL pointer free handled correctly\n" [];
  _ ← print_mem_usage;
  note "\n[BUDDY TEST] All tests completed!\n" [].

(** Stores to kernel memory: through the linear map, a byte at a time for the narrow ones. *)
Definition st8 (va v : Z) : M machine unit :=
  pa ← virt_to_phys va;
  let word := pa - pa mod 8 in
  _ ← guard_ub (ram_ok word);
  modify (fun s => set_ram (<[word := set_byte (ram_at s word) (pa mod 8) v]> (m_ram s)) s).
Definition st32 (store : Z -> Z -> M machine unit) (va v : Z) : M machine unit :=
  for_n 4 0 (fun i => store (add64 va i) (u8 (Z.shiftr v (8 * i)))).
Definition fill_bytes (store : Z -> Z -> M machine unit) (va c n : Z) : M machine unit :=
  for_n (Z.to_nat n) 0 (fun i => store (add64 va i) c).
Definition on_kcpu {A} (m : M machine A) : M (kernel D) A := on_board (on_mem (on_machine m)).
Definition unless_null (p : Z) (m : M (kernel D) unit) : M (kernel D) unit := if negb (p =? 0) then m else mret tt.

Definition kmalloc_noted (size : Z) (fmt : String.string) : M (kernel D) Z :=
  p ← on_khp (kmalloc size GFP_KERNEL); _ ← note fmt [p]; _ ← print_mem_usage; mret p.

Definition test_various_sizes : M (kernel D) unit :=
  _ ← note "[KMALLOC TEST] Test 1: Allocate various sizes\n" [];
  _ ← print_mem_usage;
  ptr1 ← kmalloc_noted 8 "[KMALLOC TEST]  8 bytes: %p\n"%string;
  ptr2 ← kmalloc_noted 64 "[KMALLOC TEST]  64 bytes: %p\n"%string;
  ptr3 ← kmalloc_noted 512 "[KMALLOC TEST]  512 bytes: %p\n"%string;
  ptr4 ← kmalloc_noted 1024 "[KMALLOC TEST]  1024 bytes: %p\n"%string;
  ptr5 ← kmalloc_noted 4096 "[KMALLOC TEST]  4096 bytes: %p\n"%string;
  ptr6 ← kmalloc_noted 8192 "[KMALLOC TEST]  8192 bytes: %p\n"%string;
  ptr7 ← kmalloc_noted 65536 "[KMALLOC TEST]  65536 bytes: %p\n"%string;
  _ ← note "\n[KMALLOC TEST] Test 2: Write and verify data\n" [];
  _ ← unless_null ptr1 (
        _ ← on_kcpu (st64 ptr1 0x123456789ABCDEF0);
        v ← on_kcpu (ld64 ptr1);
        note "[KMALLOC TEST]  8 bytes: written 0x123456789ABCDEF0, read %lx\n" [v]);
  _ ← unless_null ptr2 (
        _ ← on_kcpu (fill_bytes st8 ptr2 0xAA 64); note "[KMALLOC TEST]  64 bytes: written 0xAA pattern\n" []);
  _ ← unless_null ptr3 (
        _ ← for_n 128 0 (fun i => on_kcpu (st32 st8 (add64 ptr3 (4 * i)) i));
        note "[KMALLOC TEST]  512 bytes: written sequential data\n" []);
  _ ← note "\n[KMALLOC TEST] Test 3: Free allocated memory\n" [];
  _ ← print_mem_usage;
  _ ← for_each 0 [ptr1; ptr2; ptr3; ptr4; ptr5; ptr6; ptr7] (fun _ p => unless_null p (on_khp (kfree p)));
  _ ← note "[KMALLOC TEST]  All allocations freed\n" [];
  print_mem_usage.

Definition test_small_blocks : M (kernel D) unit :=
  _ ← note "\n[KMALLOC TEST] Test 4: Allocate 1000 small blocks (64 bytes each)\n" [];
  _ ← print_mem_usage;
  small_ptrs ← collect 1000 0 (fun i =>
    p ← on_khp (kmalloc 64 GFP_KERNEL);
    _ ← (if negb (p =? 0) && ((i + 1) mod 200 =? 0) then
           _ ← note "[KMALLOC TEST]  Allocated %d/1000 blocks...\n" [i + 1]; print_mem_usage
         else mret tt);
    mret p);
  _ ← note "[KMALLOC TEST]  Successfully allocated %d/1000 blocks\n" [Z.of_nat (length (non_null small_ptrs))];
  _ ← print_mem_usage;
  _ ← for_each 0 (counted small_ptrs) (fun _ p => unless_null p (on_khp (kfree p)));
  _ ← note "[KMALLOC TEST]  All small blocks freed\n" [];
  print_mem_usage.

Definition test_slab_pages : M (kernel D) unit :=
  _ ← note "\n[KMALLOC TEST] Test 6: Allocate 512 * 8B then 256 * 16B\n" [];
  _ ← print_mem_usage;
  _ ← note "[KMALLOC TEST]  --- 512 * 8B ---\n" [];
  a8 ← collect 512 0 (fun i =>
    p ← on_khp (kmalloc 8 GFP_KERNEL);
    _ ← unless_null p (on_kcpu (st64 p i));
    _ ← (if (i =? 0) || (i =? 511) then _ ← note "[KMALLOC TEST]   8B alloc'd %d/512\n" [i + 1]; print_mem_usage else mret tt);
    mret p);
  _ ← note "[KMALLOC TEST]  --- 256 * 16B ---\n" [];
  a16 ← collect 256 0 (fun i =>
    p ← on_khp (kmalloc 16 GFP_KERNEL);
    _ ← unless_null p (_ ← on_kcpu (st64 p i); on_kcpu (st64 (add64 p 8) (i + 1)));
    _ ← (if (i =? 0) || (i =? 255) then _ ← note "[KMALLOC TEST]   16B alloc'd %d/256\n" [i + 1]; print_mem_usage else mret tt);
    mret p);
  _ ← note "[KMALLOC TEST]  Free all\n" [];
  _ ← for_each 0 a8 (fun _ p => unless_null p (on_khp (kfree p)));
  _ ← for_each 0 a16 (fun _ p => unless_null p (on_khp (kfree p)));
  print_mem_usage.

Definition test_stress : M (kernel D) unit :=
  _ ← note "\n[KMALLOC TEST] Test 7: Multi-slab-page stress\n" [];
  ptrs ← collect 200 0 (fun i =>
    p ← on_khp (kmalloc 256 GFP_KERNEL);
    _ ← unless_null p (_ ← on_kcpu (fill_bytes st8 p (Z.land i 0xFF) 256); on_kcpu (st32 st8 p i));
    mret p);
  _ ← note "[KMALLOC TEST]  allocated %d/200 blocks of 256B\n" [Z.of_nat (length (non_null ptrs))];
  _ ← for_each 0 ptrs (fun _ p => unless_null p (on_khp (kfree p)));
  _ ← note "[KMALLOC TEST]  all freed\n" [];
  print_mem_usage.

Definition test_kmalloc : M (kernel D) unit :=
  _ ← note "\n[KMALLOC TEST] Starting kmalloc test...\n" [];
  _ ← test_various_sizes;
  _ ← test_small_blocks;
  _ ← note "\n[KMALLOC TEST] Test 5: Boundary cases\n" [];
  zero_ptr ← on_khp (kmalloc 0 GFP_KERNEL);
  _ ← (if zero_ptr =? 0 then note "[KMALLOC TEST]  Expected failure: kmalloc(0) returned NULL\n" [] else mret tt);
  _ ← test_slab_pages;
  _ ← test_stress;
  _ ← on_khp (kfree 0);
  _ ← note "[KMALLOC TEST]  NULL pointer free handled correctly\n" [];
  note "\n[KMALLOC TEST] All tests completed!\n" [].

Definition on_vm {A} (m : M vmem A) : M (kernel D) A := on_board (on_mem m).
Definition vfree (addr : Z) : M (kernel D) unit :=
  known ← on_vm (vfree_known addr);
  if known : bool then mret tt else note "[VMALLOC] vfree: Invalid address %p\n" [addr].
Definition vmalloc_noted (size : Z) (fmt : String.string) : M (kernel D) Z :=
  p ← on_vm (vmalloc size); _ ← note fmt [p]; _ ← print_mem_usage; mret p.

Definition test_vmap_sizes : M (kernel D) unit :=
  _ ← note "[VMAP TEST] Test 1: Allocate various sizes\n" [];
  _ ← print_mem_usage;
  ptr1 ← vmalloc_noted 8192 "[VMAP TEST]  8KB: %p\n"%string;
  ptr2 ← vmalloc_noted 16384 "[VMAP TEST]  16KB: %p\n"%string;
  ptr3 ← vmalloc_noted 32768 "[VMAP TEST]  32KB: %p\n"%string;
  ptr4 ← vmalloc_noted 65536 "[VMAP TEST]  64KB: %p\n"%string;
  ptr5 ← vmalloc_noted 131072 "[VMAP TEST]  128KB: %p\n"%string;
  _ ← note "\n[VMAP TEST] Test 2: Write and verify data\n" [];
  _ ← unless_null ptr1 (
        _ ← on_kcpu (fill_bytes st8_mapped ptr1 0xAB 8192); note "[VMAP TEST]  8KB: written 0xAB pattern\n" []);
  _ ← unless_null ptr2 (
        _ ← for_n 4096 0 (fun i => on_kcpu (st32 st8_mapped (add64 ptr2 (4 * i)) i));
        note "[VMAP TEST]  16KB: written sequential data\n" []);
  _ ← note "\n[VMAP TEST] Test 3: Free allocated memory (test merge)\n" [];
  _ ← print_mem_usage;
  _ ← for_each 0 [ptr1; ptr2; ptr3; ptr4; ptr5] (fun _ p => unless_null p (vfree p));
  _ ← note "[VMAP TEST]  All allocations freed\n" [];
  print_mem_usage.

Definition test_vmap_blocks : M (kernel D) unit :=
  _ ← note "\n[VMAP TEST] Test 4: Allocate 50 small blocks (8KB each)\n" [];
  _ ← print_mem_usage;
  small_ptrs ← collect 50 0 (fun i =>
    p ← on_vm (vmalloc 8192);
    _ ← (if negb (p =? 0) && ((i + 1) mod 10 =? 0) then
           _ ← note "[VMAP TEST]  Allocated %d/50 blocks...\n" [i + 1]; print_mem_usage
         else mret tt);
    mret p);
  _ ← note "[VMAP TEST]  Successfully allocated %d/50 blocks\n" [Z.of_nat (length (non_null small_ptrs))];
  _ ← print_mem_usage;
  _ ← note "[VMAP TEST]  Freeing small blocks (test merge)...\n" [];
  _ ← for_each 0 (counted small_ptrs) (fun _ p => unless_null p (vfree p));
  _ ← note "[VMAP TEST]  All small blocks freed\n" [];
  print_mem_usage.

(** The blocks with an odd index are freed first. *)
Definition test_vmap : M (kernel D) unit :=
  _ ← note "\n[VMAP TEST] Starting vmap test...\n" [];
  _ ← test_vmap_sizes;
  _ ← test_vmap_blocks;
  _ ← note "\n[VMAP TEST] Test 5: Alternate allocate and free (test merge)\n" [];
  alt_ptrs ← collect 10 0 (fun i =>
    p ← on_vm (vmalloc 4096);
    _ ← unless_null p (note "[VMAP TEST]  Allocated block %d: %p\n" [i; p]);
    mret p);
  let free_block (i p : Z) := unless_null p (_ ← note "[VMAP TEST]  Freeing block %d: %p\n" [i; p]; vfree p) in
  _ ← for_each 0 alt_ptrs (fun i p => if Z.odd i then free_block i p else mret tt);
  _ ← for_each 0 alt_ptrs (fun i p => if Z.even i then free_block i p else mret tt);
  _ ← note "[VMAP TEST]  All alternate blocks freed\n" [];
  note "\n[VMAP TEST] All tests completed!\n" [].

Definition puts (s : String.string) : M (kernel D) unit := on_board (uart_puts polls (lit s)).
#[local] Arguments puts s%_string_scope.
Definition enable_irq : M (kernel D) unit :=
  modify (fun k => set_board (set_bd_daif (Z.land (k_daif k) (not64 DAIF_I)) (k_board k)) k).

Definition gic_test : M (kernel D) unit :=
  _ ← puts "OS Boot Success!\n";
  _ ← puts "[Init] Exception Vector Table Done\n";
  _ ← on_board gic_init;
  _ ← puts "[Init] GICv2 Done\n";
  _ ← irq_register IRQ_UART0 (Some UartIrq) (lit "UART0"%string);
  _ ← enable_irq;
  puts "[Init] Global IRQ Enabled\n".

Definition uart_test : M (kernel D) unit :=
  _ ← on_board (uart_init lit);
  _ ← puts "=== PL011 UART Driver Test (QEMU virt ARM) ===\n";
  _ ← puts "Input a character (echo mode): ";
  '(c, err) ← on_board (uart_getc polls true);
  err ← of_option err;
  _ ← (if negb (err =? UART_ERR_NONE) then
         _ ← puts "\nReceive error: "; on_board (uart_putc polls (u8 (48 + err)))
       else _ ← puts "\nYou input: "; on_board (uart_putc polls c));
  _ ← puts "\nDriver test done!\n";
  _ ← note "=== MyOS ARM64 Boot Successful ===\n" [];
  _ ← note "UART initialized\n" [];
  note "Test: %s, %d, %x, %c\n" [lit "Hello Kernel"%string; 1234; 0x42; 88].

(** ** [main]

    The branch on [TEST_IRQ], which is 0, is not there. *)

Definition banner (dtb : Z) : M (kernel D) unit :=
  base ← gets (fun k => slab_linear_map_base (bd_cpu (k_board k)));
  l0 ← gets (fun k => slab_l0_table_pa (bd_cpu (k_board k)));
  _ ← note "[SLAB] Linear map base: %lx\n" [base];
  _ ← note "[SLAB] L0 table PA: %lx\n" [l0];
  _ ← note "\n" [];
  _ ← note "===============================================\n" [];
  _ ← note "           MyOS ARM64 Kernel Boot              \n" [];
  _ ← note "===============================================\n" [];
  _ ← note "Version: 1.0.0\n" [];
  _ ← note "Architecture: ARM64\n" [];
  _ ← note "Memory: 256MB (0x40200000-0x4fffffff)\n" [];
  _ ← note "DTB Address: %p (physical)\n" [dtb];
  _ ← note "===============================================\n" [];
  note "\n" [].

Definition main (kernel_end ttbr0_l0 ttbr1_l0 : Z) (rust_main : M (kernel D) unit) (dtb : Z) : M (kernel D) unit :=
  _ ← main_memory kernel_end ttbr0_l0 ttbr1_l0 dtb;
  _ ← on_board (uart_init lit);
  _ ← print_mem_usage;
  _ ← note "[PMM] Pages freed\n" [];
  _ ← banner dtb;
  _ ← test_fdt;
  _ ← on_board gic_init;
  _ ← timer_init lit;
  _ ← irq_register IRQ_UART0 (Some UartIrq) (lit "UART0"%string);
  _ ← test_buddy_system;
  _ ← print_mem_usage;
  _ ← print_mem_usage;
  _ ← print_mem_usage;
  _ ← test_kmalloc;
  _ ← print_mem_usage;
  _ ← test_vmap;
  _ ← print_mem_usage;
  _ ← rust_main;
  _ ← uart_test;
  gic_test.
End main.
