(* ===== verification/Boot.v ===== *)
(** The first page tables ([arch/arm64/boot/bootc.c], [arch/arm64/include/bootc.h]), built before
    the MMU is on.

    The tables are static arrays of the section [.pagetable]; their physical addresses are chosen
    by the linker, so they are arguments.  An entry is named by table and index, and an access
    outside an array is undefined. *)
From S2P Require Import Prelude.

Definition TOTAL_MEM_SIZE : Z := 256 * 1024 * 1024.
Definition PHYS_BASE : Z := 0x40000000.
Definition KERNEL_VIRT_BASE : Z := 0xFFFF800000000000.
Definition TABLE_SIZE : Z := 512.
Definition L3_TABLE_MAP_SIZE : Z := TABLE_SIZE * 4096.
Definition DIV_ROUND_UP (n d : Z) : Z := (n + d - 1) / d.
Definition L0_INDEX_BASE : Z := Z.land (shr64 (KERNEL_VIRT_BASE + PHYS_BASE) 39) 0x1FF.
Definition L1_INDEX_BASE : Z := Z.land (shr64 (KERNEL_VIRT_BASE + PHYS_BASE) 30) 0x1FF.
Definition L2_INDEX_BASE : Z := Z.land (shr64 (KERNEL_VIRT_BASE + PHYS_BASE) 21) 0x1FF.
Definition L3_INDEX_BASE : Z := Z.land (shr64 (KERNEL_VIRT_BASE + PHYS_BASE) 12) 0x1FF.
Definition UART_PAGE_NEEDED : Z := 1.
Definition L3_TABLES_NEEDED : Z :=
  DIV_ROUND_UP (TOTAL_MEM_SIZE + L3_INDEX_BASE * 4096 + UART_PAGE_NEEDED * 4096) L3_TABLE_MAP_SIZE.
Definition L2_TABLES_NEEDED : Z := DIV_ROUND_UP (L3_TABLES_NEEDED + L2_INDEX_BASE) TABLE_SIZE.
Definition L1_TABLES_NEEDED : Z := DIV_ROUND_UP (L2_TABLES_NEEDED + L1_INDEX_BASE) TABLE_SIZE.
Definition L0_TABLES_NEEDED : Z := 1.

(** The arrays, by name, table number and index. *)
Inductive boot_table : Set := Ttbr0L0 | Ttbr1L0 | L1Table | L2Table | L3Tables.
#[export] Instance boot_table_eq_dec : EqDecision boot_table.
Proof. solve_decision. Defined.
#[export] Instance boot_table_countable : Countable boot_table.
Proof.
  refine (inj_countable'
    (fun t => match t with Ttbr0L0 => 0 | Ttbr1L0 => 1 | L1Table => 2 | L2Table => 3 | L3Tables => 4 end)
    (fun z => match z with 0 => Ttbr0L0 | 1 => Ttbr1L0 | 2 => L1Table | 3 => L2Table | _ => L3Tables end) _).
  by intros [].
Defined.

Definition tables_of (t : boot_table) : Z :=
  match t with
  | Ttbr0L0 | Ttbr1L0 => L0_TABLES_NEEDED
  | L1Table => L1_TABLES_NEEDED
  | L2Table => L2_TABLES_NEEDED
  | L3Tables => L3_TABLES_NEEDED
  end.

(** The contents of the arrays. *)
Definition slot : Set := boot_table * Z * Z.
#[export] Instance slot_eq_dec : EqDecision slot.
Proof. unfold slot. apply _. Defined.
#[export] Instance slot_countable : Countable slot.
Proof. unfold slot. apply _. Defined.
Notation tables := (@gmap slot slot_eq_dec slot_countable Z).
Notation Slot t i j := ((t, i, j) : slot).
Definition slot_ok (t : boot_table) (i j : Z) : bool :=
  (0 <=? i) && (i <? tables_of t) && (0 <=? j) && (j <? TABLE_SIZE).
Definition set_entry (t : boot_table) (i j v : Z) : M tables unit :=
  _ ← guard_ub (slot_ok t i j); modify (fun m : tables => <[Slot t i j := v]> m).

Section boot.
(** The physical address of a table array; its tables are 4096 bytes apart. *)
Context (base : boot_table -> Z).
Definition table_pa (t : boot_table) (i : Z) : Z := base t + i * 4096.

Definition clear_tables (t : boot_table) : M tables unit :=
  for_n (Z.to_nat (tables_of t)) 0 (fun i =>
    for_n (Z.to_nat TABLE_SIZE) 0 (fun j => set_entry t i j 0)).
Definition clear_page_tables : M tables unit :=
  _ ← for_n (Z.to_nat L0_TABLES_NEEDED) 0 (fun i =>
        for_n (Z.to_nat TABLE_SIZE) 0 (fun j => _ ← set_entry Ttbr0L0 i j 0; set_entry Ttbr1L0 i j 0));
  _ ← clear_tables L1Table;
  _ ← clear_tables L2Table;
  clear_tables L3Tables.

(** Valid, table, next-level address: assigned in three steps by the code. *)
Definition table_entry (pa : Z) : Z := Z.lor (Z.lor (Z.shiftl 1 0) (Z.shiftl 1 1)) (Z.land pa (not64 0xFFF)).

(** Table [i] of a level goes into entry [index + i] of the level above. *)
Definition link_tables (upper : boot_table) (index : Z) (lower : boot_table) : M tables unit :=
  for_n (Z.to_nat (tables_of lower)) 0 (fun i =>
    set_entry upper (i / TABLE_SIZE) ((index + i) mod TABLE_SIZE) (table_entry (table_pa lower i))).

Definition init_l0_tables : M tables unit :=
  _ ← link_tables Ttbr1L0 L0_INDEX_BASE L1Table;
  set_entry Ttbr0L0 0 0 (table_entry (table_pa L1Table 0)).
Definition init_l1_table : M tables unit := link_tables L1Table L1_INDEX_BASE L2Table.
Definition init_l2_table : M tables unit := link_tables L2Table L2_INDEX_BASE L3Tables.

Definition mem_attr : Z :=
  Z.lor (Z.shiftl 1 0) (Z.lor (Z.shiftl 1 1) (Z.lor (Z.shiftl 1 11) (Z.lor (Z.shiftl 1 10)
    (Z.lor (Z.shiftl 2 8) (Z.lor (Z.shiftl 0 6) (Z.lor (Z.shiftl 0 5) (Z.shiftl 0 2))))))).

(** The row-major loop over the L3 tables, with the number of bytes mapped so far. *)
Definition init_l3_table : M tables unit :=
  _ ← loop (S (Z.to_nat (L3_TABLES_NEEDED * TABLE_SIZE))) (fun st : Z * Z * Z =>
        let '(table_idx, page_idx, mapped_bytes) := st in
        if L3_TABLES_NEEDED <=? table_idx then mret (inr tt) else
        mapped_bytes ← (if mapped_bytes <? TOTAL_MEM_SIZE then
            let pa := add64 PHYS_BASE mapped_bytes in
            _ ← set_entry L3Tables table_idx page_idx (Z.lor mem_attr (Z.land pa (not64 0xFFF)));
            mret (mapped_bytes + 4096)
          else mret mapped_bytes);
        mret (inl (if page_idx + 1 <? TABLE_SIZE then (table_idx, page_idx + 1, mapped_bytes)
                   else (table_idx + 1, 0, mapped_bytes)))) (0, 0, 0);
  mret tt.

Definition init_page_tables : M tables unit :=
  _ ← clear_page_tables;
  _ ← init_l0_tables;
  _ ← init_l1_table;
  _ ← init_l2_table;
  init_l3_table.

Definition get_ttbr0_el1 : Z := base Ttbr0L0.
Definition get_ttbr1_el1 : Z := base Ttbr1L0.
End boot.

(** Register values: the bits set, as (value, position). *)
Definition or_bits (bits : list (Z * Z)) : Z := foldl (fun r '(v, n) => Z.lor r (shl64 v n)) 0 bits.
Definition get_tcr_el1 : Z :=
  or_bits [(16, 0); (0, 14); (2, 12); (1, 10); (1, 8); (16, 16); (2, 30); (2, 28); (1, 26); (1, 24); (2, 32)].
Definition get_mair_el1 : Z :=
  or_bits [(0xFF, 0); (0x44, 8); (0x00, 16); (0x00, 24); (0x00, 32); (0x00, 40); (0x00, 48); (0x00, 56)].
Definition get_sctlr_el1 : Z :=
  or_bits [(1, 0); (1, 1); (1, 2); (1, 3); (1, 4); (0, 5); (0, 6); (1, 7); (1, 8); (0, 9); (0, 10); (1, 11);
           (1, 12); (0, 13); (0, 14); (0, 15); (0, 16); (0, 17); (0, 18); (1, 19); (0, 20); (1, 21); (1, 22);
           (1, 23); (0, 24); (0, 25); (0, 26); (0, 27); (0, 28); (1, 29); (0, 30); (0, 31); (0, 32)].
