(* ===== verification/IrqProps.v ===== *)
(** What the interrupt path promises ([exception/handler.c] with [driver/gic.c] and
    [driver/timer.c]): an interrupt is acknowledged, its handler runs with the mask restored and
    the table unlocked, and the interrupt is ended with the value it was acknowledged with.

    [GicCpu] is what the CPU interface of the controller promises to the handler. *)
From stdpp Require Import sorting.
From S2P Require Import Prelude ListHead Chain Sync Pmm Machine Slab SlabTheory SlabOps SlabFree SlabProps Vmap Vmalloc Mm MmTheory Libc Printk Board Uart Gic Irq Timer TimerTheory TimerProps Exception.
Open Scope Z_scope.

(** The CPU interface at the address [base]: the value the next acknowledge returns, and the
    acknowledged interrupts that have not been ended, the last one first. *)
Class GicCpu (D : Type) `{Mmio D} (base : Z) := {
  signalled : D -> option Z;
  in_service : D -> list Z;
  gic_ack d iar : signalled d = Some iar ->
    (mmio_read (add64 base GICC_IAR) d).1 = iar /\ in_service (mmio_read (add64 base GICC_IAR) d).2 = iar :: in_service d;
  gic_end d iar l : in_service d = iar :: l -> in_service (mmio_write (add64 base GICC_EOIR) iar d) = l;
}.

Section irq_props.
Context {D : Type} (base : Z) `{Gc : GicCpu D base}.
Implicit Types k : kernel D.

Definition k_dev k : D := bd_dev (k_board k).
Definition put_dev (d : D) k : kernel D := set_board (set_bd_dev d (k_board k)) k.

(** The table's lock taken and released. *)
Definition table_used k : kernel D :=
  set_irqs (irq_table k) (ArchSpinlock (u32 (lock_next (irq_table_lock k) + 1)) (u32 (lock_owner (irq_table_lock k) + 1)))
    (set_board (set_bd_daif (k_daif k) (k_board k)) k).

Lemma wp_gicc_read reg (Q : Z -> kernel D -> Prop) k : GICC_BASE (k_board k) = base ->
  Q (mmio_read (add64 base reg) (k_dev k)).1 (put_dev (mmio_read (add64 base reg) (k_dev k)).2 k) -> wp (on_board (gicc_read reg)) Q k.
Proof. intros Hb HQ. unfold on_board, gicc_read. do 3 wp_step. rewrite Hb. apply wp_io_read32. exact HQ. Qed.
Lemma wp_gicc_write reg v (Q : unit -> kernel D -> Prop) k : GICC_BASE (k_board k) = base ->
  Q tt (put_dev (mmio_write (add64 base reg) v (k_dev k)) k) -> wp (on_board (gicc_write reg v)) Q k.
Proof. intros Hb HQ. unfold on_board, gicc_write. do 3 wp_step. rewrite Hb. apply wp_io_write32. exact HQ. Qed.

(** An interrupt: the acknowledge, the registered handler with the table unlocked and the mask as before, the end. *)
Lemma wp_irq_dispatch call iar (Q : unit -> kernel D -> Prop) k :
  GICC_BASE (k_board k) = base -> lock_free (irq_table_lock k) -> signalled (k_dev k) = Some iar ->
  wp (match irq_table k !! Z.land iar 0x3FF with Some h => call h (Z.land iar 0x3FF) | None => mret tt end)
    (fun _ k' => GICC_BASE (k_board k') = base /\ Q tt (put_dev (mmio_write (add64 base GICC_EOIR) iar (k_dev k')) k'))
    (table_used (put_dev (mmio_read (add64 base GICC_IAR) (k_dev k)).2 k)) ->
  wp (el1_irq_handler call) Q k.
Proof.
  intros Hb Hf Hs Hcall. unfold el1_irq_handler. wp_step. apply wp_gicc_read; [exact Hb|].
  rewrite (proj1 (gic_ack _ _ Hs)). change 0x3FF with (2 ^ 10 - 1) in *. rewrite land_mask in * by lia.
  rewrite (proj2 (Z.ltb_lt (iar mod 2 ^ 10) 1024)) by (apply Z.mod_pos_bound; reflexivity).
  unfold on_irq_lock. do 3 wp_step. apply wp_spin_lock_irqsave; [exact Hf|]. do 4 wp_step. apply wp_spin_unlock_irqrestore.
  eapply wp_mono; [exact Hcall|]. intros [] k' [Hb' HQ]. apply wp_gicc_write; [exact Hb'|exact HQ].
Qed.

(** ** The timer interrupt *)

Section timer_interrupt.
(** Callbacks and the scheduler's tick return, leave the timers, the controller's address and the
    interrupts in service as they are and the table unlocked; [T tr d] relates the callbacks called
    so far to the devices. *)
Context (T : list Z -> D -> Prop) (call : Z -> M (kernel D) unit) (rust_timer_tick : M (kernel D) unit)
  (other : Z -> Z -> M (kernel D) unit).
Record quiet k k' : Prop := {
  qt_timers : timer_frame k k';
  qt_base : GICC_BASE (k_board k') = GICC_BASE (k_board k);
  qt_lock : lock_free (irq_table_lock k) -> lock_free (irq_table_lock k');
  qt_service : in_service (k_dev k') = in_service (k_dev k);
}.
Hypothesis callbacks_quiet : forall tr c k, T tr (k_dev k) -> wp (call c) (fun _ k' => quiet k k' /\ T (tr ++ [c]) (k_dev k')) k.
Hypothesis tick_quiet : forall tr k, T tr (k_dev k) -> wp rust_timer_tick (fun _ k' => quiet k k' /\ T tr (k_dev k')) k.

(** The devices and the interrupt path while the interrupt [iar] is served. *)
Definition serving iar l (tr : list Z) (o : D * Z * arch_spinlock) : Prop :=
  o.1.2 = base /\ lock_free o.2 /\ in_service o.1.1 = iar :: l /\ T tr o.1.1.

Lemma quiet_serving iar l tr tr' k k' : serving iar l tr (outside k) -> quiet k k' -> T tr' (k_dev k') ->
  serving iar l tr' (outside k').
Proof.
  intros (Hb & Hl & Hs & _) [_ Hb' Hl' Hs'] HT. unfold serving, outside, k_dev in *. cbn [fst snd] in *.
  rewrite Hb', Hs'. split_and!; [exact Hb|by apply Hl'|exact Hs|exact HT].
Qed.

(** The whole path of a timer interrupt.  It returns; the interrupt is acknowledged once and ended once,
    with the value the controller gave; between the two the tick is counted and the callbacks of
    exactly the due timers are called, in list order; the list stays sorted and both locks are free,
    and the interrupt mask and the interrupts in service are as before. *)
Theorem timer_interrupt_correct fuel ps iar k :
  GICC_BASE (k_board k) = base -> lock_free (irq_table_lock k) -> signalled (k_dev k) = Some iar ->
  Z.land iar 0x3FF = TIMER_IRQ_NUM -> irq_table k !! TIMER_IRQ_NUM = Some TimerIrq ->
  T [] (mmio_read (add64 base GICC_IAR) (k_dev k)).2 -> timers_ok ps k -> (length ps < fuel)%nat ->
  exists k' d, el1_irq_handler (call_irq fuel rust_timer_tick call other) k = Done (tt, k') /\
    let tick := add64 (system_tick (k_clock k)) 1 in
    system_tick (k_clock k') = tick /\ cntp_tval (k_clock k') = timer_load_val (k_clock k) /\
    k_daif k' = k_daif k /\ lock_free (irq_table_lock k') /\
    timers_ok (pending (timers k) tick ps) k' /\ links_only (timers k) (timers k') /\
    T (fired (timers k) tick ps) d /\ in_service d = iar :: in_service (k_dev k) /\
    k_dev k' = mmio_write (add64 base GICC_EOIR) iar d /\ in_service (k_dev k') = in_service (k_dev k).
Proof.
  intros Hb Hf Hs Hirq Hh HT Hok Hlen. cbn zeta. set (tick := add64 (system_tick (k_clock k)) 1).
  assert (Hwp : wp (el1_irq_handler (call_irq fuel rust_timer_tick call other)) (fun _ k' => exists k2,
    tick_post (serving iar (in_service (k_dev k))) ps k k2 /\ k' = put_dev (mmio_write (add64 base GICC_EOIR) iar (k_dev k2)) k2) k).
  { apply (wp_irq_dispatch _ iar); [exact Hb|exact Hf|exact Hs|]. rewrite Hirq, Hh.
    set (k1 := table_used _). change (tick_post (serving iar (in_service (k_dev k))) ps k) with
      (tick_post (serving iar (in_service (k_dev k))) ps k1).
    eapply wp_mono; [apply (wp_timer_irq_handler (serving iar (in_service (k_dev k))) call rust_timer_tick)|].
    - intros tr c k3 _ Hsv. eapply wp_mono; [apply callbacks_quiet; apply Hsv|]. intros [] k4 [Hq HT4].
      split; [apply Hq|]. by eapply quiet_serving.
    - intros tr k3 Hsv. eapply wp_mono; [apply tick_quiet; apply Hsv|]. intros [] k4 [Hq HT4].
      split; [apply Hq|]. by eapply quiet_serving.
    - destruct Hok as [Hk1 Hk2 Hk3 Hk4]. split; [exact Hk1|exact Hk2|exact Hk3|exact Hk4].
    - split; [exact Hb|]. split; [exact (spin_unlock_free _ Hf)|]. split; [apply (gic_ack _ _ Hs)|exact HT].
    - exact Hlen.
    - intros [] k2 Hp. split; [apply Hp|]. exists k2. split; [exact Hp|reflexivity]. }
  destruct (wp_done _ _ _ Hwp) as ([] & k' & Hrun & k2 & (Ht & Hv & Hd & [Hk1 Hk2 Hk3 Hk4] & Hln & Hb2 & Hf2 & Hsv & HT2) & ->).
  exists (put_dev (mmio_write (add64 base GICC_EOIR) iar (k_dev k2)) k2), (k_dev k2).
  split; [exact Hrun|]. split_and!; try assumption; [split; assumption|reflexivity|by apply gic_end].
Qed.
End timer_interrupt.
End irq_props.

(** ** The theorem at a sample controller *)

(** A controller with a queue of interrupts, whose callbacks write their number to it. *)
Record sim_gic := SimGic { sg_pending : list Z; sg_active : list Z; sg_trace : list Z }.
Definition sim_base : Z := 0x08010000.
#[local] Instance sim_mmio : Mmio sim_gic := {
  mmio_read a d :=
    if a =? add64 sim_base GICC_IAR then
      match sg_pending d with
      | iar :: p => (iar, SimGic p (iar :: sg_active d) (sg_trace d))
      | [] => (1023, d)
      end
    else (0, d);
  mmio_write a v d :=
    if a =? add64 sim_base GICC_EOIR then
      match sg_active d with
      | iar :: l => if iar =? v then SimGic (sg_pending d) l (sg_trace d) else d
      | [] => d
      end
    else d;
}.
#[local] Instance sim_gic_cpu : GicCpu sim_gic sim_base.
Proof.
  refine {| signalled d := head (sg_pending d); in_service := sg_active |}.
  - intros [[|i p] act tr] iar Hs; [discriminate Hs|]. injection Hs as ->. split; reflexivity.
  - intros [p act tr] iar l Hs. cbn in Hs. subst act. cbn. rewrite (Z.eqb_refl iar). reflexivity.
Defined.

Definition sim_call (c : Z) : M (kernel sim_gic) unit :=
  modify (fun k => put_dev (SimGic (sg_pending (k_dev k)) (sg_active (k_dev k)) (sg_trace (k_dev k) ++ [c])) k).
Definition sim_kernel (h : slab) : kernel sim_gic :=
  let k := sample_kernel h (SimGic [30] [] []) sample_timers 4096 in
  set_irqs {[TIMER_IRQ_NUM := TimerIrq]} SPIN_LOCK_UNLOCKED (set_board (set_gic_bases 0x08000000 sim_base (k_board k)) k).

Lemma timer_interrupt_correct_witness : exists (h : slab) (k' : kernel sim_gic),
  el1_irq_handler (call_irq 3 (mret tt) sim_call (fun _ _ => mret tt)) (sim_kernel h) = Done (tt, k') /\
  timers_ok [8192] k' /\ in_service (k_dev k') = [].
Proof.
  destruct sample_object as (_ & h & _). exists h.
  destruct (timer_interrupt_correct sim_base (fun tr d => sg_trace d = tr) sim_call (mret tt) (fun _ _ => mret tt))
    with (fuel := 3%nat) (ps := [4096; 8192]) (iar := 30) (k := sim_kernel h)
    as (k' & d & Hrun & _ & _ & _ & _ & Hl & _ & _ & _ & _ & Hs).
  - intros tr c k Hd. apply wp_modify. split; [split; [repeat split|reflexivity|exact id|reflexivity]|]. cbn in Hd |- *. rewrite Hd. reflexivity.
  - intros tr k Hd. apply wp_ret. split; [split; [repeat split|reflexivity|exact id|reflexivity]|exact Hd].
  - reflexivity.
  - reflexivity.
  - reflexivity.
  - reflexivity.
  - reflexivity.
  - reflexivity.
  - destruct (sample_timers_ok h (SimGic [30] [] [])) as [Hk1 Hk2 Hk3 Hk4]. split; [exact Hk1|exact Hk2|exact Hk3|exact Hk4].
  - cbn. lia.
  - exists k'. split; [exact Hrun|]. split; [exact Hl|exact Hs].
Defined.
