(* ===== verification/MainProps.v ===== *)
(** What the entry of the kernel establishes and what its linked interrupt handlers do ([kernel/main.c]). *)
From S2P Require Import Prelude ListHead Pmm PmmTheory PmmOps PmmInit PmmProps Sync Machine Mmu MmuTheory MmuProps Slab SlabTheory SlabOps SlabFree SlabProps SlabSample Memory MemoryProps Vmap VmapTheory VmapProps VmapInit Vmalloc Mm MmTheory Libc Printk Board Uart Gic Irq Timer TimerTheory TimerProps Exception IrqProps Main.
Open Scope Z_scope.

(** ** A tree with nothing under its root *)

Section empty_tree.
Context (D : Z -> bool) (m : machine) (f : Z).
Hypothesis pmm_ok : buddy_inv (m_pmm m).
Hypothesis in_image : page_ok f /\ f < first_pfn (m_pmm m).
Hypothesis absent : forall i, idx_ok i -> D i = true -> pte_present (entry m (frame_addr f) i) = false.

Lemma empty_walk p t : path_ok D p -> MmuTheory.walk m (frame_addr f) p = Some t -> p = [] /\ t = frame_addr f.
Proof using absent.
  destruct p as [|i p]; simpl; [by intros _ [= <-]|]. intros (Hf & _ & HD). apply Forall_cons in Hf as [Hi _]. by rewrite absent.
Qed.
Lemma empty_tree : pt_inv D m (frame_addr f).
Proof using All.
  destruct in_image as [Hok Hlow]. split.
  - exact pmm_ok.
  - intros p t Hp [-> ->]%empty_walk; [|done]. exists f. split_and!; [done|done|by left|done].
  - intros p q t Hp Hq [-> _]%empty_walk [-> _]%empty_walk; done.
Qed.
Lemma empty_mapping va : D (L0_INDEX va) = true -> mapping m (frame_addr f) va = None.
Proof using absent.
  intros HD. unfold mapping, leaf. destruct (MmuTheory.walk m (frame_addr f) (table_path va)) as [t|] eqn:Hw; [|done].
  by destruct (empty_walk _ _ (table_path_ok D va HD) Hw) as [? _].
Qed.
End empty_tree.

(** ** Memory at boot *)

Section boot.
Context {D : Type}.
Implicit Types k : kernel D.

Definition k_vmap k : vmap := va_mgr (kmem (bd_mem (k_board k))).

Definition put_vmap (v : vmap) k : kernel D :=
  let m := bd_mem (k_board k) in set_board (set_bd_mem (set_kmem (set_va_mgr v (kmem m)) m) (k_board k)) k.
Definition put_heap (h : slab) k : kernel D := put_vmap (set_vm_slab h (k_vmap k)) k.
Definition put_cpu (m : machine) k : kernel D := put_heap (set_mach m (vm_slab (k_vmap k))) k.

Lemma wp_on_vmap {A} (c : M vmap A) (Q : A -> kernel D -> Prop) k :
  wp c (fun a v => Q a (put_vmap v k)) (k_vmap k) -> wp (on_kspaces (on_kmem (on_va c))) Q k.
Proof. intros H. do 4 apply wp_zoom. exact H. Qed.
Lemma wp_on_khp {A} (c : M slab A) (Q : A -> kernel D -> Prop) k :
  wp c (fun a h => Q a (put_heap h k)) (vm_slab (k_vmap k)) -> wp (on_khp c) Q k.
Proof. intros H. do 5 apply wp_zoom. exact H. Qed.
Lemma wp_on_kcpu {A} (c : M machine A) (Q : A -> kernel D -> Prop) k :
  wp c (fun a m => Q a (put_cpu m k)) (bd_cpu (k_board k)) -> wp (on_kspaces (on_cpu c)) Q k.
Proof. intros H. do 6 apply wp_zoom. exact H. Qed.
Lemma wp_on_pages {A} (c : M pmm A) (Q : A -> kernel D -> Prop) k :
  wp c (fun a pm => Q a (put_cpu (set_pmm pm (bd_cpu (k_board k))) k)) (m_pmm (bd_cpu (k_board k))) -> wp (on_pages c) Q k.
Proof. intros H. do 7 apply wp_zoom. exact H. Qed.

(** The static variables as the image has them. *)
Record at_entry k : Prop := {
  ae_pmm : m_pmm (bd_cpu (k_board k)) = pmm_bss;
  ae_lock : lock_free (slab_lock (vm_slab (k_vmap k)));
  ae_areas : vm_areas (k_vmap k) = ∅;
}.

(** The address areas after initialisation: the whole range in one free area; or none, which needs a kernel
    image that leaves a single page of RAM (the sentinel of the tree takes it, and the heap refuses the object
    for the area). *)
Definition areas_ready (kernel_end : Z) (L : gmap Z Z) (v : vmap) : Prop :=
  (exists p, vmap_ok L [p] [] v /\ vm_areas v = {[p := whole]}) \/
  (TOTAL_PAGES = image_pages kernel_end + 1 /\ areas_ok L [] [] [] v /\ vm_areas v = ∅).

(** What initialisation of the memory leaves, [Dm] being the top-level entries the boot tables do not use. *)
Record memory_ready (Dm : Z -> bool) (kernel_end f : Z) k k' : Prop := {
  mr_base : slab_linear_map_base (bd_cpu (k_board k')) = LINEAR_MAP_BASE;
  mr_l0 : slab_l0_table_pa (bd_cpu (k_board k')) = frame_addr f;
  mr_daif : k_daif k' = k_daif k;
  mr_first : first_pfn (m_pmm (bd_cpu (k_board k'))) = image_pages kernel_end;
  mr_state : exists t, represents Dm (vm_slab (k_vmap k')) t /\ areas_ready kernel_end (objects t) (k_vmap k') /\
    forall va, Dm (L0_INDEX va) = true -> pages t va = None;
}.

Lemma grew_first L flags size s r s' : kmalloc_grew L flags size s r s' -> first_pfn (heap_pmm s') = first_pfn (heap_pmm s).
Proof.
  intros Hg. destruct (kg_pmm _ _ _ _ _ _ Hg) as [|e|o dma p pm' Hal]; [done|done|]. apply first_pfn_eq, (al_zone _ _ _ _ _ Hal).
Qed.
Lemma run_first L s L' s' : heap_run L s L' s' -> first_pfn (heap_pmm s') = first_pfn (heap_pmm s).
Proof. induction 1 as [|??? _ IH (d & lin & l0 & ->)|????? _ IH Hg _|??????? _ IH Hg _ _ _]; [done|exact IH|..]; by rewrite (grew_first _ _ _ _ _ _ Hg). Qed.

Lemma single_object (o z : Z) : (size (<[o := z]> (∅ : gmap Z Z)) < 16)%nat.
Proof. rewrite map_size_insert_None by done. rewrite map_size_empty. lia. Qed.

(** From an initialised page allocator to a ready memory. *)
Lemma boot_ready Dm kernel_end f k h (v : vmap) k' :
  initialised (image_pages kernel_end) (heap_pmm h) -> image_pages kernel_end < TOTAL_PAGES -> 0 <= f < image_pages kernel_end -> ttbr1_el1 (mach h) = frame_addr f ->
  base h = LINEAR_MAP_BASE -> slab_l0_table_pa (mach h) = frame_addr f -> daif (mach h) = k_daif k ->
  (forall i, idx_ok i -> Dm i = true -> pte_present (entry (mach h) (frame_addr f) i) = false) ->
  heap_ok ∅ h -> vm_areas v = ∅ -> vm_slab v = h -> initial ∅ v (k_vmap k') -> memory_ready Dm kernel_end f k k'.
Proof.
  intros Hin HK Hf Hroot Hb Hl0 Hd Habs Hh Hemp Hvh (_ & _ & _ & Hdaif & nil & z & _ & Hcase). rewrite Hvh in *.
  assert (Hfirst : first_pfn (heap_pmm h) = image_pages kernel_end) by apply (in_zone _ _ Hin).
  pose proof (proj1 (in_inv _ _ Hin)) as Hinv.
  assert (Hfok : page_ok f). { pose proof (binv_start _ _ Hinv) as [_ Hs]. unfold page_ok. lia. }
  assert (Htree : pt_inv Dm (mach h) (frame_addr f)) by (apply empty_tree; [exact Hinv|split; [done|unfold heap_pmm in *; lia]|exact Habs]).
  assert (Hready : forall L, heap_run ∅ h L (vm_slab (k_vmap k')) -> areas_ready kernel_end L (k_vmap k') -> memory_ready Dm kernel_end f k k').
  { intros L Hrun Har. destruct (heap_run_memory Dm _ _ _ _ (frame_addr f) Hrun) as (Hok & Hregs & Hm).
    { split; [exact Hh|exact Htree|by intros ????? HL%lookup_empty_Some]. }
    assert (Hcpu : bd_cpu (k_board k') = mach (vm_slab (k_vmap k'))) by done.
    assert (Hroot' : ttbr1_el1 (mach (vm_slab (k_vmap k'))) = frame_addr f) by (by rewrite (sr_ttbr1 _ _ Hregs)).
    split.
    - rewrite Hcpu. by rewrite (sr_base _ _ Hregs).
    - rewrite Hcpu, (sr_l0 _ _ Hregs). exact Hl0.
    - unfold k_daif. by rewrite Hcpu, Hdaif.
    - rewrite Hcpu. rewrite <- Hfirst. by apply (run_first _ _ _ _ Hrun).
    - exists (KSpace L (fun a => ram_at (mach (vm_slab (k_vmap k'))) (a - base (vm_slab (k_vmap k')))) (fun va => mapping (mach (vm_slab (k_vmap k'))) (frame_addr f) va)).
      split; [split; cbn; rewrite ?Hroot'; done|]. split; [exact Har|]. intros va HD. cbn. rewrite Hm by done. by apply (empty_mapping Dm). }
  destruct Hcase as [(p & y & Hok & HA & Hrun)|(Hh' & Ha & HA & Hrun & Hex & Hfree)]; rewrite Hemp in HA; (eapply Hready; [exact Hrun|]).
  - left. exists p. split; [exact Hok|by rewrite HA, insert_empty].
  - right. split; [|by split]. rewrite (exhausted_pages _ 104 _ Hh') in Hfree; [|apply single_object|lia|exact Hex].
    rewrite (PmmInit.in_free _ _ Hin) in Hfree. lia.
Qed.

(** C34: the start of [main] puts the memory of the kernel into the state all its users rely on.  For every image that leaves a
    page of RAM, and boot tables whose root lies in the image and is empty in the part [Dm] of the address space, it returns; the
    page allocator owns exactly the RAM after the image; heap, page allocator and page tables together represent an abstract
    memory (so that [memory_refinement] applies from here on) with no page of [Dm] mapped; and the address areas of [vmalloc]
    are one free area, the whole range, described by a live object of that heap, ready for the operations on areas.  Only when
    the image leaves a single page of RAM can there be no area. *)
Theorem main_memory_correct Dm kernel_end t0 f dtb k :
  image_ok kernel_end -> image_pages kernel_end < TOTAL_PAGES -> 0 <= f < image_pages kernel_end -> at_entry k ->
  ttbr1_el1 (bd_cpu (k_board k)) = frame_addr f ->
  (forall i, idx_ok i -> Dm i = true -> pte_present (entry (bd_cpu (k_board k)) (frame_addr f) i) = false) ->
  exists k', main_memory kernel_end t0 (frame_addr f) dtb k = Done (tt, k') /\ memory_ready Dm kernel_end f k k' /\
    ttbr0_pa k' = t0 /\ dtb_base (k_board k') = dtb.
Proof.
  intros Himg HK Hf [Hpm Hlk Hemp] Hroot Habs. set (K := image_pages kernel_end) in *.
  enough (Hwp : wp (main_memory kernel_end t0 (frame_addr f) dtb) (fun _ k' => memory_ready Dm kernel_end f k k' /\
    ttbr0_pa k' = t0 /\ dtb_base (k_board k') = dtb) k).
  { destruct (wp_done _ _ _ Hwp) as ([] & k' & Hrun & Hp). exists k'. split; [exact Hrun|exact Hp]. }
  unfold main_memory. do 2 wp_step. wp_step. apply wp_on_kcpu. wp_step.
  match goal with |- wp _ _ (put_cpu ?m _) => set (m1 := m) end.
  wp_step. apply wp_on_pages. change (bd_cpu (k_board (put_cpu m1 (set_ttbr0_pa t0 k)))) with m1.
  change (m_pmm m1) with (m_pmm (bd_cpu (k_board k))). rewrite Hpm. apply wp_buddy_init; [exact Himg|]. intros pm Hin.
  set (m2 := set_pmm pm m1). match goal with |- wp _ _ ?x => set (k2 := x) end.
  wp_step. apply wp_on_khp. set (h2 := vm_slab (k_vmap k2)). assert (Hm2 : mach h2 = m2) by reflexivity.
  eapply wp_mono; [apply wp_slab_init|].
  - unfold heap_pmm. rewrite Hm2. apply (in_inv _ _ Hin).
  - vm_compute. repeat split.
  - exact Hlk.
  - intros [] h [Hh Hm]. rewrite Hm2 in Hm. wp_step. unfold on_board. wp_step. wp_step.
    match goal with |- wp _ _ ?x => set (k4 := x) end.
    apply wp_on_vmap. assert (Hslab : vm_slab (k_vmap k4) = h) by reflexivity.
    assert (Hareas : vm_areas (k_vmap k4) = ∅) by exact Hemp.
    eapply wp_mono; [apply (wp_va_manager_init ∅)|].
    + rewrite Hslab. exact Hh.
    + rewrite Hslab. destruct Hh as (F & Hi & Hb & _). destruct (few_objects F ∅ h Hi Hb) as [Hu Hl]; [rewrite map_size_empty; lia|].
      split; [exact Hu|exact Hl|]. unfold heap_pmm. rewrite Hm. by apply (initialised_free K); [|lia].
    + by rewrite Hareas.
    + intros [] v Hinit. split; [|by split].
      apply (boot_ready Dm kernel_end f k h (k_vmap k4)); try done; unfold heap_pmm, base; rewrite ?Hm; try done.
Qed.
End boot.

(** The kernel as it is loaded: zeroed static variables and an empty root table in the image. *)
Definition loaded : kernel unit := sample_kernel (sample_heap pmm_bss) tt ∅ 0.

Lemma main_memory_correct_witness : at_entry loaded /\ exists k', main_memory sample_end (frame_addr 6) (frame_addr 5) 0x44000000 loaded = Done (tt, k') /\
  memory_ready (fun i => negb (i =? 256)) sample_end 5 loaded k' /\ exists p, vm_areas (k_vmap k') = {[p := whole]}.
Proof.
  assert (Hk : at_entry loaded) by (split; reflexivity). split; [exact Hk|].
  destruct (main_memory_correct (fun i => negb (i =? 256)) sample_end (frame_addr 6) 5 0x44000000 loaded sample_ok
              ltac:(reflexivity) ltac:(split; [discriminate|reflexivity]) Hk ltac:(reflexivity) ltac:(intros; reflexivity))
    as (k' & Hrun & Hready & _).
  exists k'. split; [exact Hrun|]. split; [exact Hready|].
  destruct Hready as [_ _ _ _ (t & _ & [(p & _ & HA)|[HK _]] & _)]; [by exists p|]. vm_compute in HK. discriminate HK.
Defined.

(** ** The linked timer interrupt *)

Section linked_timer.
(** The two functions of the Rust part return and leave the timers and the interrupt path alone; [T n d] relates how many of
    them were called to the devices. *)
Context {D : Type} (base : Z) `{Gc : GicCpu D base} (T : nat -> D -> Prop) (fuel : nat)
  (rust_check_sleepers rust_timer_tick : M (kernel D) unit) (tty : Z -> M (kernel D) unit) (other : Z -> Z -> M (kernel D) unit).
Hypothesis sleepers_quiet : forall k, T 0%nat (k_dev k) -> wp rust_check_sleepers (fun _ k' => quiet base k k' /\ T 1%nat (k_dev k')) k.
Hypothesis tick_quiet : forall k, T 1%nat (k_dev k) -> wp rust_timer_tick (fun _ k' => quiet base k k' /\ T 2%nat (k_dev k')) k.

Lemma quiet_trans k1 k2 k3 : quiet base k1 k2 -> quiet base k2 k3 -> quiet base k1 k3.
Proof.
  intros [(A1 & A2 & A3 & A4 & A5) B1 C1 D1] [(A1' & A2' & A3' & A4' & A5') B2 C2 D2].
  split; [split_and!; congruence|congruence|auto|congruence].
Qed.

Definition ticked (k : kernel D) : clock :=
  let c := k_clock k in Clock (add64 (system_tick c) 1) (timer_load_val c) (cntp_ctl c) (cntfrq c / 1000) (cntfrq c) (cntpct c).

Lemma wp_timer_irq_handler_main irq k : T 0%nat (k_dev k) ->
  wp (timer_irq_handler_main rust_check_sleepers rust_timer_tick irq) (fun _ k' => quiet base (set_clock (ticked k) k) k' /\ T 2%nat (k_dev k')) k.
Proof using sleepers_quiet tick_quiet.
  intros HT. unfold timer_irq_handler_main, cntp_set_tval, upd_clock. do 2 wp_step. cbv zeta. do 4 wp_step. wp_step.
  eapply wp_mono; [apply sleepers_quiet; exact HT|]. intros [] k1 [Hq1 HT1].
  eapply wp_mono; [apply tick_quiet; exact HT1|]. intros [] k2 [Hq2 HT2]. split; [|exact HT2].
  exact (quiet_trans _ _ _ Hq1 Hq2).
Qed.

(** C35: the timer interrupt of the linked kernel, from the acknowledge to the end of the interrupt.  It is acknowledged once and
    ended once with the same value; the tick advances by one, the counter is reloaded for a millisecond at the frequency the
    counter reports, the sleepers and then the scheduler's tick of the Rust part are run once each.  The software timers of
    [driver/timer.c] are untouched whatever is due: no callback of [timer_add] is ever called. *)
Theorem linked_timer_interrupt iar k :
  GICC_BASE (k_board k) = base -> lock_free (irq_table_lock k) -> signalled (k_dev k) = Some iar ->
  Z.land iar 0x3FF = TIMER_IRQ_NUM -> irq_table k !! TIMER_IRQ_NUM = Some TimerIrq ->
  T 0%nat (mmio_read (add64 base GICC_IAR) (k_dev k)).2 ->
  exists k' d, el1_irq_handler (call_irq_main fuel rust_check_sleepers rust_timer_tick tty other) k = Done (tt, k') /\
    k_clock k' = ticked k /\ timers k' = timers k /\ timer_list k' = timer_list k /\ k_daif k' = k_daif k /\
    lock_free (irq_table_lock k') /\ T 2%nat d /\ in_service d = iar :: in_service (k_dev k) /\
    k_dev k' = mmio_write (add64 base GICC_EOIR) iar d /\ in_service (k_dev k') = in_service (k_dev k).
Proof.
  intros Hb Hf Hs Hirq Hh HT.
  assert (Hwp : wp (el1_irq_handler (call_irq_main fuel rust_check_sleepers rust_timer_tick tty other)) (fun _ k' => exists k1 k2,
    quiet base (set_clock (ticked k) (table_used k1)) k2 /\ T 2%nat (k_dev k2) /\ in_service (k_dev k1) = iar :: in_service (k_dev k) /\
    k1 = put_dev (mmio_read (add64 base GICC_IAR) (k_dev k)).2 k /\ k' = put_dev (mmio_write (add64 base GICC_EOIR) iar (k_dev k2)) k2) k).
  { apply (wp_irq_dispatch base _ iar); [exact Hb|exact Hf|exact Hs|]. rewrite Hirq, Hh. cbn [call_irq_main].
    eapply wp_mono; [apply wp_timer_irq_handler_main; exact HT|]. intros [] k2 [Hq HT2].
    split; [rewrite (qt_base _ _ _ Hq); exact Hb|]. exists (put_dev (mmio_read (add64 base GICC_IAR) (k_dev k)).2 k), k2.
    split; [exact Hq|]. split; [exact HT2|]. split; [apply (gic_ack _ _ Hs)|]. split; reflexivity. }
  destruct (wp_done _ _ _ Hwp) as ([] & k' & Hrun & k1 & k2 & [(Q1 & Q2 & Q3 & Q4 & Q5) Qb Ql Qs] & HT2 & Hs1 & -> & ->).
  exists (put_dev (mmio_write (add64 base GICC_EOIR) iar (k_dev k2)) k2), (k_dev k2). split; [exact Hrun|].
  assert (Hserv : in_service (k_dev k2) = iar :: in_service (k_dev k)) by (rewrite Qs; exact Hs1).
  split_and!; [exact Q4|exact Q1|exact Q2|exact Q5|apply Ql; exact (spin_unlock_free _ Hf)|exact HT2|exact Hserv|reflexivity|].
  by apply gic_end.
Qed.
End linked_timer.

#[local] Existing Instances sim_mmio sim_gic_cpu.
Lemma linked_timer_interrupt_witness : exists (h : slab) (k' : kernel sim_gic),
  el1_irq_handler (call_irq_main 3 (sim_call 1) (sim_call 2) (fun _ => mret tt) (fun _ _ => mret tt)) (sim_kernel h) = Done (tt, k') /\
  system_tick (k_clock k') = 1 /\ timer_list k' = 4096 /\ in_service (k_dev k') = [].
Proof.
  destruct sample_object as (_ & h & _). exists h.
  assert (Hcall : forall n c k, length (sg_trace (k_dev k)) = n ->
    wp (sim_call c) (fun _ k' => quiet sim_base k k' /\ length (sg_trace (k_dev k')) = S n) k).
  { intros n c k Hn. apply wp_modify. split; [split; [repeat split|reflexivity|exact id|reflexivity]|]. cbn. rewrite length_app, Hn. cbn. lia. }
  destruct (linked_timer_interrupt sim_base (fun n d => length (sg_trace d) = n) 3 (sim_call 1) (sim_call 2) (fun _ => mret tt) (fun _ _ => mret tt)
    ltac:(intros k; apply Hcall) ltac:(intros k; apply Hcall) 30 (sim_kernel h))
    as (k' & d & Hrun & Hc & _ & Hl & _ & _ & _ & _ & _ & Hs); try reflexivity.
  exists k'. split; [exact Hrun|]. rewrite Hc, Hl, Hs. repeat split.
Defined.

(** ** The linked serial interrupt *)

(** A PL011 at the address [base]: the characters that were received, each with its error bits, and the receive status. *)
Class Pl011 (D : Type) `{Mmio D} (base : Z) := {
  received : D -> list (Z * Z);
  rx_status : D -> Z;
  pl_flags d : Z.land (mmio_read (add64 base UART_FR) d).1 UART_FR_RXFE = (if decide (received d = []) then UART_FR_RXFE else 0);
  pl_flags_keep d : received (mmio_read (add64 base UART_FR) d).2 = received d /\ rx_status (mmio_read (add64 base UART_FR) d).2 = rx_status d;
  pl_status d : (mmio_read (add64 base UART_RSR_ECR) d).1 = rx_status d;
  pl_status_keep d : received (mmio_read (add64 base UART_RSR_ECR) d).2 = received d /\ rx_status (mmio_read (add64 base UART_RSR_ECR) d).2 = rx_status d;
  pl_clear d v : received (mmio_write (add64 base UART_RSR_ECR) v d) = received d /\ rx_status (mmio_write (add64 base UART_RSR_ECR) v d) = 0;
  (** reading the data register takes the next character and sets the status to its error bits *)
  pl_data d c e q : received d = (c, e) :: q ->
    Z.land (mmio_read (add64 base UART_DR) d).1 0xFF = c /\ received (mmio_read (add64 base UART_DR) d).2 = q /\
    rx_status (mmio_read (add64 base UART_DR) d).2 = e;
}.

(** What one interrupt does with a queue: the characters handed on, the ones left, and the status left behind. *)
Fixpoint serve (status : Z) (q : list (Z * Z)) : list Z * list (Z * Z) * Z :=
  match q with
  | [] => ([], [], status)
  | (c, e) :: q => if status =? 0 then let r := serve e q in (c :: r.1.1, r.1.2, r.2) else ([], q, 0)
  end.

Section linked_uart.
(** [T tr d]: the characters [tr] were handed to the terminal; the serial port has no part in that. *)
Context {D : Type} (base : Z) `{Pl : Pl011 D base} (T : list Z -> D -> Prop) (tty : Z -> M (kernel D) unit).
Hypothesis T_read : forall tr r d, T tr d -> T tr (mmio_read (add64 base r) d).2.
Hypothesis T_write : forall tr r v d, T tr d -> T tr (mmio_write (add64 base r) v d).
Record uart_quiet (k k' : kernel D) : Prop := {
  uq_base : uart_base (k_board k') = uart_base (k_board k);
  uq_received : received (k_dev k') = received (k_dev k);
  uq_status : rx_status (k_dev k') = rx_status (k_dev k);
  uq_count : uart_irq_cnt k' = uart_irq_cnt k;
}.
Hypothesis tty_quiet : forall tr c k, T tr (k_dev k) -> wp (tty c) (fun _ k' => uart_quiet k k' /\ T (tr ++ [c]) (k_dev k')) k.

(** The port with the queue [q] and the status [e], after [tr] was handed on. *)
Record port (cnt : Z) (tr : list Z) (q : list (Z * Z)) (e : Z) (k : kernel D) : Prop := {
  po_base : uart_base (k_board k) = base;
  po_received : received (k_dev k) = q;
  po_status : rx_status (k_dev k) = e;
  po_trace : T tr (k_dev k);
  po_count : uart_irq_cnt k = cnt;
}.
Definition bits_ok (l : list (Z * Z)) : Prop := Forall (fun x => 0 <= x.2 < 16) l.

Lemma wp_uart_read reg (Q : Z -> board D -> Prop) b : uart_base b = base ->
  Q (mmio_read (add64 base reg) (bd_dev b)).1 (set_bd_dev (mmio_read (add64 base reg) (bd_dev b)).2 b) -> wp (uart_read reg) Q b.
Proof. intros Hb HQ. unfold uart_read. do 2 wp_step. rewrite Hb. by apply wp_io_read32. Qed.
Lemma wp_uart_write reg v (Q : unit -> board D -> Prop) b : uart_base b = base ->
  Q tt (set_bd_dev (mmio_write (add64 base reg) v (bd_dev b)) b) -> wp (uart_write reg v) Q b.
Proof. intros Hb HQ. unfold uart_write. do 2 wp_step. rewrite Hb. by apply wp_io_write32. Qed.

Lemma wp_rx_flag (Q : bool -> kernel D -> Prop) cnt tr q e k (c : M (board D) bool) : port cnt tr q e k ->
  c = (v ← uart_read UART_FR; mret (Z.land v UART_FR_RXFE =? 0)) ->
  (forall k', port cnt tr q e k' -> Q (bool_decide (q <> [])) k') -> wp (on_board c) Q k.
Proof using T_read.
  intros [Hb Hq He HT Hc] -> HQ. unfold on_board. do 2 wp_step. apply wp_uart_read; [exact Hb|]. wp_step. rewrite pl_flags.
  change (bd_dev (k_board k)) with (k_dev k). rewrite Hq.
  replace (_ =? 0) with (bool_decide (q <> [])) by (case_decide; [rewrite bool_decide_eq_false_2 by auto|rewrite bool_decide_eq_true_2 by done]; done).
  apply HQ. destruct (pl_flags_keep (k_dev k)) as [H1 H2]. split; [exact Hb|cbn; rewrite H1; exact Hq|cbn; rewrite H2; exact He|by apply T_read|exact Hc].
Qed.

(** One attempt to read a character. *)
Lemma wp_getc_nonblock (Q : bool * option Z * option Z -> kernel D -> Prop) cnt tr q e k : port cnt tr q e k -> 0 <= e < 16 ->
  (q = [] -> forall k', port cnt tr [] e k' -> Q (false, None, None) k') ->
  (forall c e' q', q = (c, e') :: q' -> 0 <= c < 256 -> forall k', port cnt tr q' e' k' -> Q (true, Some c, Some e) k') ->
  wp (on_board (uart_getc_nonblock true true)) Q k.
Proof using T_read T_write.
  intros [Hb Hq He HT Hc] He16 HQ0 HQ1. destruct (pl_flags_keep (k_dev k)) as [F1 F2].
  unfold on_board, uart_getc_nonblock, read_error, uart_clear_error. wp_step. cbn [negb]. wp_step. apply wp_uart_read; [exact Hb|].
  rewrite pl_flags. change (bd_dev (k_board k)) with (k_dev k). rewrite Hq. case_decide as Hemp.
  - subst q. cbn. apply wp_ret. apply HQ0; [done|]. split; [exact Hb|cbn; by rewrite F1|cbn; by rewrite F2|by apply T_read|exact Hc].
  - destruct q as [|[c e'] q']; [done|]. cbn [Z.eqb negb].
    set (d1 := (mmio_read (add64 base UART_FR) (k_dev k)).2) in *.
    set (d2 := (mmio_read (add64 base UART_RSR_ECR) d1).2). set (d3 := mmio_write (add64 base UART_RSR_ECR) 0x0F d2).
    destruct (pl_status_keep d1) as [S1 S2]. fold d2 in S1, S2. destruct (pl_clear d2 0x0F) as [C1 C2]. fold d3 in C1, C2.
    assert (Hrec : received d3 = (c, e') :: q') by congruence. destruct (pl_data d3 _ _ _ Hrec) as (D1 & D2 & D3).
    do 2 wp_step. apply wp_uart_read; [exact Hb|]. wp_step. apply wp_uart_write; [exact Hb|]. wp_step.
    wp_step. apply wp_uart_read; [exact Hb|]. wp_step.
    change (bd_dev _) with d3 at 1. rewrite D1. change (bd_dev _) with d1 at 1. rewrite pl_status, F2, He.
    change 0x0F with (2 ^ 4 - 1). rewrite land_mask, Z.mod_small by lia.
    apply (HQ1 c e' q' eq_refl).
    + rewrite <- D1. change 0xFF with (2 ^ 8 - 1). rewrite land_mask by lia. apply Z.mod_pos_bound. reflexivity.
    + split; [exact Hb|exact D2|exact D3|by apply T_read, T_write, T_read, T_read|exact Hc].
Qed.

(** The port after the loop, whose last read reported [err]: an error is still to be cleared. *)
Definition drained cnt tr (r : list Z * list (Z * Z) * Z) (err : option Z) (k : kernel D) : Prop :=
  exists e st, err = Some e /\ port cnt (tr ++ r.1.1) r.1.2 st k /\ (if e =? 0 then st = r.2 else r.2 = 0).

Lemma wp_drain fuel cnt tr q e k (err : option Z) : port cnt tr q e k -> 0 <= e < 16 -> bits_ok q -> (length q < fuel)%nat ->
  (q = [] -> err = Some 0) ->
  wp (loop fuel (fun err : option Z =>
    '(ok, ch, e) ← on_board (uart_getc_nonblock true true);
    let err := match e with Some _ => e | None => err end in
    if (ok : bool) && bool_decide (err = Some UART_ERR_NONE) then
      c ← of_option ch; _ ← tty (u8 c); mret (inl err)
    else mret (inr err)) err) (drained cnt tr (serve e q)) k.
Proof using T_read T_write tty_quiet.
  revert tr q e k err. induction fuel as [|fuel IH]; intros tr q e k err Hp He Hq Hlen Herr; [lia|]. cbn [loop].
  do 2 wp_step. eapply wp_getc_nonblock; [exact Hp|exact He| |].
  - intros -> k' Hp'. rewrite (Herr eq_refl). cbv beta iota zeta. cbn [andb]. wp_step. cbv beta iota. wp_step. exists 0, e. split; [done|]. cbn. by rewrite app_nil_r.
  - intros c e' q' -> Hc k1 Hp1. apply Forall_cons in Hq as [He' Hq']. cbn [snd] in He'. cbv beta iota zeta. cbn [andb serve].
    destruct (Z.eqb_spec e 0) as [->|Hne].
    + rewrite bool_decide_eq_true_2 by done. wp_step. eapply wp_of_option; [reflexivity|]. unfold u8. rewrite Z.mod_small by lia.
      wp_step. eapply wp_mono; [apply tty_quiet; apply Hp1|]. intros [] k2 [[Q1 Q2 Q3 Q4] HT2]. wp_step. cbv beta iota.
      eapply wp_mono; [apply (IH (tr ++ [c]) q' e' k2 (Some 0))|].
      * destruct Hp1 as [P1 P2 P3 _ P5]. split; [congruence|congruence|congruence|exact HT2|congruence].
      * exact He'.
      * exact Hq'.
      * cbn in Hlen. lia.
      * done.
      * intros o k3 (e3 & st & -> & Hp3 & Hst). exists e3, st. split; [done|]. cbn. rewrite <- app_assoc in Hp3. by split.
    + rewrite bool_decide_eq_false_2 by (unfold UART_ERR_NONE; congruence). wp_step. cbv beta iota. wp_step.
      exists e, e'. split; [done|]. cbn. rewrite app_nil_r, (proj2 (Z.eqb_neq e 0) Hne). by split.
Qed.

(** C36: one interrupt of the serial port in the linked kernel, on a port that works as the manual of the PL011 says.  It returns,
    with every received character taken from the port up to the point [serve] names: while the status is clear they go to the
    terminal in order; the status is read before the character it belongs to, so an error is seen with the character after the
    faulty one, which is dropped, and the rest stays in the queue.  Nothing is lost on an error-free line. *)
Theorem uart_interrupt_correct fuel irq tr q e k : port (uart_irq_cnt k) tr q e k -> 0 <= e < 16 -> bits_ok q -> (length q < fuel)%nat ->
  uart_irq_cnt k + 1 < 2 ^ 31 ->
  let r := serve e q in
  exists k', uart_irq_callback_main fuel tty irq k = Done (tt, k') /\ port (uart_irq_cnt k + 1) (tr ++ r.1.1) r.1.2 r.2 k' /\
    (e = 0 -> Forall (fun x => x.2 = 0) q -> r = (q.*1, [], 0)).
Proof using T_read T_write tty_quiet.
  intros Hp He Hq Hlen Hcnt r. set (cnt := uart_irq_cnt k + 1) in *.
  assert (Hwp : wp (uart_irq_callback_main fuel tty irq) (fun _ k' => port cnt (tr ++ r.1.1) r.1.2 r.2 k') k).
  { unfold uart_irq_callback_main. do 3 wp_step. wp_step; [by apply Z.ltb_lt|]. do 2 wp_step. fold cnt.
    set (k0 := set_uart_irq_cnt cnt k). assert (Hp0 : port cnt tr q e k0) by (destruct Hp as [P1 P2 P3 P4 P5]; split; done).
    wp_step. eapply wp_rx_flag; [exact Hp0|reflexivity|]. intros k1 Hp1. case_bool_decide as Hemp; cbn [negb].
    - wp_step. eapply wp_mono; [apply (wp_drain fuel cnt tr q e k1 None); done|]. intros err k2 (e2 & st & -> & Hp2 & Hst).
      wp_step. eapply wp_of_option; [reflexivity|]. change UART_ERR_NONE with 0. destruct (e2 =? 0); cbn [negb].
      + wp_step. by rewrite Hst in Hp2.
      + unfold on_board, uart_clear_error. wp_step. destruct Hp2 as [P1 P2 P3 P4 P5]. apply wp_uart_write; [exact P1|].
        destruct (pl_clear (k_dev k2) 0x0F) as [C1 C2].
        split; [exact P1|exact (eq_trans C1 P2)|exact (eq_trans C2 (eq_sym Hst))|by apply T_write|exact P5].
    - wp_step. unfold r. rewrite Hemp in *. cbn. by rewrite app_nil_r. }
  destruct (wp_done _ _ _ Hwp) as ([] & k' & Hrun & Hk'). exists k'. split; [exact Hrun|]. split; [exact Hk'|].
  intros -> Hclean. unfold r. clear -Hclean. induction Hclean as [|[c e] q He _ IH]; [done|]. cbn in He |- *. subst e. by rewrite IH.
Qed.
End linked_uart.

(** A port with a queue, and a terminal that keeps what it is given. *)
Record sim_uart := SimUart { su_queue : list (Z * Z); su_status : Z; su_trace : list Z }.
Definition uart_at : Z := 0x9000000.
#[local] Instance sim_uart_mmio : Mmio sim_uart := {
  mmio_read a d :=
    if a =? add64 uart_at UART_FR then (match su_queue d with [] => UART_FR_RXFE | _ => 0 end, d)
    else if a =? add64 uart_at UART_RSR_ECR then (su_status d, d)
    else if a =? add64 uart_at UART_DR then
      match su_queue d with (c, e) :: q => (Z.land c 0xFF, SimUart q e (su_trace d)) | [] => (0, d) end
    else (0, d);
  mmio_write a v d := if a =? add64 uart_at UART_RSR_ECR then SimUart (su_queue d) 0 (su_trace d) else d;
}.
Definition bytes_only (d : sim_uart) : list (Z * Z) := (fun x => (Z.land x.1 0xFF, x.2)) <$> su_queue d.
#[local] Instance sim_pl011 : Pl011 sim_uart uart_at.
Proof.
  refine {| received := bytes_only; rx_status := su_status |}; unfold bytes_only.
  - intros [[|x q] st tr]; reflexivity.
  - intros d; split; reflexivity.
  - intros d; reflexivity.
  - intros d; split; reflexivity.
  - intros d v; split; reflexivity.
  - intros [[|[c' e'] q'] st tr] c e q E; [discriminate E|]. cbn -[Z.land] in E. injection E as <- <- <-. split; [|split; reflexivity].
    change (Z.land (Z.land c' 0xFF) 0xFF = Z.land c' 0xFF). by rewrite <- Z.land_assoc.
Defined.

Definition sim_tty (c : Z) : M (kernel sim_uart) unit :=
  modify (fun k => put_dev (SimUart (su_queue (k_dev k)) (su_status (k_dev k)) (su_trace (k_dev k) ++ [c])) k).
Definition uart_kernel (h : slab) (q : list (Z * Z)) : kernel sim_uart :=
  let k := sample_kernel h (SimUart q 0 []) ∅ 0 in set_board (set_uart_base uart_at (k_board k)) k.

(** Four characters, the second with a framing error: the third is lost, the fourth waits. *)
Lemma uart_interrupt_correct_witness : exists (h : slab) (k' : kernel sim_uart),
  uart_irq_callback_main 5 sim_tty 33 (uart_kernel h [(104, 0); (105, 1); (106, 0); (107, 0)]) = Done (tt, k') /\
  su_trace (k_dev k') = [104; 105] /\ received (k_dev k') = [(107, 0)].
Proof.
  destruct sample_object as (_ & h & _). exists h. set (k := uart_kernel h [(104, 0); (105, 1); (106, 0); (107, 0)]).
  destruct (uart_interrupt_correct uart_at (fun tr d => su_trace d = tr) sim_tty) with (fuel := 5%nat) (irq := 33) (tr := @nil Z)
    (q := [(104, 0); (105, 1); (106, 0); (107, 0)]) (e := 0) (k := k) as (k' & Hrun & [_ Hq _ HT _] & _).
  - intros tr r d <-. cbn. repeat case_match; reflexivity.
  - intros tr r v d <-. cbn. case_match; reflexivity.
  - intros tr c k0 <-. apply wp_modify. split; [split; reflexivity|reflexivity].
  - split; reflexivity.
  - lia.
  - unfold bits_ok. repeat constructor; cbn; lia.
  - cbn. lia.
  - reflexivity.
  - exists k'. split; [exact Hrun|]. split; [exact HT|exact Hq].
Defined.
