(* ===== verification/BootProps.v ===== *)
(** What the boot page tables translate ([arch/arm64/boot/bootc.c]). *)
From S2P Require Import Prelude Mmu MmuTheory Boot.

(** Every entry of every table holds what [f] says. *)
Definition filled (t : tables) (f : boot_table -> Z -> Z -> Z) : Prop :=
  forall T i j, slot_ok T i j = true -> t !! Slot T i j = Some (f T i j).

Lemma wp_set_entry (T : boot_table) (i j v : Z) (Q : unit -> tables -> Prop) (t : tables) : slot_ok T i j = true -> Q tt (<[Slot T i j := v]> t) ->
  wp (set_entry T i j v) Q t.
Proof. intros Hok HQ. unfold set_entry. wp_step. wp_step; [exact Hok|]. by wp_step. Qed.

Lemma filled_set (t : tables) (f : boot_table -> Z -> Z -> Z) (T : boot_table) (i j v : Z) : filled t f ->
  filled (<[Slot T i j := v]> t) (fun T' i' j' => if decide (Slot T i j = Slot T' i' j') then v else f T' i' j').
Proof. intros Hf T' i' j' Hok. rewrite lookup_insert. case_decide as E; [done|by apply Hf]. Qed.

Lemma filled_ext (t : tables) (f g : boot_table -> Z -> Z -> Z) : filled t f -> (forall T i j, slot_ok T i j = true -> f T i j = g T i j) -> filled t g.
Proof. intros Hf Hfg T i j Hok. rewrite <- Hfg by exact Hok. by apply Hf. Qed.

(** Conditions on a table's name and its indices. *)
Ltac slot_cond := repeat match goal with H : _ /\ _ |- _ => destruct H end; split_and?; first [assumption|reflexivity|lia].

(** ** Clearing *)

(** The slots in [S] are clear. *)
Definition clear_on (t : tables) (S : boot_table -> Z -> Z -> Prop) : Prop := forall T i j, S T i j -> t !! Slot T i j = Some 0.

Lemma clear_on_set (t : tables) (S : boot_table -> Z -> Z -> Prop) (T : boot_table) (i j : Z) : clear_on t S -> clear_on (<[Slot T i j := 0]> t) (fun T' i' j' => S T' i' j' \/ (T', i', j') = (T, i, j)).
Proof. intros Hs T' i' j' Hin. rewrite lookup_insert. case_decide as E; [done|]. destruct Hin as [Hin|Hin]; [by apply Hs|congruence]. Qed.

Lemma clear_on_sub (t : tables) (S S' : boot_table -> Z -> Z -> Prop) : clear_on t S -> (forall T i j, S' T i j -> S T i j) -> clear_on t S'.
Proof. intros Hs Hsub T i j Hin. by apply Hs, Hsub. Qed.

(** Clearing the rows of some tables, slot by slot. *)
Lemma wp_clear_rows (Ts : list boot_table) (body : Z -> Z -> M tables unit) (n : Z) (S : boot_table -> Z -> Z -> Prop) (Q : unit -> tables -> Prop) (t : tables) :
  0 <= n -> (forall T, T ∈ Ts -> tables_of T = n) -> clear_on t S ->
  (forall (i j : Z) (S : boot_table -> Z -> Z -> Prop) (t : tables) (K : unit -> tables -> Prop), 0 <= i < n -> 0 <= j < TABLE_SIZE -> clear_on t S ->
     (forall t' : tables, clear_on t' (fun T' i' j' => S T' i' j' \/ T' ∈ Ts /\ i' = i /\ j' = j) -> K tt t') -> wp (body i j) K t) ->
  (forall t' : tables, clear_on t' (fun T i j => S T i j \/ T ∈ Ts /\ slot_ok T i j = true) -> Q tt t') ->
  wp (for_n (Z.to_nat n) 0 (fun i => for_n (Z.to_nat TABLE_SIZE) 0 (fun j => body i j))) Q t.
Proof.
  intros Hn HTs HS Hbody HQ.
  eapply wp_mono; [apply (wp_for_n (fun k t' => clear_on t' (fun T i j => S T i j \/ T ∈ Ts /\ 0 <= i < k /\ 0 <= j < TABLE_SIZE)))|].
  - eapply clear_on_sub; [exact HS|]. intros T i j [Hs|(_ & Hi & _)]; [exact Hs|lia].
  - intros k t1 Hk Ht1.
    eapply wp_mono; [apply (wp_for_n (fun c t' => clear_on t' (fun T i j =>
      (S T i j \/ T ∈ Ts /\ 0 <= i < k /\ 0 <= j < TABLE_SIZE) \/ T ∈ Ts /\ i = k /\ 0 <= j < c)))|].
    + eapply clear_on_sub; [exact Ht1|]. intros T i j [Hs|(_ & _ & Hj)]; [exact Hs|lia].
    + intros c t2 Hc Ht2. apply (Hbody k c _ t2 _ ltac:(lia) ltac:(lia) Ht2). intros t3 Ht3.
      eapply clear_on_sub; [exact Ht3|]. intros T i j [Hs|(HT & -> & Hj)]; [left; by left|].
      destruct (decide (j = c)) as [->|]; [by right|left; right]. split; [exact HT|]. lia.
    + intros [] t2 Ht2. eapply clear_on_sub; [exact Ht2|]. intros T i j [Hs|(HT & Hi & Hj)]; [left; by left|].
      destruct (decide (i = k)) as [->|]; [right|left; right]; (split; [exact HT|]); unfold TABLE_SIZE in *; lia.
  - intros [] t' Ht'. apply HQ. eapply clear_on_sub; [exact Ht'|]. intros T i j [Hs|(HT & Hok)]; [by left|].
    right. split; [exact HT|]. unfold slot_ok in Hok. rewrite (HTs T HT) in Hok. lia.
Qed.

Lemma wp_clear_page_tables (Q : unit -> tables -> Prop) (t : tables) : (forall t' : tables, filled t' (fun _ _ _ => 0) -> Q tt t') ->
  wp clear_page_tables Q t.
Proof.
  intros HQ. unfold clear_page_tables, clear_tables. wp_step.
  apply (wp_clear_rows [Ttbr0L0; Ttbr1L0] _ L0_TABLES_NEEDED (fun _ _ _ => False)); [unfold L0_TABLES_NEEDED; lia|set_solver|by intros ? ? ? []| |].
  { intros i j S t1 K Hi Hj Ht1 HK. assert (Hok : forall T, T = Ttbr0L0 \/ T = Ttbr1L0 -> slot_ok T i j = true).
    { intros T [-> | ->]; unfold slot_ok, tables_of; lia. }
    wp_step. apply wp_set_entry; [apply Hok; by left|]. apply wp_set_entry; [apply Hok; by right|]. apply HK.
    eapply clear_on_sub; [apply clear_on_set, clear_on_set; exact Ht1|]. intros T' i' j' [Hs|(HT & -> & ->)]; [left; by left|].
    apply elem_of_cons in HT as [->|HT]; [left; by right|]. apply list_elem_of_singleton in HT as ->. by right. }
  intros t1 Ht1.
  assert (Hone : forall (T : boot_table) (S : boot_table -> Z -> Z -> Prop) (t : tables) (K : unit -> tables -> Prop), 0 <= tables_of T -> clear_on t S ->
    (forall t' : tables, clear_on t' (fun T' i j => S T' i j \/ T' ∈ [T] /\ slot_ok T' i j = true) -> K tt t') ->
    wp (for_n (Z.to_nat (tables_of T)) 0 (fun i => for_n (Z.to_nat TABLE_SIZE) 0 (fun j => set_entry T i j 0))) K t).
  { intros T S t0 K Hn Ht0 HK. apply (wp_clear_rows [T] (fun i j => set_entry T i j 0) _ S); [exact Hn|set_solver|exact Ht0| |exact HK].
    intros i j S' t' K' Hi Hj Ht' HK'. apply wp_set_entry; [unfold slot_ok; lia|]. apply HK'.
    eapply clear_on_sub; [apply clear_on_set; exact Ht'|]. intros T' i' j' [Hs|(HT & -> & ->)]; [by left|].
    apply list_elem_of_singleton in HT as ->. by right. }
  wp_step. eapply Hone; [vm_compute; discriminate|exact Ht1|]. intros t2 Ht2.
  wp_step. eapply Hone; [vm_compute; discriminate|exact Ht2|]. intros t3 Ht3.
  eapply Hone; [vm_compute; discriminate|exact Ht3|]. intros t4 Ht4. apply HQ. intros T i j Hok. apply Ht4. 
  assert (HT : T ∈ [Ttbr0L0; Ttbr1L0] \/ T ∈ [L1Table] \/ T ∈ [L2Table] \/ T ∈ [L3Tables]).
  { rewrite !elem_of_cons. destruct T; tauto. }
  tauto.
Qed.

(** ** Linking *)

(** The entries that link the tables of [lower] into table 0 of [upper]. *)
Definition linked (base : boot_table -> Z) (upper : boot_table) (index : Z) (lower : boot_table) (n : Z)
    (f : boot_table -> Z -> Z -> Z) (T : boot_table) (i j : Z) : Z :=
  if decide (T = upper /\ i = 0 /\ index <= j < index + n) then table_entry (table_pa base lower (j - index)) else f T i j.

Lemma wp_link_tables (base : boot_table -> Z) upper index lower f (Q : unit -> tables -> Prop) (t : tables) :
  0 <= index -> 0 <= tables_of lower -> index + tables_of lower <= TABLE_SIZE -> 0 < tables_of upper -> filled t f ->
  (forall t' : tables, filled t' (linked base upper index lower (tables_of lower) f) -> Q tt t') ->
  wp (link_tables base upper index lower) Q t.
Proof.
  unfold TABLE_SIZE. intros Hi Hn Hfit Hu Hf HQ. unfold link_tables, TABLE_SIZE.
  eapply wp_mono; [apply (wp_for_n (fun k t' => filled t' (linked base upper index lower k f)))|].
  - eapply filled_ext; [exact Hf|]. intros T i j _. unfold linked. rewrite decide_False by (intros ?; destruct_and!; lia). done.
  - intros k t1 Hk Ht1. rewrite Z.div_small, Z.mod_small by lia.
    apply wp_set_entry; [unfold slot_ok, TABLE_SIZE; lia|].
    eapply filled_ext; [apply filled_set; exact Ht1|]. intros T i j Hok. unfold linked. case_decide as E.
    + injection E as <- <- <-. rewrite decide_True by slot_cond. do 2 f_equal. lia.
    + destruct (decide (T = upper /\ i = 0 /\ index <= j < index + k)) as [Hd|Hd]; [rewrite decide_True by slot_cond; done|].
      rewrite decide_False; [done|]. intros (-> & -> & Hj). destruct (decide (j = index + k)) as [->|Hne]; [done|].
      apply Hd. slot_cond.
  - intros [] t' Ht'. apply HQ. rewrite Z2Nat.id in Ht' by lia. exact Ht'.
Qed.

(** ** The last level *)

Definition page_entry (n : Z) : Z := Z.lor mem_attr (PHYS_BASE + 4096 * n).
Definition NPAGES : Z := TOTAL_MEM_SIZE / 4096.

(** Page [i * 512 + j] of RAM, for the first [n] slots. *)
Definition mapped_pages (n : Z) (f : boot_table -> Z -> Z -> Z) (T : boot_table) (i j : Z) : Z :=
  if decide (T = L3Tables /\ i * 512 + j < n) then page_entry (i * 512 + j) else f T i j.

Lemma wp_init_l3_table f (Q : unit -> tables -> Prop) (t : tables) : filled t f ->
  (forall t' : tables, filled t' (mapped_pages NPAGES f) -> Q tt t') -> wp init_l3_table Q t.
Proof.
  intros Hf HQ. unfold init_l3_table. wp_step.
  change L3_TABLES_NEEDED with 129 in *. change TABLE_SIZE with 512 in *. change TOTAL_MEM_SIZE with 268435456.
  change NPAGES with 65536 in *.
  apply (wp_loop (fun '(a, b, mb) t' => exists n, n = a * 512 + b /\ 0 <= a <= 129 /\ 0 <= b < 512 /\ (a = 129 -> b = 0) /\
      mb = 4096 * Z.min n 65536 /\ filled t' (mapped_pages (Z.min n 65536) f))
    (fun '(a, b, _) _ => Z.to_nat (129 * 512 - (a * 512 + b)))).
  - exists 0. split; [lia|]. split; [lia|]. split; [lia|]. split; [lia|]. split; [lia|].
    eapply filled_ext; [exact Hf|]. intros T i j Hok. unfold mapped_pages. unfold slot_ok, TABLE_SIZE in Hok.
    rewrite decide_False by (intros ?; destruct_and!; lia). done.
  - lia.
  - intros [[a b] mb] t1 (n & -> & Ha & Hb & Hab & -> & Ht1). destruct (Z.leb_spec 129 a); wp_step.
    { wp_step. apply HQ. assert (a = 129) as -> by lia. rewrite (Hab eq_refl) in Ht1. exact Ht1. }
    assert (Hnext : forall t2 : tables, filled t2 (mapped_pages (Z.min (a * 512 + b + 1) 65536) f) ->
      wp (mret (inl (if b + 1 <? 512 then (a, b + 1, 4096 * Z.min (a * 512 + b + 1) 65536)
                     else (a + 1, 0, 4096 * Z.min (a * 512 + b + 1) 65536))))
        (fun (r : Z * Z * Z + ()) (s' : tables) => match r with
          | inl a' => (let '(a, b, mb) := a' in fun t' : tables => exists n, n = a * 512 + b /\ 0 <= a <= 129 /\ 0 <= b < 512 /\
              (a = 129 -> b = 0) /\ mb = 4096 * Z.min n 65536 /\ filled t' (mapped_pages (Z.min n 65536) f)) s' /\
              ((let '(a, b, _) := a' in fun _ : tables => Z.to_nat (129 * 512 - (a * 512 + b))) s' <
               Z.to_nat (129 * 512 - (a * 512 + b)))%nat
          | inr b => wp (mret ()) Q s' end) t2).
    { intros t2 Ht2. wp_step. destruct (Z.ltb_spec (b + 1) 512).
      - split; [|lia]. exists (a * 512 + b + 1). split; [lia|]. split; [lia|]. split; [lia|]. split; [lia|]. by split.
      - split; [|lia]. exists (a * 512 + b + 1). split; [lia|]. split; [lia|]. split; [lia|]. split; [lia|]. by split. }
    destruct (Z.ltb_spec (4096 * Z.min (a * 512 + b) 65536) 268435456).
    + assert (Hmin : Z.min (a * 512 + b) 65536 = a * 512 + b) by lia. rewrite Hmin in *.
      wp_step. apply wp_set_entry; [unfold slot_ok, tables_of; change L3_TABLES_NEEDED with 129; change TABLE_SIZE with 512; lia|].
      wp_step. replace (4096 * (a * 512 + b) + 4096) with (4096 * Z.min (a * 512 + b + 1) 65536) by lia. apply Hnext.
      eapply filled_ext; [apply filled_set; exact Ht1|]. intros T i j Hok. unfold mapped_pages.
      unfold slot_ok in Hok. change TABLE_SIZE with 512 in Hok. case_decide as E.
      * injection E as <- <- <-. rewrite decide_True by slot_cond. unfold page_entry. f_equal.
        unfold PHYS_BASE. rewrite add64_small by lia. change 0xFFF with (2 ^ 12 - 1).
        rewrite land_not_mask by (unfold is_u64; lia). change (2 ^ 12) with 4096. lia.
      * destruct (decide (T = L3Tables /\ i * 512 + j < a * 512 + b)) as [Hd|Hd]; [rewrite decide_True by slot_cond; done|].
        rewrite decide_False; [done|]. intros (-> & Hj). destruct (decide (i = a /\ j = b)) as [[-> ->]|Hne]; [done|].
        apply Hd. slot_cond.
    + wp_step. replace (Z.min (a * 512 + b) 65536) with (Z.min (a * 512 + b + 1) 65536) in * by lia. by apply Hnext.
Qed.

(** ** All tables *)

Section boot_map.
Context (base : boot_table -> Z).

Definition boot_entry (T : boot_table) (i j : Z) : Z :=
  match T with
  | Ttbr0L0 => if j =? 0 then table_entry (table_pa base L1Table 0) else 0
  | Ttbr1L0 => if j =? 256 then table_entry (table_pa base L1Table 0) else 0
  | L1Table => if j =? 1 then table_entry (table_pa base L2Table 0) else 0
  | L2Table => if j <? L3_TABLES_NEEDED then table_entry (table_pa base L3Tables j) else 0
  | L3Tables => if i * 512 + j <? NPAGES then page_entry (i * 512 + j) else 0
  end.

Lemma slot_ok_bounds T i j : slot_ok T i j = true -> 0 <= i < tables_of T /\ 0 <= j < 512.
Proof. unfold slot_ok, TABLE_SIZE. lia. Qed.

Lemma wp_init_page_tables (Q : unit -> tables -> Prop) (t : tables) : (forall t' : tables, filled t' boot_entry -> Q tt t') ->
  wp (init_page_tables base) Q t.
Proof.
  intros HQ. unfold init_page_tables, init_l0_tables, init_l1_table, init_l2_table.
  wp_step. apply wp_clear_page_tables. intros t0 H0. do 2 wp_step.
  apply (wp_link_tables base _ _ _ (fun _ _ _ => 0)); [vm_compute; congruence..|exact H0|]. intros t1 H1.
  apply wp_set_entry; [reflexivity|]. apply filled_set with (T := Ttbr0L0) (i := 0) (j := 0)
    (v := table_entry (table_pa base L1Table 0)) in H1.
  wp_step. eapply wp_link_tables; [vm_compute; congruence..|exact H1|]. intros t2 H2.
  wp_step. eapply wp_link_tables; [vm_compute; congruence..|exact H2|]. intros t3 H3.
  eapply wp_init_l3_table; [exact H3|]. intros t4 H4. apply HQ. eapply filled_ext; [exact H4|].
  intros T i j Hok. apply slot_ok_bounds in Hok as [Hi Hj]. unfold mapped_pages, linked.
  change (tables_of L3Tables) with 129. change (tables_of L2Table) with 1 in *. change (tables_of L1Table) with 1 in *.
  change L2_INDEX_BASE with 0. change L1_INDEX_BASE with 1. change L0_INDEX_BASE with 256.
  assert (Hi1 : T <> L3Tables -> i = 0).
  { destruct T; cbn in Hi; unfold L0_TABLES_NEEDED in Hi; change L1_TABLES_NEEDED with 1 in Hi; change L2_TABLES_NEEDED with 1 in Hi; intros; [lia..|done]. }
  unfold boot_entry. change L3_TABLES_NEEDED with 129 in *.
  assert (Hno : forall U V : boot_table, U <> V -> forall P : Prop, ~ (U = V /\ P)) by (intros U V Hne P [E _]; by apply Hne).
  assert (Hslot : forall U, U <> Ttbr0L0 -> Slot Ttbr0L0 0 0 <> Slot U i j) by (intros U Hne [= E _ _]; by apply Hne).
  destruct T; try specialize (Hi1 ltac:(discriminate)); subst;
    repeat first [rewrite (decide_False (P := _ = _ /\ _)) by (apply Hno; discriminate)
                 |rewrite (decide_False (P := _ = Slot _ _ _)) by (apply Hslot; discriminate)].
  - destruct (Z.eqb_spec j 0) as [->|Hne]; [by rewrite decide_True|]. rewrite decide_False; [done|]. intros [= ?]. by apply Hne.
  - destruct (Z.eqb_spec j 256) as [->|Hne]; [by rewrite decide_True|]. rewrite decide_False; [done|]. intros ?. lia.
  - destruct (Z.eqb_spec j 1) as [->|Hne]; [by rewrite decide_True|]. rewrite decide_False; [done|]. intros ?. lia.
  - destruct (Z.ltb_spec j 129); [rewrite decide_True by slot_cond; do 2 f_equal; lia|]. rewrite decide_False; [done|]. intros ?. lia.
  - destruct (Z.ltb_spec (i * 512 + j) NPAGES); [by rewrite decide_True by slot_cond|]. rewrite decide_False; [done|]. intros ?. lia.
Qed.

(** ** Translation *)

(** The linker places the arrays in RAM: page-aligned, without overlap. *)
Record placed : Prop := {
  pl_align T : base T mod 4096 = 0;
  pl_range T : 0 <= base T /\ base T + tables_of T * 4096 <= 2 ^ 48;
  pl_disj T T' : T <> T' -> base T + tables_of T * 4096 <= base T' \/ base T' + tables_of T' * 4096 <= base T;
}.
Context (Hpl : placed).

(** The word at the physical address [a]. *)
Definition word_at (t : tables) (a v : Z) : Prop :=
  exists T i j, slot_ok T i j = true /\ a = table_pa base T i + 8 * j /\ t !! Slot T i j = Some v.

(** The walk the MMU makes from a root table: three valid table entries and a valid page entry. *)
Inductive translates (t : tables) (root va pa : Z) : Prop :=
| Translates e0 e1 e2 e3 :
    word_at t (root + 8 * L0_INDEX va) e0 -> Z.land e0 3 = 3 ->
    word_at t (pte_to_phys e0 + 8 * L1_INDEX va) e1 -> Z.land e1 3 = 3 ->
    word_at t (pte_to_phys e1 + 8 * L2_INDEX va) e2 -> Z.land e2 3 = 3 ->
    word_at t (pte_to_phys e2 + 8 * L3_INDEX va) e3 -> Z.land e3 3 = 3 ->
    pa = pte_to_phys e3 + va mod 4096 -> translates t root va pa.

Lemma word_at_entry t T i j v : filled t boot_entry -> slot_ok T i j = true ->
  word_at t (table_pa base T i + 8 * j) v <-> v = boot_entry T i j.
Proof.
  intros Hf Hok. split.
  - intros (T' & i' & j' & Hok' & Ha & Hv). rewrite (Hf _ _ _ Hok') in Hv. injection Hv as <-.
    apply slot_ok_bounds in Hok as [Hi Hj]. apply slot_ok_bounds in Hok' as [Hi' Hj']. unfold table_pa in Ha.
    destruct (decide (T = T')) as [<-|Hne].
    + assert (i = i' /\ j = j') as [-> ->] by lia. done.
    + destruct (pl_disj Hpl T T' Hne); lia.
  - intros ->. exists T, i, j. split; [exact Hok|]. split; [done|]. by apply Hf.
Qed.

(** Attribute bits and an aligned address do not meet. *)
Lemma entry_bits attr pa : 0 <= pa < 2 ^ 48 -> pa mod 4096 = 0 -> Z.land attr ARM64_PTE_ADDR_MASK = 0 ->
  Z.land (Z.lor attr pa) 3 = Z.land attr 3 /\ pte_to_phys (Z.lor attr pa) = pa.
Proof.
  intros Hr Hm Ha. unfold pte_to_phys. rewrite !Z.land_lor_distr_l, Ha, land_addr_mask by done.
  change 3 with (2 ^ 2 - 1) at 2. rewrite (land_mask pa) by lia. change (2 ^ 2) with 4.
  replace (pa mod 4) with 0 by lia. rewrite Z.lor_0_r, Z.lor_0_l. done.
Qed.

Lemma table_entry_bits pa : 0 <= pa < 2 ^ 48 -> pa mod 4096 = 0 ->
  Z.land (table_entry pa) 3 = 3 /\ pte_to_phys (table_entry pa) = pa.
Proof.
  intros Hr Hm. unfold table_entry. change 0xFFF with (2 ^ 12 - 1). rewrite land_not_mask by (unfold is_u64; lia).
  change (2 ^ 12) with 4096. rewrite Hm, Z.sub_0_r. by apply entry_bits.
Qed.

Lemma page_entry_bits n : 0 <= n < NPAGES -> Z.land (page_entry n) 3 = 3 /\ pte_to_phys (page_entry n) = PHYS_BASE + 4096 * n.
Proof.
  intros Hn. unfold page_entry. change NPAGES with 65536 in Hn. unfold PHYS_BASE. apply entry_bits; [lia|lia|reflexivity].
Qed.

Lemma table_pa_range T i : 0 <= i < tables_of T -> 0 <= table_pa base T i < 2 ^ 48 /\ table_pa base T i mod 4096 = 0.
Proof. intros Hi. unfold table_pa. pose proof (pl_range Hpl T). pose proof (pl_align Hpl T). lia. Qed.

(** One level of the walk: the table entry at index [j] of table [i] of [T] leads to table [i'] of [T']. *)
Lemma word_at_link t T i j T' i' : filled t boot_entry -> slot_ok T i j = true -> 0 <= i' < tables_of T' ->
  boot_entry T i j = table_entry (table_pa base T' i') ->
  exists e, word_at t (table_pa base T i + 8 * j) e /\ Z.land e 3 = 3 /\ pte_to_phys e = table_pa base T' i'.
Proof.
  intros Hf Hok Hi' He. destruct (table_pa_range T' i' Hi') as [Hr Hm]. destruct (table_entry_bits _ Hr Hm) as [Hv Hp].
  exists (boot_entry T i j). split; [by apply word_at_entry|]. by rewrite He.
Qed.

Lemma index_range va : 0 <= L0_INDEX va < 512 /\ 0 <= L1_INDEX va < 512 /\ 0 <= L2_INDEX va < 512 /\ 0 <= L3_INDEX va < 512.
Proof.
  unfold L0_INDEX, L1_INDEX, L2_INDEX, L3_INDEX. change 0x1FF with (2 ^ 9 - 1). rewrite !land_mask by lia.
  change (2 ^ 9) with 512. lia.
Qed.

(** The walk from a root whose only entry [r] links the first L1 table. *)
Lemma translates_iff t root r va pa : filled t boot_entry -> root = Ttbr0L0 /\ r = 0 \/ root = Ttbr1L0 /\ r = 256 ->
  translates t (base root) va pa <->
  L0_INDEX va = r /\ L1_INDEX va = 1 /\ L2_INDEX va * 512 + L3_INDEX va < NPAGES /\
  pa = PHYS_BASE + 4096 * (L2_INDEX va * 512 + L3_INDEX va) + va mod 4096.
Proof.
  intros Hf Hroot. destruct (index_range va) as (H0 & H1 & H2 & H3).
  assert (Hr0 : boot_entry root 0 (L0_INDEX va) = if L0_INDEX va =? r then table_entry (table_pa base L1Table 0) else 0).
  { by destruct Hroot as [[-> ->]|[-> ->]]. }
  assert (Hok : forall T j, 0 <= j < 512 -> 0 < tables_of T -> slot_ok T 0 j = true) by (intros T j Hj HT; unfold slot_ok, TABLE_SIZE; lia).
  assert (Hokr : slot_ok root 0 (L0_INDEX va) = true) by (destruct Hroot as [[-> ->]|[-> ->]]; by apply Hok).
  assert (Hbase : forall T, base T = table_pa base T 0) by (intros T; unfold table_pa; lia).
  assert (Hn1 : 0 <= 0 < tables_of L1Table) by done. assert (Hn2 : 0 <= 0 < tables_of L2Table) by done.
  destruct (table_pa_range _ _ Hn1) as [Hr1 Hm1]. destruct (table_pa_range _ _ Hn2) as [Hr2 Hm2].
  change NPAGES with 65536. split.
  - intros [e0 e1 e2 e3 W0 V0 W1 V1 W2 V2 W3 V3 ->]. rewrite Hbase in W0. apply word_at_entry in W0 as ->; [|done|done].
    rewrite Hr0 in *. destruct (Z.eqb_spec (L0_INDEX va) r) as [Hi0|]; [|done].
    rewrite (proj2 (table_entry_bits _ Hr1 Hm1)) in W1. apply word_at_entry in W1 as ->; [|done|by apply Hok].
    cbn [boot_entry] in *. destruct (Z.eqb_spec (L1_INDEX va) 1) as [Hi1|]; [|done].
    rewrite (proj2 (table_entry_bits _ Hr2 Hm2)) in W2. apply word_at_entry in W2 as ->; [|done|by apply Hok].
    cbn [boot_entry] in *. destruct (Z.ltb_spec (L2_INDEX va) L3_TABLES_NEEDED) as [Hi2|]; [|done].
    assert (Hn3 : 0 <= L2_INDEX va < tables_of L3Tables) by (split; [lia|exact Hi2]).
    destruct (table_pa_range _ _ Hn3) as [Hr3 Hm3]. rewrite (proj2 (table_entry_bits _ Hr3 Hm3)) in W3.
    apply word_at_entry in W3 as ->; [|done|unfold slot_ok, TABLE_SIZE; lia].
    cbn [boot_entry] in *. change NPAGES with 65536 in *.
    destruct (Z.ltb_spec (L2_INDEX va * 512 + L3_INDEX va) 65536) as [Hi3|]; [|done].
    rewrite (proj2 (page_entry_bits (L2_INDEX va * 512 + L3_INDEX va) ltac:(change NPAGES with 65536; lia))). by split_and!.
  - intros (Hi0 & Hi1 & Hi3 & ->). assert (Hi2 : L2_INDEX va < 129) by lia.
    destruct (word_at_link t root 0 (L0_INDEX va) L1Table 0 Hf Hokr Hn1) as (e0 & W0 & V0 & P0); [by rewrite Hr0, Hi0, Z.eqb_refl|].
    destruct (word_at_link t L1Table 0 (L1_INDEX va) L2Table 0 Hf) as (e1 & W1 & V1 & P1); [by apply Hok|done|cbn; by rewrite Hi1|].
    destruct (word_at_link t L2Table 0 (L2_INDEX va) L3Tables (L2_INDEX va) Hf) as (e2 & W2 & V2 & P2);
      [by apply Hok|change (tables_of L3Tables) with 129; lia|cbn; change L3_TABLES_NEEDED with 129; by test_true|].
    destruct (page_entry_bits (L2_INDEX va * 512 + L3_INDEX va)) as [V3 P3]; [change NPAGES with 65536; lia|].
    eapply (Translates _ _ _ _ e0 e1 e2 (page_entry (L2_INDEX va * 512 + L3_INDEX va))).
    + by rewrite Hbase. + exact V0. + by rewrite P0. + exact V1. + by rewrite P1. + exact V2.
    + rewrite P2. apply word_at_entry; [done| |].
      * unfold slot_ok, TABLE_SIZE. change (tables_of L3Tables) with 129. lia.
      * cbn. change NPAGES with 65536. by test_true.
    + exact V3.
    + by rewrite P3.
Qed.
End boot_map.

(** An address from its indices. *)
Lemma index_step va k k' : 0 <= k -> k' = k + 9 -> va / 2 ^ k = 2 ^ 9 * (va / 2 ^ k') + va / 2 ^ k mod 2 ^ 9.
Proof. intros Hk ->. rewrite Z.pow_add_r, <- Z.div_div by lia. apply Z.div_mod. discriminate. Qed.

Lemma va_indices va : va = va / 2 ^ 48 * 2 ^ 48 + L0_INDEX va * 2 ^ 39 + L1_INDEX va * 2 ^ 30 + L2_INDEX va * 2 ^ 21 +
  L3_INDEX va * 2 ^ 12 + va mod 4096.
Proof.
  unfold L0_INDEX, L1_INDEX, L2_INDEX, L3_INDEX, shr64. change 0x1FF with (2 ^ 9 - 1).
  rewrite !land_mask, !Z.shiftr_div_pow2 by lia.
  pose proof (Z.div_mod va 4096 ltac:(discriminate)) as E0. change (va / 4096) with (va / 2 ^ 12) in E0.
  pose proof (index_step va 12 21 ltac:(discriminate) eq_refl) as E1. pose proof (index_step va 21 30 ltac:(discriminate) eq_refl) as E2.
  pose proof (index_step va 30 39 ltac:(discriminate) eq_refl) as E3. pose proof (index_step va 39 48 ltac:(discriminate) eq_refl) as E4.
  revert E0 E1 E2 E3 E4.
  generalize (va mod 4096) (va / 2 ^ 12 mod 2 ^ 9) (va / 2 ^ 21 mod 2 ^ 9) (va / 2 ^ 30 mod 2 ^ 9) (va / 2 ^ 39 mod 2 ^ 9).
  generalize (va / 2 ^ 12) (va / 2 ^ 21) (va / 2 ^ 30) (va / 2 ^ 39) (va / 2 ^ 48). lia.
Qed.

(** The addresses whose walk ends in RAM: below entry [r] of an L0 table, in the half of the addresses [q] names. *)
Lemma ram_indices q r va pa : 0 <= r < 512 -> q * 2 ^ 48 <= va < (q + 1) * 2 ^ 48 ->
  (L0_INDEX va = r /\ L1_INDEX va = 1 /\ L2_INDEX va * 512 + L3_INDEX va < NPAGES /\
   pa = PHYS_BASE + 4096 * (L2_INDEX va * 512 + L3_INDEX va) + va mod 4096) <->
  exists off, 0 <= off < TOTAL_MEM_SIZE /\ va = q * 2 ^ 48 + r * 2 ^ 39 + PHYS_BASE + off /\ pa = PHYS_BASE + off.
Proof.
  change NPAGES with 65536. change TOTAL_MEM_SIZE with 268435456. change PHYS_BASE with 0x40000000. intros Hr Hva. pose proof (va_indices va) as Hsplit. pose proof (index_range va) as (H0 & H1 & H2 & H3).
  pose proof (Z.mod_pos_bound va 4096 eq_refl) as Hlo.
  revert H0 H1 H2 H3 Hsplit Hlo. generalize (L0_INDEX va) (L1_INDEX va) (L2_INDEX va) (L3_INDEX va) (va mod 4096) (va / 2 ^ 48).
  intros i0 i1 i2 i3 lo q' H0 H1 H2 H3 Hsplit Hlo. assert (q' = q) as -> by lia. split.
  - intros (-> & -> & Hn & ->). exists (i2 * 2 ^ 21 + i3 * 2 ^ 12 + lo). lia.
  - intros (off & Ho & Hoff & ->). assert (i0 = r) as -> by lia. assert (i1 = 1) as -> by lia. lia.
Qed.

(** C33: [init_page_tables] returns from any contents of the tables, and the MMU translates exactly RAM with
    them: through TTBR1 the linear map, through TTBR0 the identity, and nothing else. *)
Theorem init_page_tables_correct base (t : tables) : placed base ->
  exists t' : tables, init_page_tables base t = Done (tt, t') /\
    (forall va pa, 2 ^ 64 - 2 ^ 48 <= va < 2 ^ 64 -> translates base t' (get_ttbr1_el1 base) va pa <->
       exists off, 0 <= off < TOTAL_MEM_SIZE /\ va = KERNEL_VIRT_BASE + PHYS_BASE + off /\ pa = PHYS_BASE + off) /\
    (forall va pa, 0 <= va < 2 ^ 48 -> translates base t' (get_ttbr0_el1 base) va pa <->
       exists off, 0 <= off < TOTAL_MEM_SIZE /\ va = PHYS_BASE + off /\ pa = PHYS_BASE + off).
Proof.
  intros Hpl. destruct (wp_done (init_page_tables base) (fun _ t' => filled t' (boot_entry base)) t) as ([] & t' & Hrun & Hf).
  { by apply wp_init_page_tables. }
  exists t'. split; [exact Hrun|].
  split; intros va pa Hva.
  - change KERNEL_VIRT_BASE with (65535 * 2 ^ 48 + 256 * 2 ^ 39).
    etransitivity; [exact (translates_iff base Hpl t' Ttbr1L0 256 va pa Hf (or_intror (conj eq_refl eq_refl)))|].
    apply ram_indices; [lia|exact Hva].
  - change (exists off, 0 <= off < TOTAL_MEM_SIZE /\ va = PHYS_BASE + off /\ pa = PHYS_BASE + off) with
      (exists off, 0 <= off < TOTAL_MEM_SIZE /\ va = 0 * 2 ^ 48 + 0 * 2 ^ 39 + PHYS_BASE + off /\ pa = PHYS_BASE + off).
    etransitivity; [exact (translates_iff base Hpl t' Ttbr0L0 0 va pa Hf (or_introl (conj eq_refl eq_refl)))|].
    apply ram_indices; [lia|exact Hva].
Qed.

Definition sample_base (T : boot_table) : Z :=
  match T with Ttbr0L0 => 0x40100000 | Ttbr1L0 => 0x40101000 | L1Table => 0x40102000 | L2Table => 0x40103000 | L3Tables => 0x40104000 end.

Lemma init_page_tables_correct_witness : placed sample_base /\ exists t' : tables,
  init_page_tables sample_base ∅ = Done (tt, t') /\
  translates sample_base t' (get_ttbr1_el1 sample_base) 0xFFFF800040123456 0x40123456.
Proof.
  assert (Hpl : placed sample_base).
  { split.
    - intros []; reflexivity.
    - intros []; vm_compute; split; congruence.
    - intros [] [] Hne; try (exfalso; apply Hne; reflexivity); vm_compute; first [left; congruence|right; congruence]. }
  split; [exact Hpl|]. destruct (init_page_tables_correct sample_base ∅ Hpl) as (t' & Hrun & Ht & _). exists t'. split; [exact Hrun|].
  apply Ht; [lia|]. exists 0x123456. unfold TOTAL_MEM_SIZE, KERNEL_VIRT_BASE, PHYS_BASE. lia.
Defined.
