(* ===== verification/Shell.v ===== *)
(** * The shell of user space

    [user_bin/shell.c] as an interaction tree: the shell talks to the kernel through system calls only
    and runs forever.  An event carries what the kernel may read (the bytes behind a pointer) and is
    answered by the value in [x0] and the stores the kernel made to the buffer it was given.  Arrays on
    the stack are lists of cells, [None] while they have no value; an access outside an array or to a
    cell without a value is the event [Undefined].

    The directory listing the kernel hands out ([rust/src/kernel/syscall.rs]) is modelled too, since the
    shell parses its bytes. *)
From S2P Require Import Prelude.
From ITree Require Import ITree ITreeFacts.
Local Open Scope Z_scope.

(** Sequences of the shell's statements. *)
Declare Scope shell_scope.
Notation "x <- t ;; k" := (ITree.bind t (fun x => k))
  (at level 100, t at next level, k at level 200, right associativity) : shell_scope.
Notation "' p <- t ;; k" := (ITree.bind t (fun y => match y with p => k end))
  (at level 100, p strict pattern, t at next level, k at level 200, right associativity) : shell_scope.
Notation "t ;; k" := (ITree.bind t (fun _ => k)) (at level 100, k at level 200, right associativity) : shell_scope.
Open Scope shell_scope.

(** ** System calls *)

Definition SYS_READ : Z := 63.
Definition SYS_WRITE : Z := 64.
Definition SYS_EXIT : Z := 93.
Definition SYS_OPENAT : Z := 56.
Definition SYS_CLOSE : Z := 57.
Definition SYS_FORK : Z := 220.
Definition SYS_WAIT4 : Z := 260.
Definition SYS_EXECVE : Z := 221.
Definition SYS_GETPID : Z := 172.
Definition SYS_CHDIR : Z := 49.
Definition SYS_MKDIRAT : Z := 34.
Definition SYS_UNLINKAT : Z := 35.
Definition SYS_DUP3 : Z := 24.
Definition SYS_GETDENTS64 : Z := 217.
Definition SYS_GETCWD : Z := 17.
Definition SYS_GETNAME : Z := 1000.

(** An argument: a number, bytes the kernel reads, a string it reads, a buffer of that size it fills. *)
Inductive arg := Imm (z : Z) | Data (bs : list Z) | Str (s : list Z) | Buf (size : Z).

(** The answer: the result, and the stores to the buffer as offsets and bytes, in order. *)
Definition answer : Type := Z * list (Z * Z).

Variant sysE : Type -> Type :=
| Svc (n : Z) (args : list arg) : sysE answer.
Variant ubE : Type -> Type :=
| Undefined : ubE Empty_set.

Notation shell := (itree (sysE +' ubE)).

Definition ub {A} : shell A := v <- trigger Undefined ;; match v : Empty_set with end.
Definition of_cell {A} (o : option A) : shell A := match o with Some a => Ret a | None => ub end.

Definition syscall3 (n : Z) (a0 a1 a2 : arg) : shell answer := trigger (Svc n [a0; a1; a2]).
(** A call that fills no buffer: only the result counts. *)
Definition syscall (n : Z) (a0 a1 a2 : arg) : shell Z := r <- syscall3 n a0 a1 a2 ;; Ret (fst r).

(** ** Arrays on the stack *)

Notation cells := (list (option Z)).

Definition fresh (size : nat) : cells := replicate size None.
Definition literal (s : list Z) : cells := (Some <$> s) ++ [Some 0].

Definition peek (b : cells) (i : Z) : option Z := if 0 <=? i then mjoin (b !! Z.to_nat i) else None.
Definition poke (b : cells) (i v : Z) : option cells :=
  if (0 <=? i) && (i <? Z.of_nat (length b)) then Some (<[Z.to_nat i := Some v]> b) else None.
(** [len] bytes from [off] on. *)
Definition slice (b : cells) (off len : Z) : option (list Z) :=
  if (0 <=? off) && (0 <=? len) && (off + len <=? Z.of_nat (length b))
  then mapM id (take (Z.to_nat len) (drop (Z.to_nat off) b)) else None.
(** What the kernel stored. *)
Fixpoint stored (b : cells) (sts : list (Z * Z)) : option cells :=
  match sts with
  | [] => Some b
  | (i, v) :: sts' => match poke b i v with Some b' => stored b' sts' | None => None end
  end.

Fixpoint until_nul (l : cells) : option (list Z) :=
  match l with
  | Some c :: l' => if c =? 0 then Some [] else (c ::.) <$> until_nul l'
  | _ => None
  end.
(** The string at [off]: [while (s[len]) len++]. *)
Definition cstring (b : cells) (off : Z) : option (list Z) :=
  if 0 <=? off then until_nul (drop (Z.to_nat off) b) else None.

Fixpoint skip_from (l : cells) (i : Z) : option Z :=
  match l with
  | Some c :: l' => if c =? 32 then skip_from l' (i + 1) else Some i
  | _ => None
  end.
(** [while ( *path == ' ') path++] *)
Definition skip_spaces (b : cells) (off : Z) : option Z :=
  if 0 <=? off then skip_from (drop (Z.to_nat off) b) off else None.

Fixpoint strncmp_from (a b : cells) (i : Z) (n : nat) : option Z :=
  match n with
  | O => Some 0
  | S n' => match peek a i, peek b i with
            | Some x, Some y =>
                if negb (x =? y) then Some 1 else if x =? 0 then Some 0 else strncmp_from a b (i + 1) n'
            | _, _ => None
            end
  end.
Definition strncmp (a b : cells) (n : Z) : option Z := strncmp_from a b 0 (Z.to_nat n).

(** The calls of the macros. *)
Definition write (fd : Z) (b : cells) (off len : Z) : shell Z :=
  bs <- of_cell (slice b off len) ;; syscall SYS_WRITE (Imm fd) (Data bs) (Imm len).
(** A call with a string argument at [off]. *)
Definition string_arg (b : cells) (off : Z) : shell arg := s <- of_cell (cstring b off) ;; Ret (Str s).
Definition chdir (b : cells) (off : Z) : shell Z := p <- string_arg b off ;; syscall SYS_CHDIR p (Imm 0) (Imm 0).
Definition mkdirat (b : cells) (off mode : Z) : shell Z :=
  p <- string_arg b off ;; syscall SYS_MKDIRAT (Imm (-100)) p (Imm mode).
Definition unlinkat (b : cells) (off : Z) : shell Z :=
  p <- string_arg b off ;; syscall SYS_UNLINKAT (Imm (-100)) p (Imm 0).
Definition openat (b : cells) (off flags : Z) : shell Z :=
  p <- string_arg b off ;; syscall SYS_OPENAT (Imm (-100)) p (Imm flags).
Definition touch (b : cells) (off : Z) : shell Z := openat b off 0x242.
Definition open_rdonly (b : cells) (off : Z) : shell Z := openat b off 0.
Definition open_wr (b : cells) (off : Z) : shell Z := openat b off 0x241.
Definition close (fd : Z) : shell Z := syscall SYS_CLOSE (Imm fd) (Imm 0) (Imm 0).
Definition fork : shell Z := syscall SYS_FORK (Imm 0) (Imm 0) (Imm 0).
Definition exit : shell Z := syscall SYS_EXIT (Imm 0) (Imm 0) (Imm 0).
Definition getpid : shell Z := syscall SYS_GETPID (Imm 0) (Imm 0) (Imm 0).
Definition wait4 (pid : Z) : shell Z := syscall SYS_WAIT4 (Imm pid) (Imm 0) (Imm 0).
Definition dup3 (old new : Z) : shell Z := syscall SYS_DUP3 (Imm old) (Imm new) (Imm 0).
Definition execve (b : cells) (off : Z) : shell Z := p <- string_arg b off ;; syscall SYS_EXECVE p (Imm 0) (Imm 0).
(** The calls that fill an array: the result and the array afterwards. *)
Definition filling (b : cells) (call : shell answer) : shell (Z * cells) :=
  r <- call ;; b' <- of_cell (stored b (snd r)) ;; Ret (fst r, b').
Definition read (fd : Z) (b : cells) (len : Z) : shell (Z * cells) :=
  filling b (syscall3 SYS_READ (Imm fd) (Buf len) (Imm len)).
Definition getdents64 (fd : Z) (b : cells) (max : Z) : shell (Z * cells) :=
  filling b (syscall3 SYS_GETDENTS64 (Imm fd) (Buf max) (Imm max)).
Definition getcwd (b : cells) (max : Z) : shell (Z * cells) :=
  filling b (syscall3 SYS_GETCWD (Buf max) (Imm max) (Imm 0)).
Definition getname (b : cells) (max : Z) : shell (Z * cells) :=
  filling b (syscall3 SYS_GETNAME (Buf max) (Imm max) (Imm 0)).

Definition puts (b : cells) (off : Z) : shell unit :=
  s <- of_cell (cstring b off) ;; syscall SYS_WRITE (Imm 1) (Data s) (Imm (Z.of_nat (length s))) ;; Ret tt.
Definition puts_text (s : list Z) : shell unit := puts (literal s) 0.

(** [putn]: the digits, the lowest first, in an array of 24 bytes; then one call for each. *)
Fixpoint digits (room : nat) (n : Z) : option (list Z) :=
  if 0 <? n then
    match room with O => None | S room' => (48 + n mod 10 ::.) <$> digits room' (n / 10) end
  else Some [].
Fixpoint put_chars (cs : list Z) : shell unit :=
  match cs with
  | [] => Ret tt
  | c :: cs' => syscall SYS_WRITE (Imm 1) (Data [c]) (Imm 1) ;; put_chars cs'
  end.
Definition putn (n : Z) : shell unit :=
  tmp <- of_cell (if n =? 0 then Some [48] else digits 24 n) ;; put_chars (reverse tmp).

(** ** The commands *)

(** The first [>] among the next [k] bytes. *)
Fixpoint find_gt (b : cells) (i : Z) (k : nat) : option (option Z) :=
  match k with
  | O => Some None
  | S k' => match peek b i with
            | Some c => if c =? 62 then Some (Some i) else find_gt b (i + 1) k'
            | None => None
            end
  end.
(** The first [>] of the string. *)
Fixpoint find_gt_nul (l : cells) (i : Z) : option (option Z) :=
  match l with
  | Some c :: l' => if c =? 0 then Some None else if c =? 62 then Some (Some i) else find_gt_nul l' (i + 1)
  | _ => None
  end.
(** The line is cut at the [>]: the place of the file name. *)
Definition cut_at (b : cells) (hit : option Z) : shell (cells * option Z) :=
  match hit with
  | None => Ret (b, None)
  | Some p => b' <- of_cell (poke b p 0) ;; q <- of_cell (skip_spaces b' (p + 1)) ;; Ret (b', Some q)
  end.
(** [out && *out] *)
Definition named (b : cells) (out : option Z) : shell (option Z) :=
  match out with
  | None => Ret None
  | Some q => c <- of_cell (peek b q) ;; Ret (if c =? 0 then None else Some q)
  end.

Definition echo_command (buf : cells) (n : Z) : shell cells :=
  hit <- of_cell (find_gt buf 5 (Z.to_nat (n - 5))) ;;
  '(buf, echo_out) <- cut_at buf hit ;;
  out <- named buf echo_out ;;
  fd <- match out with Some q => open_wr buf q | None => Ret (-1) end ;;
  let echo_fd := if 0 <=? fd then fd else 1 in
  if echo_fd =? 1 then
    buf <- of_cell (poke buf n 10) ;; write 1 buf 5 (n - 4) ;; Ret buf
  else
    s <- of_cell (cstring buf 5) ;;
    _ <- (if Z.of_nat (length s) <? 256 then Ret tt else ub) ;;
    syscall SYS_WRITE (Imm echo_fd) (Data (s ++ [10])) (Imm (Z.of_nat (length s) + 1)) ;;
    close echo_fd ;; Ret buf.

Definition ps_command : shell unit :=
  pid <- getpid ;;
  '(nlen, name_buf) <- getname (fresh 64) 64 ;;
  puts_text (bytes "PID: ") ;; putn pid ;; puts_text (bytes "  NAME: ") ;;
  if 0 <? nlen then
    name_buf <- of_cell (poke name_buf nlen 10) ;; write 1 name_buf 0 (nlen + 1) ;; Ret tt
  else puts_text (bytes "unknown" ++ [10]).

Definition pwd_command : shell unit :=
  '(len, cwd_buf) <- getcwd (fresh 256) 256 ;;
  if 0 <? len then
    cwd_buf <- of_cell (poke cwd_buf len 10) ;; write 1 cwd_buf 0 (len + 1) ;; Ret tt
  else Ret tt.

Definition cd_command (buf : cells) : shell unit :=
  path <- of_cell (skip_spaces buf 3) ;;
  ret <- chdir buf path ;;
  if ret <? 0 then puts_text (bytes "cd: ") ;; puts buf path ;; puts_text (bytes ": not found" ++ [10]) else Ret tt.

(** The name of a directory entry: [while (name[name_len] && name_len < 256) name_len++]. *)
Fixpoint name_at (l : cells) (k : nat) : option (list Z) :=
  match l with
  | Some c :: l' => if c =? 0 then Some [] else
                    match k with O => Some [] | S k' => (c ::.) <$> name_at l' k' end
  | _ => None
  end.
Definition ls_entry (dent_buf : cells) (n pos : Z) : shell (Z + unit) :=
  if pos <? n then
    lo <- of_cell (peek dent_buf (pos + 16)) ;; hi <- of_cell (peek dent_buf (pos + 17)) ;;
    let reclen := lo + 256 * hi in
    if (reclen <? 19) || (n <? pos + reclen) then Ret (inr tt) else
    d_type <- of_cell (peek dent_buf (pos + 18)) ;;
    name <- of_cell (name_at (drop (Z.to_nat (pos + 19)) dent_buf) 256) ;;
    syscall SYS_WRITE (Imm 1) (Data name) (Imm (Z.of_nat (length name))) ;;
    (if d_type =? 4 then write 1 (literal [47; 10]) 0 2 else write 1 (literal [10]) 0 1) ;;
    Ret (inl (pos + reclen))
  else Ret (inr tt).
Definition ls_command (buf : cells) : shell unit :=
  path <- of_cell (skip_spaces buf 3) ;;
  dir_path <- of_cell (peek buf path) ;;
  '(n, dent_buf) <- getdents64 0 (fresh 2048) 2048 ;;
  if n <=? 0 then puts_text (bytes "ls: error" ++ [10])
  else ITree.iter (ls_entry dent_buf n) 0.

Definition cat_step (fd : Z) (catbuf : cells) : shell (cells + Z) :=
  '(n, catbuf) <- read fd catbuf 256 ;;
  if 0 <? n then write 1 catbuf 0 n ;; Ret (inl catbuf) else Ret (inr n).
Definition cat_command (buf : cells) : shell unit :=
  path <- of_cell (skip_spaces buf 4) ;;
  c <- of_cell (peek buf path) ;;
  if c =? 0 then puts_text (bytes "cat: missing operand" ++ [10]) else
  fd <- open_rdonly buf path ;;
  if fd <? 0 then puts_text (bytes "cat: failed" ++ [10]) else
  n <- ITree.iter (cat_step fd) (fresh 256) ;;
  _ <- (if n <? 0 then puts_text ([10] ++ bytes "cat: read error" ++ [10]) else Ret tt) ;;
  close fd ;; Ret tt.

Definition touch_command (buf : cells) : shell unit :=
  path <- of_cell (skip_spaces buf 6) ;;
  c <- of_cell (peek buf path) ;;
  if c =? 0 then puts_text (bytes "touch: missing operand" ++ [10]) else
  fd <- touch buf path ;;
  if 0 <=? fd then close fd ;; Ret tt else puts_text (bytes "touch: failed" ++ [10]).

Definition mkdir_command (buf : cells) : shell unit :=
  path <- of_cell (skip_spaces buf 6) ;;
  c <- of_cell (peek buf path) ;;
  if c =? 0 then puts_text (bytes "mkdir: missing operand" ++ [10]) else
  ret <- mkdirat buf path 511 ;;
  if ret <? 0 then puts_text (bytes "mkdir: failed" ++ [10]) else Ret tt.

Definition rm_command (buf : cells) : shell unit :=
  path <- of_cell (skip_spaces buf 3) ;;
  c <- of_cell (peek buf path) ;;
  if c =? 0 then puts_text (bytes "rm: missing operand" ++ [10]) else
  ret <- unlinkat buf path ;;
  if ret <? 0 then puts_text (bytes "rm: failed" ++ [10]) else Ret tt.

(** A program: the child redirects its output and becomes it. *)
Definition run_command (buf : cells) : shell cells :=
  hit <- of_cell (find_gt_nul buf 0) ;;
  '(buf, redirect) <- cut_at buf hit ;;
  child <- fork ;;
  if child =? 0 then
    out <- named buf redirect ;;
    _ <- match out with
         | Some q => fd <- open_wr buf q ;;
                     if 0 <=? fd then close 1 ;; dup3 fd 1 ;; close fd ;; Ret tt else Ret tt
         | None => Ret tt
         end ;;
    execve buf 0 ;; puts_text (bytes "command not found" ++ [10]) ;; exit ;; Ret buf
  else if 0 <? child then wait4 child ;; Ret buf
  else Ret buf.

(** ** The loop *)

(** [if (strncmp(buf, s, n) == 0)] *)
Definition is_command (buf : cells) (s : list Z) : shell bool :=
  r <- of_cell (strncmp buf (literal s) (Z.of_nat (length s))) ;; Ret (r =? 0).
Definition keep (buf : cells) (m : shell unit) : shell cells := m ;; Ret buf.

Definition command (buf : cells) (n : Z) : shell cells :=
  is_echo <- is_command buf (bytes "echo") ;; if is_echo : bool then echo_command buf n else
  is_ps <- is_command buf (bytes "ps") ;; if is_ps : bool then keep buf ps_command else
  is_pwd <- is_command buf (bytes "pwd") ;; if is_pwd : bool then keep buf pwd_command else
  is_cd <- is_command buf (bytes "cd") ;; if is_cd : bool then keep buf (cd_command buf) else
  is_ls <- is_command buf (bytes "ls") ;; if is_ls : bool then keep buf (ls_command buf) else
  is_cat <- is_command buf (bytes "cat") ;; if is_cat : bool then keep buf (cat_command buf) else
  is_touch <- is_command buf (bytes "touch") ;; if is_touch : bool then keep buf (touch_command buf) else
  is_mkdir <- is_command buf (bytes "mkdir") ;; if is_mkdir : bool then keep buf (mkdir_command buf) else
  is_rm <- is_command buf (bytes "rm") ;; if is_rm : bool then keep buf (rm_command buf) else
  run_command buf.

(** What is done with the result of [read]. *)
Definition handle_line (r : Z) (buf : cells) : shell cells :=
  let n := s32 r in
  if n <=? 0 then Ret buf else
  c <- of_cell (peek buf (n - 1)) ;;
  '(buf, n) <- (if c =? 10 then buf <- of_cell (poke buf (n - 1) 0) ;; Ret (buf, n - 1) else Ret (buf, n)) ;;
  if n =? 0 then Ret buf else command buf n.

Definition shell_round (buf : cells) : shell cells :=
  puts_text (bytes "myos:~$ ") ;;
  '(r, buf) <- read 0 buf 240 ;;
  handle_line r buf.

(** [stack] is what the array [buf] holds at the start. *)
Definition _start (stack : cells) : shell unit :=
  puts_text (bytes "Shell v0.3" ++ [10]) ;;
  pid <- fork ;;
  if pid =? 0 then ITree.iter (fun buf => buf <- shell_round buf ;; Ret (inl buf)) stack
  else if 0 <? pid then ITree.iter (fun _ : unit => wait4 (-1) ;; Ret (inl tt)) tt
  else Ret tt.

(** ** The kernel's side of the calls that fill a buffer *)

Definition copy_to (off : Z) (bs : list Z) : list (Z * Z) := imap (fun i b => (off + Z.of_nat i, b)) bs.
Definition copy_string (s : list Z) (copy : Z) : answer := (copy, copy_to 0 (take (Z.to_nat copy) s) ++ [(copy, 0)]).

(** Standard input: the terminal's line, without its end; [len] is the size of the buffer. *)
Definition sys_read_tty (line : list Z) (len : Z) : answer :=
  if (len =? 0) || (4096 <? len) then (0, []) else
  let n := Z.min (Z.of_nat (length line)) 256 in
  copy_string line (Z.min n (len - 1)).
(** The working directory and the name of the task. *)
Definition sys_getcwd (cwd : list Z) (max_len : Z) : answer :=
  if max_len <? 2 then (0, []) else copy_string cwd (Z.min (Z.of_nat (length cwd)) (max_len - 1)).
Definition sys_getname (task_name : list Z) (max_len : Z) : answer :=
  if max_len <? 2 then (0, []) else copy_string task_name (Z.min (Z.of_nat (length task_name)) (max_len - 1)).

(** [VfsDirEntry]: a name and whether it is a directory. *)
Record dirent := Dirent { name : list Z; is_dir : bool }.

Definition le_bytes (k : nat) (v : Z) : list Z := (fun i => v / 256 ^ Z.of_nat i mod 256) <$> seq 0 k.

Definition reclen (e : dirent) : Z := Z.land (19 + Z.of_nat (length (name e)) + 7) (Z.lnot 7).
(** The stores for one entry at [written]. *)
Definition put_entry (written : Z) (e : dirent) : list (Z * Z) :=
  copy_to written (le_bytes 8 1) ++
  copy_to (written + 8) (le_bytes 8 (written + reclen e)) ++
  copy_to (written + 16) (le_bytes 2 (reclen e mod 2 ^ 16)) ++
  [(written + 18, if is_dir e then 4 else 8)] ++
  copy_to (written + 19) (name e) ++
  [(written + 19 + Z.of_nat (length (name e)), 0)].

Fixpoint put_entries (es : list dirent) (written max : Z) : answer :=
  match es with
  | [] => (written, [])
  | e :: es' =>
      if max <? written + reclen e then (written, [])
      else let '(w, sts) := put_entries es' (written + reclen e) max in (w, put_entry written e ++ sts)
  end.
Definition sys_getdents64 (entries : list dirent) (max : Z) : answer :=
  if max <? 40 then (0, []) else put_entries entries 0 max.
