(* ===== verification/ShellTheory.v ===== *)
(** * The shell: a program logic for it, and its arrays

    [safe K Q t]: whatever the kernel answers within its contract [K], the tree [t] never reaches
    undefined behaviour, and if it ends, its result satisfies [Q].  The predicate is coinductive, so it
    speaks about programs that never end; its rules are those of a program logic.  The other lemmas are
    about the arrays on the stack and what the kernel stored in them. *)
From S2P Require Import Prelude Shell.
From ITree Require Import ITree ITreeFacts.
From Paco Require Import paco.
From Stdlib Require Import ZifyBool.
Ltac Zify.zify_post_hook ::= Z.to_euclidean_division_equations.
Local Open Scope Z_scope.

(** ** Safety *)

Section safe.
Context (K : Z -> list arg -> answer -> Prop).

Definition safe_node {A} (Q : A -> Prop) (r : shell A -> Prop) (t : itree' (sysE +' ubE) A) : Prop :=
  match t with
  | RetF a => Q a
  | TauF t' => r t'
  | VisF e k =>
      match e with
      | inl1 s => match s in sysE X return (X -> shell A) -> Prop with
                  | Svc n args => fun k => forall a, K n args a -> r (k a)
                  end k
      | inr1 _ => False
      end
  end.
Definition safe_step {A} (Q : A -> Prop) (r : shell A -> Prop) (t : shell A) : Prop := safe_node Q r (observe t).

Lemma safe_node_mono {A} (Q : A -> Prop) (r r' : shell A -> Prop) t :
  (forall u, r u -> r' u) -> safe_node Q r t -> safe_node Q r' t.
Proof.
  intros Hle. destruct t as [a|t'|X e k]; cbn; [done|apply Hle|].
  destruct e as [s|u]; [|done]. destruct s. intros H a Ha. by apply Hle, H.
Qed.

Lemma safe_step_mon {A} (Q : A -> Prop) : monotone1 (safe_step Q).
Proof. intros t r r' H Hle. by eapply safe_node_mono. Qed.
Hint Resolve safe_step_mon : paco.

Definition safe {A} (Q : A -> Prop) (t : shell A) : Prop := paco1 (safe_step Q) bot1 t.

Lemma safe_ret {A} (Q : A -> Prop) a : Q a -> safe Q (Ret a).
Proof. intros H. pfold. exact H. Qed.

Lemma safe_call (Q : answer -> Prop) n args : (forall a, K n args a -> Q a) -> safe Q (trigger (Svc n args)).
Proof. intros H. pfold. intros a Ha. left. apply safe_ret. by apply H. Qed.

(** The nodes of a sequence. *)
Lemma safe_node_bind {A B} (P : A -> Prop) (Q : B -> Prop) (r : shell A -> Prop) (s : shell B -> Prop) (k : A -> shell B) t :
  safe_node P r (observe t) -> (forall a, P a -> safe_node Q s (observe (k a))) ->
  (forall u, r u -> s (ITree.bind u k)) -> safe_node Q s (observe (ITree.bind t k)).
Proof.
  intros Ht Hk Hr. change (observe (ITree.bind t k)) with
    (observe (match observe t with
              | RetF a => k a
              | TauF t' => Tau (ITree.bind t' k)
              | VisF e h => Vis e (fun x => ITree.bind (h x) k)
              end)).
  destruct (observe t) as [a|t'|X e h]; cbn in *; [by apply Hk|by apply Hr|].
  destruct e as [c|u]; [|done]. destruct c. intros a Ha. by apply Hr, Ht.
Qed.

Lemma safe_bind {A B} (P : A -> Prop) (Q : B -> Prop) (t : shell A) (k : A -> shell B) :
  safe P t -> (forall a, P a -> safe Q (k a)) -> safe Q (ITree.bind t k).
Proof.
  intros Ht Hk. revert t Ht. pcofix CIH. intros t Ht. pfold. punfold Ht.
  eapply safe_node_bind; [exact Ht| |].
  - intros a Ha. specialize (Hk a Ha). punfold Hk. eapply safe_node_mono; [|exact Hk].
    intros u [Hu|[]]. left. eapply paco1_mon; [exact Hu|done].
  - intros u [Hu|[]]. right. by apply CIH.
Qed.

Lemma safe_iter {I A} (Inv : I -> Prop) (Q : A -> Prop) (body : I -> shell (I + A)) i :
  (forall i, Inv i -> safe (fun r => match r with inl i' => Inv i' | inr a => Q a end) (body i)) ->
  Inv i -> safe Q (ITree.iter body i).
Proof.
  intros Hb Hi.
  set (next := fun r => match r with inl i' => Tau (ITree.iter body i') | inr a => Ret a end).
  assert (forall u t, safe (fun r => match r with inl i' => Inv i' | inr a => Q a end) u ->
    observe t = observe (ITree.bind u next) -> safe Q t) as Hloop; [|by apply (Hloop (body i)); [apply Hb|]].
  pcofix CIH. intros u t Hu Ht. pfold. unfold safe_step. rewrite Ht. punfold Hu.
  eapply safe_node_bind; [exact Hu| |].
  - intros [i'|a] H; cbn; [|done]. right. by apply (CIH (body i')); [apply Hb|].
  - intros v [Hv|[]]. right. by apply (CIH v).
Qed.

Lemma safe_mono {A} (P Q : A -> Prop) (t : shell A) : safe P t -> (forall a, P a -> Q a) -> safe Q t.
Proof.
  intros Ht HPQ. revert t Ht. pcofix CIH. intros t Ht. pfold. punfold Ht. unfold safe_step in *.
  destruct (observe t) as [a|t'|X e k]; cbn in *; [by apply HPQ| |].
  - destruct Ht as [Ht|[]]. right. by apply CIH.
  - destruct e as [s|u]; [|done]. destruct s. intros a Ha. destruct (Ht a Ha) as [H|[]]. right. by apply CIH.
Qed.
End safe.

(** A kernel that answers less leaves the program safe. *)
Lemma safe_narrow (K K' : Z -> list arg -> answer -> Prop) {A} (Q : A -> Prop) (t : shell A) :
  (forall n args r, K' n args r -> K n args r) -> safe K Q t -> safe K' Q t.
Proof.
  intros HK. revert t. pcofix CIH. intros t Ht. pfold. punfold Ht; [|apply safe_step_mon]. unfold safe_step in *.
  destruct (observe t) as [a|t'|X e k]; cbn in *; [done| |].
  - destruct Ht as [Ht|[]]. right. by apply CIH.
  - destruct e as [s|u]; [|done]. destruct s. intros a Ha. destruct (Ht a (HK _ _ _ Ha)) as [H|[]]. right. by apply CIH.
Qed.

Lemma safe_cell K {A} (Q : A -> Prop) (o : option A) a : o = Some a -> Q a -> safe K Q (of_cell o).
Proof. intros -> H. by apply safe_ret. Qed.

(** ** Arrays *)

(** Cells that end with a terminator, all with a value, whatever follows them. *)
Definition ended (l : cells) : Prop := exists l', l = l' ++ [Some 0] /\ Forall is_Some l'.

Lemma until_nul_ended l r : ended l -> exists s, until_nul (l ++ r) = Some s /\ (length s < length l)%nat.
Proof.
  intros (l' & -> & Hl). rewrite <- app_assoc. induction Hl as [|c l' [x ->] _ IH]; cbn; [by exists []; split; [|cbn; lia]|].
  destruct (x =? 0); [exists []; split; [done|cbn; lia]|]. destruct IH as (s & Hs & Hlen). cbn in Hs. rewrite Hs. exists (x :: s).
  split; [done|]. cbn. lia.
Qed.

Lemma skip_from_ended l r i : ended l -> exists q, skip_from (l ++ r) i = Some q /\ i <= q < i + Z.of_nat (length l).
Proof.
  intros (l' & -> & Hl). rewrite <- app_assoc. revert i. induction Hl as [|c l' [x ->] _ IH]; intros i; cbn; [exists i; split; [done|lia]|].
  destruct (x =? 32); [|exists i; split; [done|lia]]. destruct (IH (i + 1)) as (q & Hq & Hb). cbn in Hq. rewrite Hq.
  exists q. split; [done|lia].
Qed.

Lemma find_gt_nul_ended l r i : ended l ->
  exists hit, find_gt_nul (l ++ r) i = Some hit /\ forall p, hit = Some p -> i <= p < i + Z.of_nat (length l) - 1.
Proof.
  intros (l' & -> & Hl). rewrite <- app_assoc. revert i. induction Hl as [|c l' [x ->] _ IH]; intros i; cbn; [by exists None|].
  destruct (x =? 0); [by exists None|]. destruct (x =? 62).
  - exists (Some i). split; [done|]. intros p [= <-]. rewrite length_app. cbn. lia.
  - destruct (IH (i + 1)) as (hit & Hh & Hp). cbn in Hh. rewrite Hh. exists hit. split; [done|]. intros p Hhit. specialize (Hp p Hhit). lia.
Qed.

(** The array holds a terminator at [m] and a value in every cell before it. *)
Record closed (m : Z) (b : cells) : Prop := {
  cl_range : 0 <= m < Z.of_nat (length b);
  cl_end : peek b m = Some 0;
  cl_some : forall j, 0 <= j < m -> is_Some (peek b j);
}.
(** There is a terminator at [k] or later, with a value in every cell before it. *)
Definition wide (k : Z) (b : cells) : Prop := exists m, k <= m /\ closed m b.

Lemma closed_wide m k b : closed m b -> k <= m -> wide k b.
Proof. intros Hc Hk. by exists m. Qed.
Lemma wide_mono k k' b : wide k b -> k' <= k -> wide k' b.
Proof. intros (m & Hm & Hc) Hk. exists m. split; [lia|done]. Qed.

Lemma peek_cell b i v : peek b i = Some v -> b !! Z.to_nat i = Some (Some v).
Proof. unfold peek. destruct (0 <=? i); [|done]. by destruct (b !! Z.to_nat i) as [[x|]|]; intros [= ->]. Qed.

Lemma closed_peek m b i : closed m b -> 0 <= i <= m -> exists c, peek b i = Some c.
Proof. intros [_ He Hs] Hi. destruct (decide (i = m)) as [->|]; [by exists 0|]. apply Hs. lia. Qed.
Lemma wide_peek k b i : wide k b -> 0 <= i <= k -> exists c, peek b i = Some c.
Proof. intros (m & Hm & Hc) Hi. apply (closed_peek m); [done|lia]. Qed.

(** From any place up to the terminator the cells are a string, and more. *)
Lemma closed_drop m b off : closed m b -> 0 <= off <= m ->
  exists l r, drop (Z.to_nat off) b = l ++ r /\ ended l /\ Z.of_nat (length l) = m - off + 1.
Proof.
  intros Hc Hoff. pose proof (cl_range _ _ Hc) as Hr. set (n := Z.to_nat (m - off)).
  assert (drop (Z.to_nat off) b !! n = Some (Some 0)) as Hn.
  { rewrite lookup_drop. replace (Z.to_nat off + n)%nat with (Z.to_nat m) by lia. apply peek_cell, (cl_end _ _ Hc). }
  exists (take n (drop (Z.to_nat off) b) ++ [Some 0]), (drop (S n) (drop (Z.to_nat off) b)). split_and!.
  - rewrite <- app_assoc. symmetry. by apply take_drop_middle.
  - eexists. split; [done|]. apply Forall_lookup. intros j o Hj. apply lookup_take_Some in Hj as [Hj Hlt]. rewrite lookup_drop in Hj.
    destruct (cl_some _ _ Hc (off + Z.of_nat j)) as [v Hv]; [lia|]. apply peek_cell in Hv.
    replace (Z.to_nat (off + Z.of_nat j)) with (Z.to_nat off + j)%nat in Hv by lia. rewrite Hj in Hv. injection Hv as ->. by eexists.
  - rewrite length_app, length_take, length_drop. cbn. lia.
Qed.

Lemma closed_cstring m b off : closed m b -> 0 <= off <= m -> exists s, cstring b off = Some s /\ off + Z.of_nat (length s) <= m.
Proof.
  intros Hc Hoff. destruct (closed_drop m b off Hc Hoff) as (l & r & Hd & He & Hl). unfold cstring. test_true. rewrite Hd.
  destruct (until_nul_ended l r He) as (s & Hs & Hlen). exists s. split; [done|]. lia.
Qed.
Lemma wide_cstring b off : wide off b -> 0 <= off -> exists s, cstring b off = Some s.
Proof. intros (m & Hm & Hc) Hoff. destruct (closed_cstring m b off Hc) as (s & Hs & _); [lia|]. by exists s. Qed.

Lemma closed_skip m b off : closed m b -> 0 <= off <= m -> exists q, skip_spaces b off = Some q /\ off <= q <= m.
Proof.
  intros Hc Hoff. destruct (closed_drop m b off Hc Hoff) as (l & r & Hd & He & Hl). unfold skip_spaces. test_true. rewrite Hd.
  destruct (skip_from_ended l r off He) as (q & Hq & Hb). exists q. split; [done|]. lia.
Qed.
Lemma wide_skip b off : wide off b -> 0 <= off -> exists q, skip_spaces b off = Some q /\ off <= q /\ wide q b.
Proof.
  intros (m & Hm & Hc) Hoff. destruct (closed_skip m b off Hc) as (q & Hq & Hr); [lia|]. exists q.
  split; [done|]. split; [lia|]. apply (closed_wide m); [done|lia].
Qed.

Lemma peek_poke b b' i v j : poke b i v = Some b' -> peek b' j = if j =? i then Some v else peek b j.
Proof.
  unfold poke, peek. destruct ((0 <=? i) && (i <? Z.of_nat (length b))) eqn:Hi; [|done]. intros [= <-].
  destruct (j =? i) eqn:Hj.
  - test_true. replace (Z.to_nat j) with (Z.to_nat i) by lia. by rewrite list_lookup_insert_eq by lia.
  - destruct (0 <=? j) eqn:H0; [|done]. rewrite list_lookup_insert_ne; [done|lia].
Qed.

(** Cutting the string. *)
Lemma closed_poke m b i v : closed m b -> 0 <= i < m -> exists b', poke b i v = Some b' /\ length b' = length b /\ closed m b'.
Proof.
  intros [Hr He Hs] Hi. destruct (poke b i v) as [b'|] eqn:Hp; [|revert Hp; unfold poke; by test_true].
  assert (length b' = length b) as Hlen by (revert Hp; unfold poke; test_true; intros [= <-]; apply length_insert).
  exists b'. split; [done|]. split; [done|]. split; [by rewrite Hlen| |intros j Hj]; rewrite (peek_poke _ _ _ _ _ Hp).
  - by test_false.
  - destruct (j =? i); [by eexists|by apply Hs].
Qed.

Lemma closed_find_gt m b i k : closed m b -> 0 <= i -> i + Z.of_nat k <= m + 1 ->
  exists hit, find_gt b i k = Some hit /\ forall p, hit = Some p -> i <= p < i + Z.of_nat k.
Proof.
  intros Hb. revert i. induction k as [|k IH]; intros i Hi Hk; cbn [find_gt]; [by exists None|].
  destruct (closed_peek m b i Hb) as [c ->]; [lia|]. destruct (c =? 62).
  - exists (Some i). split; [done|]. intros p [= <-]. lia.
  - destruct (IH (i + 1)) as (hit & -> & Hp); [lia|lia|]. exists hit. split; [done|]. intros p Hhit. specialize (Hp p Hhit). lia.
Qed.

(** The array of the shell with a value in every byte, of which the last one is and stays 0. *)
Definition whole (b : cells) : Prop := ended b /\ length b = 256%nat.

Lemma ended_lookup l k : ended l -> (k < length l)%nat -> exists c, l !! k = Some (Some c).
Proof.
  intros (l' & -> & Hl) Hk. rewrite length_app in Hk. cbn in Hk. destruct (decide (k < length l')%nat).
  - destruct (lookup_lt_is_Some_2 l' k) as [o Ho]; [done|]. destruct (Forall_lookup_1 _ _ _ _ Hl Ho) as [c ->].
    exists c. by rewrite lookup_app_l.
  - exists 0. rewrite lookup_app_r by lia. by replace (k - length l')%nat with 0%nat by lia.
Qed.

Lemma whole_closed b : whole b -> closed 255 b.
Proof.
  intros [He Hl]. split; [lia| |].
  - destruct He as (l' & -> & _). rewrite length_app in Hl. cbn in Hl. unfold peek. test_true. rewrite lookup_app_r by lia.
    by replace (Z.to_nat 255 - length l')%nat with 0%nat by lia.
  - intros j Hj. destruct (ended_lookup b (Z.to_nat j) He) as [c Hc]; [lia|]. exists c. unfold peek. test_true. by rewrite Hc.
Qed.

Lemma whole_poke b i v b' : whole b -> 0 <= i < 255 -> poke b i v = Some b' -> whole b'.
Proof.
  intros [(l' & -> & Hl) Hlen] Hi Hp. rewrite length_app in Hlen. cbn [length] in Hlen. revert Hp. unfold poke. rewrite length_app. cbn [length].
  test_true. intros [= <-]. split; [|by rewrite length_insert, length_app; cbn; lia].
  rewrite insert_app_l by lia. eexists. split; [reflexivity|]. by apply Forall_insert; [|eexists].
Qed.

Lemma mapM_id_Some (l : cells) bs : mapM id l = Some bs <-> l = Some <$> bs.
Proof.
  split.
  - intros H%mapM_Some. induction H as [|o b l bs Ho _ IH]; [done|]. cbn in *. by rewrite Ho, IH.
  - intros ->. induction bs as [|b bs IH]; [done|]. cbn. by rewrite IH.
Qed.

Lemma slice_app (l1 : cells) bs l3 : slice (l1 ++ (Some <$> bs) ++ l3) (Z.of_nat (length l1)) (Z.of_nat (length bs)) = Some bs.
Proof.
  unfold slice. rewrite !length_app, length_fmap. test_true.
  rewrite !Nat2Z.id, drop_app_length, take_app_le, take_ge by (rewrite length_fmap; lia). by apply mapM_id_Some.
Qed.

Lemma ended_values l : ended l -> exists bs, l = Some <$> bs.
Proof.
  intros (l' & -> & Hl). assert (exists bs, l' = Some <$> bs) as [bs ->].
  { induction Hl as [|c l' [x ->] _ [bs ->]]; [by exists []|by exists (x :: bs)]. }
  exists (bs ++ [0]). by rewrite fmap_app.
Qed.

(** Cells that have values can be read. *)
Lemma slice_some b off len : 0 <= off -> 0 <= len -> off + len <= Z.of_nat (length b) ->
  (forall j, off <= j < off + len -> is_Some (peek b j)) -> exists bs, slice b off len = Some bs.
Proof.
  intros Hoff Hlen Hsum Hp. unfold slice. test_true. apply mapM_is_Some, Forall_lookup. intros j o Hj.
  apply lookup_take_Some in Hj as [Hj Hlt]. rewrite lookup_drop in Hj. destruct (Hp (off + Z.of_nat j)) as [v Hv]; [lia|].
  apply peek_cell in Hv. replace (Z.to_nat (off + Z.of_nat j)) with (Z.to_nat off + j)%nat in Hv by lia.
  rewrite Hj in Hv. injection Hv as ->. by eexists.
Qed.

Lemma peek_literal s i : peek (literal s) i = if (0 <=? i) && (i <? Z.of_nat (length s)) then s !! Z.to_nat i else
  if i =? Z.of_nat (length s) then Some 0 else None.
Proof.
  unfold peek, literal. destruct (0 <=? i) eqn:Hi; cbn; [|test_false; done]. destruct (i <? Z.of_nat (length s)) eqn:Hlt.
  - rewrite lookup_app_l by (rewrite length_fmap; lia). rewrite list_lookup_fmap. by destruct (s !! Z.to_nat i).
  - rewrite lookup_app_r, length_fmap by (rewrite length_fmap; lia). destruct (i =? Z.of_nat (length s)) eqn:He.
    + by replace (Z.to_nat i - length s)%nat with 0%nat by lia.
    + by rewrite lookup_ge_None_2 by (cbn; lia).
Qed.

(** A comparison with a constant: 0 means that the constant is a prefix. *)
Lemma strncmp_closed m b s i n : closed m b -> 0 <= i <= m -> i + Z.of_nat n <= Z.of_nat (length s) ->
  Forall (fun c => c <> 0) s -> exists r, strncmp_from b (literal s) i n = Some r /\
  (r = 0 -> forall j, i <= j < i + Z.of_nat n -> peek b j = s !! Z.to_nat j).
Proof.
  intros Hb Hi Hn Hnz. revert i Hi Hn. induction n as [|n IH]; intros i Hi Hn; cbn [strncmp_from].
  { exists 0. split; [done|]. intros _ j Hj. lia. }
  destruct (closed_peek m b i Hb) as [c Hc]; [lia|]. rewrite Hc, peek_literal. test_true.
  destruct (lookup_lt_is_Some_2 s (Z.to_nat i)) as [y Hy]; [lia|]. rewrite Hy.
  assert (y <> 0) as Hy0 by (exact (Forall_lookup_1 _ _ _ _ Hnz Hy)).
  destruct (c =? y) eqn:Hcy; cbn [negb]; [|by exists 1; split]. test_false.
  assert (i <> m) as Him by (intros ->; rewrite (cl_end _ _ Hb) in Hc; injection Hc as <-; lia).
  destruct (IH (i + 1)) as (r & -> & Hr); [lia|lia|]. exists r. split; [done|]. intros H0 j Hj.
  destruct (decide (j = i)) as [->|]; [rewrite Hc, Hy; f_equal; lia|]. apply Hr; [done|lia].
Qed.

(** ** What the kernel stored *)

Fixpoint last_store (sts : list (Z * Z)) (i : Z) : option Z :=
  match sts with
  | [] => None
  | (o, v) :: sts' => match last_store sts' i with Some x => Some x | None => if o =? i then Some v else None end
  end.

Lemma peek_stored sts b b' i : stored b sts = Some b' ->
  peek b' i = match last_store sts i with Some v => Some v | None => peek b i end.
Proof.
  revert b. induction sts as [|[o v] sts IH]; intros b H; cbn in *; [by injection H as ->|].
  destruct (poke b o v) as [b1|] eqn:Hp; [|done]. rewrite (IH b1 H), (peek_poke _ _ _ _ i Hp).
  destruct (last_store sts i); [done|]. by rewrite Z.eqb_sym; destruct (o =? i).
Qed.

Lemma last_store_app s1 s2 i : last_store (s1 ++ s2) i = match last_store s2 i with Some v => Some v | None => last_store s1 i end.
Proof.
  induction s1 as [|[o v] s1 IH]; cbn; [by destruct (last_store s2 i)|]. rewrite IH. by destruct (last_store s2 i).
Qed.

Lemma copy_to_cons off b bs : copy_to off (b :: bs) = (off, b) :: copy_to (off + 1) bs.
Proof.
  unfold copy_to. cbn [imap]. f_equal; [f_equal; lia|]. apply imap_ext. intros i x _. cbn. f_equal. lia.
Qed.

Lemma last_store_copy off bs i : last_store (copy_to off bs) i = if off <=? i then bs !! Z.to_nat (i - off) else None.
Proof.
  revert off. induction bs as [|b bs IH]; intros off; [cbn; by destruct (off <=? i)|].
  rewrite copy_to_cons. cbn [last_store]. rewrite IH. destruct (off =? i) eqn:He.
  - test_false. test_true. by replace (Z.to_nat (i - off)) with 0%nat by lia.
  - destruct (off + 1 <=? i) eqn:Hle; [|by test_false]. test_true.
    replace (Z.to_nat (i - off)) with (S (Z.to_nat (i - (off + 1)))) by lia. cbn. by destruct (bs !! _).
Qed.

(** Stores that lie in [lo .. hi). *)
Definition within (lo hi : Z) (sts : list (Z * Z)) : Prop := Forall (fun st => lo <= fst st < hi) sts.

Lemma within_mono lo hi lo' hi' sts : within lo hi sts -> lo' <= lo -> hi <= hi' -> within lo' hi' sts.
Proof. intros H Hlo Hhi. eapply Forall_impl; [exact H|]. cbn. intros x Hx. lia. Qed.

Lemma copy_within off bs : within off (off + Z.of_nat (length bs)) (copy_to off bs).
Proof.
  revert off. induction bs as [|b bs IH]; intros off; [constructor|]. rewrite copy_to_cons. constructor; [cbn; lia|].
  eapply within_mono; [apply IH|lia|cbn; lia].
Qed.

Lemma last_store_none lo hi sts i : within lo hi sts -> ~ (lo <= i < hi) -> last_store sts i = None.
Proof.
  intros H Hi. induction H as [|[o v] sts Ho _ IH]; cbn in *; [done|]. rewrite IH. by test_false.
Qed.

Lemma stored_fits sts b : within 0 (Z.of_nat (length b)) sts -> exists b', stored b sts = Some b' /\ length b' = length b.
Proof.
  intros H. assert (Hlen : length b = length b) by done. revert Hlen. generalize b at 1 3. revert H. 
  generalize (length b) as n. clear b. intros n H b Hb. revert b Hb.
  induction H as [|[o v] sts Ho _ IH]; intros b Hb; cbn in *; [by exists b|]. unfold poke. rewrite Hb. test_true.
  apply IH. by rewrite length_insert.
Qed.

(** A property of arrays that survives every store before the last byte. *)
Definition kept (P : cells -> Prop) : Prop :=
  forall b, P b -> length b = 256%nat /\ forall i v b', 0 <= i < 255 -> poke b i v = Some b' -> P b'.

Lemma stored_kept P sts b : kept P -> P b -> within 0 255 sts -> exists b', stored b sts = Some b' /\ P b'.
Proof.
  intros HP Hb H. revert b Hb. induction H as [|[o v] sts Ho _ IH]; intros b Hb; cbn in *; [by exists b|].
  destruct (HP b Hb) as [Hlen Hk]. destruct (poke b o v) as [b1|] eqn:Hp; [|revert Hp; unfold poke; rewrite Hlen; by test_true].
  by apply IH, (Hk o v).
Qed.

Lemma kept_whole : kept whole.
Proof. intros b Hb. split; [apply Hb|]. intros i v b' Hi Hp. by eapply whole_poke. Qed.
Lemma kept_length : kept (fun b => length b = 256%nat).
Proof.
  intros b Hlen. split; [done|]. intros i v b' _ Hp. revert Hp. unfold poke. destruct (_ && _); [|done]. intros [= <-].
  by rewrite length_insert.
Qed.

(** A slice whose cells are all known. *)
Lemma slice_peek b off bs : 0 <= off -> (forall j, 0 <= j < Z.of_nat (length bs) -> peek b (off + j) = bs !! Z.to_nat j) ->
  off + Z.of_nat (length bs) <= Z.of_nat (length b) -> slice b off (Z.of_nat (length bs)) = Some bs.
Proof.
  intros Hoff Hp Hlen. unfold slice. test_true. apply mapM_id_Some. apply list_eq. intros k. rewrite list_lookup_fmap.
  destruct (decide (k < length bs)%nat).
  - rewrite lookup_take_lt, lookup_drop by lia. specialize (Hp (Z.of_nat k)). unfold peek in Hp.
    destruct (lookup_lt_is_Some_2 bs k) as [x Hx]; [done|]. revert Hp. test_true. rewrite Nat2Z.id, Hx. intros Hp.
    replace (Z.to_nat off + k)%nat with (Z.to_nat (off + Z.of_nat k)) by lia.
    destruct (b !! _) as [[y|]|]; cbn in Hp; [|by specialize (Hp ltac:(lia))..]. by rewrite Hp by lia.
  - rewrite lookup_take_ge by lia. by rewrite lookup_ge_None_2 by lia.
Qed.

Definition string_stores (s : list Z) (c : Z) : list (Z * Z) := snd (copy_string s c).

Lemma string_within s c : 0 <= c <= Z.of_nat (length s) -> within 0 (c + 1) (string_stores s c).
Proof.
  intros Hc. apply Forall_app. split; [|by repeat constructor; cbn; lia].
  eapply within_mono; [apply copy_within|lia|]. rewrite length_take. lia.
Qed.

Lemma string_stored b b' s c j : 0 <= c <= Z.of_nat (length s) -> stored b (string_stores s c) = Some b' -> 0 <= j <= c ->
  peek b' j = if j =? c then Some 0 else s !! Z.to_nat j.
Proof.
  intros Hc Hs Hj. rewrite (peek_stored _ _ _ j Hs). unfold string_stores, copy_string. cbn [snd].
  rewrite last_store_app. cbn [last_store]. rewrite Z.eqb_sym. destruct (j =? c) eqn:He; [done|].
  rewrite last_store_copy. test_true. rewrite lookup_take_lt by lia. rewrite Z.sub_0_r.
  destruct (lookup_lt_is_Some_2 s (Z.to_nat j)) as [x ->]; [lia|done].
Qed.
