(* ===== verification/ShellLs.v ===== *)
(** * The shell: the listing of a directory

    The kernel writes one record after the other into the buffer of [getdents64]; [ls] reads them back.
    A name whose terminator does not fit into its own record ([tight]) is followed by the first byte of
    the next record. *)
From S2P Require Import Prelude Shell ShellTheory.
From ITree Require Import ITree ITreeFacts.
From Stdlib Require Import ZifyBool.
Ltac Zify.zify_post_hook ::= Z.to_euclidean_division_equations.
Local Open Scope Z_scope.

(** The tests in the goal that the arithmetic decides. *)
Ltac decide_tests :=
  repeat match goal with
  | |- context [if ?b then _ else _] => first [replace b with true by lia | replace b with false by lia]
  end.

(** ** Records *)

Lemma reclen_eq e : reclen e = 8 * ((26 + Z.of_nat (length (name e))) / 8).
Proof.
  unfold reclen. rewrite <- Z.ldiff_land. change 7 with (Z.ones 3) at 2. rewrite Z.ldiff_ones_r by lia.
  rewrite Z.shiftr_div_pow2, Z.shiftl_mul_pow2 by lia. change (2 ^ 3) with 8.
  replace (19 + Z.of_nat (length (name e)) + 7) with (26 + Z.of_nat (length (name e))) by lia. lia.
Qed.

Definition tight (e : dirent) : bool := reclen e =? 19 + Z.of_nat (length (name e)).

(** A name of a file system: not empty, at most 255 bytes, no terminator inside. *)
Definition good_entry (e : dirent) : Prop := (length (name e) <= 255)%nat /\ Forall (fun c => c <> 0) (name e).

Lemma reclen_bounds e : good_entry e -> 19 + Z.of_nat (length (name e)) <= reclen e < 288.
Proof. intros [Hl _]. rewrite reclen_eq. lia. Qed.

(** The stores for a record lie between its start and the byte after its name. *)
Lemma put_entry_within w e : within w (w + 20 + Z.of_nat (length (name e))) (put_entry w e).
Proof.
  unfold put_entry, within. rewrite !Forall_app.
  assert (forall o bs, w <= o -> o + Z.of_nat (length bs) <= w + 20 + Z.of_nat (length (name e)) ->
    Forall (fun st => w <= fst st < w + 20 + Z.of_nat (length (name e))) (copy_to o bs)) as Hc.
  { intros o bs Ho Hle. eapply within_mono; [apply copy_within|done|done]. }
  split_and!; [apply Hc; cbn; lia..| |apply Hc; lia|]; repeat constructor; cbn; lia.
Qed.

(** The fields the shell reads. *)
Lemma put_entry_fields w e : good_entry e ->
  last_store (put_entry w e) (w + 16) = Some (reclen e mod 256) /\
  last_store (put_entry w e) (w + 17) = Some (reclen e / 256) /\
  last_store (put_entry w e) (w + 18) = Some (if is_dir e then 4 else 8) /\
  (forall j c, name e !! j = Some c -> last_store (put_entry w e) (w + 19 + Z.of_nat j) = Some c) /\
  last_store (put_entry w e) (w + 19 + Z.of_nat (length (name e))) = Some 0.
Proof.
  intros Hg. pose proof (reclen_bounds e Hg) as Hr. unfold put_entry. 
  split_and!; [| | |intros j c Hj; pose proof (lookup_lt_Some _ _ _ Hj)|]; rewrite !last_store_app, !last_store_copy; cbn [last_store]; decide_tests.
  - replace (Z.to_nat (w + 16 - (w + 16))) with 0%nat by lia. cbn -[Z.pow Z.modulo Z.div]. f_equal.
    change (2 ^ 16) with 65536. change (256 ^ Z.of_nat 0) with 1. lia.
  - replace (Z.to_nat (w + 17 - (w + 16))) with 1%nat by lia. cbn -[Z.pow Z.modulo Z.div]. f_equal.
    change (2 ^ 16) with 65536. change (256 ^ Z.of_nat 1) with 256. lia.
  - done.
  - replace (Z.to_nat _) with j by lia. by rewrite Hj.
  - done.
Qed.

(** ** The listing *)

(** What [ls] shows of the entries that fit: names and whether they are directories. *)
Fixpoint listed (es : list dirent) (written max : Z) : list (list Z * bool) :=
  match es with
  | [] => []
  | e :: es' =>
      if max <? written + reclen e then [] else
      let more := listed es' (written + reclen e) max in
      (name e ++ (if tight e then match more with [] => [] | _ => [1] end else []), is_dir e) :: more
  end.

Definition print (s : list Z) : shell Z := syscall SYS_WRITE (Imm 1) (Data s) (Imm (Z.of_nat (length s))).
Fixpoint print_entries (l : list (list Z * bool)) : shell unit :=
  match l with
  | [] => Ret tt
  | (s, dir) :: l' => print s ;; print (if dir : bool then [47; 10] else [10]) ;; print_entries l'
  end.

Lemma put_entries_cons e es w max : max <? w + reclen e = false ->
  put_entries (e :: es) w max = (fst (put_entries es (w + reclen e) max), put_entry w e ++ snd (put_entries es (w + reclen e) max)).
Proof. intros H. cbn [put_entries]. rewrite H. by destruct (put_entries es (w + reclen e) max). Qed.

Lemma put_entries_end es w max : Forall good_entry es -> w <= fst (put_entries es w max).
Proof.
  intros H. revert w. induction H as [|e es He _ IH]; intros w; [cbn; lia|]. pose proof (reclen_bounds e He).
  destruct (max <? w + reclen e) eqn:Hmax; [cbn; rewrite Hmax; cbn; lia|]. rewrite put_entries_cons by done. cbn [fst].
  specialize (IH (w + reclen e)). lia.
Qed.

Lemma put_entries_above es w max i : Forall good_entry es -> i < w -> last_store (snd (put_entries es w max)) i = None.
Proof.
  intros H. revert w i. induction H as [|e es He _ IH]; intros w i Hi; [done|]. pose proof (reclen_bounds e He).
  destruct (max <? w + reclen e) eqn:Hmax; [by cbn; rewrite Hmax|]. rewrite put_entries_cons by done. cbn [snd].
  rewrite last_store_app, IH by lia. eapply last_store_none; [apply put_entry_within|lia].
Qed.

(** A record begins with the number 1. *)
Lemma put_entries_first es w max : Forall good_entry es -> listed es w max <> [] ->
  last_store (snd (put_entries es w max)) w = Some 1 /\ last_store (snd (put_entries es w max)) (w + 1) = Some 0.
Proof.
  intros [|e es' He Hes] Hne; [done|]. cbn [listed] in Hne. destruct (max <? w + reclen e) eqn:Hmax; [done|].
  pose proof (reclen_bounds e He). rewrite put_entries_cons by done. cbn [snd].
  rewrite !last_store_app, !(put_entries_above es') by (done || lia). unfold put_entry.
  rewrite !last_store_app, !last_store_copy. cbn [last_store]. decide_tests.
  replace (Z.to_nat (w - w)) with 0%nat by lia. replace (Z.to_nat (w + 1 - w)) with 1%nat by lia. done.
Qed.

Lemma name_at_peek b s off k : 0 <= off -> Forall (fun c => c <> 0) s -> (length s <= k)%nat ->
  (forall j c, s !! j = Some c -> peek b (off + Z.of_nat j) = Some c) -> peek b (off + Z.of_nat (length s)) = Some 0 ->
  name_at (drop (Z.to_nat off) b) k = Some s.
Proof.
  intros Hoff Hs. revert off k Hoff. induction Hs as [|c s Hc _ IH]; intros off k Hoff Hk Hp H0.
  - cbn in H0. rewrite Z.add_0_r in H0. unfold peek in H0. revert H0. test_true. intros H0.
    destruct (b !! Z.to_nat off) as [[x|]|] eqn:Hx; cbn in H0; [|done..]. injection H0 as ->.
    rewrite (drop_S _ _ _ Hx). by destruct k.
  - pose proof (Hp 0%nat c eq_refl) as Hc0. rewrite Z.add_0_r in Hc0. unfold peek in Hc0. revert Hc0. test_true. intros Hc0.
    destruct (b !! Z.to_nat off) as [[x|]|] eqn:Hx; cbn in Hc0; [|done..]. injection Hc0 as ->.
    rewrite (drop_S _ _ _ Hx). cbn in Hk. destruct k as [|k]; [lia|]. cbn [name_at]. test_false.
    replace (S (Z.to_nat off)) with (Z.to_nat (off + 1)) by lia. rewrite (IH (off + 1) k); [done|lia|lia| |].
    + intros j d Hj. rewrite <- (Hp (S j) d Hj). f_equal. lia.
    + rewrite <- H0. f_equal. cbn [length]. lia.
Qed.

(** The record at [w], as the shell finds it. *)
Lemma record_read b e es w max : 0 <= w -> Forall good_entry (e :: es) -> max <? w + reclen e = false ->
  (forall i v, w <= i -> last_store (snd (put_entries (e :: es) w max)) i = Some v -> peek b i = Some v) ->
  peek b (w + 16) = Some (reclen e mod 256) /\ peek b (w + 17) = Some (reclen e / 256) /\
  peek b (w + 18) = Some (if is_dir e then 4 else 8) /\
  name_at (drop (Z.to_nat (w + 19)) b) 256 =
    Some (name e ++ (if tight e then match listed es (w + reclen e) max with [] => [] | _ => [1] end else [])).
Proof.
  intros Hw [He Hes]%Forall_cons Hmax Hb. pose proof (reclen_bounds e He) as Hr. pose proof He as [Hlen Hnz].
  destruct (put_entry_fields w e He) as (Hlo & Hhi & Hty & Hname & Hend). rewrite put_entries_cons in Hb by done. cbn [snd] in Hb.
  assert (forall i v, w <= i < w + reclen e -> last_store (put_entry w e) i = Some v -> peek b i = Some v) as Hin.
  { intros i v Hi Hv. apply Hb; [lia|]. by rewrite last_store_app, put_entries_above by (done || lia). }
  split_and!; [by apply Hin; [lia|]..|]. 
  assert (forall j c, name e !! j = Some c -> peek b (w + 19 + Z.of_nat j) = Some c) as Hnm.
  { intros j c Hj. pose proof (lookup_lt_Some _ _ _ Hj). apply Hin; [lia|by apply Hname]. }
  destruct (tight e) eqn:Ht; unfold tight in Ht.
  - destruct (listed es (w + reclen e) max) as [|x l] eqn:Hl.
    + rewrite app_nil_r. apply name_at_peek; [lia|done|lia|done|]. apply Hb; [lia|].
      rewrite last_store_app, Hend. destruct es as [|e' es']; [done|]. cbn [listed] in Hl. cbn [put_entries].
      by destruct (max <? w + reclen e + reclen e').
    + destruct (put_entries_first es (w + reclen e) max Hes) as [H1 H2]; [by rewrite Hl|].
      apply name_at_peek; [lia|apply Forall_app; split; [done|by repeat constructor]|rewrite length_app; cbn [length]; lia| |].
      * intros j c Hj. apply lookup_app_Some in Hj as [Hj|[Hge Hj]]; [by apply Hnm|].
        assert (j = length (name e) /\ c = 1) as [-> ->].
        { destruct (j - length (name e))%nat as [|k] eqn:Hk; [|done]. cbn in Hj. injection Hj as <-. split; [lia|done]. }
        apply Hb; [lia|]. rewrite last_store_app. replace (w + 19 + Z.of_nat (length (name e))) with (w + reclen e) by lia.
        by rewrite H1.
      * rewrite length_app. cbn [length]. apply Hb; [lia|]. rewrite last_store_app.
        replace (w + 19 + Z.of_nat (length (name e) + 1)) with (w + reclen e + 1) by lia. by rewrite H2.
  - rewrite app_nil_r. apply name_at_peek; [lia|done|lia|done|]. apply Hin; [lia|done].
Qed.

(** One round of the loop of [ls] on a record. *)
Lemma ls_entry_record b n w lo hi ty s : w < n -> 19 <= lo + 256 * hi -> w + (lo + 256 * hi) <= n ->
  peek b (w + 16) = Some lo -> peek b (w + 17) = Some hi -> peek b (w + 18) = Some ty ->
  name_at (drop (Z.to_nat (w + 19)) b) 256 = Some s ->
  ls_entry b n w ≈ (print s ;; print (if ty =? 4 then [47; 10] else [10]) ;; Ret (inl (w + (lo + 256 * hi)))).
Proof.
  intros Hw Hr Hn Hlo Hhi Hty Hs. unfold ls_entry. test_true. rewrite Hlo. cbn [of_cell]. rewrite bind_ret_l, Hhi. cbn [of_cell].
  rewrite bind_ret_l. test_false. rewrite Hty. cbn [of_cell]. rewrite bind_ret_l, Hs. cbn [of_cell]. rewrite bind_ret_l.
  apply eutt_eq_bind. intros _. destruct (ty =? 4); unfold write; cbn [of_cell];
    (replace (slice _ _ _) with (Some [47; 10]) by done) || (replace (slice _ _ _) with (Some [10]) by done);
    cbn [of_cell]; rewrite bind_ret_l; reflexivity.
Qed.

Lemma ls_loop b es w max : 0 <= w -> Forall good_entry es ->
  (forall i v, w <= i -> last_store (snd (put_entries es w max)) i = Some v -> peek b i = Some v) ->
  ITree.iter (ls_entry b (fst (put_entries es w max))) w ≈ print_entries (listed es w max).
Proof.
  intros Hw H. revert w Hw. induction H as [|e es He Hes IH]; intros w Hw Hb.
  - rewrite unfold_iter. cbn [put_entries fst]. unfold ls_entry. test_false. rewrite bind_ret_l. reflexivity.
  - destruct (max <? w + reclen e) eqn:Hmax.
    { cbn [put_entries listed]. rewrite Hmax. rewrite unfold_iter. cbn [fst]. unfold ls_entry. test_false. rewrite bind_ret_l. reflexivity. }
    pose proof (reclen_bounds e He) as Hr. pose proof (put_entries_end es (w + reclen e) max Hes) as Hend.
    destruct (record_read b e es w max Hw) as (Hlo & Hhi & Hty & Hs); [by constructor|done|done|].
    rewrite put_entries_cons in Hb |- * by done. cbn [fst snd listed] in *. rewrite Hmax. rewrite unfold_iter.
    rewrite (fun n H1 H2 H3 => ls_entry_record b n w _ _ _ _ H1 H2 H3 Hlo Hhi Hty Hs) by lia. cbn [print_entries]. rewrite bind_bind. apply eutt_eq_bind. intros _.
    rewrite bind_bind. replace (if (if is_dir e then 4 else 8) =? 4 then [47; 10] else [10]) with (if is_dir e then [47; 10] else [10]) by (by destruct (is_dir e)).
    apply eutt_eq_bind. intros _. rewrite bind_ret_l, tau_eutt.
    replace (w + (reclen e mod 256 + 256 * (reclen e / 256))) with (w + reclen e) by lia. apply IH; [lia|].
    intros i v Hi Hv. apply Hb; [lia|]. by rewrite last_store_app, Hv.
Qed.
