(* ===== verification/ShellSafe.v ===== *)
(** * The shell never leaves its arrays

    [kernel_ok] is the contract of the kernel.  Every command reads the line no further than its
    terminator, except that six commands without an operand look behind it; the array may hold anything there
    in a run without such lines, and must hold a string otherwise. *)
From S2P Require Import Prelude Shell ShellTheory ShellLs.
From ITree Require Import ITree ITreeFacts.
From Paco Require Import paco.
From Stdlib Require Import ZifyBool.
Ltac Zify.zify_post_hook ::= Z.to_euclidean_division_equations.
Local Open Scope Z_scope.

(** ** The contract of the kernel

    The buffers are filled as [rust/src/kernel/syscall.rs] does; a file hands out at most what was asked
    for; everything else may be answered by any 64-bit value. *)
Definition kernel_ok (n : Z) (args : list arg) (r : answer) : Prop :=
  - 2 ^ 63 <= fst r < 2 ^ 63 /\
  match args with
  | [Imm fd; Buf size; Imm len] =>
      if n =? SYS_READ then
        if fd =? 0 then exists line, r = sys_read_tty line len
        else (fst r < 0 /\ snd r = []) \/ exists bs, Z.of_nat (length bs) <= len /\ r = (Z.of_nat (length bs), copy_to 0 bs)
      else exists es, Forall good_entry es /\ within 0 size (snd (sys_getdents64 es len)) /\ r = sys_getdents64 es len
  | [Buf size; Imm len; Imm _] => exists s, r = (if n =? SYS_GETCWD then sys_getcwd s len else sys_getname s len)
  | _ => True
  end.

Notation ok := (safe kernel_ok).

(** ** Rules for the calls *)

Section rules.
Context {B : Type} (Q : B -> Prop).

Lemma ok_cell {A} (o : option A) a (k : A -> shell B) : o = Some a -> ok Q (k a) -> ok Q (ITree.bind (of_cell o) k).
Proof. intros Ho Hk. eapply safe_bind; [by apply (safe_cell _ (eq a) o a)|]. by intros ? <-. Qed.

Lemma ok_then {A} (t : shell A) (k : A -> shell B) : ok (fun _ => True) t -> (forall a, ok Q (k a)) -> ok Q (ITree.bind t k).
Proof. intros Ht Hk. eapply safe_bind; [exact Ht|]. intros a _. apply Hk. Qed.
End rules.

Notation runs := (ok (fun _ => True)).

Lemma ok_word n a0 a1 a2 : ok (fun z => - 2 ^ 63 <= z < 2 ^ 63) (syscall n a0 a1 a2).
Proof. eapply safe_bind; [apply safe_call; intros a [Ha _]; exact Ha|]. intros a Ha. by apply safe_ret. Qed.
Lemma ok_syscall n a0 a1 a2 : runs (syscall n a0 a1 a2).
Proof. by eapply safe_mono; [apply ok_word|]. Qed.

Lemma ok_write fd b off len bs : slice b off len = Some bs -> runs (write fd b off len).
Proof. intros Hs. eapply ok_cell; [exact Hs|]. apply ok_syscall. Qed.

Lemma ok_puts b off s : cstring b off = Some s -> runs (puts b off).
Proof. intros Hs. eapply ok_cell; [exact Hs|]. apply ok_then; [apply ok_syscall|]. intros _. by apply safe_ret. Qed.

Lemma literal_ended s : ended (literal s).
Proof. exists (Some <$> s). split; [done|]. apply Forall_fmap, Forall_true. intros x. by eexists. Qed.

Lemma ok_puts_text s : runs (puts_text s).
Proof. destruct (until_nul_ended _ [] (literal_ended s)) as (t & Ht & _). rewrite app_nil_r in Ht. by eapply ok_puts. Qed.

Lemma ok_string b off s n (call : arg -> shell n) : cstring b off = Some s -> (forall a, runs (call a)) ->
  runs (p <- string_arg b off ;; call p).
Proof.
  intros Hs Hc. apply ok_then; [|exact Hc]. eapply ok_cell; [exact Hs|]. by apply safe_ret.
Qed.

Lemma ok_put_chars cs : runs (put_chars cs).
Proof. induction cs as [|c cs IH]; cbn; [by apply safe_ret|]. apply ok_then; [apply ok_syscall|done]. Qed.

Create HintDb shell.
#[export] Hint Resolve ok_syscall ok_puts_text ok_put_chars safe_ret I : shell.

(** The calls with a string argument, for any string of the array. *)
Ltac ok_path b off :=
  let s := fresh "s" in let Hs := fresh "Hs" in
  destruct (wide_cstring b off) as (s & Hs); [done|lia|];
  apply (ok_string b off s); [exact Hs|intros ?; apply ok_syscall].
Lemma ok_chdir b off : wide off b -> 0 <= off -> runs (chdir b off).
Proof. intros. ok_path b off. Qed.
Lemma ok_openat b off flags : wide off b -> 0 <= off -> runs (openat b off flags).
Proof. intros. ok_path b off. Qed.
Lemma ok_mkdirat b off mode : wide off b -> 0 <= off -> runs (mkdirat b off mode).
Proof. intros. ok_path b off. Qed.
Lemma ok_unlinkat b off : wide off b -> 0 <= off -> runs (unlinkat b off).
Proof. intros. ok_path b off. Qed.
Lemma ok_execve b off : wide off b -> 0 <= off -> runs (execve b off).
Proof. intros. ok_path b off. Qed.
#[export] Hint Resolve ok_chdir ok_openat ok_mkdirat ok_unlinkat ok_execve : shell.

(** Numbers of a machine word fit into the 24 bytes of [putn]. *)
Lemma digits_some room n : n < 10 ^ Z.of_nat room -> exists ds, digits room n = Some ds.
Proof.
  revert n. induction room as [|room IH]; intros n Hn; cbn [digits]; destruct (0 <? n) eqn:H0; [change (10 ^ Z.of_nat 0) with 1 in Hn; lia|by eexists| |by eexists].
  destruct (IH (n / 10)) as [ds ->]; [|by eexists]. rewrite Nat2Z.inj_succ, Z.pow_succ_r in Hn by lia.
  apply Z.div_lt_upper_bound; lia.
Qed.

Lemma ok_putn n : n < 2 ^ 63 -> runs (putn n).
Proof.
  intros Hn. destruct (digits_some 24 n) as [ds Hds]; [lia|]. unfold putn. rewrite Hds.
  destruct (n =? 0); (eapply ok_cell; [reflexivity|auto with shell]).
Qed.

(** A string of the kernel in a fresh array, ended by a newline and printed. *)
Lemma string_line (size : nat) s c b : 0 <= c <= Z.of_nat (length s) -> c + 1 < Z.of_nat size + 1 ->
  stored (fresh size) (string_stores s c) = Some b ->
  exists b' bs, poke b c 10 = Some b' /\ slice b' 0 (c + 1) = Some bs.
Proof.
  intros Hc Hsize Hs. destruct (stored_fits (string_stores s c) (fresh size)) as (b0 & Hb0 & Hlen).
  { unfold fresh. rewrite length_replicate. eapply within_mono; [apply string_within; lia|lia|lia]. }
  rewrite Hs in Hb0. injection Hb0 as <-. unfold fresh in Hlen. rewrite length_replicate in Hlen.
  assert (exists b', poke b c 10 = Some b' /\ length b' = size) as (b' & Hp & Hlen').
  { unfold poke. rewrite Hlen. test_true. eexists. split; [done|]. by rewrite length_insert. }
  exists b', (take (Z.to_nat c) s ++ [10]). split; [done|].
  replace (c + 1) with (Z.of_nat (length (take (Z.to_nat c) s ++ [10]))) by (rewrite length_app, length_take; cbn; lia).
  assert (length (take (Z.to_nat c) s) = Z.to_nat c) as Htake by (rewrite length_take; lia).
  apply slice_peek; [lia| |rewrite length_app, Htake; cbn [length]; lia].
  intros j Hj. rewrite length_app, Htake in Hj. cbn [length] in Hj. rewrite Z.add_0_l, (peek_poke _ _ _ _ j Hp).
  destruct (j =? c) eqn:He.
  - rewrite lookup_app_r by lia. replace (Z.to_nat j - _)%nat with 0%nat by lia. done.
  - rewrite (string_stored _ _ _ _ j Hc Hs) by lia. rewrite He, lookup_app_l by lia. by rewrite lookup_take_lt by lia.
Qed.

(** ** The commands *)

(** [getname] and [getcwd] fill a fresh array; there is room for a newline after what they stored. *)
Lemma ok_string_call (size : nat) n : 2 <= Z.of_nat size ->
  ok (fun r => exists b bs, poke (snd r) (fst r) 10 = Some b /\ slice b 0 (fst r + 1) = Some bs)
     (filling (fresh size) (syscall3 n (Buf (Z.of_nat size)) (Imm (Z.of_nat size)) (Imm 0))).
Proof.
  intros Hsize. eapply safe_bind; [apply (safe_call _ (fun r => exists s, r = sys_getcwd s (Z.of_nat size)))|].
  - intros a (_ & s & ->). exists s. by destruct (n =? SYS_GETCWD).
  - intros r [s ->]. unfold sys_getcwd. test_false. set (c := Z.min _ _).
    assert (0 <= c <= Z.of_nat (length s)) as Hc by lia.
    destruct (stored_fits (string_stores s c) (fresh size)) as (b & Hb & _).
    { unfold fresh. rewrite length_replicate. eapply within_mono; [by apply string_within|lia|lia]. }
    eapply ok_cell; [exact Hb|]. apply safe_ret. cbn [fst snd copy_string]. apply (string_line size s); [done|lia|done].
Qed.

(** ** The commands *)

Lemma ok_line len b : (exists b' bs, poke b len 10 = Some b' /\ slice b' 0 (len + 1) = Some bs) ->
  runs (b <- of_cell (poke b len 10) ;; write 1 b 0 (len + 1) ;; Ret tt).
Proof.
  intros (b' & bs & Hp & Hs). eapply ok_cell; [exact Hp|]. apply ok_then; [by eapply ok_write|]. auto with shell.
Qed.

Lemma ok_ps : runs ps_command.
Proof.
  unfold ps_command. eapply safe_bind; [apply ok_word|]. intros pid [_ Hpid].
  eapply safe_bind; [by apply (ok_string_call 64)|]. intros [nlen b] Hb. cbn [fst snd] in Hb.
  apply ok_then; [apply ok_puts_text|]. intros _. apply ok_then; [by apply ok_putn|]. intros _.
  apply ok_then; [apply ok_puts_text|]. intros _. destruct (0 <? nlen); [by apply ok_line|apply ok_puts_text].
Qed.

Lemma ok_pwd : runs pwd_command.
Proof.
  unfold pwd_command. eapply safe_bind; [by apply (ok_string_call 256)|]. intros [len b] Hb. cbn [fst snd] in Hb.
  destruct (0 <? len); [by apply ok_line|auto with shell].
Qed.

(** The argument of a command: a place in the array, and the byte there. *)
Ltac find_path buf off :=
  let q := fresh "q" in let Hq := fresh "Hq" in let Hr := fresh "Hr" in
  let Hw := fresh "Hw" in
  destruct (wide_skip buf off) as (q & Hq & Hr & Hw); [done|lia|]; eapply ok_cell; [exact Hq|].
Ltac find_byte buf q :=
  let c := fresh "c" in let Hc := fresh "Hc" in
  destruct (wide_peek q buf q) as [c Hc]; [done|lia|]; eapply ok_cell; [exact Hc|].

Lemma ok_cd buf : wide 3 buf -> runs (cd_command buf).
Proof.
  intros Hb. unfold cd_command. find_path buf 3. apply ok_then; [by apply ok_chdir; [|lia]|]. intros ret.
  destruct (ret <? 0); [|auto with shell]. apply ok_then; [apply ok_puts_text|]. intros _.
  destruct (wide_cstring buf q) as (s & Hs); [done|lia|]. apply ok_then; [by eapply ok_puts|]. intros _. apply ok_puts_text.
Qed.

(** The three commands with one path and one call. *)
Lemma ok_operand buf off missing failed (call : cells -> Z -> shell Z) (after : Z -> shell unit) : wide off buf -> 0 <= off ->
  (forall q, 0 <= q -> wide q buf -> runs (call buf q)) -> (forall r, runs (after r)) ->
  runs (path <- of_cell (skip_spaces buf off) ;; c <- of_cell (peek buf path) ;;
        if c =? 0 then puts_text missing else ret <- call buf path ;; if ret <? 0 then puts_text failed else after ret).
Proof.
  intros Hb Hoff Hcall Hafter. find_path buf off. find_byte buf q. destruct (c =? 0); [apply ok_puts_text|].
  apply ok_then; [by apply Hcall; [lia|]|]. intros ret. destruct (ret <? 0); [apply ok_puts_text|apply Hafter].
Qed.

Lemma ok_mkdir buf : wide 6 buf -> runs (mkdir_command buf).
Proof.
  intros Hb. apply (ok_operand buf 6 _ _ (fun b q => mkdirat b q 511) (fun _ => Ret tt)); [done|lia| |auto with shell].
  intros q Hq Hw. by apply ok_mkdirat.
Qed.

Lemma ok_rm buf : wide 3 buf -> runs (rm_command buf).
Proof.
  intros Hb. apply (ok_operand buf 3 _ _ unlinkat (fun _ => Ret tt)); [done|lia| |auto with shell].
  intros q Hq Hw. by apply ok_unlinkat.
Qed.

Lemma ok_touch buf : wide 6 buf -> runs (touch_command buf).
Proof.
  intros Hb. unfold touch_command. find_path buf 6. find_byte buf q. destruct (c =? 0); [apply ok_puts_text|].
  apply ok_then; [by apply ok_openat; [|lia]|]. intros fd. destruct (0 <=? fd); [|apply ok_puts_text].
  apply ok_then; [apply ok_syscall|auto with shell].
Qed.

Definition readable (r : Z * cells) : Prop :=
  length (snd r) = 256%nat /\ (0 < fst r -> exists bs, slice (snd r) 0 (fst r) = Some bs).

Lemma ok_filled b sts n : length b = 256%nat -> within 0 256 sts -> n <= 256 ->
  (forall j, 0 <= j < n -> is_Some (last_store sts j)) -> ok readable (b' <- of_cell (stored b sts) ;; Ret (n, b')).
Proof.
  intros Hb Hw Hn Hsts. destruct (stored_fits sts b) as (b' & Hs & Hlen); [by rewrite Hb|].
  eapply ok_cell; [exact Hs|]. apply safe_ret. unfold readable. cbn [fst snd]. split; [by rewrite Hlen|]. intros H0.
  apply slice_some; [lia..|]. intros j Hj. rewrite (peek_stored _ _ _ j Hs). by destruct (Hsts j Hj) as [v ->].
Qed.

(** Reading a file, or the terminal, into the array of [cat]. *)
Lemma ok_read_file fd b : length b = 256%nat -> ok readable (read fd b 256).
Proof.
  intros Hb. eapply safe_bind; [apply safe_call; intros a [_ Ha]; exact Ha|]. change (SYS_READ =? SYS_READ) with true. cbn iota.
  intros r. destruct (fd =? 0).
  - intros [line ->]. unfold sys_read_tty. test_false. set (c := Z.min (Z.min _ _) _). assert (0 <= c <= Z.of_nat (length line)) as Hc by lia.
    apply ok_filled; [done|by eapply within_mono; [apply string_within| |]; lia|cbn; lia|]. cbn [fst snd copy_string]. intros j Hj.
    rewrite last_store_app. cbn [last_store]. test_false. rewrite last_store_copy. test_true. rewrite lookup_take_lt by lia. apply lookup_lt_is_Some_2. lia.
  - intros [[Hneg Hnil]|(bs & Hbs & ->)]; cbn [fst snd].
    + rewrite Hnil. apply ok_filled; [done|constructor|lia|intros j Hj; lia].
    + apply ok_filled; [done|eapply within_mono; [apply copy_within|lia|lia]|lia|]. intros j Hj. rewrite last_store_copy. test_true.
      apply lookup_lt_is_Some_2. lia.
Qed.

Lemma ok_cat buf : wide 4 buf -> runs (cat_command buf).
Proof.
  intros Hb. unfold cat_command. find_path buf 4. find_byte buf q. destruct (c =? 0); [apply ok_puts_text|].
  apply ok_then; [by apply ok_openat; [|lia]|]. intros fd. destruct (fd <? 0); [apply ok_puts_text|].
  apply ok_then.
  - apply (safe_iter _ (fun b => length b = 256%nat)); [|done]. intros b Hlen. unfold cat_step.
    eapply safe_bind; [by apply ok_read_file|]. intros [n b'] [Hlen' Hs]. cbn [fst snd] in *.
    destruct (0 <? n) eqn:Hn; [|by apply safe_ret]. destruct Hs as [bs Hs]; [lia|].
    apply ok_then; [by eapply ok_write|]. intros _. by apply safe_ret.
  - intros n. apply ok_then; [destruct (n <? 0); auto with shell|]. intros _. apply ok_then; [apply ok_syscall|auto with shell].
Qed.

Lemma ok_print s : runs (print s).
Proof. apply ok_syscall. Qed.

(** One record after the other; the invariant is what is left of the directory. *)
Lemma ok_ls_loop b es max : Forall good_entry es ->
  (forall i v, 0 <= i -> last_store (snd (put_entries es 0 max)) i = Some v -> peek b i = Some v) ->
  runs (ITree.iter (ls_entry b (fst (put_entries es 0 max))) 0).
Proof.
  intros Hes Hb. apply (safe_iter _ (fun w => 0 <= w /\ exists es', Forall good_entry es' /\
    fst (put_entries es' w max) = fst (put_entries es 0 max) /\
    forall i v, w <= i -> last_store (snd (put_entries es' w max)) i = Some v -> peek b i = Some v)); [|by split; [|exists es]].
  clear Hes Hb. intros w (Hw & es' & Hes & Hn & Hb). rewrite <- Hn. unfold ls_entry.
  destruct es' as [|e es']; [cbn; test_false; by apply safe_ret|].
  destruct (max <? w + reclen e) eqn:Hmax; [cbn [put_entries]; rewrite Hmax; cbn [fst]; test_false; by apply safe_ret|].
  destruct (record_read b e es' w max Hw Hes Hmax Hb) as (Hlo & Hhi & Hty & Hs). apply Forall_cons in Hes as [He Hes].
  pose proof (reclen_bounds e He) as Hr. pose proof (put_entries_end es' (w + reclen e) max Hes) as Hend.
  rewrite put_entries_cons in Hb, Hn |- * by done. cbn [fst snd] in *. test_true.
  eapply ok_cell; [exact Hlo|]. eapply ok_cell; [exact Hhi|]. test_false. eapply ok_cell; [exact Hty|]. eapply ok_cell; [exact Hs|].
  apply ok_then; [apply ok_syscall|]. intros _. apply ok_then; [by destruct (_ =? 4); eapply ok_write|]. intros _. apply safe_ret.
  replace (w + (reclen e mod 256 + 256 * (reclen e / 256))) with (w + reclen e) by lia. split; [lia|]. exists es'.
  split; [done|]. split; [done|]. intros i v Hi Hv. apply Hb; [lia|]. by rewrite last_store_app, Hv.
Qed.

Lemma getdents_stored es b : within 0 2048 (snd (sys_getdents64 es 2048)) -> stored (fresh 2048) (snd (sys_getdents64 es 2048)) = Some b ->
  forall i v, 0 <= i -> last_store (snd (put_entries es 0 2048)) i = Some v -> peek b i = Some v.
Proof. intros Hw Hs i v Hi Hv. rewrite (peek_stored _ _ _ i Hs). unfold sys_getdents64. test_false. by rewrite Hv. Qed.

Lemma getdents_fits es : within 0 2048 (snd (sys_getdents64 es 2048)) -> exists b, stored (fresh 2048) (snd (sys_getdents64 es 2048)) = Some b.
Proof.
  intros Hw. destruct (stored_fits (snd (sys_getdents64 es 2048)) (fresh 2048)) as (b & Hb & _); [|by exists b].
  unfold fresh. by rewrite length_replicate.
Qed.

Lemma ok_ls buf : wide 3 buf -> runs (ls_command buf).
Proof.
  intros Hb. unfold ls_command. find_path buf 3. find_byte buf q.
  eapply safe_bind with (P := fun r => exists es, Forall good_entry es /\ fst r = fst (put_entries es 0 2048) /\
    forall i v, 0 <= i -> last_store (snd (put_entries es 0 2048)) i = Some v -> peek (snd r) i = Some v).
  - eapply safe_bind; [apply safe_call; intros a [_ Ha]; exact Ha|]. change (SYS_GETDENTS64 =? SYS_READ) with false. cbn iota.
    intros r (es & Hes & Hin & ->). destruct (getdents_fits es Hin) as [b Hs]. eapply ok_cell; [exact Hs|]. apply safe_ret. exists es.
    cbn [fst snd]. split; [done|]. split; [by unfold sys_getdents64; test_false|by apply getdents_stored].
  - intros [n b] (es & Hes & Hn & Hp). cbn [fst snd] in *. destruct (n <=? 0); [apply ok_puts_text|]. rewrite Hn. by apply ok_ls_loop.
Qed.

(** Cutting the line at the redirection: the file name stands after the cut. *)
Lemma ok_cut P n b hit : kept P -> P b -> closed n b -> n < 255 -> (forall p, hit = Some p -> 0 <= p < n) ->
  ok (fun r => P (fst r) /\ closed n (fst r) /\ forall q, snd r = Some q -> exists p, hit = Some p /\ p < q /\ wide q (fst r)) (cut_at b hit).
Proof.
  intros HP Hb Hc Hn Hhit. destruct hit as [p|]; cbn [cut_at]; [|by apply safe_ret]. specialize (Hhit p eq_refl).
  destruct (closed_poke n b p 0 Hc Hhit) as (b' & Hp & _ & Hc'). eapply ok_cell; [exact Hp|].
  destruct (wide_skip b' (p + 1)) as (q & Hq & Hr & Hw); [apply (closed_wide n); [done|lia]|lia|].
  eapply ok_cell; [exact Hq|]. apply safe_ret. cbn. split; [apply (proj2 (HP b Hb) p 0); [lia|done]|]. split; [done|].
  intros q' [= <-]. exists p. split; [done|]. split; [lia|done].
Qed.

Lemma ok_named b out : (forall q, out = Some q -> 0 <= q /\ wide q b) ->
  ok (fun r => forall q, r = Some q -> out = Some q) (named b out).
Proof.
  intros Hout. destruct out as [q|]; cbn [named]; [|by apply safe_ret]. destruct (Hout q eq_refl) as [Hq Hwide]. find_byte b q.
  apply safe_ret. intros q'. by destruct (c =? 0).
Qed.

(** The newline that [echo] puts over the terminator, and the text up to it. *)
Lemma ok_newline P n b : kept P -> P b -> closed n b -> 4 <= n < 255 ->
  exists b' bs, poke b n 10 = Some b' /\ P b' /\ slice b' 5 (n - 4) = Some bs.
Proof.
  intros HP Hb Hc Hn. destruct (HP b Hb) as [Hlen Hk].
  destruct (poke b n 10) as [b'|] eqn:Hp; [|revert Hp; unfold poke; rewrite Hlen; by test_true].
  assert (length b' = 256%nat) as Hlen' by (apply (HP b'), (Hk n 10); [lia|done]).
  destruct (slice_some b' 5 (n - 4)) as [bs Hs]; [lia..| |].
  - intros j Hj. rewrite (peek_poke _ _ _ _ _ Hp). destruct (j =? n) eqn:He; [by eexists|]. apply (cl_some _ _ Hc). lia.
  - exists b', bs. split; [done|]. split; [apply (Hk n 10); [lia|done]|done].
Qed.

Lemma ok_echo P buf n : kept P -> P buf -> closed n buf -> 4 <= n < 240 -> ok P (echo_command buf n).
Proof.
  intros HP Hb Hc Hn. unfold echo_command.
  destruct (closed_find_gt n buf 5 (Z.to_nat (n - 5)) Hc) as (hit & Hhit & Hp); [lia..|].
  eapply ok_cell; [exact Hhit|]. eapply safe_bind; [apply (ok_cut P n); [done..|lia|]|].
  { intros p Hpos. specialize (Hp p Hpos). lia. }
  intros [b out] (Hb' & Hc' & Hout). cbn [fst snd] in *.
  assert (forall q, out = Some q -> 0 <= q /\ wide q b /\ 5 < n) as Hq.
  { intros q Hq. destruct (Hout q Hq) as (p & Hpos & Hlt & Hw). specialize (Hp p Hpos). split_and!; [lia|done|lia]. }
  eapply safe_bind; [apply ok_named; intros q H; by destruct (Hq q H) as (? & ? & ?)|]. intros out' Hout'. cbn beta in Hout'.
  eapply safe_bind with (P := fun fd => 0 <= fd -> 5 < n).
  { destruct out' as [q|]; [|by apply safe_ret]. destruct (Hq q (Hout' q eq_refl)) as (H0 & Hw & Hn5).
    eapply safe_mono; [by apply ok_openat|done]. }
  intros fd Hfd. cbn beta in Hfd. set (echo_fd := if 0 <=? fd then fd else 1). destruct (echo_fd =? 1) eqn:Hone.
  - destruct (ok_newline P n b) as (b2 & bs & Hp2 & Hb2 & Hs); [done..|lia|]. eapply ok_cell; [exact Hp2|].
    apply ok_then; [by eapply ok_write|]. intros _. by apply safe_ret.
  - assert (5 < n) as Hn5 by (apply Hfd; unfold echo_fd in Hone; destruct (0 <=? fd) eqn:H0; lia).
    destruct (closed_cstring n b 5 Hc') as (s & Hs & Hlen); [lia|]. eapply ok_cell; [exact Hs|]. test_true.
    apply ok_then; [auto with shell|]. intros _. apply ok_then; [apply ok_syscall|]. intros _.
    apply ok_then; [apply ok_syscall|]. intros _. by apply safe_ret.
Qed.

Lemma ok_run P buf n : kept P -> P buf -> closed n buf -> n < 240 -> ok P (run_command buf).
Proof.
  intros HP Hb Hc Hn. unfold run_command. pose proof (cl_range _ _ Hc) as Hr.
  destruct (closed_drop n buf 0 Hc) as (l & r & Hd & He & Hl); [lia|]. change (drop (Z.to_nat 0) buf) with buf in Hd.
  destruct (find_gt_nul_ended l r 0 He) as (hit & Hhit & Hp). rewrite <- Hd in Hhit.
  eapply ok_cell; [exact Hhit|]. eapply safe_bind; [apply (ok_cut P n); [done..|lia|]|].
  { intros p Hpos. specialize (Hp p Hpos). lia. }
  intros [b out] (Hb' & Hc' & Hout). cbn [fst snd] in *.
  assert (forall q, out = Some q -> 0 <= q /\ wide q b) as Hq.
  { intros q Hq. destruct (Hout q Hq) as (p & Hpos & Hlt & Hw). specialize (Hp p Hpos). split; [lia|done]. }
  apply ok_then; [apply ok_syscall|]. intros child. destruct (child =? 0).
  - eapply safe_bind; [by apply ok_named|]. intros out' Hout'. cbn beta in Hout'. apply ok_then.
    + destruct out' as [q|]; [|auto with shell]. destruct (Hq q (Hout' q eq_refl)) as [H0 Hw].
      apply ok_then; [by apply ok_openat|]. intros fd.
      destruct (0 <=? fd); [|auto with shell]. do 3 (apply ok_then; [apply ok_syscall|intros _]). auto with shell.
    + intros _. apply ok_then; [apply ok_execve; [apply (closed_wide n); [done|lia]|done]|]. intros _. apply ok_then; [apply ok_puts_text|].
      intros _. apply ok_then; [apply ok_syscall|]. intros _. by apply safe_ret.
  - destruct (0 <? child); [|by apply safe_ret]. apply ok_then; [apply ok_syscall|]. intros _. by apply safe_ret.
Qed.

(** The test for a command: when it succeeds, the line begins with its name. *)
Definition begins (b : cells) (s : list Z) : Prop := forall j, 0 <= j < Z.of_nat (length s) -> peek b j = s !! Z.to_nat j.

Lemma ok_is_command n b s : closed n b -> Forall (fun c => c <> 0) s -> ok (fun r => r = true -> begins b s) (is_command b s).
Proof.
  intros Hb Hnz. pose proof (cl_range _ _ Hb) as Hn. destruct (strncmp_closed n b s 0 (length s) Hb) as (r & Hr & Hpre); [lia|lia|done|].
  unfold is_command, strncmp. rewrite Nat2Z.id. eapply ok_cell; [exact Hr|]. apply safe_ret. intros H0 j Hj.
  apply Hpre; [by apply Z.eqb_eq|lia].
Qed.

(** ** Lines without an operand

    Six commands look for their operand behind the name and one more byte.  When the line is the bare name,
    that is behind its terminator. *)
Definition bare_names : list (list Z) := [bytes "cd"; bytes "ls"; bytes "cat"; bytes "touch"; bytes "mkdir"; bytes "rm"].

(** The line of [n] bytes is not a bare name, or what stands behind it is a string, too. *)
Definition roomy (n : Z) (b : cells) : Prop :=
  wide 6 b \/ forall s, s ∈ bare_names -> n = Z.of_nat (length s) -> ~ begins b s.

Lemma bare_name_chars s : s ∈ bare_names -> Forall (fun c => c <> 0) s /\ (length s <= 5)%nat.
Proof. intros Hs. repeat (apply elem_of_cons in Hs as [->|Hs]; [by split; [repeat constructor|cbn; lia]|]). by apply elem_of_nil in Hs. Qed.

Lemma begins_length n b s : closed n b -> Forall (fun c => c <> 0) s -> begins b s -> Z.of_nat (length s) <= n.
Proof.
  intros Hc Hnz Hpre. destruct (decide (n < Z.of_nat (length s))) as [Hlt|]; [|lia]. exfalso. pose proof (cl_range _ _ Hc).
  specialize (Hpre n ltac:(lia)). rewrite (cl_end _ _ Hc) in Hpre. symmetry in Hpre.
  by apply (Forall_lookup_1 _ _ _ _ Hnz Hpre).
Qed.

Lemma operand_room n b s : closed n b -> roomy n b -> s ∈ bare_names -> begins b s -> wide (Z.of_nat (length s) + 1) b.
Proof.
  intros Hc Hroom Hs Hpre. destruct (bare_name_chars s Hs) as [Hnz Hlen]. pose proof (begins_length n b s Hc Hnz Hpre) as Hn.
  destruct (decide (n = Z.of_nat (length s))) as [He|]; [|apply (closed_wide n); [done|lia]].
  destruct Hroom as [Hw|Hbare]; [eapply wide_mono; [exact Hw|lia]|]. by destruct (Hbare s Hs He).
Qed.

Lemma ok_keep (P : cells -> Prop) b m : P b -> runs m -> ok P (keep b m).
Proof. intros Hb Hm. apply ok_then; [exact Hm|]. intros _. by apply safe_ret. Qed.

Ltac next_command n s :=
  eapply safe_bind; [apply (ok_is_command n _ s); [done|by repeat constructor]|];
  let hit := fresh "hit" in let H := fresh "Hline" in intros hit H; destruct hit; [specialize (H eq_refl)|clear H].
Ltac operand n s := apply ok_keep; [done|]; match goal with Hline : begins _ s |- _ => apply (operand_room n _ s) in Hline; [|done..|set_solver] end.

Lemma ok_command P buf n : kept P -> P buf -> closed n buf -> n < 240 -> roomy n buf -> ok P (command buf n).
Proof.
  intros HP Hb Hc Hn Hroom. unfold command.
  next_command n (bytes "echo"); [apply ok_echo; [done..|]; split; [|done]; apply (begins_length n) in Hline; [done..|by repeat constructor]|].
  next_command n (bytes "ps"); [apply ok_keep; [done|apply ok_ps]|].
  next_command n (bytes "pwd"); [apply ok_keep; [done|apply ok_pwd]|].
  next_command n (bytes "cd"); [operand n (bytes "cd"); by apply ok_cd|].
  next_command n (bytes "ls"); [operand n (bytes "ls"); by apply ok_ls|].
  next_command n (bytes "cat"); [operand n (bytes "cat"); by apply ok_cat|].
  next_command n (bytes "touch"); [operand n (bytes "touch"); by apply ok_touch|].
  next_command n (bytes "mkdir"); [operand n (bytes "mkdir"); by apply ok_mkdir|].
  next_command n (bytes "rm"); [operand n (bytes "rm"); by apply ok_rm|]. by apply (ok_run P _ n).
Qed.

(** ** Rounds *)

(** The bytes of a line of the terminal that a buffer of [len] bytes gets, and the line the shell works on. *)
Definition delivered (line : list Z) (len : Z) : list Z := take (Z.to_nat (Z.min (Z.min (Z.of_nat (length line)) 256) (len - 1))) line.
Definition trimmed (d : list Z) : list Z := if decide (last d = Some 10) then take (length d - 1) d else d.

(** The contract of a kernel whose terminal never delivers a bare name. *)
Definition operands_given (n : Z) (args : list arg) (r : answer) : Prop :=
  kernel_ok n args r /\
  match args with
  | [Imm fd; Buf _; Imm len] =>
      n = SYS_READ -> fd = 0 -> exists line, r = sys_read_tty line len /\ trimmed (delivered line len) ∉ bare_names
  | _ => True
  end.

Lemma typed_roomy n b d : n = Z.of_nat (length d) -> (forall j, 0 <= j < n -> peek b j = d !! Z.to_nat j) -> d ∉ bare_names -> roomy n b.
Proof.
  intros -> Hb Hd. right. intros s Hs Hlen Hpre. apply Hd. enough (d = s) as -> by done.
  apply (list_eq_same_length _ _ (length d)); [lia|done|]. intros k x y Hk Hx Hy.
  specialize (Hb (Z.of_nat k) ltac:(lia)). specialize (Hpre (Z.of_nat k) ltac:(lia)). rewrite Nat2Z.id in Hb, Hpre.
  rewrite Hb, Hx, Hy in Hpre. by injection Hpre.
Qed.

Section rounds.
Context (K : Z -> list arg -> answer -> Prop) (P : cells -> Prop).
Hypothesis contract : forall n args r, K n args r -> kernel_ok n args r.
Hypothesis array : kept P.
Hypothesis behind : (forall b, P b -> wide 6 b) \/ (forall n args r, K n args r -> operands_given n args r).

(** What a read of the terminal leaves in the array. *)
Record typed (r : Z * cells) (d : list Z) : Prop := {
  ty_array : P (snd r);
  ty_len : fst r = Z.of_nat (length d) /\ fst r < 240;
  ty_closed : closed (fst r) (snd r);
  ty_bytes : forall j, 0 <= j < fst r -> peek (snd r) j = d !! Z.to_nat j;
  ty_behind : (forall b, P b -> wide 6 b) \/ trimmed d ∉ bare_names;
}.

Lemma typed_line line b : P b -> (forall b, P b -> wide 6 b) \/ trimmed (delivered line 240) ∉ bare_names ->
  exists b', stored b (snd (sys_read_tty line 240)) = Some b' /\ typed (fst (sys_read_tty line 240), b') (delivered line 240).
Proof using array.
  intros Hb Hd. unfold sys_read_tty. test_false. set (c := Z.min (Z.min (Z.of_nat (length line)) 256) (240 - 1)).
  assert (0 <= c <= Z.of_nat (length line) /\ c < 240) as [Hc Hlt] by lia.
  destruct (stored_kept P (string_stores line c) b array Hb) as (b' & Hs & Hb'); [eapply within_mono; [apply string_within; lia|lia|lia]|].
  exists b'. split; [exact Hs|]. cbn [fst copy_string]. pose proof (proj1 (array b' Hb')) as Hlen.
  assert (length (delivered line 240) = Z.to_nat c) as Hdl by (unfold delivered; fold c; rewrite length_take; lia).
  assert (forall j, 0 <= j < c -> peek b' j = delivered line 240 !! Z.to_nat j) as Hby.
  { intros j Hj. rewrite (string_stored _ _ _ _ j Hc Hs) by lia. test_false. unfold delivered. fold c. by rewrite lookup_take_lt by lia. }
  split; cbn [fst snd]; [done|rewrite Hdl; lia| |exact Hby|exact Hd]. split.
  - lia.
  - rewrite (string_stored _ _ _ _ c Hc Hs) by lia. by test_true.
  - intros j Hj. rewrite (Hby j Hj). apply lookup_lt_is_Some_2. lia.
Qed.

Lemma ok_read_tty b : P b -> safe K (fun r => exists d, typed r d) (read 0 b 240).
Proof using contract array behind.
  intros Hb. eapply safe_bind; [apply (safe_call _ (fun r => exists line, r = sys_read_tty line 240 /\
    ((forall b, P b -> wide 6 b) \/ trimmed (delivered line 240) ∉ bare_names)))|].
  - intros a Ha. destruct behind as [Hw|Hop].
    + destruct (contract _ _ _ Ha) as (_ & line & ->). exists line. split; [done|by left].
    + destruct (Hop _ _ _ Ha) as (_ & Hline). destruct Hline as (line & -> & Hd); [done..|]. exists line. split; [done|by right].
  - intros a (line & -> & Hd). destruct (typed_line line b Hb Hd) as (b' & Hs & Hty).
    eapply safe_bind; [apply (safe_cell _ (eq b') _ b'); [exact Hs|done]|]. intros ? <-. apply safe_ret. by eexists.
Qed.

Lemma ok_handle r b d : typed (r, b) d -> ok P (handle_line r b).
Proof using array.
  intros [Hb [Hr Hlt] Hc Hby Hbeh]. cbn [fst snd] in *. unfold handle_line.
  replace (s32 r) with r by (unfold s32, u32; test_true; rewrite Z.mod_small; lia).
  destruct (r <=? 0) eqn:Hr0; [by apply safe_ret|]. destruct (closed_peek r b (r - 1) Hc) as [c Hlast]; [lia|].
  eapply ok_cell; [exact Hlast|]. assert (last d = Some c) as Hld.
  { rewrite last_lookup, <- Hlast, (Hby (r - 1)) by lia. f_equal. lia. }
  destruct (c =? 10) eqn:Hc10.
  - destruct (closed_poke r b (r - 1) 0 Hc) as (b2 & Hp & Hlen2 & _); [lia|]. pose proof (proj1 (array b Hb)) as Hlen.
    assert (P b2) as Hb2 by (apply (proj2 (array b Hb) (r - 1) 0); [lia|done]).
    eapply safe_bind with (P := fun x => x = (b2, r - 1)); [by eapply ok_cell; [exact Hp|]; apply safe_ret|]. intros ? ->.
    destruct (r - 1 =? 0); [by apply safe_ret|].
    assert (forall j, 0 <= j < r - 1 -> peek b2 j = take (length d - 1) d !! Z.to_nat j) as Hby2.
    { intros j Hj. rewrite (peek_poke _ _ _ _ _ Hp). test_false. rewrite lookup_take_lt by lia. apply Hby. lia. }
    apply ok_command; [done..| |lia|].
    + split; [lia|rewrite (peek_poke _ _ _ _ _ Hp); by test_true|]. intros j Hj. rewrite (Hby2 j Hj), lookup_take_lt by lia.
      apply lookup_lt_is_Some_2. lia.
    + destruct Hbeh as [Hw|Hd]; [left; by apply Hw|]. apply (typed_roomy _ _ (take (length d - 1) d)); [rewrite length_take; lia|done|].
      revert Hd. unfold trimmed. rewrite decide_True by (rewrite Hld; f_equal; lia). done.
  - eapply safe_bind with (P := fun x => x = (b, r)); [by apply safe_ret|]. intros ? ->.
    destruct (r =? 0); [by apply safe_ret|]. apply ok_command; [done..|lia|].
    destruct Hbeh as [Hw|Hd]; [left; by apply Hw|]. apply (typed_roomy _ _ d); [done..|].
    revert Hd. unfold trimmed. rewrite decide_False by (rewrite Hld; intros [= ->]; done). done.
Qed.

Lemma ok_round b : P b -> safe K P (shell_round b).
Proof using contract array behind.
  intros Hb. unfold shell_round. eapply safe_bind; [apply (safe_narrow kernel_ok K); [exact contract|apply ok_puts_text]|]. intros _ _.
  eapply safe_bind; [by apply ok_read_tty|]. intros [r b'] [d Hty]. apply (safe_narrow kernel_ok K); [exact contract|]. by eapply ok_handle.
Qed.

Lemma ok_start stack : P stack -> safe K (fun _ => True) (_start stack).
Proof using contract array behind.
  intros Hs. unfold _start. eapply safe_bind; [apply (safe_narrow kernel_ok K); [exact contract|apply ok_puts_text]|]. intros _ _.
  eapply safe_bind; [apply (safe_narrow kernel_ok K); [exact contract|apply ok_syscall]|]. intros pid _. destruct (pid =? 0).
  - apply (safe_iter _ P); [|done]. intros b Hb. eapply safe_bind; [by apply ok_round|]. intros b' Hb'. by apply safe_ret.
  - destruct (0 <? pid); [|by apply safe_ret]. apply (safe_iter _ (fun _ => True)); [|done]. intros [] _.
    eapply safe_bind; [apply (safe_narrow kernel_ok K); [exact contract|apply ok_syscall]|]. intros _ _. by apply safe_ret.
Qed.
End rounds.

(** ** Runs into undefined behaviour *)

(** The calls a tree makes on the answers [script], when it then meets undefined behaviour. *)
Fixpoint undefined_after {A} (fuel : nat) (script : list answer) (t : shell A) : option (list (Z * list arg)) :=
  match fuel with
  | O => None
  | S fuel =>
      match observe t with
      | RetF _ => None
      | TauF t' => undefined_after fuel script t'
      | VisF e k =>
          match e with
          | inl1 s => match s in sysE X return (X -> shell A) -> option (list (Z * list arg)) with
                      | Svc n args => fun k =>
                          match script with
                          | [] => None
                          | a :: script => ((n, args) ::.) <$> undefined_after fuel script (k a)
                          end
                      end k
          | inr1 _ => Some []
          end
      end
  end.

Lemma undefined_unsafe K {A} (Q : A -> Prop) fuel script t calls : undefined_after fuel script t = Some calls ->
  Forall2 (fun c a => K (fst c) (snd c) a) calls script -> ~ safe K Q t.
Proof.
  revert script t calls. induction fuel as [|fuel IH]; intros script t calls Ht Hk Hs; cbn [undefined_after] in Ht; [done|].
  punfold Hs; [|apply safe_step_mon]. unfold safe_step in Hs. destruct (observe t) as [a|t'|X e k]; cbn in Hs; [done| |].
  - destruct Hs as [Hs|[]]. by apply (IH script t' calls).
  - destruct e as [s|u]; [|done]. destruct s as [n args]. destruct script as [|a script]; [done|].
    destruct (undefined_after fuel script (k a)) as [calls'|] eqn:Hc; [|done]. injection Ht as <-.
    apply Forall2_cons in Hk as [Ha Hk]. destruct (Hs a Ha) as [H|[]]. by apply (IH script (k a) calls').
Qed.

(** The start of the shell, the prompt, and the line [cd]. *)
Definition first_cd : list answer := [(11, []); (0, []); (9, []); sys_read_tty (bytes "cd") 240].

Lemma first_cd_undefined : ~ safe kernel_ok (fun _ => True) (_start (fresh 256)).
Proof.
  eapply (undefined_unsafe _ _ 200 first_cd); [vm_compute; reflexivity|].
  repeat (apply Forall2_cons; split; [split; [vm_compute; by split|]|]); try exact I; [|constructor]. by exists (bytes "cd").
Qed.

Lemma whole_wide b : whole b -> wide 6 b.
Proof. intros Hb. by apply (closed_wide 255); [apply whole_closed|]. Qed.

(** ** The properties *)

(** C37: In every round of its endless loop and in every process it forks, the shell never leaves an array, reads no byte
    without a value and hands the kernel no string without an end, whatever a kernel within its contract answers, provided
    that no line is the bare name of a command with an operand ([cd], [ls], [cat], [touch], [mkdir], [rm]); the array for
    the line, which the code does not initialise, may then hold anything.  With such lines it does so too if the array starts with a value
    in every byte and a 0 in the last one.  One of the two is needed: when the first line is [cd], the shell reads a byte
    that has no value. *)
Theorem shell_safe stack : length stack = 256%nat ->
  safe operands_given (fun _ => True) (_start stack) /\
  (whole stack -> safe kernel_ok (fun _ => True) (_start stack)) /\
  ~ safe kernel_ok (fun _ => True) (_start (fresh 256)).
Proof.
  intros Hlen. split_and!; [| |exact first_cd_undefined].
  - apply (ok_start operands_given (fun b => length b = 256%nat)); [by intros n args r [H _]|exact kept_length|by right|done].
  - intros Hs. apply (ok_start kernel_ok whole); [done|exact kept_whole|left; exact whole_wide|done].
Qed.

Lemma whole_zero : whole (replicate 256 (Some 0)).
Proof. split; [|done]. exists (replicate 255 (Some 0)). split; [done|]. apply Forall_replicate. by eexists. Qed.

(** Arrays without values, and answers that keep the contract: a line of the terminal and a listing. *)
Lemma shell_safe_witness : safe operands_given (fun _ => True) (_start (fresh 256)) /\
  safe kernel_ok (fun _ => True) (_start (replicate 256 (Some 0))) /\
  operands_given SYS_READ [Imm 0; Buf 240; Imm 240] (sys_read_tty (bytes "ls /BIN") 240) /\
  operands_given SYS_GETDENTS64 [Imm 0; Buf 2048; Imm 2048] (sys_getdents64 [Dirent (bytes "A.TXT") false; Dirent (bytes "BIN") true] 2048).
Proof.
  split; [|split; [|split]].
  - apply (shell_safe (fresh 256)). reflexivity.
  - apply (shell_safe (replicate 256 (Some 0))); [reflexivity|exact whole_zero].
  - split; [split; [by vm_compute|by exists (bytes "ls /BIN")]|]. intros _ _. exists (bytes "ls /BIN"). split; [reflexivity|].
    apply (bool_decide_unpack _). by vm_compute.
  - split; [|by vm_compute]. split; [by vm_compute|]. exists [Dirent (bytes "A.TXT") false; Dirent (bytes "BIN") true].
    split_and!; [|by vm_compute; repeat constructor|done]. repeat constructor; cbn; (lia || done).
Defined.
