(* ===== verification/ShellProps.v ===== *)
(** * The shell: what its commands print

    [echo_correct], [ls_correct] and [cd_stale] are equivalences of interaction trees: the events of a
    command on the lines and listings the kernel hands out, and nothing else. *)
From S2P Require Import Prelude Shell ShellTheory ShellLs ShellSafe.
From ITree Require Import ITree ITreeFacts.
From Stdlib Require Import ZifyBool.
Ltac Zify.zify_post_hook ::= Z.to_euclidean_division_equations.
Local Open Scope Z_scope.

(** ** Arrays of known bytes *)

Lemma stored_app b s1 s2 : stored b (s1 ++ s2) = match stored b s1 with Some b' => stored b' s2 | None => None end.
Proof. revert b. induction s1 as [|[o v] s1 IH]; intros b; [done|]. cbn. by destruct (poke b o v). Qed.

Lemma poke_app (l1 l2 : list Z) x v : poke (Some <$> (l1 ++ x :: l2)) (Z.of_nat (length l1)) v = Some (Some <$> (l1 ++ v :: l2)).
Proof.
  unfold poke. rewrite length_fmap, length_app. cbn [length]. test_true. rewrite Nat2Z.id, !fmap_app. cbn [fmap list_fmap].
  f_equal. pose proof (insert_app_r (Some <$> l1) (Some x :: (Some <$> l2)) 0 (Some v)) as H. rewrite Nat.add_0_r, length_fmap in H. exact H.
Qed.

Lemma stored_bytes (l1 l2 l3 bs : list Z) : length l2 = length bs ->
  stored (Some <$> (l1 ++ l2 ++ l3)) (copy_to (Z.of_nat (length l1)) bs) = Some (Some <$> (l1 ++ bs ++ l3)).
Proof.
  revert l1 l2. induction bs as [|b bs IH]; intros l1 [|x l2] Hl; try done. rewrite copy_to_cons. cbn [stored app].
  rewrite poke_app. specialize (IH (l1 ++ [b]) l2). rewrite <- !app_assoc, length_app in IH. cbn [app length] in IH.
  rewrite <- IH by (cbn in Hl; lia). do 2 f_equal. lia.
Qed.

(** A line of the terminal in the array: the line, its end, and what was there before. *)
Lemma stored_line old s : (length s < length old)%nat ->
  stored (Some <$> old) (string_stores s (Z.of_nat (length s))) = Some (Some <$> (s ++ 0 :: drop (S (length s)) old)).
Proof.
  intros Hl. unfold string_stores, copy_string. cbn [snd]. rewrite stored_app, Nat2Z.id, take_ge by lia.
  destruct (drop (length s) old) as [|x rest] eqn:Hd; [apply (f_equal length) in Hd; rewrite length_drop in Hd; cbn in Hd; lia|].
  assert (length (take (length s) old) = length s) as Ht by (rewrite length_take; lia).
  rewrite <- (take_drop (length s) old) at 1. rewrite Hd.
  pose proof (stored_bytes [] (take (length s) old) (x :: rest) s Ht) as H. cbn [app length] in H.
  change (Z.of_nat 0) with 0 in H. rewrite H. cbn [stored].
  rewrite poke_app. replace (drop (S (length s)) old) with (drop 1 (drop (length s) old)) by (rewrite drop_drop; f_equal; lia). by rewrite Hd.
Qed.

Lemma peek_bytes bs i : peek (Some <$> bs) i = if 0 <=? i then bs !! Z.to_nat i else None.
Proof. unfold peek. rewrite list_lookup_fmap. by destruct (0 <=? i), (bs !! Z.to_nat i). Qed.

Lemma cstring_bytes pre s rest : Forall (fun c => c <> 0) s -> cstring (Some <$> (pre ++ s ++ 0 :: rest)) (Z.of_nat (length pre)) = Some s.
Proof.
  intros Hs. unfold cstring. test_true. rewrite Nat2Z.id, <- fmap_drop, drop_app_length.
  induction Hs as [|c s Hc _ IH]; cbn; [done|]. rewrite IH. by test_false.
Qed.

Lemma skip_bytes pre m c rest : c <> 32 ->
  skip_spaces (Some <$> (pre ++ replicate m 32 ++ c :: rest)) (Z.of_nat (length pre)) = Some (Z.of_nat (length pre + m)).
Proof.
  intros Hc. unfold skip_spaces. test_true. rewrite Nat2Z.id, <- fmap_drop, drop_app_length. rewrite Nat2Z.inj_add.
  generalize (Z.of_nat (length pre)) as i. induction m as [|m IH]; intros i; cbn [replicate app fmap list_fmap skip_from].
  - test_false. f_equal. lia.
  - rewrite (IH (i + 1)). cbn. f_equal. lia.
Qed.

Lemma find_gt_none pre s rest : Forall (fun c => c <> 62) s ->
  find_gt (Some <$> (pre ++ s ++ rest)) (Z.of_nat (length pre)) (length s) = Some None.
Proof.
  intros Hs. revert pre. induction Hs as [|c s Hc _ IH]; intros pre; [done|]. cbn [length find_gt app].
  rewrite peek_bytes. test_true. rewrite Nat2Z.id, list_lookup_middle by done. test_false.
  specialize (IH (pre ++ [c])). rewrite <- app_assoc, length_app in IH. cbn [app length] in IH. rewrite <- IH. f_equal. lia.
Qed.

Lemma find_gt_first pre s rest k : Forall (fun c => c <> 62) s -> (length s < k)%nat ->
  find_gt (Some <$> (pre ++ s ++ 62 :: rest)) (Z.of_nat (length pre)) k = Some (Some (Z.of_nat (length pre + length s))).
Proof.
  intros Hs. revert pre k. induction Hs as [|c s Hc _ IH]; intros pre k Hk; (destruct k as [|k]; [cbn in Hk; lia|]); cbn [length find_gt app];
    rewrite peek_bytes; test_true; rewrite Nat2Z.id, list_lookup_middle by done.
  - cbn. by rewrite Nat.add_0_r.
  - test_false. cbn [length] in Hk. specialize (IH (pre ++ [c]) k ltac:(lia)). rewrite <- app_assoc, length_app in IH. cbn [app length] in IH.
    replace (Z.of_nat (length pre) + 1) with (Z.of_nat (length pre + 1)) by lia. rewrite IH. do 2 f_equal. lia.
Qed.

Lemma write_bytes fd (pre s rest : list Z) : write fd (Some <$> (pre ++ s ++ rest)) (Z.of_nat (length pre)) (Z.of_nat (length s)) ≈
  syscall SYS_WRITE (Imm fd) (Data s) (Imm (Z.of_nat (length s))).
Proof.
  unfold write. rewrite !fmap_app. rewrite <- (length_fmap (@Some Z) pre), slice_app. cbn [of_cell]. rewrite bind_ret_l. reflexivity.
Qed.

(** A known cell is read without an event. *)
Lemma cell_bind {A B} (o : option A) a (k : A -> shell B) : o = Some a -> (x <- of_cell o ;; k x) ≈ k a.
Proof. intros ->. cbn [of_cell]. rewrite bind_ret_l. reflexivity. Qed.

Lemma puts_text_print s : Forall (fun c => c <> 0) s -> puts_text s ≈ (print s ;; Ret tt).
Proof.
  intros Hs. unfold puts_text, puts. pose proof (cstring_bytes [] s [] Hs) as Hc. rewrite !fmap_app in Hc. cbn [app length] in Hc.
  assert (cstring (literal s) 0 = Some s) as Hl by exact Hc. rewrite (cell_bind _ _ _ Hl). reflexivity.
Qed.

(** What the round does with the answer of [read]. *)
Definition after_read (buf : cells) (r : answer) : shell cells :=
  b <- of_cell (stored buf (snd r)) ;; handle_line (fst r) b.

Lemma round_read buf : shell_round buf ≈
  (print (bytes "myos:~$ ") ;; r <- syscall3 SYS_READ (Imm 0) (Buf 240) (Imm 240) ;; after_read buf r).
Proof.
  unfold shell_round. rewrite puts_text_print by by repeat constructor. rewrite bind_bind. apply eutt_eq_bind. intros _. rewrite bind_ret_l.
  unfold read, filling. rewrite bind_bind. apply eutt_eq_bind. intros r. rewrite bind_bind. apply eutt_eq_bind. intros b. 
  rewrite bind_ret_l. reflexivity.
Qed.

(** A line without a newline reaches [command] with its length. *)
Lemma read_line old line : length old = 256%nat -> (0 < length line < 240)%nat -> Forall (fun c => c <> 10) line ->
  after_read (Some <$> old) (sys_read_tty line 240) ≈
  command (Some <$> (line ++ 0 :: drop (S (length line)) old)) (Z.of_nat (length line)).
Proof.
  intros Hold Hlen Hnl. unfold sys_read_tty. test_false. replace (Z.min _ _) with (Z.of_nat (length line)) by lia.
  unfold after_read. rewrite cell_bind by (apply stored_line; lia). cbn [fst copy_string]. unfold handle_line.
  replace (s32 _) with (Z.of_nat (length line)) by (unfold s32, u32; test_true; rewrite Z.mod_small; lia). test_false.
  destruct (lookup_lt_is_Some_2 line (Z.to_nat (Z.of_nat (length line) - 1))) as [c Hc]; [lia|].
  rewrite cell_bind by (rewrite peek_bytes; test_true; by apply lookup_app_l_Some). pose proof (Forall_lookup_1 _ _ _ _ Hnl Hc) as H. cbn beta in H.
  test_false. rewrite bind_ret_l. test_false. reflexivity.
Qed.

(** The outcome of a test for a command on known bytes. *)
Lemma command_test {B} b s r (k : bool -> shell B) : strncmp b (literal s) (Z.of_nat (length s)) = Some r ->
  (x <- is_command b s ;; k x) ≈ k (r =? 0).
Proof. intros H. unfold is_command. rewrite bind_bind, (cell_bind _ _ _ H), bind_ret_l. reflexivity. Qed.

Definition echo_line (text : list Z) : list Z := bytes "echo " ++ text.

Lemma command_echo text rest n : command (Some <$> (echo_line text ++ rest)) n ≈ echo_command (Some <$> (echo_line text ++ rest)) n.
Proof. unfold command. rewrite (command_test _ _ 0) by done. reflexivity. Qed.

(** A text that [echo] prints, and a file name after a [>]. *)
Definition plain (s : list Z) : Prop := Forall (fun c => c <> 0 /\ c <> 10 /\ c <> 62) s.
Definition file_name (s : list Z) : Prop := Forall (fun c => c <> 0 /\ c <> 10) s /\ exists c s', s = c :: s' /\ c <> 32.

Lemma echo_plain text rest : plain text ->
  echo_command (Some <$> (echo_line text ++ 0 :: rest)) (Z.of_nat (length (echo_line text))) ≈
  (print (text ++ [10]) ;; Ret (Some <$> (echo_line text ++ 10 :: rest))).
Proof.
  intros Ht. unfold echo_command. assert (Z.of_nat (length (echo_line text)) = 5 + Z.of_nat (length text)) as Hlen by (unfold echo_line; rewrite length_app; cbn; lia).
  rewrite Hlen at 1. replace (Z.to_nat (5 + Z.of_nat (length text) - 5)) with (length text) by lia.
  unfold echo_line at 1. rewrite <- app_assoc.
  rewrite (cell_bind _ None) by (apply (find_gt_none (bytes "echo ")); eapply Forall_impl; [exact Ht|]; by intros c (_ & _ & H)).
  cbn [cut_at]. rewrite bind_ret_l. cbn [named]. rewrite !bind_ret_l. change (0 <=? -1) with false. cbn zeta iota. change (1 =? 1) with true. cbn iota.
  rewrite (cell_bind _ _ _ (poke_app (echo_line text) rest 0 10)).
  rewrite Hlen. replace (5 + Z.of_nat (length text) - 4) with (Z.of_nat (length (text ++ [10]))) by (rewrite length_app; cbn; lia).
  replace (echo_line text ++ 10 :: rest) with (bytes "echo " ++ (text ++ [10]) ++ rest) by (unfold echo_line; by rewrite <- !app_assoc).
  change 5 with (Z.of_nat (length (bytes "echo "))). rewrite write_bytes. reflexivity.
Qed.

Section redirect.
Context (text file rest : list Z) (m : nat) (Ht : plain text) (Hf : file_name file).
Let spaces := replicate m 32.
Let line := echo_line text ++ 62 :: spaces ++ file.
(** The array once the line is cut, and after the newline of the direct output. *)
Let cut := Some <$> (echo_line text ++ 0 :: spaces ++ file ++ 0 :: rest).
Let shown := Some <$> (echo_line text ++ 0 :: spaces ++ file ++ 10 :: rest).
Context (Hlen : (length line < 240)%nat).

Lemma redirect_cut : (hit <- of_cell (find_gt (Some <$> (line ++ 0 :: rest)) 5 (Z.to_nat (Z.of_nat (length line) - 5))) ;;
    cut_at (Some <$> (line ++ 0 :: rest)) hit) ≈ Ret (cut, Some (Z.of_nat (length (echo_line text) + 1 + m))).
Proof.
  rewrite (cell_bind _ (Some (Z.of_nat (5 + length text)))).
  - cbn [cut_at]. unfold line. rewrite <- app_assoc. cbn [app].
    replace (Z.of_nat (5 + length text)) with (Z.of_nat (length (echo_line text))) by (unfold echo_line; rewrite length_app; cbn; lia).
    rewrite (cell_bind _ _ _ (poke_app _ _ _ _)). rewrite <- app_assoc. fold cut.
    destruct Hf as (_ & c & s' & -> & Hc). pose proof (skip_bytes (echo_line text ++ [0]) m c (s' ++ 0 :: rest) Hc) as Hs.
    rewrite <- app_assoc, length_app in Hs. cbn [app length] in Hs. rewrite Nat2Z.inj_add in Hs at 1.
    unfold cut, spaces. cbn [app]. rewrite (cell_bind _ _ _ Hs). reflexivity.
  - unfold line, echo_line. rewrite <- !app_assoc. cbn [app]. rewrite <- app_assoc.
    apply (find_gt_first (bytes "echo ") text); [eapply Forall_impl; [exact Ht|]; by intros c (_ & _ & H)|].
    rewrite !length_app. cbn [length]. rewrite length_app. cbn. lia.
Qed.

Lemma redirect_named : named cut (Some (Z.of_nat (length (echo_line text) + 1 + m))) ≈ Ret (Some (Z.of_nat (length (echo_line text) + 1 + m))).
Proof.
  destruct Hf as (Hz & c & s' & -> & _). apply Forall_cons in Hz as [[Hc _] _]. cbn [named]. rewrite (cell_bind _ c); [by test_false|].
  unfold cut, spaces. rewrite peek_bytes. test_true. rewrite Nat2Z.id, lookup_app_r by lia.
  replace (length (echo_line text) + 1 + m - length (echo_line text))%nat with (S m) by lia.
  rewrite app_comm_cons, lookup_app_r by (cbn; rewrite length_replicate; lia). cbn [length]. by rewrite length_replicate, Nat.sub_diag.
Qed.

Lemma redirect_open : open_wr cut (Z.of_nat (length (echo_line text) + 1 + m)) ≈ syscall SYS_OPENAT (Imm (-100)) (Str file) (Imm 0x241).
Proof.
  destruct Hf as [Hz _]. unfold open_wr, openat, string_arg. 
  pose proof (cstring_bytes (echo_line text ++ 0 :: spaces) file rest) as Hs. rewrite <- app_assoc, length_app in Hs. cbn [length app] in Hs.
  unfold spaces in Hs. rewrite length_replicate in Hs. replace (length (echo_line text) + S m)%nat with (length (echo_line text) + 1 + m)%nat in Hs by lia.
  unfold cut, spaces. rewrite (cell_bind _ file); [rewrite bind_ret_l; reflexivity|]. apply Hs. eapply Forall_impl; [exact Hz|]. by intros c [H _].
Qed.

Lemma redirect_shown :
  (b <- of_cell (poke cut (Z.of_nat (length line)) 10) ;; write 1 b 5 (Z.of_nat (length line) - 4) ;; Ret b)
  ≈ (print (text ++ [0] ++ spaces ++ file ++ [10]) ;; Ret shown).
Proof.
  pose proof (poke_app (echo_line text ++ 0 :: spaces ++ file) rest 0 10) as Hp.
  rewrite <- ?app_assoc in Hp. cbn [app] in Hp. rewrite <- ?app_assoc in Hp.
  assert (length line = length (echo_line text ++ 0 :: spaces ++ file)) as Hl by (unfold line; by rewrite !length_app).
  rewrite Hl. unfold cut. rewrite (cell_bind _ _ _ Hp). fold shown.
  replace (Z.of_nat _ - 4) with (Z.of_nat (length (text ++ [0] ++ spaces ++ file ++ [10]))) by (unfold echo_line; rewrite !length_app; cbn [length]; rewrite !length_app; cbn; lia).
  unfold shown. replace (echo_line text ++ 0 :: spaces ++ file ++ 10 :: rest) with (bytes "echo " ++ (text ++ [0] ++ spaces ++ file ++ [10]) ++ rest)
    by (unfold echo_line; by rewrite <- ?app_assoc; cbn [app]; rewrite <- ?app_assoc).
  change 5 with (Z.of_nat (length (bytes "echo "))). rewrite write_bytes. reflexivity.
Qed.

Lemma echo_redirect : echo_command (Some <$> (line ++ 0 :: rest)) (Z.of_nat (length line)) ≈
  (fd <- syscall SYS_OPENAT (Imm (-100)) (Str file) (Imm 0x241) ;;
   if (0 <=? fd) && negb (fd =? 1) then
     syscall SYS_WRITE (Imm fd) (Data (text ++ [10])) (Imm (Z.of_nat (length text) + 1)) ;; close fd ;; Ret cut
   else print (text ++ [0] ++ spaces ++ file ++ [10]) ;; Ret shown).
Proof.
  unfold echo_command. rewrite <- bind_bind, redirect_cut, bind_ret_l, redirect_named, bind_ret_l, redirect_open.
  apply eutt_eq_bind. intros fd. destruct (0 <=? fd) eqn:H0; cbn [andb]; [destruct (fd =? 1) eqn:H1|]; cbn [negb].
  - apply redirect_shown.
  - assert (cstring cut 5 = Some text) as Hs.
    { unfold cut, echo_line. rewrite <- app_assoc. apply (cstring_bytes (bytes "echo ")). eapply Forall_impl; [exact Ht|]. by intros c [H _]. }
    rewrite (cell_bind _ _ _ Hs). unfold line, echo_line in Hlen. rewrite !length_app in Hlen. test_true. rewrite bind_ret_l. reflexivity.
  - apply redirect_shown.
Qed.
End redirect.

(** [echo text>file] *)
Definition redirect_line (text : list Z) (m : nat) (file : list Z) : list Z := echo_line text ++ 62 :: replicate m 32 ++ file.

(** What [ls] does with the answer of [getdents64]. *)
Definition after_getdents (r : answer) : shell unit :=
  b <- of_cell (stored (fresh 2048) (snd r)) ;;
  if fst r <=? 0 then puts_text (bytes "ls: error" ++ [10]) else ITree.iter (ls_entry b (fst r)) 0.

Lemma fmap_whole buf : whole buf -> exists bs, buf = Some <$> bs /\ length bs = 256%nat.
Proof. intros [He Hl]. destruct (ended_values buf He) as [bs ->]. exists bs. split; [done|]. by rewrite length_fmap in Hl. Qed.

(** C38: One round of the shell prints the prompt, reads a line and handles it.  A line [echo text] prints the text and
    a newline.  A line [echo text>file], with any number of spaces before the name, opens that file and writes the
    text, with its trailing spaces, and a newline to it; when the file cannot be opened the terminal gets the text, a zero byte, and the
    name of the file. *)
Theorem echo_correct buf text : whole buf -> plain text ->
  shell_round buf ≈ (print (bytes "myos:~$ ") ;; r <- syscall3 SYS_READ (Imm 0) (Buf 240) (Imm 240) ;; after_read buf r) /\
  ((length (echo_line text) < 240)%nat -> exists buf',
     after_read buf (sys_read_tty (echo_line text) 240) ≈ (print (text ++ [10]) ;; Ret buf')) /\
  (forall m file, file_name file -> (length (redirect_line text m file) < 240)%nat -> exists buf1 buf2,
     after_read buf (sys_read_tty (redirect_line text m file) 240) ≈
     (fd <- syscall SYS_OPENAT (Imm (-100)) (Str file) (Imm 0x241) ;;
      if (0 <=? fd) && negb (fd =? 1) then
        syscall SYS_WRITE (Imm fd) (Data (text ++ [10])) (Imm (Z.of_nat (length text) + 1)) ;; close fd ;; Ret buf1
      else print (text ++ [0] ++ replicate m 32 ++ file ++ [10]) ;; Ret buf2)).
Proof.
  intros Hb Ht. split; [apply round_read|]. destruct (fmap_whole buf Hb) as (old & -> & Hold).
  assert (Forall (fun c => c <> 10) (echo_line text)) as Hnl.
  { apply Forall_app. split; [by repeat constructor|]. eapply Forall_impl; [exact Ht|]. by intros c (_ & H & _). }
  assert (0 < length (echo_line text))%nat as Hpos by (unfold echo_line; rewrite length_app; cbn; lia). split.
  - intros Hlen. eexists. rewrite (read_line old (echo_line text)) by (done || lia). rewrite command_echo. by apply echo_plain.
  - intros m file Hf Hlen. eexists _, _. unfold redirect_line in *. rewrite read_line; [|done|rewrite length_app in *; lia|].
    + rewrite <- app_assoc at 1. rewrite command_echo, app_assoc. by apply echo_redirect.
    + apply Forall_app. split; [done|]. constructor; [done|]. apply Forall_app.
      split; [by apply Forall_replicate|]. destruct Hf as [Hf _]. eapply Forall_impl; [exact Hf|]. by intros c [_ H].
Qed.

(** C39: [ls] asks for the entries of a directory and prints, for every listing whose stores lie in its buffer, the names
    of those that fit, each with a slash if it is a directory.  A name that fills its record exactly is printed with
    the first byte of the next record at its end.  For an empty directory it reports an error. *)
Theorem ls_correct buf : whole buf ->
  ls_command buf ≈ (r <- syscall3 SYS_GETDENTS64 (Imm 0) (Buf 2048) (Imm 2048) ;; after_getdents r) /\
  forall es, Forall good_entry es -> within 0 2048 (snd (sys_getdents64 es 2048)) ->
    after_getdents (sys_getdents64 es 2048) ≈
    (match listed es 0 2048 with
     | [] => print (bytes "ls: error" ++ [10]) ;; Ret tt
     | l => print_entries l
     end).
Proof.
  intros Hb. split.
  - pose proof (whole_closed buf Hb) as Hcl. destruct (closed_skip 255 buf 3 Hcl) as (q & Hq & Hr); [lia|].
    destruct (closed_peek 255 buf q Hcl) as [c Hc]; [lia|].
    unfold ls_command. rewrite (cell_bind _ _ _ Hq), (cell_bind _ _ _ Hc). unfold getdents64, filling. rewrite bind_bind.
    apply eutt_eq_bind. intros r. rewrite bind_bind. apply eutt_eq_bind. intros b. rewrite bind_ret_l. reflexivity.
  - intros es Hes Hw. destruct (getdents_fits es Hw) as [b Hs]. unfold after_getdents. rewrite (cell_bind _ _ _ Hs).
    pose proof (ls_loop b es 0 2048 ltac:(lia) Hes (getdents_stored es b Hw Hs)) as Hl.
    replace (sys_getdents64 es 2048) with (put_entries es 0 2048) by (unfold sys_getdents64; by test_false).
    destruct es as [|e es]; [cbn; apply puts_text_print; by repeat constructor|].
    destruct (2048 <? 0 + reclen e) eqn:Hmax.
    { cbn [put_entries listed]. rewrite Hmax. cbn [fst]. apply puts_text_print. by repeat constructor. }
    pose proof Hes as [He Hes']%Forall_cons. pose proof (reclen_bounds e He). pose proof (put_entries_end es (0 + reclen e) 2048 Hes').
    rewrite put_entries_cons in Hl |- * by done. cbn [fst] in *. test_false. rewrite Hl. cbn [listed]. rewrite Hmax. reflexivity.
Qed.

(** C40: A line [cd] without an argument changes to the directory named by what stands in its array from the
    fourth byte on, which is the end of an earlier line. *)
Theorem cd_stale a b c stale rest : file_name stale -> length ([a; b; c] ++ stale ++ 0 :: rest) = 256%nat ->
  exists buf', after_read (Some <$> [a; b; c] ++ stale ++ 0 :: rest) (sys_read_tty (bytes "cd") 240) ≈
    (ret <- syscall SYS_CHDIR (Str stale) (Imm 0) (Imm 0) ;;
     (if ret <? 0 then print (bytes "cd: ") ;; print stale ;; print (bytes ": not found" ++ [10]) ;; Ret buf' else Ret buf')).
Proof.
  intros [Hz Hst] Hlen. exists (Some <$> (bytes "cd" ++ [0]) ++ stale ++ 0 :: rest).
  rewrite (read_line _ (bytes "cd")) by (done || by repeat constructor || (cbn; lia)). unfold command.
  change ((bytes "cd" ++ 0 :: drop (S (length (bytes "cd"))) ([a; b; c] ++ stale ++ 0 :: rest))) with
    ((bytes "cd" ++ [0]) ++ stale ++ 0 :: rest). set (buf := Some <$> (bytes "cd" ++ [0]) ++ stale ++ 0 :: rest).
  unfold command. do 3 (rewrite (command_test _ _ 1) by done; change (1 =? 0) with false; cbn iota).
  rewrite (command_test _ _ 0) by done. change (0 =? 0) with true. cbn iota.
  assert (Forall (fun c => c <> 0) stale) as Hz' by (eapply Forall_impl; [exact Hz|]; by intros x [H _]).
  pose proof (cstring_bytes (bytes "cd" ++ [0]) stale rest Hz') as Hs. fold buf in Hs. change (Z.of_nat _) with 3 in Hs.
  assert (skip_spaces buf 3 = Some 3) as Hskip.
  { destruct Hst as (d & s' & -> & Hd). exact (skip_bytes (bytes "cd" ++ [0]) 0 d (s' ++ 0 :: rest) Hd). }
  unfold keep, cd_command. rewrite bind_bind, (cell_bind _ _ _ Hskip), bind_bind. unfold chdir, string_arg.
  rewrite bind_bind, (cell_bind _ _ _ Hs), bind_ret_l. apply eutt_eq_bind. intros ret. destruct (ret <? 0); [|rewrite bind_ret_l; reflexivity].
  rewrite puts_text_print by by repeat constructor. rewrite !bind_bind. apply eutt_eq_bind. intros _. rewrite bind_ret_l. unfold puts.
  rewrite !bind_bind, (cell_bind _ _ _ Hs), bind_bind. apply eutt_eq_bind. intros _. rewrite bind_ret_l.
  rewrite puts_text_print by by repeat constructor. rewrite bind_bind. apply eutt_eq_bind. intros _. rewrite bind_ret_l. reflexivity.
Qed.

(** ** Witnesses *)

Lemma echo_correct_witness :
  exists buf, after_read (replicate 256 (Some 0)) (sys_read_tty (echo_line (bytes "hello world")) 240) ≈
    (print (bytes "hello world" ++ [10]) ;; Ret buf).
Proof.
  destruct (echo_correct (replicate 256 (Some 0)) (bytes "hello world") whole_zero) as (_ & H & _); [by repeat constructor|].
  apply H. cbn. lia.
Defined.

Lemma ls_correct_witness :
  after_getdents (sys_getdents64 [Dirent (bytes "DOC") true; Dirent (bytes "A.TXT") false; Dirent (bytes "B.TXT") false] 2048) ≈
  print_entries [(bytes "DOC", true); (bytes "A.TXT" ++ [1], false); (bytes "B.TXT", false)].
Proof.
  apply (ls_correct (replicate 256 (Some 0)) whole_zero); [repeat constructor; cbn; (lia || done)|vm_compute; repeat constructor; done].
Defined.

(** After [mkdir doc] the shell goes to [ir doc]. *)
Lemma cd_stale_witness : exists buf',
  after_read (Some <$> (bytes "mkd" ++ bytes "ir doc" ++ 0 :: replicate 246 0)) (sys_read_tty (bytes "cd") 240) ≈
  (ret <- syscall SYS_CHDIR (Str (bytes "ir doc")) (Imm 0) (Imm 0) ;;
   (if ret <? 0 then print (bytes "cd: ") ;; print (bytes "ir doc") ;; print (bytes ": not found" ++ [10]) ;; Ret buf' else Ret buf')).
Proof.
  apply (cd_stale 109 107 100 (bytes "ir doc") (replicate 246 0)); [|done].
  split; [by repeat constructor|]. exists 105, (bytes "r doc"). by split.
Defined.
